(** * Physical memory of GNU Mach: the BIOS memory map and the page allocator

    A shallow embedding of [i386/i386at/biosmem.c] and [vm/vm_page.c].

    C integers are values of [Z] with their wrap-around written out; arrays
    are lists read with [!!] and written with [<[i:=x]>]; a pointer into an
    array is the index of the cell.  Code that can stop the kernel returns an
    [outcome]. *)

From Stdlib Require Import ZArith Lia Bool String.
From stdpp Require Import base tactics option list sorting.

Local Open Scope Z_scope.

(** ** Outcomes of kernel code *)

Inductive outcome (A : Type) : Type :=
| Ret (a : A)          (* the function returns *)
| Panic (msg : string) (* [panic]/[boot_panic]: the kernel stops *)
| Undef                (* a failed [assert], or an access outside an array *)
| Timeout.             (* the loop bound of the model was reached *)

Arguments Ret {A} a.
Arguments Panic {A} msg.
Arguments Undef {A}.
Arguments Timeout {A}.

Global Instance outcome_ret : MRet outcome := λ A a, Ret a.
Global Instance outcome_bind : MBind outcome := λ A B k m,
  match m with
  | Ret a => k a
  | Panic msg => Panic msg
  | Undef => Undef
  | Timeout => Timeout
  end.

Definition assert (b : bool) : outcome unit := if b then Ret () else Undef.

Definition deref {A : Type} (o : option A) : outcome A :=
  match o with Some a => Ret a | None => Undef end.

(** ** Machine integers and pages *)

Definition u16 (x : Z) : Z := x mod 2 ^ 16.
Definition u32 (x : Z) : Z := x mod 2 ^ 32.
Definition u64 (x : Z) : Z := x mod 2 ^ 64.

(** Modelled from the spec: [mach/vm_param.h] and [vm/vm_page.h] are not part
    of the sources at hand.  The page size is the 4 KiB of the glossary, and
    the conversion macros are the shifts and masks the spec describes
    ([n * page_size], page-aligned).  [phys_addr_t] is taken 64 bits wide
    (the maps of the spec reach above 4 GiB); [unsigned int] and
    [unsigned long] are the 32-bit types of the i386 target. *)
Definition PAGE_SHIFT : Z := 12.
Definition PAGE_SIZE : Z := 4096.

Definition vm_page_atop (addr : Z) : Z := Z.shiftr addr PAGE_SHIFT.
Definition vm_page_ptoa (page : Z) : Z := Z.shiftl page PAGE_SHIFT.
(* [P2ALIGN(addr, PAGE_SIZE)] and [P2ROUND(addr, PAGE_SIZE)] on 64 bits *)
Definition vm_page_trunc (addr : Z) : Z := Z.land addr (u64 (- PAGE_SIZE)).
Definition vm_page_round (addr : Z) : Z :=
  u64 (- Z.land (u64 (- addr)) (u64 (- PAGE_SIZE))).

Module Biosmem.

(** ** The firmware memory map *)

Definition BIOSMEM_MAX_MAP_SIZE : Z := 128.

Definition BIOSMEM_TYPE_AVAILABLE : Z := 1.
Definition BIOSMEM_TYPE_RESERVED : Z := 2.
Definition BIOSMEM_TYPE_ACPI : Z := 3.
Definition BIOSMEM_TYPE_NVS : Z := 4.
Definition BIOSMEM_TYPE_UNUSABLE : Z := 5.
Definition BIOSMEM_TYPE_DISABLED : Z := 6.

Record biosmem_map_entry : Type := Entry {
  base_addr : Z;   (* uint64_t *)
  length : Z;      (* uint64_t *)
  type : Z         (* unsigned int *)
}.

Definition set_base_addr (e : biosmem_map_entry) (v : Z) :=
  Entry v (length e) (type e).
Definition set_length (e : biosmem_map_entry) (v : Z) :=
  Entry (base_addr e) v (type e).
Definition set_type (e : biosmem_map_entry) (v : Z) :=
  Entry (base_addr e) (length e) v.

(** [biosmem_map] and [biosmem_map_size]: the live prefix of the array, a
    list of [biosmem_map_size] entries; the array itself has room for
    [2 * BIOSMEM_MAX_MAP_SIZE] of them. *)
Definition biosmem_map_t : Type := list biosmem_map_entry.
Definition ARRAY_SIZE_biosmem_map : Z := BIOSMEM_MAX_MAP_SIZE * 2.

Definition biosmem_panic_toobig_msg : string :=
  "biosmem: too many memory map entries".
Definition biosmem_panic_noseg_msg : string :=
  "biosmem: unable to find any memory segment".
Definition biosmem_panic_inval_msg : string :=
  "biosmem: attempt to allocate 0 page".
Definition biosmem_panic_nomem_msg : string :=
  "biosmem: unable to allocate memory".

Definition entry_end (e : biosmem_map_entry) : Z :=
  u64 (base_addr e + length e).

Definition biosmem_map_entry_is_invalid (e : biosmem_map_entry) : bool :=
  entry_end e <=? base_addr e.

(** The loop keeps [i] in place when it drops an entry and moves the tail
    down by one. *)
Fixpoint biosmem_map_filter (m : biosmem_map_t) : biosmem_map_t :=
  match m with
  | [] => []
  | entry :: rest =>
      if biosmem_map_entry_is_invalid entry then biosmem_map_filter rest
      else entry :: biosmem_map_filter rest
  end.

(** Inner loop of the insertion sort; [k] is [j + 1], so that the unsigned
    wrap of [j] below zero is [k = 0]. *)
Fixpoint sort_shift (m : biosmem_map_t) (tmp : biosmem_map_entry) (k : nat)
  : biosmem_map_t :=
  match k with
  | O => <[O := tmp]> m
  | S j =>
      match m !! j with
      | Some e =>
          if base_addr e <? base_addr tmp then <[S j := tmp]> m
          else sort_shift (<[S j := e]> m) tmp j
      | None => m
      end
  end.

Fixpoint sort_from (n : nat) (i : nat) (m : biosmem_map_t) : biosmem_map_t :=
  match n with
  | O => m
  | S n' =>
      match m !! i with
      | Some tmp => sort_from n' (S i) (sort_shift m tmp i)
      | None => m
      end
  end.

Definition biosmem_map_sort (m : biosmem_map_t) : biosmem_map_t :=
  sort_from (List.length m - 1) 1 m.

(** *** Overlap resolution *)

(** What one pass of the inner loop does to the map when [a] and [b] have
    been found to overlap. *)
Record split : Type := Split {
  split_a : biosmem_map_entry;    (* [*a] after the split *)
  split_b : biosmem_map_entry;    (* [*b] after the split *)
  split_tmp : biosmem_map_entry   (* the intersection *)
}.

Definition biosmem_map_split (a b : biosmem_map_entry) (a_end b_end : Z)
  : split :=
  let a_first := base_addr a <? base_addr b in
  let first := if a_first then a else b in
  let second := if a_first then b else a in
  let last_end := if a_end >? b_end then a_end else b_end in
  let last_type := if a_end >? b_end then type a else type b in
  let tmp_base := base_addr second in
  let tmp_length := u64 (Z.min a_end b_end - tmp_base) in
  let tmp_type := Z.max (type a) (type b) in
  let first' := set_length first (u64 (tmp_base - base_addr first)) in
  let second_base := u64 (base_addr second + tmp_length) in
  let second' := Entry second_base (u64 (last_end - second_base)) last_type in
  Split (if a_first then first' else second')
        (if a_first then second' else first')
        (Entry tmp_base tmp_length tmp_type).

(** Merging the intersection into the neighbour [first]. *)
Definition biosmem_map_merge (first tmp : biosmem_map_entry)
  : biosmem_map_entry :=
  let base := if base_addr first >? base_addr tmp then base_addr tmp
              else base_addr first in
  Entry base (u64 (length first + length tmp)) (type first).

(** One pass of the body of [while (j < biosmem_map_size)], for a pair that
    the overlap test has let through: the new map and the new [j]. *)
Definition biosmem_map_adjust_pair (m : biosmem_map_t) (i j : nat)
    (a b : biosmem_map_entry) (a_end : Z) : outcome (biosmem_map_t * nat) :=
  let b_end := entry_end b in
  let s := biosmem_map_split a b a_end b_end in
  let a' := split_a s in
  let b' := split_b s in
  let tmp := split_tmp s in
  if biosmem_map_entry_is_invalid a' && biosmem_map_entry_is_invalid b' then
    Ret (delete j (<[i := tmp]> m), j)
  else if biosmem_map_entry_is_invalid a' then
    Ret (<[j := b']> (<[i := tmp]> m), S j)
  else if biosmem_map_entry_is_invalid b' then
    Ret (<[j := tmp]> (<[i := a']> m), S j)
  else if type tmp =? type a' then
    Ret (<[j := b']> (<[i := biosmem_map_merge a' tmp]> m), S j)
  else if type tmp =? type b' then
    Ret (<[j := biosmem_map_merge b' tmp]> (<[i := a']> m), S j)
  else if Z.of_nat (List.length m) >=? ARRAY_SIZE_biosmem_map then
    Panic biosmem_panic_toobig_msg
  else
    Ret (<[j := b']> (<[i := a']> m) ++ [tmp], S j).

Definition overlap_test (a b : biosmem_map_entry) (a_end : Z) : bool :=
  negb ((base_addr a >=? entry_end b) || (a_end <=? base_addr b)).

(** The inner loop; [a_end] is the value computed once before it. *)
Fixpoint adjust_inner (fuel : nat) (m : biosmem_map_t) (i j : nat) (a_end : Z)
  : outcome biosmem_map_t :=
  match fuel with
  | O => Timeout
  | S fuel' =>
      if (j <? List.length m)%nat then
        a ← deref (m !! i);
        b ← deref (m !! j);
        if overlap_test a b a_end then
          '(m', j') ← biosmem_map_adjust_pair m i j a b a_end;
          adjust_inner fuel' m' i j' a_end
        else adjust_inner fuel' m i (S j) a_end
      else Ret m
  end.

Definition inner_fuel : nat := 1024.

Fixpoint adjust_outer (fuel : nat) (m : biosmem_map_t) (i : nat)
  : outcome biosmem_map_t :=
  match fuel with
  | O => Timeout
  | S fuel' =>
      if (i <? List.length m)%nat then
        a ← deref (m !! i);
        m' ← adjust_inner inner_fuel m i (S i) (entry_end a);
        adjust_outer fuel' m' (S i)
      else Ret m
  end.

Definition outer_fuel : nat := 512.

Definition biosmem_map_adjust (m : biosmem_map_t) : outcome biosmem_map_t :=
  m' ← adjust_outer outer_fuel (biosmem_map_filter m) 0;
  Ret (biosmem_map_sort m').

(** ** Segment boundaries *)

Record biosmem_segment : Type := Segment {
  seg_start : Z;
  seg_end : Z;
  seg_avail_start : Z;
  seg_avail_end : Z
}.

(** The boot-time state of the module: its static variables, and the
    [phys_last_addr] it hands to the rest of the kernel. *)
Record biosmem_state : Type := State {
  biosmem_map : biosmem_map_t;
  biosmem_segments : list biosmem_segment;
  biosmem_heap_start : Z;   (* uint32_t *)
  biosmem_heap_cur : Z;     (* uint32_t *)
  biosmem_heap_end : Z;     (* uint32_t *)
  phys_last_addr : Z
}.

Definition PHYS_ADDR_MAX : Z := 2 ^ 64 - 1.   (* [(phys_addr_t)-1] *)

(** The loop of [biosmem_map_find_avail]: the pair [(seg_start, seg_end)]
    once the map is exhausted or the loop is left by [break]. *)
Fixpoint find_avail_loop (m : biosmem_map_t) (phys_start phys_end : Z)
    (seg_start seg_end : Z) : Z * Z :=
  match m with
  | [] => (seg_start, seg_end)
  | entry :: rest =>
      if negb (type entry =? BIOSMEM_TYPE_AVAILABLE) then
        find_avail_loop rest phys_start phys_end seg_start seg_end
      else
        let start := vm_page_round (base_addr entry) in
        if start >=? phys_end then (seg_start, seg_end)
        else
          let end_ := vm_page_trunc (entry_end entry) in
          if (start <? end_) && (start <? phys_end) && (end_ >? phys_start)
          then
            find_avail_loop rest phys_start phys_end
              (if seg_start =? PHYS_ADDR_MAX then start else seg_start) end_
          else find_avail_loop rest phys_start phys_end seg_start seg_end
  end.

(** [None] is the error return [-1]; otherwise the updated [*phys_start] and
    [*phys_end]. *)
Definition biosmem_map_find_avail (m : biosmem_map_t) (phys_start phys_end : Z)
  : option (Z * Z) :=
  let '(seg_start, seg_end) :=
    find_avail_loop m phys_start phys_end PHYS_ADDR_MAX PHYS_ADDR_MAX in
  if (seg_start =? PHYS_ADDR_MAX) || (seg_end =? PHYS_ADDR_MAX) then None
  else
    Some (if seg_start >? phys_start then seg_start else phys_start,
          if seg_end <? phys_end then seg_end else phys_end).

Definition biosmem_set_segment (segs : list biosmem_segment) (seg_index : nat)
    (start end_ : Z) : list biosmem_segment :=
  alter (λ s, Segment start end_ (seg_avail_start s) (seg_avail_end s))
        seg_index segs.

Definition segment_at (segs : list biosmem_segment) (seg_index : nat)
  : biosmem_segment :=
  default (Segment 0 0 0 0) (segs !! seg_index).

Definition biosmem_segment_end (segs : list biosmem_segment) (seg_index : nat)
  : Z :=
  seg_end (segment_at segs seg_index).

Definition biosmem_segment_size (segs : list biosmem_segment) (seg_index : nat)
  : Z :=
  u64 (seg_end (segment_at segs seg_index)
       - seg_start (segment_at segs seg_index)).

Section Bootstrap.

(** Modelled from the spec: the thresholds and the segment indexes come from
    [i386/vm_param.h] and [i386at/biosmem.h], which are not part of the
    sources at hand; they are the parameters of this section.
    [VM_PAGE_DMA32_LIMIT] is [None] where the macro is not defined. *)
Variable BIOSMEM_BASE : Z.
Variable VM_PAGE_DMA_LIMIT : Z.
Variable VM_PAGE_DMA32_LIMIT : option Z.
Variable VM_PAGE_DIRECTMAP_LIMIT : Z.
Variable VM_PAGE_HIGHMEM_LIMIT : Z.
Variable VM_PAGE_MAX_SEGS : nat.
Variable VM_PAGE_SEG_DMA : nat.
Variable VM_PAGE_SEG_DMA32 : nat.
Variable VM_PAGE_SEG_DIRECTMAP : nat.
Variable VM_PAGE_SEG_HIGHMEM : nat.

(** The statics of the module as the C start-up code leaves them. *)
Definition biosmem_boot_state (m : biosmem_map_t) : biosmem_state :=
  State m (replicate VM_PAGE_MAX_SEGS (Segment 0 0 0 0)) 0 0 0 0.

(** The tail of [biosmem_bootstrap_common], from the DIRECTMAP segment on;
    the result is the segment table and [last_addr] at the label [out]. *)
Definition bootstrap_directmap (m : biosmem_map_t)
    (segs : list biosmem_segment) (last_addr phys_start : Z)
  : list biosmem_segment * Z :=
  match biosmem_map_find_avail m phys_start VM_PAGE_DIRECTMAP_LIMIT with
  | None => (segs, last_addr)
  | Some (phys_start, phys_end) =>
      let segs := biosmem_set_segment segs VM_PAGE_SEG_DIRECTMAP
                    phys_start phys_end in
      let last_addr := phys_end in
      match biosmem_map_find_avail m VM_PAGE_DIRECTMAP_LIMIT
              VM_PAGE_HIGHMEM_LIMIT with
      | None => (segs, last_addr)
      | Some (phys_start, phys_end) =>
          (biosmem_set_segment segs VM_PAGE_SEG_HIGHMEM phys_start phys_end,
           last_addr)
      end
  end.

Definition bootstrap_segments (m : biosmem_map_t)
    (segs : list biosmem_segment) : outcome (list biosmem_segment * Z) :=
  match biosmem_map_find_avail m BIOSMEM_BASE VM_PAGE_DMA_LIMIT with
  | None => Panic biosmem_panic_noseg_msg
  | Some (phys_start, phys_end) =>
      let segs := biosmem_set_segment segs VM_PAGE_SEG_DMA
                    phys_start phys_end in
      let last_addr := phys_end in
      match VM_PAGE_DMA32_LIMIT with
      | Some dma32_limit =>
          match biosmem_map_find_avail m VM_PAGE_DMA_LIMIT dma32_limit with
          | None => Ret (segs, last_addr)
          | Some (phys_start, phys_end) =>
              let segs := biosmem_set_segment segs VM_PAGE_SEG_DMA32
                            phys_start phys_end in
              Ret (bootstrap_directmap m segs phys_end dma32_limit)
          end
      | None => Ret (bootstrap_directmap m segs last_addr VM_PAGE_DMA_LIMIT)
      end
  end.

Definition biosmem_bootstrap_common (st : biosmem_state)
  : outcome biosmem_state :=
  m ← biosmem_map_adjust (biosmem_map st);
  '(segs, last_addr) ← bootstrap_segments m (biosmem_segments st);
  Ret (State m segs (biosmem_heap_start st) (biosmem_heap_cur st)
         (biosmem_heap_end st) last_addr).

Definition biosmem_directmap_size (st : biosmem_state) : Z :=
  let segs := biosmem_segments st in
  if negb (biosmem_segment_size segs VM_PAGE_SEG_DIRECTMAP =? 0) then
    biosmem_segment_end segs VM_PAGE_SEG_DIRECTMAP
  else if negb (biosmem_segment_size segs VM_PAGE_SEG_DMA32 =? 0) then
    biosmem_segment_end segs VM_PAGE_SEG_DMA32
  else biosmem_segment_end segs VM_PAGE_SEG_DMA.

End Bootstrap.

(** ** The bootstrap allocator *)

Definition set_heap_cur (st : biosmem_state) (cur : Z) : biosmem_state :=
  State (biosmem_map st) (biosmem_segments st) (biosmem_heap_start st) cur
        (biosmem_heap_end st) (phys_last_addr st).

(** [biosmem_bootalloc] without [MACH_HYP]; [vm_page_is_ready] is the flag
    that [vm_page_ready()] returns.  The shift of [vm_page_ptoa] is done on
    [unsigned int] and its result kept in an [unsigned long], 32 bits each. *)
Definition biosmem_bootalloc (vm_page_is_ready : bool) (st : biosmem_state)
    (nr_pages : Z) : outcome (Z * biosmem_state) :=
  _ ← assert (negb vm_page_is_ready);
  let size := u32 (vm_page_ptoa nr_pages) in
  if size =? 0 then Panic biosmem_panic_inval_msg
  else
    let addr := u32 (biosmem_heap_cur st - size) in
    if (addr <? biosmem_heap_start st) || (addr >? biosmem_heap_cur st)
    then Panic biosmem_panic_nomem_msg
    else Ret (addr, set_heap_cur st addr).

(** ** Well-formed states *)

(** The heap bounds are 32-bit values, and the cursor is not below the
    start of the heap. *)
Definition heap_ok (st : biosmem_state) : Prop :=
  0 ≤ biosmem_heap_start st ∧ biosmem_heap_start st ≤ biosmem_heap_cur st
  ∧ biosmem_heap_cur st < 2 ^ 32.

(** Every segment of the table is a range of [phys_addr_t] addresses. *)
Definition segments_ok (segs : list biosmem_segment) : Prop :=
  ∀ i, 0 ≤ seg_start (segment_at segs i)
       ∧ seg_start (segment_at segs i) ≤ seg_end (segment_at segs i)
       ∧ seg_end (segment_at segs i) < 2 ^ 64.

Definition segment_nonempty (segs : list biosmem_segment) (i : nat) : Prop :=
  seg_start (segment_at segs i) < seg_end (segment_at segs i).

(** A map entry that describes a non-empty range of 64-bit addresses. *)
Definition entry_ok (e : biosmem_map_entry) : Prop :=
  0 ≤ base_addr e ∧ 0 < length e ∧ base_addr e + length e < 2 ^ 64.

(** The canonical form of the map: sorted by base address, every entry
    non-empty and without wrap-around, no entry reaching past the base of
    the next one. *)
Fixpoint map_canonical (m : biosmem_map_t) : bool :=
  match m with
  | [] => true
  | e :: rest =>
      (0 <? length e) && (base_addr e + length e <? 2 ^ 64)
      && match rest with
         | [] => true
         | e' :: _ => base_addr e + length e <=? base_addr e'
         end
      && map_canonical rest
  end.

(** *** The pieces of two overlapping ranges *)

Definition range_end (e : biosmem_map_entry) : Z := base_addr e + length e.

Definition ranges_intersect (a b : biosmem_map_entry) : Prop :=
  base_addr a < range_end b ∧ base_addr b < range_end a.

(** What lies before the intersection: it belongs to the entry that starts
    first ([b] when both start together) and keeps its type. *)
Definition piece_prefix (a b : biosmem_map_entry) : biosmem_map_entry :=
  let first := if base_addr a <? base_addr b then a else b in
  Entry (base_addr first)
        (Z.max (base_addr a) (base_addr b) - base_addr first)
        (type first).

(** The intersection, with the numerically higher type. *)
Definition piece_inter (a b : biosmem_map_entry) : biosmem_map_entry :=
  Entry (Z.max (base_addr a) (base_addr b))
        (Z.min (range_end a) (range_end b) - Z.max (base_addr a) (base_addr b))
        (Z.max (type a) (type b)).

(** What lies after the intersection: it belongs to the entry that ends
    last ([b] when both end together) and has its type. *)
Definition piece_suffix (a b : biosmem_map_entry) : biosmem_map_entry :=
  let last := if range_end a >? range_end b then a else b in
  Entry (Z.min (range_end a) (range_end b))
        (Z.max (range_end a) (range_end b) - Z.min (range_end a) (range_end b))
        (type last).

(** The range covered by two adjacent ranges, with the type of the first. *)
Definition span (x y : biosmem_map_entry) : biosmem_map_entry :=
  Entry (Z.min (base_addr x) (base_addr y)) (length x + length y) (type x).

(** Overlap resolution for one pair in the words of the spec: the
    intersection is merged into a neighbour of its type when there is one,
    and otherwise added as a new entry, which fails when the map is full.
    [a'] and [b'] are what is left of [a] and [b]. *)
Definition resolve_pair_spec (m : biosmem_map_t) (i j : nat)
    (a b : biosmem_map_entry) : outcome biosmem_map_t :=
  let a_first := base_addr a <? base_addr b in
  let a' := if a_first then piece_prefix a b else piece_suffix a b in
  let b' := if a_first then piece_suffix a b else piece_prefix a b in
  let tmp := piece_inter a b in
  if type tmp =? type a' then Ret (<[j := b']> (<[i := span a' tmp]> m))
  else if type tmp =? type b' then Ret (<[j := span b' tmp]> (<[i := a']> m))
  else if Z.of_nat (List.length m) >=? ARRAY_SIZE_biosmem_map
       then Panic biosmem_panic_toobig_msg
       else Ret (<[j := b']> (<[i := a']> m) ++ [tmp]).

End Biosmem.

Module VmPage.

(** ** The page allocator: constants *)

Definition VM_PAGE_NR_FREE_LISTS : nat := 11.
Definition VM_PAGE_CPU_POOL_RATIO : Z := 1024.
Definition VM_PAGE_CPU_POOL_MAX_SIZE : Z := 128.
Definition VM_PAGE_CPU_POOL_TRANSFER_RATIO : Z := 2.
Definition VM_PAGE_ORDER_UNLISTED : Z := u16 (-1).

(** Modelled from the spec: the page types and the selectors are declared in
    [vm/vm_page.h], which is not part of the sources at hand.  The spec
    names the types FREE, RESERVED, TABLE, PMAP, KERNEL and the selectors
    DMA, DMA32, DIRECTMAP, HIGHMEM; only their being distinct matters. *)
Definition VM_PT_FREE : Z := 0.
Definition VM_PT_RESERVED : Z := 1.
Definition VM_PT_TABLE : Z := 2.
Definition VM_PT_PMAP : Z := 3.
Definition VM_PT_KERNEL : Z := 6.

Definition VM_PAGE_SEL_DMA : Z := 0.
Definition VM_PAGE_SEL_DMA32 : Z := 1.
Definition VM_PAGE_SEL_DIRECTMAP : Z := 2.
Definition VM_PAGE_SEL_HIGHMEM : Z := 3.

(** ** Data *)

(** A page descriptor.  The list node of the C structure is not a field: a
    list of pages is the list of their indexes in [seg->pages]. *)
Record vm_page : Type := Page {
  page_type : Z;     (* unsigned short *)
  seg_index : Z;     (* unsigned short *)
  page_order : Z;    (* unsigned short *)
  phys_addr : Z      (* phys_addr_t *)
}.

Definition page_set_type (type : Z) (pg : vm_page) : vm_page :=
  Page type (seg_index pg) (page_order pg) (phys_addr pg).
Definition page_set_order (o : Z) (pg : vm_page) : vm_page :=
  Page (page_type pg) (seg_index pg) o (phys_addr pg).

Record vm_page_free_list : Type := FreeList {
  fl_size : Z;            (* unsigned long *)
  fl_blocks : list nat
}.

Record vm_page_cpu_pool : Type := CpuPool {
  pool_size : Z;          (* int *)
  pool_transfer_size : Z; (* int *)
  pool_nr_pages : Z;      (* int *)
  pool_pages : list nat
}.

(** [pages_end] is [pages] plus the length of the list. *)
Record vm_page_seg : Type := Seg {
  cpu_pools : list vm_page_cpu_pool;
  seg_start : Z;
  seg_end : Z;
  pages : list vm_page;
  free_lists : list vm_page_free_list;
  nr_free_pages : Z       (* unsigned long *)
}.

Definition set_cpu_pools (seg : vm_page_seg) (v : list vm_page_cpu_pool) :=
  Seg v (seg_start seg) (seg_end seg) (pages seg) (free_lists seg)
      (nr_free_pages seg).
Definition set_pages (seg : vm_page_seg) (v : list vm_page) :=
  Seg (cpu_pools seg) (seg_start seg) (seg_end seg) v (free_lists seg)
      (nr_free_pages seg).
Definition set_free_lists (seg : vm_page_seg) (v : list vm_page_free_list) :=
  Seg (cpu_pools seg) (seg_start seg) (seg_end seg) (pages seg) v
      (nr_free_pages seg).
Definition set_nr_free_pages (seg : vm_page_seg) (v : Z) :=
  Seg (cpu_pools seg) (seg_start seg) (seg_end seg) (pages seg)
      (free_lists seg) v.

(** ** Descriptors *)

Definition vm_page_init_pa (seg_index : Z) (pa : Z) : vm_page :=
  Page VM_PT_RESERVED seg_index VM_PAGE_ORDER_UNLISTED pa.

(** [page[i].type = type] for [i < nr_pages]. *)
Fixpoint set_type_loop (nr_pages : nat) (pgs : list vm_page) (page : nat)
    (type : Z) : outcome (list vm_page) :=
  match nr_pages with
  | O => Ret pgs
  | S n =>
      pg ← deref (pgs !! page);
      set_type_loop n (<[page := page_set_type type pg]> pgs) (S page) type
  end.

Definition vm_page_set_type (seg : vm_page_seg) (page : nat) (order : nat)
    (type : Z) : outcome vm_page_seg :=
  pgs ← set_type_loop (2 ^ order) (pages seg) page type;
  Ret (set_pages seg pgs).

(** [page->order = o] *)
Definition store_order (seg : vm_page_seg) (page : nat) (o : Z)
  : outcome vm_page_seg :=
  pg ← deref (pages seg !! page);
  Ret (set_pages seg (<[page := page_set_order o pg]> (pages seg))).

(** ** Free lists *)

Definition vm_page_free_list_insert (seg : vm_page_seg) (i : nat) (page : nat)
  : outcome vm_page_seg :=
  free_list ← deref (free_lists seg !! i);
  pg ← deref (pages seg !! page);
  _ ← assert (page_order pg =? VM_PAGE_ORDER_UNLISTED);
  Ret (set_free_lists seg
         (<[i := FreeList (u32 (fl_size free_list + 1))
                          (page :: fl_blocks free_list)]> (free_lists seg))).

(** [list_remove(&page->node)] unlinks the node from the list it is on,
    whichever of the free lists that is. *)
Definition list_remove (page : nat) (fls : list vm_page_free_list)
  : list vm_page_free_list :=
  (λ fl, FreeList (fl_size fl) (filter (λ x, x ≠ page) (fl_blocks fl))) <$> fls.

Definition vm_page_free_list_remove (seg : vm_page_seg) (i : nat) (page : nat)
  : outcome vm_page_seg :=
  free_list ← deref (free_lists seg !! i);
  pg ← deref (pages seg !! page);
  _ ← assert (negb (page_order pg =? VM_PAGE_ORDER_UNLISTED));
  Ret (set_free_lists seg
         (list_remove page
            (<[i := FreeList (u32 (fl_size free_list - 1))
                             (fl_blocks free_list)]> (free_lists seg)))).

(** ** The buddy system *)

(** The search loop of [vm_page_seg_alloc_from_buddy]: the value of [i] when
    the loop is left, after at most [n] more tests. *)
Fixpoint alloc_search (n : nat) (seg : vm_page_seg) (i : nat) : outcome nat :=
  match n with
  | O => Ret i
  | S n' =>
      free_list ← deref (free_lists seg !! i);
      if negb (fl_size free_list =? 0) then Ret i
      else alloc_search n' seg (S i)
  end.

(** The splitting loop: [n] is [i - order]. *)
Fixpoint alloc_split (n : nat) (seg : vm_page_seg) (page : nat) (order : nat)
  : outcome vm_page_seg :=
  match n with
  | O => Ret seg
  | S n' =>
      let i := (order + n')%nat in
      let buddy := (page + 2 ^ i)%nat in
      seg ← vm_page_free_list_insert seg i buddy;
      seg ← store_order seg buddy (Z.of_nat i);
      alloc_split n' seg page order
  end.

Definition vm_page_seg_alloc_from_buddy (seg : vm_page_seg) (order : nat)
  : outcome (option nat * vm_page_seg) :=
  _ ← assert (order <? VM_PAGE_NR_FREE_LISTS)%nat;
  i ← alloc_search (VM_PAGE_NR_FREE_LISTS - order) seg order;
  if (i =? VM_PAGE_NR_FREE_LISTS)%nat then Ret (None, seg)
  else
    free_list ← deref (free_lists seg !! i);
    page ← deref (head (fl_blocks free_list));
    seg ← vm_page_free_list_remove seg i page;
    seg ← store_order seg page VM_PAGE_ORDER_UNLISTED;
    seg ← alloc_split (i - order) seg page order;
    Ret (Some page,
         set_nr_free_pages seg
           (u32 (nr_free_pages seg - Z.shiftl 1 (Z.of_nat order)))).

(** The coalescing loop of [vm_page_seg_free_to_buddy], run at most [n]
    times ([n] is [VM_PAGE_NR_FREE_LISTS - 1 - order]): the segment, [page]
    and [order] when the loop is left. *)
Fixpoint free_coalesce (n : nat) (seg : vm_page_seg) (pa : Z) (page : nat)
    (order : nat) : outcome (vm_page_seg * nat * nat) :=
  match n with
  | O => Ret (seg, page, order)
  | S n' =>
      let buddy_pa := Z.lxor pa (vm_page_ptoa (Z.shiftl 1 (Z.of_nat order))) in
      if (buddy_pa <? seg_start seg) || (buddy_pa >=? seg_end seg)
      then Ret (seg, page, order)
      else
        let buddy := Z.to_nat (vm_page_atop (u64 (buddy_pa - seg_start seg))) in
        bpg ← deref (pages seg !! buddy);
        if negb (page_order bpg =? Z.of_nat order) then Ret (seg, page, order)
        else
          seg ← vm_page_free_list_remove seg order buddy;
          seg ← store_order seg buddy VM_PAGE_ORDER_UNLISTED;
          let order := S order in
          let pa :=
            Z.land pa (u64 (- vm_page_ptoa (Z.shiftl 1 (Z.of_nat order)))) in
          let page := Z.to_nat (vm_page_atop (u64 (pa - seg_start seg))) in
          free_coalesce n' seg pa page order
  end.

Definition vm_page_seg_free_to_buddy (seg : vm_page_seg) (page : nat)
    (order : nat) : outcome vm_page_seg :=
  pg ← deref (pages seg !! page);
  _ ← assert (page_order pg =? VM_PAGE_ORDER_UNLISTED);
  _ ← assert (order <? VM_PAGE_NR_FREE_LISTS)%nat;
  let nr_pages := Z.shiftl 1 (Z.of_nat order) in
  '(seg, page, order) ←
    free_coalesce (VM_PAGE_NR_FREE_LISTS - 1 - order) seg (phys_addr pg)
      page order;
  seg ← vm_page_free_list_insert seg order page;
  seg ← store_order seg page (Z.of_nat order);
  Ret (set_nr_free_pages seg (u32 (nr_free_pages seg + nr_pages))).

(** ** Per-CPU pools *)

Definition vm_page_cpu_pool_init (size : Z) : vm_page_cpu_pool :=
  CpuPool size
    ((size + VM_PAGE_CPU_POOL_TRANSFER_RATIO - 1)
       `quot` VM_PAGE_CPU_POOL_TRANSFER_RATIO)
    0 [].

(** [vm_page_cpu_pool_get]: [cpu] is the value of [cpu_number()]. *)
Definition vm_page_cpu_pool_get (seg : vm_page_seg) (cpu : nat)
  : outcome vm_page_cpu_pool :=
  deref (cpu_pools seg !! cpu).

Definition put_cpu_pool (seg : vm_page_seg) (cpu : nat)
    (cpu_pool : vm_page_cpu_pool) : vm_page_seg :=
  set_cpu_pools seg (<[cpu := cpu_pool]> (cpu_pools seg)).

Definition vm_page_cpu_pool_pop (seg : vm_page_seg) (cpu : nat)
  : outcome (nat * vm_page_seg) :=
  cpu_pool ← vm_page_cpu_pool_get seg cpu;
  _ ← assert (negb (pool_nr_pages cpu_pool =? 0));
  page ← deref (head (pool_pages cpu_pool));
  Ret (page,
       put_cpu_pool seg cpu
         (CpuPool (pool_size cpu_pool) (pool_transfer_size cpu_pool)
                  (pool_nr_pages cpu_pool - 1) (tail (pool_pages cpu_pool)))).

Definition vm_page_cpu_pool_push (seg : vm_page_seg) (cpu : nat) (page : nat)
  : outcome vm_page_seg :=
  cpu_pool ← vm_page_cpu_pool_get seg cpu;
  _ ← assert (pool_nr_pages cpu_pool <? pool_size cpu_pool);
  Ret (put_cpu_pool seg cpu
         (CpuPool (pool_size cpu_pool) (pool_transfer_size cpu_pool)
                  (pool_nr_pages cpu_pool + 1) (page :: pool_pages cpu_pool))).

(** The loop of [vm_page_cpu_pool_fill]: [n] tests of [i < transfer_size]
    are left; the result is the final [i]. *)
Fixpoint fill_loop (n : nat) (seg : vm_page_seg) (cpu : nat) (i : Z)
  : outcome (Z * vm_page_seg) :=
  match n with
  | O => Ret (i, seg)
  | S n' =>
      '(page, seg) ← vm_page_seg_alloc_from_buddy seg 0;
      match page with
      | None => Ret (i, seg)
      | Some page =>
          seg ← vm_page_cpu_pool_push seg cpu page;
          fill_loop n' seg cpu (i + 1)
      end
  end.

Definition vm_page_cpu_pool_fill (seg : vm_page_seg) (cpu : nat)
  : outcome (Z * vm_page_seg) :=
  cpu_pool ← vm_page_cpu_pool_get seg cpu;
  _ ← assert (pool_nr_pages cpu_pool =? 0);
  fill_loop (Z.to_nat (pool_transfer_size cpu_pool)) seg cpu 0.

Fixpoint drain_loop (n : nat) (seg : vm_page_seg) (cpu : nat)
  : outcome vm_page_seg :=
  match n with
  | O => Ret seg
  | S n' =>
      '(page, seg) ← vm_page_cpu_pool_pop seg cpu;
      seg ← vm_page_seg_free_to_buddy seg page 0;
      drain_loop n' seg cpu
  end.

Definition vm_page_cpu_pool_drain (seg : vm_page_seg) (cpu : nat)
  : outcome vm_page_seg :=
  cpu_pool ← vm_page_cpu_pool_get seg cpu;
  _ ← assert (pool_nr_pages cpu_pool =? pool_size cpu_pool);
  drain_loop (Z.to_nat (pool_transfer_size cpu_pool)) seg cpu.

(** ** Segments *)

Definition vm_page_seg_size (start end_ : Z) : Z := u64 (end_ - start).

Definition vm_page_seg_compute_pool_size (start end_ : Z) : Z :=
  let size := vm_page_atop (vm_page_seg_size start end_)
              / VM_PAGE_CPU_POOL_RATIO in
  if size =? 0 then 1
  else if size >? VM_PAGE_CPU_POOL_MAX_SIZE then VM_PAGE_CPU_POOL_MAX_SIZE
  else size.

(** [vm_page_seg_init] for the segment of index [i], on a machine with
    [ncpus] processors; the descriptors are those of the part of the table
    given to the segment, up to [pages_end].  The loop over the addresses
    from [start] to [end] sets up exactly these for bounds that are
    page-aligned, which [vm_page_load] asserts. *)
Definition vm_page_seg_init (ncpus : nat) (i : Z) (start end_ : Z)
  : vm_page_seg :=
  let pool_size := vm_page_seg_compute_pool_size start end_ in
  let nr := Z.to_nat (vm_page_atop (vm_page_seg_size start end_)) in
  Seg (replicate ncpus (vm_page_cpu_pool_init pool_size))
      start end_
      ((λ k : nat, vm_page_init_pa i (start + Z.of_nat k * PAGE_SIZE))
         <$> seq 0 nr)
      (replicate VM_PAGE_NR_FREE_LISTS (FreeList 0 []))
      0.

Definition vm_page_seg_alloc (seg : vm_page_seg) (cpu : nat) (order : nat)
    (type : Z) : outcome (option nat * vm_page_seg) :=
  _ ← assert (order <? VM_PAGE_NR_FREE_LISTS)%nat;
  '(page, seg) ←
    (if (order =? 0)%nat then
       cpu_pool ← vm_page_cpu_pool_get seg cpu;
       if pool_nr_pages cpu_pool =? 0 then
         '(filled, seg) ← vm_page_cpu_pool_fill seg cpu;
         if filled =? 0 then Ret (None, seg)
         else
           '(page, seg) ← vm_page_cpu_pool_pop seg cpu;
           Ret (Some page, seg)
       else
         '(page, seg) ← vm_page_cpu_pool_pop seg cpu;
         Ret (Some page, seg)
     else vm_page_seg_alloc_from_buddy seg order);
  match page with
  | None => Ret (None, seg)
  | Some page =>
      pg ← deref (pages seg !! page);
      _ ← assert (page_type pg =? VM_PT_FREE);
      seg ← vm_page_set_type seg page order type;
      Ret (Some page, seg)
  end.

Definition vm_page_seg_free (seg : vm_page_seg) (cpu : nat) (page : nat)
    (order : nat) : outcome vm_page_seg :=
  pg ← deref (pages seg !! page);
  _ ← assert (negb (page_type pg =? VM_PT_FREE));
  _ ← assert (order <? VM_PAGE_NR_FREE_LISTS)%nat;
  seg ← vm_page_set_type seg page order VM_PT_FREE;
  if (order =? 0)%nat then
    cpu_pool ← vm_page_cpu_pool_get seg cpu;
    seg ← (if pool_nr_pages cpu_pool =? pool_size cpu_pool
           then vm_page_cpu_pool_drain seg cpu else Ret seg);
    vm_page_cpu_pool_push seg cpu page
  else vm_page_seg_free_to_buddy seg page order.

(** ** The buddy invariants *)

(** The pages of the block of order [order] that starts at [page]. *)
Definition block_pages (order page : nat) : list nat := seq page (2 ^ order).

(** The pages of the blocks of the free lists, the first list being that of
    order [o]. *)
Fixpoint covered_from (o : nat) (fls : list vm_page_free_list) : list nat :=
  match fls with
  | [] => []
  | fl :: rest => (fl_blocks fl ≫= block_pages o) ++ covered_from (S o) rest
  end.

Definition covered (seg : vm_page_seg) : list nat :=
  covered_from 0 (free_lists seg).

(** The pages in the pools of the processors. *)
Definition pooled (seg : vm_page_seg) : list nat :=
  cpu_pools seg ≫= pool_pages.

(** The sum over the orders [i] of [size(F[i]) * 2^i]. *)
Fixpoint free_sum_from (o : nat) (fls : list vm_page_free_list) : Z :=
  match fls with
  | [] => 0
  | fl :: rest => fl_size fl * 2 ^ Z.of_nat o + free_sum_from (S o) rest
  end.

Definition free_sum (seg : vm_page_seg) : Z := free_sum_from 0 (free_lists seg).

Definition accounted (seg : vm_page_seg) : Prop :=
  nr_free_pages seg = free_sum seg.

(** [page] heads a block of the free list of order [o]. *)
Definition listed (seg : vm_page_seg) (o : nat) (page : nat) : Prop :=
  ∃ fl, free_lists seg !! o = Some fl ∧ page ∈ fl_blocks fl.

Definition page_pa (seg : vm_page_seg) (page : nat) : Z :=
  seg_start seg + Z.of_nat page * PAGE_SIZE.

Definition block_aligned (seg : vm_page_seg) (o : nat) (page : nat) : Prop :=
  page_pa seg page mod (2 ^ Z.of_nat o * PAGE_SIZE) = 0.

Definition page_free (seg : vm_page_seg) (page : nat) : Prop :=
  ∃ pg, pages seg !! page = Some pg ∧ page_type pg = VM_PT_FREE.

Definition pool_ok (cpu_pool : vm_page_cpu_pool) : Prop :=
  0 < pool_transfer_size cpu_pool
  ∧ pool_transfer_size cpu_pool ≤ pool_size cpu_pool
  ∧ pool_size cpu_pool < 2 ^ 31
  ∧ pool_nr_pages cpu_pool = Z.of_nat (List.length (pool_pages cpu_pool))
  ∧ pool_nr_pages cpu_pool ≤ pool_size cpu_pool.

(** The invariants of a segment.  [held] lists pages that are neither in a
    free block nor in a pool: those of the blocks handed out to callers, or
    those of a block that is on its way into or out of the free lists. *)
Record seg_wf (seg : vm_page_seg) (held : list nat) : Prop := SegWf {
  (* one free list for each order *)
  wf_lists : List.length (free_lists seg) = VM_PAGE_NR_FREE_LISTS;
  (* the counter of a free list is the number of its blocks *)
  wf_sizes :
    Forall (λ fl, fl_size fl = Z.of_nat (List.length (fl_blocks fl)))
           (free_lists seg);
  (* free blocks, pool pages and held pages do not overlap *)
  wf_nodup : NoDup (held ++ pooled seg ++ covered seg);
  (* and lie inside the descriptor array *)
  wf_range :
    Forall (λ k, (k < List.length (pages seg))%nat)
           (held ++ pooled seg ++ covered seg);
  (* the head of a block of the free list of order [o] has order [o] *)
  wf_listed :
    ∀ o page pg, listed seg o page → pages seg !! page = Some pg →
                 page_order pg = Z.of_nat o;
  (* and every other page has order [VM_PAGE_ORDER_UNLISTED] *)
  wf_unlisted :
    ∀ page pg, pages seg !! page = Some pg →
               page_order pg ≠ VM_PAGE_ORDER_UNLISTED →
               ∃ o, page_order pg = Z.of_nat o ∧ listed seg o page;
  (* the pages of free blocks and of pools have type [VM_PT_FREE] *)
  wf_free : Forall (page_free seg) (pooled seg ++ covered seg);
  (* a free block of order [o] starts at a multiple of [2^o] pages *)
  wf_aligned : ∀ o page, listed seg o page → block_aligned seg o page;
  (* the descriptors are those of the pages from [seg_start] to [seg_end] *)
  wf_addr :
    ∀ page pg, pages seg !! page = Some pg → phys_addr pg = page_pa seg page;
  wf_start : 0 ≤ seg_start seg ∧ seg_start seg mod PAGE_SIZE = 0;
  wf_end :
    seg_end seg = page_pa seg (List.length (pages seg)) ∧ seg_end seg < 2 ^ 64;
  wf_nr_pages : Z.of_nat (List.length (pages seg)) < 2 ^ 31;
  wf_pools : Forall pool_ok (cpu_pools seg)
}.

Definition seg_inv (seg : vm_page_seg) (held : list nat) : Prop :=
  seg_wf seg held ∧ accounted seg.

(** What the buddy system leaves unchanged in a segment, the counter of
    free pages included. *)
Definition same_frame (seg seg' : vm_page_seg) : Prop :=
  seg_start seg' = seg_start seg ∧ seg_end seg' = seg_end seg
  ∧ nr_free_pages seg' = nr_free_pages seg
  ∧ cpu_pools seg' = cpu_pools seg
  ∧ List.length (pages seg') = List.length (pages seg)
  ∧ ∀ k, page_free seg' k ↔ page_free seg k.

(** What an allocation guarantees about the block it returns and about the
    segment. *)
Definition allocated (seg : vm_page_seg) (held : list nat) (order : nat)
    (type : Z) (page : nat) (seg' : vm_page_seg) : Prop :=
  seg_inv seg' (block_pages order page ++ held)
  ∧ block_aligned seg' order page
  ∧ (∀ k, k ∈ block_pages order page →
          page_type <$> pages seg' !! k = Some type)
  ∧ seg_start seg' = seg_start seg ∧ seg_end seg' = seg_end seg
  ∧ List.length (pages seg') = List.length (pages seg)
  ∧ List.length (cpu_pools seg') = List.length (cpu_pools seg).

(** *** The steps of the buddy system, in the words of the spec *)

(** "Insert [page] into [F[o]] with [page.order = o]." *)
Definition enlist (seg : vm_page_seg) (o : nat) (page : nat) : vm_page_seg :=
  set_pages
    (set_free_lists seg
       (alter (λ fl, FreeList (fl_size fl + 1) (page :: fl_blocks fl)) o
              (free_lists seg)))
    (alter (page_set_order (Z.of_nat o)) page (pages seg)).

(** "Remove [page] from [F[o]], set [page.order = UNLISTED]." *)
Definition unlist (seg : vm_page_seg) (o : nat) (page : nat) : vm_page_seg :=
  set_pages
    (set_free_lists seg
       (alter (λ fl, FreeList (fl_size fl - 1)
                              (filter (λ x, x ≠ page) (fl_blocks fl))) o
              (free_lists seg)))
    (alter (page_set_order VM_PAGE_ORDER_UNLISTED) page (pages seg)).

(** The index in the descriptor array of the page at address [pa]. *)
Definition pa_page (seg : vm_page_seg) (pa : Z) : nat :=
  Z.to_nat ((pa - seg_start seg) / PAGE_SIZE).

(** "While [o < K - 1], compute [buddy_pa = pa XOR (2^o * page_size)].  If
    [buddy_pa] is outside [[start, end)], stop.  If [buddy.order ≠ o], stop.
    Remove buddy from [F[o]], set [buddy.order = UNLISTED], increment [o],
    realign [pa &= -(2^o * page_size)]."  At most [n] rounds; the result is
    the segment, [pa] and [o] at the end. *)
Fixpoint coalesce_spec (n : nat) (seg : vm_page_seg) (pa : Z) (o : nat)
  : vm_page_seg * Z * nat :=
  match n with
  | O => (seg, pa, o)
  | S n' =>
      let buddy_pa := Z.lxor pa (2 ^ Z.of_nat o * PAGE_SIZE) in
      if decide (seg_start seg ≤ buddy_pa < seg_end seg) then
        match pages seg !! pa_page seg buddy_pa with
        | Some buddy =>
            if decide (page_order buddy = Z.of_nat o) then
              coalesce_spec n' (unlist seg o (pa_page seg buddy_pa))
                (Z.land pa (- (2 ^ Z.of_nat (S o) * PAGE_SIZE))) (S o)
            else (seg, pa, o)
        | None => (seg, pa, o)
        end
      else (seg, pa, o)
  end.

(** "Find the smallest [i ≥ o] with [F[i]] non-empty", and the head of that
    list; [fls] are the free lists from order [i] on. *)
Fixpoint first_fit_from (fls : list vm_page_free_list) (i : nat)
  : option (nat * nat) :=
  match fls with
  | [] => None
  | fl :: rest =>
      match fl_blocks fl with
      | page :: _ => Some (i, page)
      | [] => first_fit_from rest (S i)
      end
  end.

Definition first_fit (seg : vm_page_seg) (order : nat) : option (nat * nat) :=
  first_fit_from (drop order (free_lists seg)) order.

(** "While [i > o]: decrement [i], let [buddy = p + 2^i], insert [buddy]
    into [F[i]] with [buddy.order = i]."  [n] is [i - o]. *)
Fixpoint split_spec (n : nat) (seg : vm_page_seg) (page : nat) (order : nat)
  : vm_page_seg :=
  match n with
  | O => seg
  | S n' =>
      split_spec n'
        (enlist seg (order + n') (page + 2 ^ (order + n'))) page order
  end.

(** "Remove the head block [p]. ... Return [p] with [p.order = UNLISTED].
    Decrement [nr_free_pages] by [2^o]." *)
Definition alloc_spec (seg : vm_page_seg) (order : nat) (i page : nat)
  : vm_page_seg :=
  set_nr_free_pages (split_spec (i - order) (unlist seg i page) page order)
    (nr_free_pages seg - 2 ^ Z.of_nat order).

(** "Finally insert [p] into [F[o]] with [p.order = o]; increment
    [nr_free_pages] by [2^original_o]." *)
Definition free_spec (seg : vm_page_seg) (page : nat) (order : nat)
  : vm_page_seg :=
  let '(seg', pa, o) :=
    coalesce_spec (VM_PAGE_NR_FREE_LISTS - 1 - order) seg (page_pa seg page)
      order in
  set_nr_free_pages (enlist seg' o (pa_page seg pa))
    (nr_free_pages seg + 2 ^ Z.of_nat order).

(** ** The segment table *)

Record vm_page_boot_seg : Type := BootSeg {
  boot_start : Z;
  boot_end : Z;
  boot_avail_start : Z;
  boot_avail_end : Z
}.

(** The static variables of [vm_page.c].  A pointer to a descriptor is the
    index of its segment in [vm_page_segs] and its index in [seg->pages]. *)
Record vm_page_state : Type := VmState {
  vm_page_is_ready : bool;
  vm_page_segs : list vm_page_seg;
  vm_page_boot_segs : list vm_page_boot_seg;
  vm_page_segs_size : Z   (* unsigned int *)
}.

Definition page_ptr : Type := (nat * nat)%type.

Definition set_vm_page_segs (st : vm_page_state) (v : list vm_page_seg) :=
  VmState (vm_page_is_ready st) v (vm_page_boot_segs st)
          (vm_page_segs_size st).

Definition vm_page_ready (st : vm_page_state) : bool := vm_page_is_ready st.

Section Segments.

(** Modelled from the spec: the segment indexes, the size of the segment
    table and the number of processors come from [i386/vm_param.h] and the
    configuration, which are not part of the sources at hand.  Segments can
    be aliases of one another, so nothing is assumed about the indexes. *)
Variable NCPUS : nat.
Variable VM_PAGE_MAX_SEGS : nat.
Variable VM_PAGE_SEG_DMA : Z.
Variable VM_PAGE_SEG_DMA32 : Z.
Variable VM_PAGE_SEG_DIRECTMAP : Z.
Variable VM_PAGE_SEG_HIGHMEM : Z.

Definition vm_page_select_alloc_seg (st : vm_page_state) (selector : Z)
  : outcome Z :=
  seg_index ←
    (if selector =? VM_PAGE_SEL_DMA then Ret VM_PAGE_SEG_DMA
     else if selector =? VM_PAGE_SEL_DMA32 then Ret VM_PAGE_SEG_DMA32
     else if selector =? VM_PAGE_SEL_DIRECTMAP then Ret VM_PAGE_SEG_DIRECTMAP
     else if selector =? VM_PAGE_SEL_HIGHMEM then Ret VM_PAGE_SEG_HIGHMEM
     else Panic "vm_page: invalid selector");
  Ret (Z.min (u32 (vm_page_segs_size st - 1)) seg_index).

(** The loop of [vm_page_alloc_pa]; [i] is unsigned, and stepping below
    zero makes it larger than any number of segments. *)
Fixpoint alloc_pa_loop (fuel : nat) (st : vm_page_state) (cpu : nat) (i : Z)
    (order : nat) (type : Z) : outcome (option page_ptr * vm_page_state) :=
  match fuel with
  | O => Timeout
  | S fuel' =>
      if i <? vm_page_segs_size st then
        seg ← deref (vm_page_segs st !! Z.to_nat i);
        '(page, seg) ← vm_page_seg_alloc seg cpu order type;
        let st := set_vm_page_segs st (<[Z.to_nat i := seg]> (vm_page_segs st)) in
        match page with
        | Some page => Ret (Some (Z.to_nat i, page), st)
        | None => alloc_pa_loop fuel' st cpu (u32 (i - 1)) order type
        end
      else Ret (None, st)
  end.

Definition vm_page_alloc_pa (st : vm_page_state) (cpu : nat) (order : nat)
    (selector : Z) (type : Z) : outcome (option page_ptr * vm_page_state) :=
  i ← vm_page_select_alloc_seg st selector;
  '(page, st) ←
    alloc_pa_loop (S (Z.to_nat (vm_page_segs_size st))) st cpu i order type;
  match page with
  | Some page => Ret (Some page, st)
  | None =>
      if type =? VM_PT_PMAP then Panic "vm_page: unable to allocate pmap page"
      else Ret (None, st)
  end.

(** [&vm_page_segs[page->seg_index]] for a descriptor that lies in the array
    of the segment [s]: the code takes the segment from the descriptor, and
    the two agree for every descriptor that [vm_page_init_pa] set up. *)
Definition page_seg (st : vm_page_state) (page : page_ptr)
  : outcome vm_page_seg :=
  seg ← deref (vm_page_segs st !! page.1);
  pg ← deref (pages seg !! page.2);
  _ ← assert (seg_index pg <? Z.of_nat VM_PAGE_MAX_SEGS);
  _ ← assert (seg_index pg =? Z.of_nat page.1);
  Ret seg.

Definition vm_page_free_pa (st : vm_page_state) (cpu : nat)
    (page : option page_ptr) (order : nat) : outcome vm_page_state :=
  page ← deref page;
  seg ← page_seg st page;
  seg ← vm_page_seg_free seg cpu page.2 order;
  Ret (set_vm_page_segs st (<[page.1 := seg]> (vm_page_segs st))).

Definition vm_page_manage (st : vm_page_state) (page : page_ptr)
  : outcome vm_page_state :=
  seg ← page_seg st page;
  pg ← deref (pages seg !! page.2);
  _ ← assert (page_type pg =? VM_PT_RESERVED);
  seg ← vm_page_set_type seg page.2 0 VM_PT_FREE;
  seg ← vm_page_seg_free_to_buddy seg page.2 0;
  Ret (set_vm_page_segs st (<[page.1 := seg]> (vm_page_segs st))).

Fixpoint lookup_pa_loop (segs : list vm_page_seg) (i : nat) (pa : Z)
  : option page_ptr :=
  match segs with
  | [] => None
  | seg :: rest =>
      if (pa >=? seg_start seg) && (pa <? seg_end seg)
      then Some (i, Z.to_nat (vm_page_atop (u64 (pa - seg_start seg))))
      else lookup_pa_loop rest (S i) pa
  end.

Definition vm_page_lookup_pa (st : vm_page_state) (pa : Z) : option page_ptr :=
  lookup_pa_loop (take (Z.to_nat (vm_page_segs_size st)) (vm_page_segs st))
                 0 pa.

(** *** Set-up *)

Definition vm_page_boot_seg_loaded (seg : vm_page_boot_seg) : bool :=
  negb (boot_end seg =? 0).

Fixpoint check_boot_segs_loop (segs : list vm_page_boot_seg) (i : Z)
    (size : Z) : outcome unit :=
  match segs with
  | [] => Ret ()
  | seg :: rest =>
      if Bool.eqb (vm_page_boot_seg_loaded seg) (i <? size)
      then check_boot_segs_loop rest (i + 1) size
      else Panic "vm_page: invalid boot segment table"
  end.

Definition vm_page_check_boot_segs (st : vm_page_state) : outcome unit :=
  if vm_page_segs_size st =? 0
  then Panic "vm_page: no physical memory loaded"
  else check_boot_segs_loop (vm_page_boot_segs st) 0 (vm_page_segs_size st).

(** The loop [while (page < end)] of [vm_page_setup], [n] pages from
    [page] on. *)
Fixpoint setup_release (n : nat) (seg : vm_page_seg) (page : nat)
  : outcome vm_page_seg :=
  match n with
  | O => Ret seg
  | S n' =>
      pg ← deref (pages seg !! page);
      seg ← Ret (set_pages seg
                   (<[page := page_set_type VM_PT_FREE pg]> (pages seg)));
      seg ← vm_page_seg_free_to_buddy seg page 0;
      setup_release n' seg (S page)
  end.

Definition setup_seg (i : Z) (boot_seg : vm_page_boot_seg)
  : outcome vm_page_seg :=
  let seg := vm_page_seg_init NCPUS i (boot_start boot_seg)
               (boot_end boot_seg) in
  let page := Z.to_nat (vm_page_atop
                (u64 (boot_avail_start boot_seg - boot_start boot_seg))) in
  let end_ := Z.to_nat (vm_page_atop
                (u64 (boot_avail_end boot_seg - boot_start boot_seg))) in
  setup_release (end_ - page) seg page.

Fixpoint setup_segs (boot_segs : list vm_page_boot_seg) (i : Z)
  : outcome (list vm_page_seg) :=
  match boot_segs with
  | [] => Ret []
  | boot_seg :: rest =>
      seg ← setup_seg i boot_seg;
      segs ← setup_segs rest (i + 1);
      Ret (seg :: segs)
  end.

(** The last loop of [vm_page_setup]: [table_pas] are the values of
    [pmap_extract(kernel_pmap, va)] for the pages [va] of the table. *)
Fixpoint setup_table (st : vm_page_state) (table_pas : list Z)
  : outcome vm_page_state :=
  match table_pas with
  | [] => Ret st
  | pa :: rest =>
      page ← deref (vm_page_lookup_pa st pa);
      seg ← deref (vm_page_segs st !! page.1);
      pg ← deref (pages seg !! page.2);
      _ ← assert (page_type pg =? VM_PT_RESERVED);
      let seg := set_pages seg
                   (<[page.2 := page_set_type VM_PT_TABLE pg]> (pages seg)) in
      setup_table (set_vm_page_segs st (<[page.1 := seg]> (vm_page_segs st)))
                  rest
  end.

Definition vm_page_setup (st : vm_page_state) (table_pas : list Z)
  : outcome vm_page_state :=
  _ ← vm_page_check_boot_segs st;
  let n := Z.to_nat (vm_page_segs_size st) in
  segs ← setup_segs (take n (vm_page_boot_segs st)) 0;
  st ← setup_table
         (set_vm_page_segs st (segs ++ drop n (vm_page_segs st))) table_pas;
  Ret (VmState true (vm_page_segs st) (vm_page_boot_segs st)
               (vm_page_segs_size st)).

(** *** The segment table, in the words of the spec *)

(** "The segment index named by the selector." *)
Definition selector_seg (selector : Z) : option Z :=
  if selector =? VM_PAGE_SEL_DMA then Some VM_PAGE_SEG_DMA
  else if selector =? VM_PAGE_SEL_DMA32 then Some VM_PAGE_SEG_DMA32
  else if selector =? VM_PAGE_SEL_DIRECTMAP then Some VM_PAGE_SEG_DIRECTMAP
  else if selector =? VM_PAGE_SEL_HIGHMEM then Some VM_PAGE_SEG_HIGHMEM
  else None.

End Segments.

(** The loaded segments satisfy the buddy invariants, each with its list of
    held pages, and have one pool for each of the [ncpus] processors. *)
Definition state_inv (ncpus : nat) (st : vm_page_state)
    (helds : list (list nat)) : Prop :=
  1 ≤ vm_page_segs_size st < 2 ^ 32
  ∧ Z.of_nat (List.length helds) = vm_page_segs_size st
  ∧ ∀ i held, helds !! i = Some held →
      ∃ seg, vm_page_segs st !! i = Some seg ∧ seg_inv seg held
             ∧ List.length (cpu_pools seg) = ncpus.

(** What [vm_page_load] asserts of a boot segment, with an available range
    that is not reversed, and the widths of the types: addresses have 64
    bits, numbers of pages 32 bits. *)
Definition boot_seg_ok (boot_seg : vm_page_boot_seg) : Prop :=
  0 ≤ boot_start boot_seg
  ∧ boot_start boot_seg mod PAGE_SIZE = 0
  ∧ boot_end boot_seg mod PAGE_SIZE = 0
  ∧ boot_avail_start boot_seg mod PAGE_SIZE = 0
  ∧ boot_avail_end boot_seg mod PAGE_SIZE = 0
  ∧ boot_start boot_seg < boot_end boot_seg
  ∧ boot_start boot_seg ≤ boot_avail_start boot_seg
  ∧ boot_avail_start boot_seg ≤ boot_avail_end boot_seg
  ∧ boot_avail_end boot_seg ≤ boot_end boot_seg
  ∧ boot_end boot_seg < 2 ^ 64
  ∧ boot_end boot_seg - boot_start boot_seg < 2 ^ 43.

(** The pages of a boot segment that [vm_page_setup] does not release:
    those below and above the available range. *)
Definition boot_held (boot_seg : vm_page_boot_seg) : list nat :=
  let nr := Z.to_nat (vm_page_atop
              (vm_page_seg_size (boot_start boot_seg) (boot_end boot_seg))) in
  let page := Z.to_nat (vm_page_atop
                (u64 (boot_avail_start boot_seg - boot_start boot_seg))) in
  let end_ := Z.to_nat (vm_page_atop
                (u64 (boot_avail_end boot_seg - boot_start boot_seg))) in
  seq 0 page ++ seq end_ (nr - end_).

(** The boot segments that [vm_page_load] has filled. *)
Definition boot_loaded (st : vm_page_state) : list vm_page_boot_seg :=
  take (Z.to_nat (vm_page_segs_size st)) (vm_page_boot_segs st).

Definition boot_ok (st : vm_page_state) : Prop :=
  1 ≤ vm_page_segs_size st < 2 ^ 32
  ∧ vm_page_segs_size st ≤ Z.of_nat (List.length (vm_page_boot_segs st))
  ∧ Forall boot_seg_ok (boot_loaded st).

(** The accounting equality in every loaded segment. *)
Definition segs_accounted (st : vm_page_state) : Prop :=
  ∀ i seg, Z.of_nat i < vm_page_segs_size st →
           vm_page_segs st !! i = Some seg → accounted seg.

(** *** A small machine *)

(** One processor and one segment of eight pages at 64 KiB, the first page
    of which is not available. *)
Definition example_boot_seg : vm_page_boot_seg :=
  BootSeg 0x10000 0x18000 0x11000 0x18000.

Definition example_boot_state : vm_page_state :=
  VmState false [Seg [] 0 0 [] [] 0] [example_boot_seg] 1.

(** The segment and the state after [vm_page_setup]. *)
Definition example_seg : vm_page_seg :=
  Eval vm_compute in
    match setup_seg 1 0 example_boot_seg with
    | Ret seg => seg
    | _ => Seg [] 0 0 [] [] 0
    end.

Definition example_state : vm_page_state :=
  Eval vm_compute in
    match vm_page_setup 1 example_boot_state [] with
    | Ret st => st
    | _ => example_boot_state
    end.

(** Two segments, the second with no available page, and a machine with
    that second segment alone. *)
Definition example_full_boot_seg : vm_page_boot_seg :=
  BootSeg 0x18000 0x20000 0x20000 0x20000.

Definition example_two_boot_state : vm_page_state :=
  VmState false [Seg [] 0 0 [] [] 0; Seg [] 0 0 [] [] 0]
    [example_boot_seg; example_full_boot_seg] 2.

Definition example_full_boot_state : vm_page_state :=
  VmState false [Seg [] 0 0 [] [] 0] [example_full_boot_seg] 1.

(** A segment of 4096 pages at 16 MiB, all available: its pools have size
    4 and transfer size 2. *)
Definition example_large_boot_seg : vm_page_boot_seg :=
  BootSeg 0x1000000 0x2000000 0x1000000 0x2000000.

(** ** Loading segments and managing boot memory *)

(** Modelled from the spec: [vm_page_aligned] comes from [vm/vm_page.h],
    which is not part of the sources at hand; it is the test of the low bits
    of an address ([P2ALIGNED(addr, PAGE_SIZE)]). *)
Definition vm_page_aligned (addr : Z) : bool :=
  Z.land addr (PAGE_SIZE - 1) =? 0.

(** [vm_page_round] on a [size_t], 32 bits wide. *)
Definition vm_page_round_ul (size : Z) : Z :=
  u32 (- Z.land (u32 (- size)) (u32 (- PAGE_SIZE))).

Definition set_vm_page_boot_segs (st : vm_page_state)
    (v : list vm_page_boot_seg) :=
  VmState (vm_page_is_ready st) (vm_page_segs st) v (vm_page_segs_size st).

(** [vm_page_load]; [ARRAY_SIZE(vm_page_boot_segs)] is the length of the
    list. *)
Definition vm_page_load (st : vm_page_state) (seg_index : Z)
    (start end_ avail_start avail_end : Z) : outcome vm_page_state :=
  let array_size := Z.of_nat (List.length (vm_page_boot_segs st)) in
  _ ← assert (seg_index <? array_size);
  _ ← assert (vm_page_aligned start);
  _ ← assert (vm_page_aligned end_);
  _ ← assert (vm_page_aligned avail_start);
  _ ← assert (vm_page_aligned avail_end);
  _ ← assert (start <? end_);
  _ ← assert (start <=? avail_start);
  _ ← assert (avail_end <=? end_);
  _ ← assert (vm_page_segs_size st <? array_size);
  Ret (VmState (vm_page_is_ready st) (vm_page_segs st)
         (<[Z.to_nat seg_index := BootSeg start end_ avail_start avail_end]>
            (vm_page_boot_segs st))
         (u32 (vm_page_segs_size st + 1))).

Definition vm_page_boot_seg_size (seg : vm_page_boot_seg) : Z :=
  u64 (boot_end seg - boot_start seg).

Definition vm_page_boot_seg_avail_size (seg : vm_page_boot_seg) : Z :=
  u64 (boot_avail_end seg - boot_avail_start seg).

(** The loop of [vm_page_bootalloc], downward from the segment [i]. *)
Fixpoint bootalloc_loop (fuel : nat) (st : vm_page_state) (i : Z) (size : Z)
  : outcome (Z * vm_page_state) :=
  match fuel with
  | O => Timeout
  | S fuel' =>
      if i <? vm_page_segs_size st then
        seg ← deref (vm_page_boot_segs st !! Z.to_nat i);
        if size <=? vm_page_boot_seg_avail_size seg then
          let pa := boot_avail_start seg in
          Ret (pa,
               set_vm_page_boot_segs st
                 (<[Z.to_nat i :=
                      BootSeg (boot_start seg) (boot_end seg)
                        (u64 (boot_avail_start seg + vm_page_round_ul size))
                        (boot_avail_end seg)]> (vm_page_boot_segs st)))
        else bootalloc_loop fuel' st (u32 (i - 1)) size
      else Panic "vm_page: no physical memory available"
  end.

Section Statistics.

Variable VM_PAGE_SEG_DMA : Z.
Variable VM_PAGE_SEG_DMA32 : Z.
Variable VM_PAGE_SEG_DIRECTMAP : Z.
Variable VM_PAGE_SEG_HIGHMEM : Z.

Definition vm_page_bootalloc (st : vm_page_state) (size : Z)
  : outcome (Z * vm_page_state) :=
  i ← vm_page_select_alloc_seg VM_PAGE_SEG_DMA VM_PAGE_SEG_DMA32
         VM_PAGE_SEG_DIRECTMAP VM_PAGE_SEG_HIGHMEM st VM_PAGE_SEL_DIRECTMAP;
  bootalloc_loop (S (Z.to_nat (vm_page_segs_size st))) st i size.

(** The loops of [vm_page_mem_size] and [vm_page_mem_free] over the loaded
    segments, [i] being the index of the first segment of [segs]. *)
Fixpoint mem_size_loop (segs : list vm_page_seg) (i : Z) (total : Z) : Z :=
  match segs with
  | [] => total
  | seg :: rest =>
      if i >? VM_PAGE_SEG_DIRECTMAP then mem_size_loop rest (i + 1) total
      else mem_size_loop rest (i + 1)
             (u64 (total + vm_page_seg_size (seg_start seg) (seg_end seg)))
  end.

Definition vm_page_mem_size (st : vm_page_state) : Z :=
  mem_size_loop (take (Z.to_nat (vm_page_segs_size st)) (vm_page_segs st)) 0 0.

Fixpoint mem_free_loop (segs : list vm_page_seg) (i : Z) (total : Z) : Z :=
  match segs with
  | [] => total
  | seg :: rest =>
      if i >? VM_PAGE_SEG_DIRECTMAP then mem_free_loop rest (i + 1) total
      else mem_free_loop rest (i + 1) (u32 (total + nr_free_pages seg))
  end.

Definition vm_page_mem_free (st : vm_page_state) : Z :=
  mem_free_loop (take (Z.to_nat (vm_page_segs_size st)) (vm_page_segs st)) 0 0.

End Statistics.

(** The ranges of the loaded segments do not overlap. *)
Definition segs_disjoint (st : vm_page_state) : Prop :=
  ∀ i j seg seg',
    (i < j)%nat → Z.of_nat j < vm_page_segs_size st →
    vm_page_segs st !! i = Some seg → vm_page_segs st !! j = Some seg' →
    seg_end seg ≤ seg_start seg' ∨ seg_end seg' ≤ seg_start seg.

End VmPage.

(** ** Boot: what the partitioning looks for, the boot data and the heap *)

Module Boot.
Import Biosmem.


(** An available entry that holds a whole page and whose whole pages meet
    the window from [phys_start] to [phys_end]. *)
Definition entry_usable (phys_start phys_end : Z) (e : biosmem_map_entry)
  : bool :=
  (type e =? BIOSMEM_TYPE_AVAILABLE)
  && (vm_page_round (base_addr e) <? vm_page_trunc (range_end e))
  && (vm_page_round (base_addr e) <? phys_end)
  && (phys_start <? vm_page_trunc (range_end e)).

(** *** Boot data and the heap *)

(** Modelled from the spec: [multiboot.h] and [elf.h] are not part of the
    sources at hand.  The records have the fields that [biosmem.c] reads,
    each 32 bits wide, the section header under the names [sh_type],
    [sh_addr] and [sh_size]; the flag bits, the section types and the size
    of a module entry are parameters below.  The arrays that [mods_addr]
    and [shdr_addr] point to are the lists [mods] and [shdrs]. *)
Record multiboot_raw_module : Type := RawModule {
  mod_start : Z;
  mod_end : Z;
  mod_string : Z;
  mod_reserved : Z
}.

Record elf_shdr : Type := Shdr {
  sh_type : Z;
  sh_addr : Z;
  sh_size : Z
}.

Record multiboot_raw_info : Type := Mbi {
  flags : Z;
  mem_lower : Z;
  mem_upper : Z;
  cmdline : Z;
  unused0 : Z;
  mods_count : Z;
  mods_addr : Z;
  shdr_num : Z;
  shdr_size : Z;
  shdr_addr : Z;
  mods : list multiboot_raw_module;
  shdrs : list elf_shdr
}.

Definition biosmem_panic_setup_msg : string :=
  "biosmem: unable to set up the early memory allocator".

(** [vm_page_trunc] on a 32-bit value. *)
Definition vm_page_trunc_ul (addr : Z) : Z := Z.land addr (u32 (- PAGE_SIZE)).

(** [start] and [end] of [biosmem_find_boot_data], as a pair. *)
Definition biosmem_find_boot_data_update (min : Z) (cur : Z * Z)
    (data_start data_end : Z) : Z * Z :=
  if (min <=? data_start) && (data_start <? cur.1)
  then (data_start, data_end) else cur.

Section BootData.

Variable MULTIBOOT_LOADER_CMDLINE : Z.
Variable MULTIBOOT_LOADER_MODULES : Z.
Variable MULTIBOOT_LOADER_SHDR : Z.
Variable sizeof_module : Z.     (* [sizeof(struct multiboot_raw_module)] *)
Variable ELF_SHT_SYMTAB : Z.
Variable ELF_SHT_STRTAB : Z.
Variable kernel_start : Z.      (* [_kvtophys(&_start)] *)
Variable kernel_end : Z.        (* [_kvtophys(&_end)] *)
Variable BIOSMEM_END : Z.
Variable VM_PAGE_DIRECTMAP_LIMIT : Z.

(** The loop over the modules, [n] of them from the module [i] on. *)
Fixpoint boot_data_mods (n i : nat) (mbi : multiboot_raw_info) (min : Z)
    (cur : Z * Z) : outcome (Z * Z) :=
  match n with
  | O => Ret cur
  | S n' =>
      rmod ← deref (mods mbi !! i);
      let cur := biosmem_find_boot_data_update min cur (mod_start rmod)
                   (mod_end rmod) in
      let cur :=
        if negb (mod_string rmod =? 0) then
          biosmem_find_boot_data_update min cur (mod_string rmod)
            (u32 (mod_string rmod + mod_reserved rmod))
        else cur in
      boot_data_mods n' (S i) mbi min cur
  end.

(** The loop over the section headers. *)
Fixpoint boot_data_shdrs (n i : nat) (mbi : multiboot_raw_info) (min : Z)
    (cur : Z * Z) : outcome (Z * Z) :=
  match n with
  | O => Ret cur
  | S n' =>
      shdr ← deref (shdrs mbi !! i);
      if negb (sh_type shdr =? ELF_SHT_SYMTAB)
         && negb (sh_type shdr =? ELF_SHT_STRTAB)
      then boot_data_shdrs n' (S i) mbi min cur
      else
        boot_data_shdrs n' (S i) mbi min
          (biosmem_find_boot_data_update min cur (sh_addr shdr)
             (u32 (sh_addr shdr + sh_size shdr)))
  end.

(** [biosmem_find_boot_data]: the value returned and the value of [*endp]
    afterwards, [endp] being its value before.  The local [end] is not
    initialized; it is read only when an update has set it, and starts as
    0 here. *)
Definition biosmem_find_boot_data (mbi : multiboot_raw_info)
    (min max endp : Z) : outcome (Z * Z) :=
  let cur := (max, 0) in
  let cur := biosmem_find_boot_data_update min cur kernel_start kernel_end in
  let cur :=
    if negb (Z.land (flags mbi) MULTIBOOT_LOADER_CMDLINE =? 0)
       && negb (cmdline mbi =? 0)
    then biosmem_find_boot_data_update min cur (cmdline mbi)
           (u32 (cmdline mbi + unused0 mbi))
    else cur in
  cur ← (if negb (Z.land (flags mbi) MULTIBOOT_LOADER_MODULES =? 0) then
           let i := u32 (mods_count mbi * sizeof_module) in
           let cur := biosmem_find_boot_data_update min cur (mods_addr mbi)
                        (u32 (mods_addr mbi + i)) in
           boot_data_mods (Z.to_nat (mods_count mbi)) 0 mbi min cur
         else Ret cur);
  cur ← (if negb (Z.land (flags mbi) MULTIBOOT_LOADER_SHDR =? 0) then
           let tmp := u32 (shdr_num mbi * shdr_size mbi) in
           let cur := biosmem_find_boot_data_update min cur (shdr_addr mbi)
                        (u32 (shdr_addr mbi + tmp)) in
           boot_data_shdrs (Z.to_nat (shdr_num mbi)) 0 mbi min cur
         else Ret cur);
  if cur.1 =? max then Ret (0, endp) else Ret cur.

(** The [do ... while (next != 0)] loop of [biosmem_setup_allocator]; the
    result is [max_heap_start] and [max_heap_end]. *)
Fixpoint setup_allocator_loop (fuel : nat) (mbi : multiboot_raw_info)
    (mem_end next max_heap_start max_heap_end : Z) : outcome (Z * Z) :=
  match fuel with
  | O => Timeout
  | S fuel' =>
      let heap_start := next in
      '(heap_end, next) ← biosmem_find_boot_data mbi heap_start mem_end next;
      let '(heap_end, next) :=
        if heap_end =? 0 then (mem_end, 0) else (heap_end, next) in
      let '(max_heap_start, max_heap_end) :=
        if u32 (heap_end - heap_start) >? u32 (max_heap_end - max_heap_start)
        then (heap_start, heap_end) else (max_heap_start, max_heap_end) in
      if negb (next =? 0) then
        setup_allocator_loop fuel' mbi mem_end next max_heap_start
          max_heap_end
      else Ret (max_heap_start, max_heap_end)
  end.

(** The bound of the model on the turns of that loop: the number of ranges
    that [biosmem_find_boot_data] can look at, and two more. *)
Definition setup_allocator_fuel (mbi : multiboot_raw_info) : nat :=
  Z.to_nat (2 * mods_count mbi + shdr_num mbi + 6).

(** The end of the memory in which [biosmem_setup_allocator] looks for
    the heap, on a 32-bit target. *)
Definition allocator_mem_end (mbi : multiboot_raw_info) : Z :=
  let mem_end :=
    vm_page_trunc_ul (u32 (Z.shiftl (u32 (mem_upper mbi + 1024)) 10)) in
  if mem_end >? VM_PAGE_DIRECTMAP_LIMIT then u32 VM_PAGE_DIRECTMAP_LIMIT
  else mem_end.

(** [biosmem_setup_allocator]. *)
Definition biosmem_setup_allocator (mbi : multiboot_raw_info)
    (st : biosmem_state) : outcome biosmem_state :=
  let mem_end := allocator_mem_end mbi in
  '(max_heap_start, max_heap_end) ←
    setup_allocator_loop (setup_allocator_fuel mbi) mbi mem_end BIOSMEM_END
      0 0;
  let max_heap_start := VmPage.vm_page_round_ul max_heap_start in
  let max_heap_end := vm_page_trunc_ul max_heap_end in
  if max_heap_start >=? max_heap_end then Panic biosmem_panic_setup_msg
  else
    Ret (State (biosmem_map st) (biosmem_segments st) max_heap_start
           max_heap_end max_heap_end (phys_last_addr st)).

(** The ranges that [biosmem_find_boot_data] looks at, in its order: the
    kernel, the command line, the module table, each module and its
    command line, the section header table, the symbol and string
    tables. *)
Definition module_data (rmod : multiboot_raw_module) : list (Z * Z) :=
  (mod_start rmod, mod_end rmod)
  :: (if mod_string rmod =? 0 then []
      else [(mod_string rmod, u32 (mod_string rmod + mod_reserved rmod))]).

Definition shdr_data (shdr : elf_shdr) : list (Z * Z) :=
  if negb (sh_type shdr =? ELF_SHT_SYMTAB)
     && negb (sh_type shdr =? ELF_SHT_STRTAB)
  then [] else [(sh_addr shdr, u32 (sh_addr shdr + sh_size shdr))].

Definition boot_data (mbi : multiboot_raw_info) : list (Z * Z) :=
  (kernel_start, kernel_end)
  :: (if negb (Z.land (flags mbi) MULTIBOOT_LOADER_CMDLINE =? 0)
         && negb (cmdline mbi =? 0)
      then [(cmdline mbi, u32 (cmdline mbi + unused0 mbi))] else [])
  ++ (if negb (Z.land (flags mbi) MULTIBOOT_LOADER_MODULES =? 0)
      then (mods_addr mbi,
            u32 (mods_addr mbi + u32 (mods_count mbi * sizeof_module)))
           :: (take (Z.to_nat (mods_count mbi)) (mods mbi) ≫= module_data)
      else [])
  ++ (if negb (Z.land (flags mbi) MULTIBOOT_LOADER_SHDR =? 0)
      then (shdr_addr mbi,
            u32 (shdr_addr mbi + u32 (shdr_num mbi * shdr_size mbi)))
           :: (take (Z.to_nat (shdr_num mbi)) (shdrs mbi) ≫= shdr_data)
      else []).

End BootData.

(** A machine with 128 MiB of memory, a command line and a module table
    in low memory, and one module from 8 MiB to 9 MiB; the flag bits of the
    command line and of the modules, 4 and 8, are set. *)
Definition example_mbi : multiboot_raw_info :=
  Mbi 12 640 0x1fc00 0x9000 20 1 0x9100 0 0 0
      [RawModule 0x800000 0x900000 0x9200 10] [].

(** *** Handing the segments to the page allocator *)

Definition set_biosmem_segments (st : biosmem_state)
    (segs : list biosmem_segment) : biosmem_state :=
  State (biosmem_map st) segs (biosmem_heap_start st) (biosmem_heap_cur st)
        (biosmem_heap_end st) (phys_last_addr st).

Section Setup.

Variable VM_PAGE_SEG_DMA : Z.
Variable VM_PAGE_SEG_DMA32 : Z.
Variable VM_PAGE_SEG_DIRECTMAP : Z.
Variable VM_PAGE_SEG_HIGHMEM : Z.
Variable VM_PAGE_HIGHMEM_LIMIT : Z.

(** [vm_page_seg_name] of [vm/vm_page.c]. *)
Definition vm_page_seg_name (seg_index : Z) : outcome string :=
  if seg_index =? VM_PAGE_SEG_HIGHMEM then Ret "HIGHMEM"%string
  else if seg_index =? VM_PAGE_SEG_DIRECTMAP then Ret "DIRECTMAP"%string
  else if seg_index =? VM_PAGE_SEG_DMA32 then Ret "DMA32"%string
  else if seg_index =? VM_PAGE_SEG_DMA then Ret "DMA"%string
  else Panic "vm_page: invalid segment index".

(** The two adjustments of the available range in [biosmem_load_segment]. *)
Definition avail_start_cut (phys_start phys_end avail_start : Z) : Z :=
  if (avail_start <? phys_start) || (avail_start >=? phys_end)
  then phys_start else avail_start.

Definition avail_end_cut (phys_start phys_end avail_end : Z) : Z :=
  if (avail_end <=? phys_start) || (avail_end >? phys_end)
  then phys_end else avail_end.

(** The end of [biosmem_load_segment], once [phys_end] is settled: the
    available range is cut to the segment, recorded, and the segment is
    loaded. *)
Definition load_segment_avail (bst : biosmem_state)
    (vst : VmPage.vm_page_state) (seg_index : nat)
    (phys_start phys_end avail_start avail_end : Z)
  : outcome (biosmem_state * VmPage.vm_page_state) :=
  let avail_start := avail_start_cut phys_start phys_end avail_start in
  let avail_end := avail_end_cut phys_start phys_end avail_end in
  let segs :=
    alter (λ s, Segment (seg_start s) (seg_end s) avail_start avail_end)
          seg_index (biosmem_segments bst) in
  vst' ← VmPage.vm_page_load vst (Z.of_nat seg_index) phys_start phys_end
           avail_start avail_end;
  Ret (set_biosmem_segments bst segs, vst').

(** [biosmem_load_segment]; [seg_index] is the index of [seg] in
    [biosmem_segments].  The warnings are printed with the name of the
    segment, which [vm_page_seg_name] computes first. *)
Definition biosmem_load_segment (bst : biosmem_state)
    (vst : VmPage.vm_page_state) (seg_index : nat)
    (max_phys_end phys_start phys_end avail_start avail_end : Z)
  : outcome (biosmem_state * VmPage.vm_page_state) :=
  if phys_end >? max_phys_end then
    if max_phys_end <=? phys_start then
      _ ← vm_page_seg_name (Z.of_nat seg_index);
      Ret (bst, vst)
    else
      _ ← vm_page_seg_name (Z.of_nat seg_index);
      load_segment_avail bst vst seg_index phys_start max_phys_end
        avail_start avail_end
  else
    load_segment_avail bst vst seg_index phys_start phys_end
      avail_start avail_end.

(** The loop of [biosmem_setup] from the segment [i] on, [n] being the
    number of segments from [i] to the end of the array.
    [biosmem_map_show] only prints. *)
Fixpoint setup_loop (n i : nat) (bst : biosmem_state)
    (vst : VmPage.vm_page_state)
  : outcome (biosmem_state * VmPage.vm_page_state) :=
  match n with
  | O => Ret (bst, vst)
  | S n' =>
      if biosmem_segment_size (biosmem_segments bst) i =? 0 then
        Ret (bst, vst)
      else
        let seg := segment_at (biosmem_segments bst) i in
        '(bst', vst') ←
          biosmem_load_segment bst vst i VM_PAGE_HIGHMEM_LIMIT
            (seg_start seg) (seg_end seg)
            (biosmem_heap_start bst) (biosmem_heap_cur bst);
        setup_loop n' (S i) bst' vst'
  end.

Definition biosmem_setup (bst : biosmem_state) (vst : VmPage.vm_page_state)
  : outcome (biosmem_state * VmPage.vm_page_state) :=
  setup_loop (List.length (biosmem_segments bst)) 0 bst vst.

End Setup.

(** What holds when [biosmem_setup] has loaded the first [i] segments of
    the table [segs], with a heap from [heap_start] to [heap_cur], into a
    page allocator whose boot table was [boot_segs]: the bounds of the
    segments and the heap are as before, and each of these segments is
    recorded on both sides with its available range. *)
Definition setup_inv (segs : list biosmem_segment) (heap_start heap_cur : Z)
    (boot_segs : list VmPage.vm_page_boot_seg) (i : nat)
    (bst : biosmem_state) (vst : VmPage.vm_page_state) : Prop :=
  biosmem_heap_start bst = heap_start
  ∧ biosmem_heap_cur bst = heap_cur
  ∧ List.length (biosmem_segments bst) = List.length segs
  ∧ (∀ j, seg_start (segment_at (biosmem_segments bst) j)
          = seg_start (segment_at segs j)
          ∧ seg_end (segment_at (biosmem_segments bst) j)
            = seg_end (segment_at segs j))
  ∧ VmPage.vm_page_segs_size vst = Z.of_nat i
  ∧ List.length (VmPage.vm_page_boot_segs vst) = List.length segs
  ∧ (∀ j, (j < i)%nat →
       let s := seg_start (segment_at segs j) in
       let e := seg_end (segment_at segs j) in
       VmPage.vm_page_boot_segs vst !! j
       = Some (VmPage.BootSeg s e (avail_start_cut s e heap_start)
                 (avail_end_cut s e heap_cur))
       ∧ biosmem_segments bst !! j
         = Some (Segment s e (avail_start_cut s e heap_start)
                   (avail_end_cut s e heap_cur)))
  ∧ (∀ j, (i ≤ j)%nat →
       VmPage.vm_page_boot_segs vst !! j = boot_segs !! j).

(** *** Releasing the usable memory to the page allocator *)

Section Release.

Variable kernel_start : Z.      (* [_kvtophys(&_start)] *)
Variable kernel_end : Z.        (* [_kvtophys(&_end)] *)
Variable BIOSMEM_BASE : Z.
Variable VM_PAGE_HIGHMEM_LIMIT : Z.
Variable VM_PAGE_MAX_SEGS : nat.

(** The loop of [biosmem_free_usable_range]: [assert(page != NULL)] is the
    dereference of the result of the lookup.  The loop ends after at most
    one round for each page between [start] and [end_], which the fuel
    covers as long as the addition does not wrap around. *)
Fixpoint free_usable_range_loop (fuel : nat) (vst : VmPage.vm_page_state)
    (start end_ : Z) : outcome VmPage.vm_page_state :=
  match fuel with
  | O => Timeout
  | S fuel' =>
      if start <? end_ then
        page ← deref (VmPage.vm_page_lookup_pa vst start);
        vst' ← VmPage.vm_page_manage VM_PAGE_MAX_SEGS vst page;
        free_usable_range_loop fuel' vst' (u64 (start + PAGE_SIZE)) end_
      else Ret vst
  end.

Definition free_usable_fuel (start end_ : Z) : nat :=
  (Z.to_nat ((end_ - start) / PAGE_SIZE) + 2)%nat.

(** The message that the function prints first is left out. *)
Definition biosmem_free_usable_range (vst : VmPage.vm_page_state)
    (start end_ : Z) : outcome VmPage.vm_page_state :=
  free_usable_range_loop (free_usable_fuel start end_) vst start end_.

(** The new value of [*start]. *)
Definition biosmem_free_usable_update_start (start res_start res_end : Z)
  : Z :=
  if (start >=? res_start) && (start <? res_end) then res_end else start.

Definition biosmem_free_usable_start (bst : biosmem_state) (start : Z) : Z :=
  let start :=
    biosmem_free_usable_update_start start kernel_start kernel_end in
  let start :=
    biosmem_free_usable_update_start start (biosmem_heap_start bst)
      (biosmem_heap_end bst) in
  fold_left
    (λ start seg,
       biosmem_free_usable_update_start start (seg_avail_start seg)
         (seg_avail_end seg))
    (biosmem_segments bst) start.

Definition biosmem_free_usable_reserved (bst : biosmem_state) (addr : Z)
  : bool :=
  if (addr >=? kernel_start) && (addr <? kernel_end) then true
  else if (addr >=? biosmem_heap_start bst) && (addr <? biosmem_heap_end bst)
  then true
  else existsb
         (λ seg, (addr >=? seg_avail_start seg) && (addr <? seg_avail_end seg))
         (biosmem_segments bst).

Fixpoint free_usable_end_loop (fuel : nat) (bst : biosmem_state)
    (start entry_end : Z) : outcome Z :=
  match fuel with
  | O => Timeout
  | S fuel' =>
      if start <? entry_end then
        if biosmem_free_usable_reserved bst start then Ret start
        else free_usable_end_loop fuel' bst (u64 (start + PAGE_SIZE))
               entry_end
      else Ret start
  end.

Definition biosmem_free_usable_end (bst : biosmem_state)
    (start entry_end : Z) : outcome Z :=
  free_usable_end_loop (free_usable_fuel start entry_end) bst start entry_end.

(** The loop of [biosmem_free_usable_entry].  Every round but the last
    moves [start] forward, either past the end of a reserved range, which
    happens at most once for each of the ranges (the kernel, the heap and
    the available range of each segment), or by a page at least. *)
Fixpoint free_usable_entry_loop (fuel : nat) (bst : biosmem_state)
    (vst : VmPage.vm_page_state) (start entry_end : Z)
  : outcome VmPage.vm_page_state :=
  match fuel with
  | O => Timeout
  | S fuel' =>
      let start := biosmem_free_usable_start bst start in
      if start >=? entry_end then Ret vst
      else
        end_ ← biosmem_free_usable_end bst start entry_end;
        vst' ← biosmem_free_usable_range vst start end_;
        free_usable_entry_loop fuel' bst vst' end_ entry_end
  end.

Definition biosmem_free_usable_entry (bst : biosmem_state)
    (vst : VmPage.vm_page_state) (start end_ : Z)
  : outcome VmPage.vm_page_state :=
  free_usable_entry_loop
    (free_usable_fuel start end_ + List.length (biosmem_segments bst) + 3)
    bst vst start end_.

(** The loop of [biosmem_free_usable] over the entries of the map. *)
Fixpoint free_usable_loop (m : biosmem_map_t) (bst : biosmem_state)
    (vst : VmPage.vm_page_state) : outcome VmPage.vm_page_state :=
  match m with
  | [] => Ret vst
  | entry :: rest =>
      if negb (type entry =? BIOSMEM_TYPE_AVAILABLE) then
        free_usable_loop rest bst vst
      else
        let start := vm_page_round (base_addr entry) in
        if start >=? VM_PAGE_HIGHMEM_LIMIT then Ret vst
        else
          let end_ := vm_page_trunc (entry_end entry) in
          let start := if start <? BIOSMEM_BASE then BIOSMEM_BASE else start in
          vst' ← biosmem_free_usable_entry bst vst start end_;
          free_usable_loop rest bst vst'
  end.

Definition biosmem_free_usable (bst : biosmem_state)
    (vst : VmPage.vm_page_state) : outcome VmPage.vm_page_state :=
  free_usable_loop (biosmem_map bst) bst vst.

(** The addresses that [biosmem_free_usable] is to release for the map
    [m]: those that are not reserved and lie in an available entry that
    starts below the HIGHMEM limit, between the first page boundary of the
    entry, or [BIOSMEM_BASE] if that is higher, and its last page
    boundary. *)
Definition free_usable_address (bst : biosmem_state) (m : biosmem_map_t)
    (a : Z) : Prop :=
  biosmem_free_usable_reserved bst a = false
  ∧ ∃ e, e ∈ m
      ∧ type e = BIOSMEM_TYPE_AVAILABLE
      ∧ vm_page_round (base_addr e) < VM_PAGE_HIGHMEM_LIMIT
      ∧ Z.max BIOSMEM_BASE (vm_page_round (base_addr e)) ≤ a
        < vm_page_trunc (entry_end e).

End Release.

(** The page at the address [a] is a page of a loaded segment that
    nobody has been given yet: its descriptor is that of a reserved page of
    the segment [i], and the page is neither free nor in a pool. *)
Definition page_unmanaged (vst : VmPage.vm_page_state)
    (helds : list (list nat)) (a : Z) : Prop :=
  ∃ i seg k pg held,
    Z.of_nat i < VmPage.vm_page_segs_size vst
    ∧ VmPage.vm_page_segs vst !! i = Some seg
    ∧ VmPage.pages seg !! k = Some pg
    ∧ VmPage.page_pa seg k = a
    ∧ VmPage.page_type pg = VmPage.VM_PT_RESERVED
    ∧ VmPage.seg_index pg = Z.of_nat i
    ∧ helds !! i = Some held ∧ k ∈ held.

(** From [vst] to [vst'] no segment was loaded or moved, and the pages
    that are free in [vst'] are those that were free in [vst] and the pages
    of the loaded segments whose address satisfies [P]. *)
Definition released (vst vst' : VmPage.vm_page_state) (P : Z → Prop)
  : Prop :=
  VmPage.vm_page_segs_size vst' = VmPage.vm_page_segs_size vst
  ∧ List.length (VmPage.vm_page_segs vst')
    = List.length (VmPage.vm_page_segs vst)
  ∧ ∀ i seg, VmPage.vm_page_segs vst !! i = Some seg →
      ∃ seg',
        VmPage.vm_page_segs vst' !! i = Some seg'
        ∧ VmPage.seg_start seg' = VmPage.seg_start seg
        ∧ VmPage.seg_end seg' = VmPage.seg_end seg
        ∧ List.length (VmPage.pages seg') = List.length (VmPage.pages seg)
        ∧ ∀ k, VmPage.page_free seg' k
               ↔ VmPage.page_free seg k
                 ∨ ((k < List.length (VmPage.pages seg))%nat
                    ∧ Z.of_nat i < VmPage.vm_page_segs_size vst
                    ∧ P (VmPage.page_pa seg k)).

(** A boot state for the segment of [VmPage.example_state]: the kernel
    and the heap lie above it, and its available range is the one the page
    allocator was set up with. *)
Definition example_release_state : biosmem_state :=
  State [Entry 0x10000 0x8000 BIOSMEM_TYPE_AVAILABLE]
        [Segment 0x10000 0x18000 0x11000 0x18000]
        0x200000 0x300000 0x300000 0x18000.

End Boot.

(** * Properties *)

Lemma bind_Ret_inv {A B} (m : outcome A) (k : A → outcome B) (b : B) :
  m ≫= k = Ret b → ∃ a, m = Ret a ∧ k a = Ret b.
Proof. destruct m; simpl; intros; try discriminate; eauto. Qed.

Lemma assert_Ret_inv (b : bool) (u : unit) : assert b = Ret u → b = true.
Proof. destruct b; simpl; intros; [done | discriminate]. Qed.

Lemma deref_Ret_inv {A} (o : option A) (a : A) : deref o = Ret a → o = Some a.
Proof. destruct o; simpl; intros; [congruence | discriminate]. Qed.

Lemma vm_page_ptoa_mul (n : Z) : vm_page_ptoa n = n * 4096.
Proof. unfold vm_page_ptoa, PAGE_SHIFT. by rewrite Z.shiftl_mul_pow2. Qed.

Lemma vm_page_atop_div (a : Z) : vm_page_atop a = a / 4096.
Proof. unfold vm_page_atop, PAGE_SHIFT. by rewrite Z.shiftr_div_pow2. Qed.

Lemma u64_small (x : Z) : 0 ≤ x < 2 ^ 64 → u64 x = x.
Proof. intros. unfold u64. by apply Z.mod_small. Qed.

Lemma u32_small (x : Z) : 0 ≤ x < 2 ^ 32 → u32 x = x.
Proof. intros. unfold u32. by apply Z.mod_small. Qed.

Module BiosmemTheory.
Import Biosmem.

(** ** The memory map *)

(** C4 fails on a map with three entries, the second and third inside the
    first: after [biosmem_map_adjust] the first entry, available, still
    reaches into the second, reserved.  The end of [a] is computed once
    before the inner loop and is stale once [a] has been cut. *)
Theorem adjust_leaves_overlap :
  biosmem_map_adjust
    [Entry 0 0x1000 BIOSMEM_TYPE_AVAILABLE;
     Entry 0x800 0x1000 BIOSMEM_TYPE_RESERVED;
     Entry 0x900 0x100 BIOSMEM_TYPE_AVAILABLE]
  = Ret [Entry 0 0xa00 BIOSMEM_TYPE_AVAILABLE;
         Entry 0x800 0x800 BIOSMEM_TYPE_RESERVED;
         Entry 0x1000 0x800 BIOSMEM_TYPE_RESERVED]
  ∧ map_canonical
      [Entry 0 0xa00 BIOSMEM_TYPE_AVAILABLE;
       Entry 0x800 0x800 BIOSMEM_TYPE_RESERVED;
       Entry 0x1000 0x800 BIOSMEM_TYPE_RESERVED] = false.
Proof. split; reflexivity. Qed.

Lemma entry_end_range (e : biosmem_map_entry) :
  0 ≤ base_addr e → 0 ≤ length e → range_end e < 2 ^ 64 →
  entry_end e = range_end e.
Proof. intros. unfold entry_end, range_end in *. apply u64_small. lia. Qed.

Lemma invalid_iff_empty (e : biosmem_map_entry) :
  0 ≤ base_addr e → 0 ≤ length e → range_end e < 2 ^ 64 →
  biosmem_map_entry_is_invalid e = (length e =? 0).
Proof.
  intros. unfold biosmem_map_entry_is_invalid. rewrite entry_end_range by done.
  unfold range_end.
  destruct (Z.leb_spec (base_addr e + length e) (base_addr e));
    destruct (Z.eqb_spec (length e) 0); (done || lia).
Qed.

Lemma merge_span (x tmp : biosmem_map_entry) :
  0 ≤ length x → 0 ≤ length tmp → length x + length tmp < 2 ^ 64 →
  biosmem_map_merge x tmp = span x tmp.
Proof.
  intros. unfold biosmem_map_merge, span. rewrite u64_small by lia.
  f_equal. destruct (Z.gtb_spec (base_addr x) (base_addr tmp)); lia.
Qed.

(** The split computes the three pieces. *)
Lemma split_pieces (a b : biosmem_map_entry) :
  entry_ok a → entry_ok b → ranges_intersect a b →
  biosmem_map_split a b (entry_end a) (entry_end b)
  = Split
      (if base_addr a <? base_addr b then piece_prefix a b
       else piece_suffix a b)
      (if base_addr a <? base_addr b then piece_suffix a b
       else piece_prefix a b)
      (piece_inter a b).
Proof.
  intros (Ha0 & Hal & Hae) (Hb0 & Hbl & Hbe) [Hab Hba].
  rewrite !entry_end_range by (unfold range_end; lia).
  unfold biosmem_map_split, piece_prefix, piece_suffix, piece_inter,
    set_length, range_end in *.
  destruct (Z.ltb_spec (base_addr a) (base_addr b));
    destruct (Z.gtb_spec (base_addr a + length a) (base_addr b + length b));
    simpl;
    repeat match goal with
           | |- context [u64 ?x] => rewrite (u64_small x) by lia
           end;
    repeat f_equal; lia.
Qed.

Lemma pieces_ok (a b : biosmem_map_entry) :
  entry_ok a → entry_ok b → ranges_intersect a b →
  (0 ≤ base_addr (piece_prefix a b) ∧ 0 ≤ length (piece_prefix a b)
   ∧ range_end (piece_prefix a b) < 2 ^ 64)
  ∧ (0 ≤ base_addr (piece_suffix a b) ∧ 0 ≤ length (piece_suffix a b)
     ∧ range_end (piece_suffix a b) < 2 ^ 64)
  ∧ (0 ≤ base_addr (piece_inter a b) ∧ 0 < length (piece_inter a b)
     ∧ range_end (piece_inter a b) < 2 ^ 64)
  ∧ length (piece_prefix a b) + length (piece_inter a b) < 2 ^ 64
  ∧ length (piece_suffix a b) + length (piece_inter a b) < 2 ^ 64.
Proof.
  intros (Ha0 & Hal & Hae) (Hb0 & Hbl & Hbe) [Hab Hba].
  unfold piece_prefix, piece_suffix, piece_inter, range_end in *.
  destruct (Z.ltb_spec (base_addr a) (base_addr b));
    destruct (Z.gtb_spec (base_addr a + length a) (base_addr b + length b));
    simpl; lia.
Qed.

Lemma overlap_test_intersect (a b : biosmem_map_entry) :
  entry_ok a → entry_ok b →
  overlap_test a b (entry_end a) = true ↔ ranges_intersect a b.
Proof.
  intros (Ha0 & Hal & Hae) (Hb0 & Hbl & Hbe).
  unfold overlap_test, ranges_intersect.
  rewrite !entry_end_range by (unfold range_end; lia).
  rewrite negb_true_iff, orb_false_iff, Z.geb_leb, !Z.leb_gt. tauto.
Qed.

(** C5, amended: for two intersecting entries [a] and [b], with the end of
    [a] up to date, the pass cuts them into prefix, intersection and suffix;
    the intersection has the higher type, the prefix the type of the entry
    that starts first, the suffix the type of the entry that ends last.
    When the cut leaves [a] and [b] both empty the intersection takes the
    place of [a] and [b] is removed; when it leaves one of them empty the
    intersection takes the place of that one; nothing is merged or added in
    these cases.  When both keep a piece, the intersection is merged into
    the one that has its type, [a] first, and else added at the end of the
    map, with a panic when the map already holds 256 entries. *)
Theorem adjust_pair_cases (m : biosmem_map_t) (i j : nat)
    (a b : biosmem_map_entry) :
  entry_ok a → entry_ok b → ranges_intersect a b →
  let a' := if base_addr a <? base_addr b then piece_prefix a b
            else piece_suffix a b in
  let b' := if base_addr a <? base_addr b then piece_suffix a b
            else piece_prefix a b in
  let tmp := piece_inter a b in
  overlap_test a b (entry_end a) = true
  ∧ biosmem_map_adjust_pair m i j a b (entry_end a)
    = if (length a' =? 0) && (length b' =? 0)
      then Ret (delete j (<[i := tmp]> m), j)
      else if length a' =? 0 then Ret (<[j := b']> (<[i := tmp]> m), S j)
      else if length b' =? 0 then Ret (<[j := tmp]> (<[i := a']> m), S j)
      else m' ← resolve_pair_spec m i j a b; Ret (m', S j).
Proof.
  intros Ha Hb Hint a' b' tmp.
  split; [by apply overlap_test_intersect |].
  destruct (pieces_ok a b Ha Hb Hint)
    as ((Hp0 & Hpl & Hpe) & (Hs0 & Hsl & Hse) & (Ht0 & Htl & Hte) & Hpt & Hst).
  unfold biosmem_map_adjust_pair, resolve_pair_spec.
  rewrite split_pieces by done. simpl. fold a' b' tmp.
  assert (Ha' : biosmem_map_entry_is_invalid a' = (length a' =? 0)).
  { subst a'. destruct (base_addr a <? base_addr b);
      by apply invalid_iff_empty. }
  assert (Hb' : biosmem_map_entry_is_invalid b' = (length b' =? 0)).
  { subst b'. destruct (base_addr a <? base_addr b);
      by apply invalid_iff_empty. }
  assert (Hma : biosmem_map_merge a' tmp = span a' tmp).
  { subst a' tmp. destruct (base_addr a <? base_addr b);
      apply merge_span; lia. }
  assert (Hmb : biosmem_map_merge b' tmp = span b' tmp).
  { subst b' tmp. destruct (base_addr a <? base_addr b);
      apply merge_span; lia. }
  rewrite Ha', Hb', Hma, Hmb.
  destruct (length a' =? 0); destruct (length b' =? 0); simpl; try done.
  destruct (_ =? type a'); [done |].
  destruct (_ =? type b'); [done |].
  by destruct (_ >=? ARRAY_SIZE_biosmem_map).
Qed.

Lemma adjust_pair_cases_witness :
  let a := Entry 0 0x1000 BIOSMEM_TYPE_AVAILABLE in
  let b := Entry 0x800 0x1000 BIOSMEM_TYPE_RESERVED in
  biosmem_map_adjust_pair [a; b] 0 1 a b (entry_end a)
  = Ret ([Entry 0 0x800 BIOSMEM_TYPE_AVAILABLE;
          Entry 0x800 0x1000 BIOSMEM_TYPE_RESERVED], 2%nat).
Proof.
  intros a b.
  refine (eq_trans (proj2 (adjust_pair_cases [a; b] 0 1 a b _ _ _)) _).
  - unfold entry_ok; simpl; lia.
  - unfold entry_ok; simpl; lia.
  - unfold ranges_intersect, range_end; simpl; lia.
  - reflexivity.
Defined.

(** C5 as stated fails when the cut empties an entry: [a] holds a reserved
    range and [b] an available one with the same base and half the length.
    The intersection is reserved, like what is left of [a], yet it is not
    merged into it: it replaces [b], which the cut left empty. *)
Lemma adjust_pair_emptied_not_merged :
  let a := Entry 0 0x2000 BIOSMEM_TYPE_RESERVED in
  let b := Entry 0 0x1000 BIOSMEM_TYPE_AVAILABLE in
  ranges_intersect a b
  ∧ type (piece_inter a b) = type (piece_suffix a b)
  ∧ resolve_pair_spec [a; b] 0 1 a b
    = Ret [Entry 0 0x2000 BIOSMEM_TYPE_RESERVED;
           Entry 0 0 BIOSMEM_TYPE_AVAILABLE]
  ∧ biosmem_map_adjust_pair [a; b] 0 1 a b (entry_end a)
    = Ret ([Entry 0x1000 0x1000 BIOSMEM_TYPE_RESERVED;
            Entry 0 0x1000 BIOSMEM_TYPE_RESERVED], 2%nat).
Proof.
  repeat split; try reflexivity; unfold range_end; simpl; lia.
Qed.

(** ** The bootstrap allocator *)

(** C8, amended: as long as [n * page_size] fits the 32 bits of the size,
    [biosmem_bootalloc] before the page allocator is ready has exactly three
    outcomes: a panic for [n = 0], a panic when the cursor would fall below
    the start of the heap, and otherwise the cursor moved down by
    [n * page_size] and returned. *)
Theorem bootalloc_outcomes (st : biosmem_state) (n : Z) :
  heap_ok st → 0 ≤ n → n * PAGE_SIZE < 2 ^ 32 →
  biosmem_bootalloc false st n =
    if n =? 0 then Panic biosmem_panic_inval_msg
    else if biosmem_heap_cur st - n * PAGE_SIZE <? biosmem_heap_start st
         then Panic biosmem_panic_nomem_msg
         else Ret (biosmem_heap_cur st - n * PAGE_SIZE,
                   set_heap_cur st (biosmem_heap_cur st - n * PAGE_SIZE)).
Proof.
  intros (Hs & Hc & Hlt) Hn Hfit. unfold biosmem_bootalloc, PAGE_SIZE in *.
  simpl. rewrite vm_page_ptoa_mul, u32_small by lia.
  destruct (Z.eqb_spec n 0) as [-> | Hn0]; [done |].
  destruct (Z.eqb_spec (n * 4096) 0); [lia |].
  destruct (Z.ltb_spec (biosmem_heap_cur st - n * 4096) (biosmem_heap_start st))
    as [Hlow | Hfits].
  - (* the subtraction wraps, or stops short of the heap *)
    destruct (Z.ltb_spec (biosmem_heap_cur st - n * 4096) 0).
    + replace (u32 (biosmem_heap_cur st - n * 4096))
        with (biosmem_heap_cur st - n * 4096 + 2 ^ 32).
      * destruct (Z.gtb_spec (biosmem_heap_cur st - n * 4096 + 2 ^ 32)
                             (biosmem_heap_cur st)); [| lia].
        by rewrite orb_true_r.
      * unfold u32. apply Z.mod_unique with (-1); lia.
    + rewrite u32_small by lia.
      by destruct (Z.ltb_spec (biosmem_heap_cur st - n * 4096)
                              (biosmem_heap_start st)); [| lia].
  - rewrite u32_small by lia.
    destruct (Z.ltb_spec (biosmem_heap_cur st - n * 4096)
                         (biosmem_heap_start st)); [lia |].
    by destruct (Z.gtb_spec (biosmem_heap_cur st - n * 4096)
                            (biosmem_heap_cur st)); [lia |].
Qed.

Lemma bootalloc_outcomes_witness :
  biosmem_bootalloc false (State [] [] 0x100000 0x200000 0x200000 0) 3
  = Ret (0x1fd000, State [] [] 0x100000 0x1fd000 0x200000 0).
Proof.
  apply (bootalloc_outcomes (State [] [] 0x100000 0x200000 0x200000 0) 3);
    unfold heap_ok, PAGE_SIZE; simpl; lia.
Defined.

(** C8 as stated fails for a request whose size in bytes does not fit 32
    bits: with one page left above the start of the heap, a request for
    [2^20 + 1] pages, which would put the cursor far below the heap, returns
    the cursor moved down by a single page. *)
Lemma bootalloc_size_wraps :
  let st := State [] [] 0x1ff000 0x200000 0x200000 0 in
  heap_ok st
  ∧ biosmem_heap_cur st - (2 ^ 20 + 1) * PAGE_SIZE < biosmem_heap_start st
  ∧ biosmem_bootalloc false st (2 ^ 20 + 1)
    = Ret (biosmem_heap_cur st - PAGE_SIZE,
           set_heap_cur st (biosmem_heap_cur st - PAGE_SIZE)).
Proof. repeat split; try done; vm_compute; congruence. Qed.

(** ** The directly mapped memory *)

Lemma segment_size_nonempty (segs : list biosmem_segment) (i : nat) :
  segments_ok segs →
  negb (biosmem_segment_size segs i =? 0) = true ↔ segment_nonempty segs i.
Proof.
  intros Hok. destruct (Hok i) as (H0 & Hle & Hlt).
  unfold biosmem_segment_size, segment_nonempty.
  rewrite u64_small by lia. rewrite negb_true_iff, Z.eqb_neq. lia.
Qed.

(** C10: [biosmem_directmap_size] is the end of the DIRECTMAP segment when
    that segment is not empty, else the end of the DMA32 segment when that
    one is not empty, else the end of the DMA segment; it is not zero when
    the DMA segment was loaded. *)
Theorem directmap_size_fallback (DMA DMA32 DIRECTMAP : nat)
    (st : biosmem_state) :
  segments_ok (biosmem_segments st) →
  let segs := biosmem_segments st in
  let size := biosmem_directmap_size DMA DMA32 DIRECTMAP st in
  (segment_nonempty segs DIRECTMAP → size = biosmem_segment_end segs DIRECTMAP)
  ∧ (¬ segment_nonempty segs DIRECTMAP → segment_nonempty segs DMA32 →
     size = biosmem_segment_end segs DMA32)
  ∧ (¬ segment_nonempty segs DIRECTMAP → ¬ segment_nonempty segs DMA32 →
     size = biosmem_segment_end segs DMA)
  ∧ (biosmem_segment_end segs DMA ≠ 0 → size ≠ 0).
Proof.
  intros Hok segs size. subst size segs. unfold biosmem_directmap_size.
  set (segs := biosmem_segments st) in *. clearbody segs.
  pose proof (segment_size_nonempty segs DIRECTMAP Hok) as Hd.
  pose proof (segment_size_nonempty segs DMA32 Hok) as H32.
  pose proof (Hok DIRECTMAP) as Hrd. pose proof (Hok DMA32) as Hr32.
  unfold biosmem_segment_end, segment_nonempty in *.
  destruct (negb (biosmem_segment_size segs DIRECTMAP =? 0)).
  - assert (seg_start (segment_at segs DIRECTMAP)
            < seg_end (segment_at segs DIRECTMAP)) by by apply Hd.
    repeat split; intros; (done || lia).
  - assert (¬ seg_start (segment_at segs DIRECTMAP)
              < seg_end (segment_at segs DIRECTMAP))
      by (intros ?%Hd; discriminate).
    destruct (negb (biosmem_segment_size segs DMA32 =? 0)).
    + assert (seg_start (segment_at segs DMA32)
              < seg_end (segment_at segs DMA32)) by by apply H32.
      repeat split; intros; (done || lia).
    + assert (¬ seg_start (segment_at segs DMA32)
                < seg_end (segment_at segs DMA32))
        by (intros ?%H32; discriminate).
      repeat split; intros; (done || lia).
Qed.

Lemma directmap_size_fallback_witness :
  biosmem_directmap_size 0 1 1
    (State [] [Segment 0x10000 0x1000000 0 0; Segment 0 0 0 0;
               Segment 0 0 0 0] 0 0 0 0) ≠ 0.
Proof.
  refine (proj2 (proj2 (proj2 (directmap_size_fallback 0 1 1
    (State [] [Segment 0x10000 0x1000000 0 0; Segment 0 0 0 0;
               Segment 0 0 0 0] 0 0 0 0) _))) _).
  - intros i. unfold segment_at. simpl.
    destruct i as [| [| [| i]]]; simpl; lia.
  - simpl. unfold biosmem_segment_end, segment_at. simpl. lia.
Defined.

(** ** Segment partitioning *)

Lemma find_avail_loop_end (m : biosmem_map_t) (ps pe ss se : Z) :
  se = PHYS_ADDR_MAX ∨ ps < se →
  (find_avail_loop m ps pe ss se).2 = PHYS_ADDR_MAX
  ∨ ps < (find_avail_loop m ps pe ss se).2.
Proof.
  revert ss se. induction m as [| entry rest IH]; intros ss se Hse; [done |].
  simpl. destruct (negb (type entry =? BIOSMEM_TYPE_AVAILABLE)); [by apply IH |].
  destruct (vm_page_round (base_addr entry) >=? pe); [done |].
  destruct (_ && _) eqn:Hq; [| by apply IH].
  apply IH. right.
  apply andb_true_iff in Hq as [_ Hq]. by apply Z.gtb_lt in Hq.
Qed.

(** A segment found between [ps] and [pe] ends between them. *)
Lemma find_avail_end_bounds (m : biosmem_map_t) (ps pe s e : Z) :
  ps ≤ pe → biosmem_map_find_avail m ps pe = Some (s, e) → ps ≤ e ≤ pe.
Proof.
  intros Hle. unfold biosmem_map_find_avail.
  pose proof (find_avail_loop_end m ps pe PHYS_ADDR_MAX PHYS_ADDR_MAX
                (or_introl eq_refl)) as Hend.
  destruct (find_avail_loop m ps pe PHYS_ADDR_MAX PHYS_ADDR_MAX)
    as [seg_start seg_end]. simpl in Hend.
  destruct (Z.eqb_spec seg_start PHYS_ADDR_MAX); [done |].
  destruct (Z.eqb_spec seg_end PHYS_ADDR_MAX); [done |]. simpl.
  intros [= <- <-]. destruct Hend as [? | ?]; [done |].
  destruct (Z.ltb_spec seg_end pe); lia.
Qed.

Lemma segment_at_replicate (n i : nat) :
  segment_at (replicate n (Segment 0 0 0 0)) i = Segment 0 0 0 0.
Proof.
  unfold segment_at. destruct (replicate _ _ !! i) eqn:E; [| done].
  by apply lookup_replicate in E as [-> _].
Qed.

Lemma segment_end_set (segs : list biosmem_segment) (i j : nat) (s e : Z) :
  seg_end (segment_at (biosmem_set_segment segs i s e) j)
  = if decide (i = j ∧ (i < List.length segs)%nat) then e
    else seg_end (segment_at segs j).
Proof.
  unfold segment_at, biosmem_set_segment.
  destruct (decide (i = j)) as [<- | Hne].
  - rewrite list_lookup_alter_eq.
    destruct (segs !! i) eqn:E; simpl.
    + apply lookup_lt_Some in E. by rewrite decide_True by done.
    + apply lookup_ge_None in E. by rewrite decide_False by lia.
  - rewrite list_lookup_alter_ne by done. by rewrite decide_False by tauto.
Qed.

Lemma set_segment_length (segs : list biosmem_segment) (i : nat) (s e : Z) :
  List.length (biosmem_set_segment segs i s e) = List.length segs.
Proof. unfold biosmem_set_segment. by rewrite length_alter. Qed.

(** C9, amended: the address recorded in [phys_last_addr] is the highest
    end address among the DMA, DMA32 and DIRECTMAP segments of the table;
    the HIGHMEM segment does not count. *)
Theorem phys_last_addr_directmap_end
    (BIOSMEM_BASE DMA_LIMIT : Z) (DMA32_LIMIT : option Z)
    (DIRECTMAP_LIMIT HIGHMEM_LIMIT : Z) (MAX_SEGS : nat)
    (DMA DMA32 DIRECTMAP HIGHMEM : nat)
    (m : biosmem_map_t) (st : biosmem_state) :
  0 ≤ BIOSMEM_BASE ≤ DMA_LIMIT →
  DMA_LIMIT ≤ default DMA_LIMIT DMA32_LIMIT →
  default DMA_LIMIT DMA32_LIMIT ≤ DIRECTMAP_LIMIT →
  (DMA < MAX_SEGS)%nat → (DIRECTMAP < MAX_SEGS)%nat →
  (is_Some DMA32_LIMIT → (DMA32 < MAX_SEGS)%nat) →
  HIGHMEM ≠ DMA → HIGHMEM ≠ DMA32 → HIGHMEM ≠ DIRECTMAP →
  biosmem_bootstrap_common BIOSMEM_BASE DMA_LIMIT DMA32_LIMIT DIRECTMAP_LIMIT
    HIGHMEM_LIMIT DMA DMA32 DIRECTMAP HIGHMEM (biosmem_boot_state MAX_SEGS m)
  = Ret st →
  phys_last_addr st
  = Z.max (biosmem_segment_end (biosmem_segments st) DMA)
      (Z.max (biosmem_segment_end (biosmem_segments st) DMA32)
             (biosmem_segment_end (biosmem_segments st) DIRECTMAP)).
Proof.
  intros Hbase H32 Hdm Hdma Hdirect Hdma32 Hh1 Hh2 Hh3.
  unfold biosmem_bootstrap_common. simpl.
  intros (m' & _ & Hrun)%bind_Ret_inv.
  apply bind_Ret_inv in Hrun as ([segs last] & Hsegs & [= <-]). simpl.
  revert Hsegs. unfold bootstrap_segments, bootstrap_directmap.
  set (zero := replicate MAX_SEGS (Segment 0 0 0 0)).
  assert (Hlen : List.length zero = MAX_SEGS) by apply length_replicate.
  assert (Hzero : ∀ i, seg_end (segment_at zero i) = 0)
    by (intros i; unfold zero; by rewrite segment_at_replicate).
  clearbody zero.
  destruct (biosmem_map_find_avail m' BIOSMEM_BASE DMA_LIMIT)
    as [[s1 e1] |] eqn:E1; [| done].
  apply find_avail_end_bounds in E1; [| lia].
  destruct DMA32_LIMIT as [dma32_limit |]; simpl in *.
  - destruct (biosmem_map_find_avail m' DMA_LIMIT dma32_limit)
      as [[s2 e2] |] eqn:E2.
    + apply find_avail_end_bounds in E2; [| lia].
      destruct (biosmem_map_find_avail m' dma32_limit DIRECTMAP_LIMIT)
        as [[s3 e3] |] eqn:E3.
      * apply find_avail_end_bounds in E3; [| lia].
        destruct (biosmem_map_find_avail m' DIRECTMAP_LIMIT HIGHMEM_LIMIT)
          as [[s4 e4] |]; intros [= <- <-]; unfold biosmem_segment_end;
          rewrite ?segment_end_set, ?set_segment_length, ?Hzero, ?Hlen;
          repeat case_decide; lia.
      * intros [= <- <-]. unfold biosmem_segment_end.
        rewrite ?segment_end_set, ?set_segment_length, ?Hzero, ?Hlen.
        specialize (Hdma32 (mk_is_Some _ _ eq_refl)).
        repeat case_decide; lia.
    + intros [= <- <-]. unfold biosmem_segment_end.
      rewrite ?segment_end_set, ?set_segment_length, ?Hzero, ?Hlen.
      repeat case_decide; lia.
  - destruct (biosmem_map_find_avail m' DMA_LIMIT DIRECTMAP_LIMIT)
      as [[s3 e3] |] eqn:E3.
    + apply find_avail_end_bounds in E3; [| lia].
      destruct (biosmem_map_find_avail m' DIRECTMAP_LIMIT HIGHMEM_LIMIT)
        as [[s4 e4] |]; intros [= <- <-]; unfold biosmem_segment_end;
        rewrite ?segment_end_set, ?set_segment_length, ?Hzero, ?Hlen;
        repeat case_decide; lia.
    + intros [= <- <-]. unfold biosmem_segment_end.
      rewrite ?segment_end_set, ?set_segment_length, ?Hzero, ?Hlen.
      repeat case_decide; lia.
Qed.

Lemma phys_last_addr_directmap_end_witness :
  ∃ st,
    biosmem_bootstrap_common 0x10000 0x1000000 None 0x38000000
      0x10000000000000 0 1 1 2
      (biosmem_boot_state 3 [Entry 0 0x80000000 BIOSMEM_TYPE_AVAILABLE])
    = Ret st
    ∧ phys_last_addr st
      = Z.max (biosmem_segment_end (biosmem_segments st) 0)
          (Z.max (biosmem_segment_end (biosmem_segments st) 1)
                 (biosmem_segment_end (biosmem_segments st) 1)).
Proof.
  eexists. split; [reflexivity |].
  apply (phys_last_addr_directmap_end 0x10000 0x1000000 None 0x38000000
           0x10000000000000 3 0 1 1 2
           [Entry 0 0x80000000 BIOSMEM_TYPE_AVAILABLE]);
    simpl; try lia; reflexivity.
Defined.

(** C9 as stated fails when a HIGHMEM segment is loaded: with 2 GiB of
    available memory and the direct mapping limited to 896 MiB, the HIGHMEM
    segment ends at 2 GiB, and [phys_last_addr] is the end of the DIRECTMAP
    segment, 896 MiB. *)
Lemma phys_last_addr_below_highmem :
  ∃ st,
    biosmem_bootstrap_common 0x10000 0x1000000 None 0x38000000
      0x10000000000000 0 1 1 2
      (biosmem_boot_state 3 [Entry 0 0x80000000 BIOSMEM_TYPE_AVAILABLE])
    = Ret st
    ∧ segment_nonempty (biosmem_segments st) 2
    ∧ biosmem_segment_end (biosmem_segments st) 2 = 0x80000000
    ∧ phys_last_addr st = 0x38000000.
Proof. eexists. split; [reflexivity |]. by vm_compute. Qed.

End BiosmemTheory.

Module VmPageTheory.
Import VmPage.

(** ** Bit arithmetic on aligned addresses *)

Lemma pow2_pos (k : Z) : 0 ≤ k → 0 < 2 ^ k.
Proof. intros. by apply Z.pow_pos_nonneg. Qed.

Lemma land_pow2_even (a k : Z) :
  0 ≤ k → Z.odd (a / 2 ^ k) = false → Z.land a (2 ^ k) = 0.
Proof.
  intros Hk Hodd. apply Z.bits_inj'. intros n Hn.
  rewrite Z.land_spec, Z.bits_0, Z.pow2_bits_eqb by done.
  destruct (Z.eqb_spec k n) as [<- | ?]; [| by rewrite andb_false_r].
  by rewrite Z.testbit_odd, Z.shiftr_div_pow2, Hodd.
Qed.

Lemma lxor_pow2_even (a k : Z) :
  0 ≤ k → Z.odd (a / 2 ^ k) = false → Z.lxor a (2 ^ k) = a + 2 ^ k.
Proof.
  intros Hk Hodd. symmetry. apply Z.add_nocarry_lxor.
  by apply land_pow2_even.
Qed.

Lemma lxor_pow2_odd (a k : Z) :
  0 ≤ k → Z.odd (a / 2 ^ k) = true → Z.lxor a (2 ^ k) = a - 2 ^ k.
Proof.
  intros Hk Hodd.
  assert (Heven : Z.odd ((a - 2 ^ k) / 2 ^ k) = false).
  { replace (a - 2 ^ k) with (a + (-1) * 2 ^ k) by lia.
    rewrite Z.div_add by (pose proof (pow2_pos k Hk); lia).
    replace (a / 2 ^ k + -1) with (Z.pred (a / 2 ^ k)) by lia.
    by rewrite Z.odd_pred, <- Z.negb_odd, Hodd. }
  pose proof (lxor_pow2_even _ _ Hk Heven) as Hx.
  replace a with (Z.lxor (a - 2 ^ k) (2 ^ k)) at 1 by (rewrite Hx; lia).
  by rewrite Z.lxor_assoc, Z.lxor_nilpotent, Z.lxor_0_r.
Qed.

Lemma land_u64_mask (a m : Z) : 0 ≤ a < 2 ^ 64 → Z.land a (u64 m) = Z.land a m.
Proof.
  intros Ha. unfold u64. rewrite <- Z.land_ones by lia.
  rewrite (Z.land_comm m), Z.land_assoc, Z.land_ones by lia.
  by rewrite Z.mod_small.
Qed.

Lemma land_neg_pow2 (a k : Z) :
  0 ≤ k → Z.land a (- 2 ^ k) = a - a mod 2 ^ k.
Proof.
  intros Hk.
  replace (- 2 ^ k) with (Z.lnot (Z.ones k))
    by (rewrite Z.ones_equiv; unfold Z.lnot; lia).
  rewrite <- Z.ldiff_land, Z.ldiff_ones_r by done.
  rewrite Z.shiftr_div_pow2, Z.shiftl_mul_pow2 by done.
  pose proof (pow2_pos k Hk).
  pose proof (Z.div_mod a (2 ^ k)). lia.
Qed.

(** The buddy of an aligned block and the start of the two merged. *)
Lemma buddy_arith (pa k : Z) :
  0 ≤ k → 0 ≤ pa < 2 ^ 64 → pa mod 2 ^ k = 0 →
  let buddy_pa := Z.lxor pa (2 ^ k) in
  let pa' := Z.land pa (u64 (- 2 ^ (k + 1))) in
  pa' mod 2 ^ (k + 1) = 0
  ∧ ((buddy_pa = pa + 2 ^ k ∧ pa' = pa)
     ∨ (buddy_pa = pa - 2 ^ k ∧ pa' = buddy_pa ∧ 2 ^ k ≤ pa)).
Proof.
  intros Hk Hpa Hal. simpl.
  pose proof (pow2_pos k Hk) as Hpos.
  rewrite land_u64_mask, land_neg_pow2 by lia.
  assert (H2 : 2 ^ (k + 1) = 2 * 2 ^ k) by (rewrite Z.pow_add_r; lia).
  rewrite H2.
  assert (Hq : pa = 2 ^ k * (pa / 2 ^ k))
    by (pose proof (Z.div_mod pa (2 ^ k)); lia).
  assert (Hmod : pa mod (2 * 2 ^ k) = 2 ^ k * ((pa / 2 ^ k) mod 2)).
  { rewrite Hq at 1. rewrite (Z.mul_comm 2), Z.mul_mod_distr_l; lia. }
  split.
  { rewrite Hmod.
    pose proof (Z.div_mod (pa / 2 ^ k) 2).
    replace (pa - 2 ^ k * ((pa / 2 ^ k) mod 2))
      with ((pa / 2 ^ k / 2) * (2 * 2 ^ k)) by lia.
    apply Z.mod_mul. lia. }
  destruct (Z.odd (pa / 2 ^ k)) eqn:Hodd.
  - right. rewrite lxor_pow2_odd by done.
    rewrite Z.odd_spec in Hodd. destruct Hodd as [m Hm].
    assert ((pa / 2 ^ k) mod 2 = 1).
    { rewrite Hm. clear. Z.to_euclidean_division_equations. lia. }
    assert (0 ≤ pa / 2 ^ k) by (apply Z.div_pos; lia).
    rewrite Hmod, H. assert (1 ≤ pa / 2 ^ k) by lia.
    repeat split; nia.
  - left. rewrite lxor_pow2_even by done.
    assert (Hev : Z.even (pa / 2 ^ k) = true) by by rewrite <- Z.negb_odd, Hodd.
    rewrite Z.even_spec in Hev. destruct Hev as [m Hm].
    assert ((pa / 2 ^ k) mod 2 = 0).
    { rewrite Hm. clear. Z.to_euclidean_division_equations. lia. }
    rewrite Hmod, H. repeat split; lia.
Qed.

(** An unaligned address has an unaligned buddy. *)
Lemma lxor_pow2_mod (a k : Z) :
  0 ≤ k → Z.lxor a (2 ^ k) mod 2 ^ k = a mod 2 ^ k.
Proof.
  intros Hk. rewrite <- !Z.land_ones by done.
  apply Z.bits_inj'. intros n Hn.
  rewrite !Z.land_spec, Z.lxor_spec, Z.pow2_bits_eqb by done.
  destruct (Z.ltb_spec n k).
  - destruct (Z.eqb_spec k n); [lia |]. by rewrite xorb_false_r.
  - rewrite Z.ones_spec_high by lia. by rewrite !andb_false_r.
Qed.

(** ** Lists *)

Lemma alter_lookup_insert {A} (f : A → A) (l : list A) (i : nat) (x : A) :
  l !! i = Some x → alter f i l = <[i := f x]> l.
Proof.
  revert i. induction l as [| y l IH]; intros [| i] Hl; simplify_eq/=; [done |].
  f_equal. by apply IH.
Qed.

Lemma NoDup_bind_heads {A} `{EqDecision A} (f : A → list A) (l : list A) :
  (∀ x, x ∈ l → x ∈ f x) → NoDup (l ≫= f) → NoDup l.
Proof.
  induction l as [| x l IH]; intros Hhead; [constructor |].
  rewrite bind_cons, NoDup_app. intros (_ & Hdisj & Hnd).
  apply NoDup_cons. split.
  - intros Hin. apply (Hdisj x).
    + apply Hhead. by left.
    + apply list_elem_of_bind. exists x. split; [| done].
      apply Hhead. by right.
  - apply IH; [| done]. intros y Hy. apply Hhead. by right.
Qed.

Lemma NoDup_extract (l : list nat) (x : nat) :
  NoDup l → x ∈ l → l ≡ₚ x :: filter (λ y, y ≠ x) l.
Proof.
  intros Hnd Hin. apply NoDup_Permutation; [done | |].
  - apply NoDup_cons. split; [| by apply NoDup_filter].
    rewrite list_elem_of_filter. tauto.
  - intros y. rewrite elem_of_cons, list_elem_of_filter.
    destruct (decide (y = x)) as [-> | ?]; tauto.
Qed.

Lemma filter_ne_id (l : list nat) (x : nat) :
  x ∉ l → filter (λ y, y ≠ x) l = l.
Proof.
  induction l as [| y l IH]; intros Hnot; [done |].
  rewrite not_elem_of_cons in Hnot. destruct Hnot as [? ?].
  rewrite filter_cons_True by done. f_equal. by apply IH.
Qed.

Lemma bind_insert_perm {A B} (f : A → list B) (l : list A) (i : nat) (x y : A) :
  l !! i = Some x → f y ++ (l ≫= f) ≡ₚ f x ++ (<[i := y]> l ≫= f).
Proof.
  revert i. induction l as [| z l IH]; intros [| i] Hl; simplify_eq/=.
  - by rewrite !(assoc (++)), (comm (++) (f y)).
  - rewrite (assoc (++)), (comm (++) (f y)), <- (assoc (++)), (IH i Hl).
    by rewrite !(assoc (++)), (comm (++) (f z)).
Qed.

Lemma insert_fmap_id {A} (g : A → A) (l : list A) (i : nat) (y : A) :
  (∀ j x, j ≠ i → l !! j = Some x → g x = x) →
  <[i := y]> (g <$> l) = <[i := y]> l.
Proof.
  intros Hid. apply list_eq. intros j.
  rewrite !list_lookup_insert, length_fmap, list_lookup_fmap.
  case_decide as Hc; [done |].
  destruct (l !! j) as [x |] eqn:Hj; [simpl | done].
  destruct (decide (j = i)) as [-> | Hne].
  - apply lookup_lt_Some in Hj. lia.
  - f_equal. by eapply Hid.
Qed.

(** ** Blocks *)

Lemma block_pages_length (o p : nat) :
  List.length (block_pages o p) = (2 ^ o)%nat.
Proof. unfold block_pages. apply length_seq. Qed.

Lemma elem_of_block_pages (o p k : nat) :
  k ∈ block_pages o p ↔ (p ≤ k < p + 2 ^ o)%nat.
Proof. unfold block_pages. apply elem_of_seq. Qed.

Lemma pow2_nat_pos (o : nat) : (0 < 2 ^ o)%nat.
Proof. induction o; simpl; lia. Qed.

Lemma block_pages_head (o p : nat) : p ∈ block_pages o p.
Proof. apply elem_of_block_pages. pose proof (pow2_nat_pos o). lia. Qed.

Lemma block_pages_split (o p : nat) :
  block_pages (S o) p = block_pages o p ++ block_pages o (p + 2 ^ o).
Proof.
  unfold block_pages. replace (2 ^ S o)%nat with (2 ^ o + 2 ^ o)%nat
    by (simpl; lia).
  by rewrite seq_app.
Qed.

Lemma pow2_nat_Z (o : nat) : Z.of_nat (2 ^ o) = 2 ^ Z.of_nat o.
Proof. by rewrite Nat2Z.inj_pow. Qed.

Lemma length_bind_blocks (o : nat) (l : list nat) :
  List.length (l ≫= block_pages o) = (List.length l * 2 ^ o)%nat.
Proof.
  induction l as [| x l IH]; [done |].
  rewrite bind_cons, length_app, block_pages_length, IH. simpl. lia.
Qed.

(** ** The pages of the free lists *)

Lemma covered_from_insert_perm (o : nat) (fls : list vm_page_free_list)
    (i : nat) (fl fl2 : vm_page_free_list) :
  fls !! i = Some fl →
  (fl_blocks fl2 ≫= block_pages (o + i)) ++ covered_from o fls
  ≡ₚ (fl_blocks fl ≫= block_pages (o + i))
     ++ covered_from o (<[i := fl2]> fls).
Proof.
  revert o i. induction fls as [| z fls IH]; intros o [| i] Hl; simplify_eq/=.
  - rewrite Nat.add_0_r. by rewrite !(assoc (++)), (comm (++) (_ ≫= _)).
  - replace (o + S i)%nat with (S o + i)%nat by lia.
    rewrite (assoc (++)), (comm (++) (fl_blocks fl2 ≫= _)), <- (assoc (++)).
    rewrite (IH (S o) i Hl).
    by rewrite !(assoc (++)), (comm (++) (fl_blocks z ≫= _)).
Qed.

Lemma elem_of_covered_from (o : nat) (fls : list vm_page_free_list) (k : nat) :
  k ∈ covered_from o fls
  ↔ ∃ i fl page, fls !! i = Some fl ∧ page ∈ fl_blocks fl
                 ∧ k ∈ block_pages (o + i) page.
Proof.
  revert o. induction fls as [| z fls IH]; intros o; simpl.
  - split; [by intros ?%elem_of_nil | by intros (? & ? & ? & ? & _)].
  - rewrite elem_of_app, list_elem_of_bind, IH. split.
    + intros [(page & Hk & Hp) | (i & fl & page & Hl & Hp & Hk)].
      * exists 0%nat, z, page. by rewrite Nat.add_0_r.
      * exists (S i), fl, page. by replace (o + S i)%nat with (S o + i)%nat by lia.
    + intros ([| i] & fl & page & Hl & Hp & Hk).
      * left. exists page. rewrite Nat.add_0_r in Hk. by simplify_eq/=.
      * right. exists i, fl, page. split_and!; [done .. |].
        by replace (S o + i)%nat with (o + S i)%nat by lia.
Qed.

Lemma length_covered_from (o : nat) (fls : list vm_page_free_list) :
  Forall (λ fl, fl_size fl = Z.of_nat (List.length (fl_blocks fl))) fls →
  Z.of_nat (List.length (covered_from o fls)) = free_sum_from o fls.
Proof.
  intros Hsz. revert o. induction Hsz as [| z fls Hz _ IH]; intros o; [done |].
  simpl. rewrite length_app, length_bind_blocks, Nat2Z.inj_add, Nat2Z.inj_mul.
  by rewrite IH, Hz, pow2_nat_Z.
Qed.

(** A page heads at most one block of the free lists. *)
Lemma listed_once (o : nat) (fls : list vm_page_free_list) (i j : nat)
    (fl fl' : vm_page_free_list) (page : nat) :
  NoDup (covered_from o fls) →
  fls !! i = Some fl → page ∈ fl_blocks fl →
  fls !! j = Some fl' → page ∈ fl_blocks fl' → i = j.
Proof.
  intros Hnd Hi Hp Hj Hp'.
  destruct (decide (i = j)) as [| Hne]; [done | exfalso].
  pose proof (covered_from_insert_perm o fls i fl (FreeList 0 []) Hi) as Hperm.
  simpl in Hperm. rewrite Hperm in Hnd.
  apply NoDup_app in Hnd as (_ & Hdisj & _).
  apply (Hdisj page).
  - apply list_elem_of_bind. exists page. split; [apply block_pages_head | done].
  - apply elem_of_covered_from. exists j, fl', page.
    rewrite list_lookup_insert_ne by done. split_and!; [done .. |].
    apply block_pages_head.
Qed.

Lemma NoDup_covered_blocks (o : nat) (fls : list vm_page_free_list) (i : nat)
    (fl : vm_page_free_list) :
  NoDup (covered_from o fls) → fls !! i = Some fl →
  NoDup (fl_blocks fl ≫= block_pages (o + i)).
Proof.
  intros Hnd Hi.
  pose proof (covered_from_insert_perm o fls i fl (FreeList 0 []) Hi) as Hperm.
  simpl in Hperm. rewrite Hperm in Hnd.
  by apply NoDup_app in Hnd as (? & _ & _).
Qed.

Lemma NoDup_listed (o : nat) (fls : list vm_page_free_list) (i : nat)
    (fl : vm_page_free_list) :
  NoDup (covered_from o fls) → fls !! i = Some fl → NoDup (fl_blocks fl).
Proof.
  intros Hnd Hi. apply (NoDup_bind_heads (block_pages (o + i))).
  - intros. apply block_pages_head.
  - by eapply NoDup_covered_blocks.
Qed.

(** Unlinking the head of a listed block touches its list only. *)
Lemma list_remove_insert (o : nat) (fls : list vm_page_free_list) (i : nat)
    (fl : vm_page_free_list) (page : nat) (n : Z) :
  NoDup (covered_from o fls) → fls !! i = Some fl → page ∈ fl_blocks fl →
  list_remove page (<[i := FreeList n (fl_blocks fl)]> fls)
  = <[i := FreeList n (filter (λ x, x ≠ page) (fl_blocks fl))]> fls.
Proof.
  intros Hnd Hi Hp. unfold list_remove. rewrite list_fmap_insert. simpl.
  apply insert_fmap_id. intros j fl' Hne Hj.
  rewrite filter_ne_id; [by destruct fl' |].
  intros Hin. apply Hne. symmetry. by eapply listed_once.
Qed.

(** The pages of the free lists after a block has been linked in. *)
Lemma covered_from_cons (o : nat) (fls : list vm_page_free_list) (i : nat)
    (fl : vm_page_free_list) (page : nat) (n : Z) :
  fls !! i = Some fl →
  covered_from o (<[i := FreeList n (page :: fl_blocks fl)]> fls)
  ≡ₚ block_pages (o + i) page ++ covered_from o fls.
Proof.
  intros Hi.
  pose proof (covered_from_insert_perm o fls i fl
                (FreeList n (page :: fl_blocks fl)) Hi) as Hperm.
  simpl in Hperm.
  rewrite (comm (++) (block_pages _ _)), <- (assoc (++)) in Hperm.
  by apply Permutation_app_inv_l in Hperm.
Qed.

(** The pages of the free lists before a block was unlinked. *)
Lemma covered_from_filter (o : nat) (fls : list vm_page_free_list) (i : nat)
    (fl : vm_page_free_list) (page : nat) (n : Z) :
  NoDup (covered_from o fls) → fls !! i = Some fl → page ∈ fl_blocks fl →
  covered_from o fls
  ≡ₚ block_pages (o + i) page
     ++ covered_from o
          (<[i := FreeList n (filter (λ x, x ≠ page) (fl_blocks fl))]> fls).
Proof.
  intros Hnd Hi Hp.
  pose proof (covered_from_insert_perm o fls i fl
    (FreeList n (filter (λ x, x ≠ page) (fl_blocks fl))) Hi) as Hperm.
  simpl in Hperm.
  pose proof (NoDup_extract _ page (NoDup_listed o fls i fl Hnd Hi) Hp) as Hex.
  rewrite Hex in Hperm at 2. rewrite bind_cons in Hperm.
  rewrite (comm (++) (block_pages _ _)), <- (assoc (++)) in Hperm.
  by apply Permutation_app_inv_l in Hperm.
Qed.

(** ** Well-formed segments *)

Lemma seg_wf_perm (seg : vm_page_seg) (held held' : list nat) :
  held ≡ₚ held' → seg_wf seg held → seg_wf seg held'.
Proof.
  intros Hperm [].
  split; try done; by rewrite <- Hperm.
Qed.

Lemma NoDup_bounded_length (l : list nat) (n : nat) :
  NoDup l → Forall (λ k, (k < n)%nat) l → (List.length l ≤ n)%nat.
Proof.
  intros Hnd Hlt. rewrite <- (length_seq n 0).
  apply submseteq_length, NoDup_submseteq; [done |].
  intros k Hk. apply elem_of_seq.
  rewrite Forall_forall in Hlt. specialize (Hlt k Hk). lia.
Qed.

(** Held, pooled and free pages are no more than the pages of the
    segment. *)
Lemma seg_wf_count (seg : vm_page_seg) (held : list nat) :
  seg_wf seg held →
  (List.length held + List.length (pooled seg) + List.length (covered seg)
   ≤ List.length (pages seg))%nat.
Proof.
  intros Hwf.
  pose proof (NoDup_bounded_length _ _ (wf_nodup _ _ Hwf) (wf_range _ _ Hwf)).
  by rewrite !length_app, Nat.add_assoc in *.
Qed.

Lemma length_listed_le (o : nat) (fls : list vm_page_free_list) (i : nat)
    (fl : vm_page_free_list) :
  fls !! i = Some fl →
  (List.length (fl_blocks fl) ≤ List.length (covered_from o fls))%nat.
Proof.
  intros Hi.
  pose proof (covered_from_insert_perm o fls i fl (FreeList 0 []) Hi) as Hperm.
  simpl in Hperm. rewrite Hperm, length_app, length_bind_blocks.
  pose proof (pow2_nat_pos (o + i)). nia.
Qed.

Lemma free_list_size_bound (seg : vm_page_seg) (held : list nat) (i : nat)
    (fl : vm_page_free_list) :
  seg_wf seg held → free_lists seg !! i = Some fl →
  fl_size fl = Z.of_nat (List.length (fl_blocks fl))
  ∧ fl_size fl + Z.of_nat (List.length held) ≤ Z.of_nat (List.length (pages seg)).
Proof.
  intros Hwf Hi.
  pose proof (Forall_lookup_1 _ _ _ _ (wf_sizes _ _ Hwf) Hi) as Hsz.
  simpl in Hsz. split; [done |].
  pose proof (seg_wf_count _ _ Hwf).
  pose proof (length_listed_le 0 _ _ _ Hi). unfold covered in *. lia.
Qed.

Lemma listed_covered (seg : vm_page_seg) (o page k : nat) :
  listed seg o page → k ∈ block_pages o page → k ∈ covered seg.
Proof.
  intros (fl & Hfl & Hp) Hk. apply elem_of_covered_from.
  by exists o, fl, page.
Qed.

Lemma listed_lt (seg : vm_page_seg) (o page : nat) :
  listed seg o page → (o < List.length (free_lists seg))%nat.
Proof. intros (fl & Hfl & _). by eapply lookup_lt_Some. Qed.

Lemma seg_wf_held_lookup (seg : vm_page_seg) (held : list nat) (k : nat) :
  seg_wf seg held → k ∈ held ++ pooled seg ++ covered seg →
  is_Some (pages seg !! k).
Proof.
  intros Hwf Hk. apply lookup_lt_is_Some.
  pose proof (wf_range _ _ Hwf) as Hr. rewrite Forall_forall in Hr. by apply Hr.
Qed.

Lemma unlisted_value : VM_PAGE_ORDER_UNLISTED = 65535.
Proof. reflexivity. Qed.

Lemma unlisted_neq (o : nat) :
  (o < VM_PAGE_NR_FREE_LISTS)%nat → Z.of_nat o ≠ VM_PAGE_ORDER_UNLISTED.
Proof. rewrite unlisted_value. unfold VM_PAGE_NR_FREE_LISTS. lia. Qed.

(** *** Linking a block in *)

Lemma listed_enlist (seg : vm_page_seg) (i page o q : nat) :
  (i < List.length (free_lists seg))%nat →
  listed (enlist seg i page) o q ↔ listed seg o q ∨ (o = i ∧ q = page).
Proof.
  intros Hi. unfold listed, enlist. simpl.
  destruct (lookup_lt_is_Some_2 _ _ Hi) as [fl Hfl].
  destruct (decide (o = i)) as [-> | Hne].
  - rewrite list_lookup_alter_eq, Hfl. simpl. split.
    + intros (fl' & [= <-] & Hq). simpl in Hq.
      apply elem_of_cons in Hq as [-> | Hq]; [by right | left; eauto].
    + intros [(fl' & ? & Hq) | [_ ->]]; simplify_eq; eexists; split; try done;
        simpl; [by right | by left].
  - rewrite list_lookup_alter_ne by done.
    split; [by left | by intros [? | [? _]]].
Qed.

Lemma page_free_order (seg : vm_page_seg) (pgs : list vm_page) (k : nat) :
  page_type <$> pgs = page_type <$> pages seg →
  page_free (set_pages seg pgs) k ↔ page_free seg k.
Proof.
  intros Heq. unfold page_free. simpl.
  assert (Hk : page_type <$> pgs !! k = page_type <$> pages seg !! k)
    by by rewrite <- !list_lookup_fmap, Heq.
  split; intros (pg & Hpg & Hty); rewrite Hpg in Hk; simpl in Hk.
  - destruct (pages seg !! k) as [pg' |]; [| done].
    exists pg'. split; [done |]. simpl in Hk. congruence.
  - destruct (pgs !! k) as [pg' |]; [| done].
    exists pg'. split; [done |]. simpl in Hk. congruence.
Qed.

Lemma fmap_type_alter_order (pgs : list vm_page) (page : nat) (o : Z) :
  page_type <$> alter (page_set_order o) page pgs = page_type <$> pgs.
Proof.
  apply list_eq. intros k. rewrite !list_lookup_fmap, list_lookup_alter.
  case_decide; subst; [| done]. by destruct (pgs !! k).
Qed.

Lemma page_free_set_free_lists (seg : vm_page_seg) fls (k : nat) :
  page_free (set_free_lists seg fls) k ↔ page_free seg k.
Proof. done. Qed.

Lemma wf_enlist (seg : vm_page_seg) (held : list nat) (i page : nat) :
  seg_wf seg (block_pages i page ++ held) →
  (i < VM_PAGE_NR_FREE_LISTS)%nat →
  block_aligned seg i page →
  Forall (page_free seg) (block_pages i page) →
  seg_wf (enlist seg i page) held
  ∧ covered (enlist seg i page) ≡ₚ block_pages i page ++ covered seg.
Proof.
  intros Hwf Hi Hal Hfree.
  assert (Hi' : (i < List.length (free_lists seg))%nat)
    by by rewrite (wf_lists _ _ Hwf).
  destruct (lookup_lt_is_Some_2 _ _ Hi') as [fl Hfl].
  assert (Hcov : covered (enlist seg i page)
                 ≡ₚ block_pages i page ++ covered seg).
  { unfold covered, enlist. simpl.
    rewrite (alter_lookup_insert _ _ _ _ Hfl).
    by rewrite (covered_from_cons 0 _ _ _ _ _ Hfl). }
  split; [| done].
  assert (Hpooled : pooled (enlist seg i page) = pooled seg) by done.
  assert (Hlen : List.length (pages (enlist seg i page))
                 = List.length (pages seg))
    by (simpl; apply length_alter).
  assert (Hall : held ++ pooled (enlist seg i page) ++ covered (enlist seg i page)
                 ≡ₚ (block_pages i page ++ held) ++ pooled seg ++ covered seg).
  { rewrite Hpooled, Hcov.
    rewrite <- !(assoc (++)).
    by rewrite (Permutation_app_swap_app (pooled seg)),
      (Permutation_app_swap_app held). }
  destruct Hwf. split.
  - simpl. by rewrite length_alter.
  - simpl. apply Forall_alter; [done |]. intros fl' Hfl'. simpl.
    rewrite Forall_lookup in wf_sizes0. rewrite (wf_sizes0 _ _ Hfl'). lia.
  - by rewrite Hall.
  - rewrite Hall, Hlen. done.
  - intros o q pg Hl Hq. apply listed_enlist in Hl; [| done].
    simpl in Hq. rewrite list_lookup_alter in Hq.
    case_decide as Hqp.
    + subst q. destruct (pages seg !! page) as [pg0 |] eqn:Hpg0; simplify_eq/=.
      destruct Hl as [Hl | [-> _]]; [exfalso | done].
      apply NoDup_app in wf_nodup0 as (_ & Hdisj & _).
      apply (Hdisj page).
      * apply elem_of_app. left. apply block_pages_head.
      * rewrite elem_of_app. right.
        eapply listed_covered; [done |]. apply block_pages_head.
    + destruct Hl as [Hl | [_ ->]]; [| done]. by eapply wf_listed0.
  - intros q pg Hq Hord. simpl in Hq. rewrite list_lookup_alter in Hq.
    case_decide as Hqp.
    + subst q. destruct (pages seg !! page) as [pg0 |] eqn:Hpg0; simplify_eq/=.
      exists i. split; [done |]. apply listed_enlist; [done |]. by right.
    + destruct (wf_unlisted0 _ _ Hq Hord) as (o & Ho & Hl).
      exists o. split; [done |]. apply listed_enlist; [done |]. by left.
  - rewrite Hpooled, Hcov.
    assert (Hpf : ∀ k, page_free (enlist seg i page) k ↔ page_free seg k).
    { intros k. unfold enlist. rewrite page_free_order; [done |].
      apply fmap_type_alter_order. }
    rewrite Forall_forall. intros k Hk. apply Hpf.
    rewrite !elem_of_app in Hk. rewrite Forall_forall in Hfree, wf_free0.
    destruct Hk as [Hk | [Hk | Hk]]; [| by apply Hfree |];
      apply wf_free0; rewrite elem_of_app; tauto.
  - intros o q Hl. apply listed_enlist in Hl; [| done].
    destruct Hl as [Hl | [-> ->]]; [by apply wf_aligned0 | done].
  - intros q pg Hq. simpl in Hq. rewrite list_lookup_alter in Hq.
    case_decide as Hqp; [| by apply wf_addr0].
    subst q. destruct (pages seg !! page) as [pg0 |] eqn:Hpg0; simplify_eq/=.
    by apply (wf_addr0 page pg0).
  - done.
  - unfold page_pa in *. by rewrite Hlen.
  - by rewrite Hlen.
  - done.
Qed.

(** *** Unlinking a block *)

Lemma seg_wf_NoDup_covered (seg : vm_page_seg) (held : list nat) :
  seg_wf seg held → NoDup (covered seg).
Proof.
  intros Hwf. pose proof (wf_nodup _ _ Hwf) as Hnd.
  apply NoDup_app in Hnd as (_ & _ & Hnd).
  by apply NoDup_app in Hnd as (_ & _ & Hnd).
Qed.

Lemma listed_unlist (seg : vm_page_seg) (i page o q : nat) :
  NoDup (covered seg) → listed seg i page →
  listed (unlist seg i page) o q ↔ listed seg o q ∧ q ≠ page.
Proof.
  intros Hnd (fl & Hfl & Hp). unfold listed, unlist. simpl.
  destruct (decide (o = i)) as [-> | Hne].
  - rewrite list_lookup_alter_eq, Hfl. simpl. split.
    + intros (fl' & [= <-] & Hq). simpl in Hq.
      apply list_elem_of_filter in Hq as [? ?]. eauto.
    + intros [(fl' & ? & Hq) ?]. simplify_eq. eexists. split; [done |].
      simpl. by apply list_elem_of_filter.
  - rewrite list_lookup_alter_ne by done. split; [| by intros [? _]].
    intros (fl' & Hfl' & Hq). split; [eauto |]. intros ->.
    apply Hne. by eapply (listed_once 0).
Qed.

Lemma wf_unlist (seg : vm_page_seg) (held : list nat) (i page : nat) :
  seg_wf seg held → listed seg i page →
  seg_wf (unlist seg i page) (block_pages i page ++ held)
  ∧ block_pages i page ++ covered (unlist seg i page) ≡ₚ covered seg.
Proof.
  intros Hwf Hl.
  pose proof (seg_wf_NoDup_covered _ _ Hwf) as Hndc.
  destruct Hl as (fl & Hfl & Hp).
  assert (Hl : listed seg i page) by by exists fl.
  assert (Hcov : block_pages i page ++ covered (unlist seg i page)
                 ≡ₚ covered seg).
  { unfold covered, unlist. simpl.
    rewrite (alter_lookup_insert _ _ _ _ Hfl).
    by rewrite <- (covered_from_filter 0 _ _ _ _ _ Hndc Hfl Hp). }
  split; [| done].
  assert (Hpooled : pooled (unlist seg i page) = pooled seg) by done.
  assert (Hlen : List.length (pages (unlist seg i page))
                 = List.length (pages seg))
    by (simpl; apply length_alter).
  assert (Hall : (block_pages i page ++ held) ++ pooled (unlist seg i page)
                   ++ covered (unlist seg i page)
                 ≡ₚ held ++ pooled seg ++ covered seg).
  { rewrite Hpooled, <- Hcov. solve_Permutation. }
  assert (Hsub : ∀ k, k ∈ covered (unlist seg i page) → k ∈ covered seg).
  { intros k Hk. rewrite <- Hcov. apply elem_of_app. by right. }
  destruct Hwf. split.
  - simpl. by rewrite length_alter.
  - simpl. apply Forall_alter; [done |]. intros fl' Hfl'. simplify_eq. simpl.
    rewrite Forall_lookup in wf_sizes0. rewrite (wf_sizes0 _ _ Hfl).
    pose proof (NoDup_extract _ page (NoDup_listed 0 _ _ _ Hndc Hfl) Hp) as Hex.
    apply Permutation_length in Hex. simpl in Hex. lia.
  - by rewrite Hall.
  - rewrite Hall, Hlen. done.
  - intros o q pg Hlq Hq. apply listed_unlist in Hlq as [Hlq Hne]; [| done ..].
    simpl in Hq. rewrite list_lookup_alter_ne in Hq by done.
    by eapply wf_listed0.
  - intros q pg Hq Hord. simpl in Hq. rewrite list_lookup_alter in Hq.
    case_decide as Hqp.
    + subst q. destruct (pages seg !! page) as [pg0 |]; simplify_eq/=.
    + destruct (wf_unlisted0 _ _ Hq Hord) as (o & Ho & Hlq).
      exists o. split; [done |]. apply listed_unlist; [done .. |]. split; [done |].
      congruence.
  - rewrite Hpooled.
    assert (Hpf : ∀ k, page_free (unlist seg i page) k ↔ page_free seg k).
    { intros k. unfold unlist. rewrite page_free_order; [done |].
      apply fmap_type_alter_order. }
    rewrite Forall_forall. intros k Hk. apply Hpf.
    rewrite Forall_forall in wf_free0. apply wf_free0.
    rewrite !elem_of_app in *. destruct Hk as [? | ?]; [by left | right; auto].
  - intros o q Hlq. apply listed_unlist in Hlq as [Hlq _]; [| done ..].
    by apply wf_aligned0.
  - intros q pg Hq. simpl in Hq. rewrite list_lookup_alter in Hq.
    case_decide as Hqp; [| by apply wf_addr0].
    subst q. destruct (pages seg !! page) as [pg0 |] eqn:Hpg0; simplify_eq/=.
    by apply (wf_addr0 page pg0).
  - done.
  - unfold page_pa in *. by rewrite Hlen.
  - by rewrite Hlen.
  - done.
Qed.

(** A listed block lies in the array, is aligned, and its pages are free. *)
Lemma listed_block (seg : vm_page_seg) (held : list nat) (i page : nat) :
  seg_wf seg held → listed seg i page →
  (i < VM_PAGE_NR_FREE_LISTS)%nat
  ∧ (page + 2 ^ i ≤ List.length (pages seg))%nat
  ∧ block_aligned seg i page
  ∧ Forall (page_free seg) (block_pages i page)
  ∧ ∃ pg, pages seg !! page = Some pg ∧ page_order pg = Z.of_nat i.
Proof.
  intros Hwf Hl.
  assert (Hin : ∀ k, k ∈ block_pages i page → k ∈ covered seg)
    by (intros k; by apply listed_covered).
  pose proof (wf_range _ _ Hwf) as Hr. rewrite Forall_forall in Hr.
  pose proof (wf_free _ _ Hwf) as Hf. rewrite Forall_forall in Hf.
  split_and!.
  - rewrite <- (wf_lists _ _ Hwf). by eapply listed_lt.
  - pose proof (pow2_nat_pos i).
    assert (Hlast : (page + 2 ^ i - 1)%nat ∈ block_pages i page)
      by (apply elem_of_block_pages; lia).
    apply Hin in Hlast.
    specialize (Hr (page + 2 ^ i - 1)%nat).
    rewrite !elem_of_app in Hr. specialize (Hr (or_intror (or_intror Hlast))).
    lia.
  - by apply (wf_aligned _ _ Hwf).
  - rewrite Forall_forall. intros k Hk. apply Hf, elem_of_app. right. auto.
  - destruct (seg_wf_held_lookup seg held page Hwf) as [pg Hpg].
    { rewrite !elem_of_app. right. right. apply Hin, block_pages_head. }
    exists pg. split; [done |]. by eapply (wf_listed _ _ Hwf).
Qed.

(** *** The code of the two steps *)

Lemma code_enlist (seg : vm_page_seg) (i page : nat)
    (fl : vm_page_free_list) (pg : vm_page) :
  free_lists seg !! i = Some fl → pages seg !! page = Some pg →
  page_order pg = VM_PAGE_ORDER_UNLISTED →
  0 ≤ fl_size fl → fl_size fl + 1 < 2 ^ 32 →
  (seg' ← vm_page_free_list_insert seg i page;
   store_order seg' page (Z.of_nat i)) = Ret (enlist seg i page).
Proof.
  intros Hfl Hpg Hord Hsz0 Hsz. unfold vm_page_free_list_insert, store_order.
  rewrite Hfl, Hpg. simpl. rewrite Hord, Z.eqb_refl. simpl. rewrite Hpg. simpl.
  unfold enlist. rewrite u32_small by lia.
  by rewrite (alter_lookup_insert _ _ _ _ Hfl), (alter_lookup_insert _ _ _ _ Hpg).
Qed.

Lemma code_unlist (seg : vm_page_seg) (held : list nat) (i page : nat) :
  seg_wf seg held → listed seg i page →
  (seg' ← vm_page_free_list_remove seg i page;
   store_order seg' page VM_PAGE_ORDER_UNLISTED) = Ret (unlist seg i page).
Proof.
  intros Hwf Hl.
  destruct (listed_block _ _ _ _ Hwf Hl) as (Hi & _ & _ & _ & pg & Hpg & Hord).
  destruct Hl as (fl & Hfl & Hp).
  destruct (free_list_size_bound _ _ _ _ Hwf Hfl) as [Hsz Hbound].
  pose proof (wf_nr_pages _ _ Hwf).
  assert (0 < List.length (fl_blocks fl))%nat.
  { destruct (fl_blocks fl); [by apply elem_of_nil in Hp | simpl; lia]. }
  unfold vm_page_free_list_remove, store_order.
  rewrite Hfl, Hpg. simpl. rewrite Hord.
  destruct (Z.eqb_spec (Z.of_nat i) VM_PAGE_ORDER_UNLISTED) as [Heq | _];
    [by apply unlisted_neq in Heq |].
  simpl. rewrite Hpg. simpl. unfold unlist.
  rewrite u32_small by lia.
  rewrite (list_remove_insert 0 _ _ _ _ _ (seg_wf_NoDup_covered _ _ Hwf) Hfl Hp).
  by rewrite (alter_lookup_insert _ _ _ _ Hfl), (alter_lookup_insert _ _ _ _ Hpg).
Qed.

Lemma bind_assoc {A B C} (m : outcome A) (f : A → outcome B)
    (g : B → outcome C) :
  (m ≫= f) ≫= g = m ≫= (λ x, f x ≫= g).
Proof. by destruct m. Qed.

Lemma bind_Ret {A B} (a : A) (f : A → outcome B) : Ret a ≫= f = f a.
Proof. done. Qed.

(** Pages that are held or in a pool are not listed. *)
Lemma held_unlisted (seg : vm_page_seg) (held : list nat) (k : nat)
    (pg : vm_page) :
  seg_wf seg held → k ∈ held ++ pooled seg → pages seg !! k = Some pg →
  page_order pg = VM_PAGE_ORDER_UNLISTED.
Proof.
  intros Hwf Hk Hpg.
  destruct (decide (page_order pg = VM_PAGE_ORDER_UNLISTED)) as [| Hne];
    [done | exfalso].
  destruct (wf_unlisted _ _ Hwf _ _ Hpg Hne) as (o & _ & Hl).
  pose proof (wf_nodup _ _ Hwf) as Hnd.
  rewrite (assoc (++)) in Hnd. apply NoDup_app in Hnd as (_ & Hdisj & _).
  apply (Hdisj k Hk). eapply listed_covered; [done |]. apply block_pages_head.
Qed.

Lemma page_free_enlist (seg : vm_page_seg) (i page k : nat) :
  page_free (enlist seg i page) k ↔ page_free seg k.
Proof.
  unfold enlist. rewrite page_free_order; [done |]. apply fmap_type_alter_order.
Qed.

Lemma page_free_unlist (seg : vm_page_seg) (i page k : nat) :
  page_free (unlist seg i page) k ↔ page_free seg k.
Proof.
  unfold unlist. rewrite page_free_order; [done |]. apply fmap_type_alter_order.
Qed.

(** Linking in a held block: the code does the step, and the invariants
    hold again without the block. *)
Lemma enlist_step (seg : vm_page_seg) (held : list nat) (i page : nat) :
  seg_wf seg (block_pages i page ++ held) →
  (i < VM_PAGE_NR_FREE_LISTS)%nat →
  block_aligned seg i page →
  Forall (page_free seg) (block_pages i page) →
  (seg' ← vm_page_free_list_insert seg i page;
   store_order seg' page (Z.of_nat i)) = Ret (enlist seg i page)
  ∧ seg_wf (enlist seg i page) held
  ∧ covered (enlist seg i page) ≡ₚ block_pages i page ++ covered seg.
Proof.
  intros Hwf Hi Hal Hfree.
  destruct (wf_enlist _ _ _ _ Hwf Hi Hal Hfree) as [Hwf' Hcov].
  split; [| done].
  assert (Hi' : (i < List.length (free_lists seg))%nat)
    by by rewrite (wf_lists _ _ Hwf).
  destruct (lookup_lt_is_Some_2 _ _ Hi') as [fl Hfl].
  assert (Hin : page ∈ (block_pages i page ++ held) ++ pooled seg).
  { rewrite !elem_of_app. left. left. apply block_pages_head. }
  destruct (seg_wf_held_lookup seg _ page Hwf) as [pg Hpg].
  { rewrite (assoc (++)), elem_of_app. by left. }
  destruct (free_list_size_bound _ _ _ _ Hwf Hfl) as [Hsz Hbound].
  pose proof (wf_nr_pages _ _ Hwf).
  rewrite length_app, block_pages_length in Hbound.
  pose proof (pow2_nat_pos i).
  apply (code_enlist _ _ _ fl pg); [done | done | | lia | lia].
  by apply (held_unlisted seg (block_pages i page ++ held) page).
Qed.

Lemma unlist_step (seg : vm_page_seg) (held : list nat) (i page : nat) :
  seg_wf seg held → listed seg i page →
  (seg' ← vm_page_free_list_remove seg i page;
   store_order seg' page VM_PAGE_ORDER_UNLISTED) = Ret (unlist seg i page)
  ∧ seg_wf (unlist seg i page) (block_pages i page ++ held)
  ∧ block_pages i page ++ covered (unlist seg i page) ≡ₚ covered seg.
Proof.
  intros Hwf Hl. split; [by eapply code_unlist |]. by apply wf_unlist.
Qed.

(** ** Alignment *)

Lemma block_aligned_halves (seg : vm_page_seg) (i page : nat) :
  block_aligned seg (S i) page →
  block_aligned seg i page ∧ block_aligned seg i (page + 2 ^ i).
Proof.
  unfold block_aligned, page_pa, PAGE_SIZE.
  rewrite Nat2Z.inj_add, pow2_nat_Z, Nat2Z.inj_succ, Z.pow_succ_r by lia.
  pose proof (pow2_pos (Z.of_nat i) ltac:(lia)) as Hpos.
  set (S := 2 ^ Z.of_nat i) in *. intros Hal.
  apply Z.mod_divide in Hal as [q Hq]; [| lia].
  split; apply Z.mod_divide; try lia.
  - exists (2 * q). lia.
  - exists (2 * q + 1). lia.
Qed.

(** ** Allocation from the buddy system *)

Lemma alloc_split_spec (n : nat) (seg : vm_page_seg) (held : list nat)
    (page order : nat) :
  seg_wf seg (block_pages (order + n) page ++ held) →
  (order + n < VM_PAGE_NR_FREE_LISTS)%nat →
  block_aligned seg (order + n) page →
  Forall (page_free seg) (block_pages (order + n) page) →
  alloc_split n seg page order = Ret (split_spec n seg page order)
  ∧ seg_wf (split_spec n seg page order) (block_pages order page ++ held)
  ∧ block_pages order page ++ covered (split_spec n seg page order)
    ≡ₚ block_pages (order + n) page ++ covered seg.
Proof.
  revert seg. induction n as [| n IH]; intros seg Hwf Hlt Hal Hfree.
  { rewrite Nat.add_0_r in *. done. }
  replace (order + S n)%nat with (S (order + n)) in * by lia.
  rewrite block_pages_split in Hwf, Hfree.
  apply Forall_app in Hfree as [Hfree1 Hfree2].
  apply block_aligned_halves in Hal as [Hal1 Hal2].
  set (i := (order + n)%nat) in *. set (buddy := (page + 2 ^ i)%nat) in *.
  assert (Hwf1 : seg_wf seg (block_pages i buddy ++ block_pages i page ++ held)).
  { eapply seg_wf_perm; [| done]. solve_Permutation. }
  destruct (enlist_step _ _ _ _ Hwf1 ltac:(lia) Hal2 Hfree2)
    as (Hcode & Hwf2 & Hcov).
  simpl. fold i buddy.
  rewrite <- bind_assoc, Hcode. simpl.
  destruct (IH (enlist seg i buddy)) as (Hcode' & Hwf' & Hcov'); try done.
  - lia.
  - rewrite Forall_forall in *. intros k Hk. apply page_free_enlist. auto.
  - split_and!; [done .. |].
    rewrite Hcov', Hcov, block_pages_split. fold i buddy. solve_Permutation.
Qed.

Lemma free_sum_covered (seg : vm_page_seg) (held : list nat) :
  seg_wf seg held → free_sum seg = Z.of_nat (List.length (covered seg)).
Proof.
  intros Hwf. unfold free_sum, covered.
  by rewrite (length_covered_from 0 _ (wf_sizes _ _ Hwf)).
Qed.

Lemma first_fit_from_Some (fls : list vm_page_free_list) (i j page : nat) :
  first_fit_from fls i = Some (j, page) →
  ∃ k fl, j = (i + k)%nat ∧ fls !! k = Some fl
          ∧ head (fl_blocks fl) = Some page
          ∧ ∀ k' fl', (k' < k)%nat → fls !! k' = Some fl' → fl_blocks fl' = [].
Proof.
  revert i. induction fls as [| fl fls IH]; intros i; simpl; [done |].
  destruct (fl_blocks fl) as [| p rest] eqn:Hb.
  - intros (k & fl' & -> & Hk & Hhd & Hall)%IH.
    exists (S k), fl'. split_and!; [lia | done | done |].
    intros [| k'] fl'' Hlt Hl; simplify_eq/=; [done |].
    eapply Hall; [| done]. lia.
  - intros [= <- <-]. exists 0%nat, fl. rewrite Hb.
    split_and!; [lia | done | done |]. intros; lia.
Qed.

Lemma first_fit_from_None (fls : list vm_page_free_list) (i : nat) :
  first_fit_from fls i = None ↔ Forall (λ fl, fl_blocks fl = []) fls.
Proof.
  revert i. induction fls as [| fl fls IH]; intros i; simpl; [done |].
  destruct (fl_blocks fl) as [| p rest] eqn:Hb.
  - rewrite IH. split; [by constructor | by inversion 1].
  - split; [done |]. inversion 1. congruence.
Qed.

(** What [first_fit] finds: the head of the first non-empty list from
    [order] on. *)
Lemma first_fit_Some (seg : vm_page_seg) (order i page : nat) :
  first_fit seg order = Some (i, page) →
  (order ≤ i)%nat
  ∧ (∃ fl, free_lists seg !! i = Some fl ∧ head (fl_blocks fl) = Some page)
  ∧ ∀ k fl, (order ≤ k < i)%nat → free_lists seg !! k = Some fl →
            fl_blocks fl = [].
Proof.
  unfold first_fit.
  intros (k & fl & -> & Hk & Hhd & Hall)%first_fit_from_Some.
  rewrite lookup_drop in Hk. split_and!; [lia | by exists fl |].
  intros k' fl' Hk' Hl. apply (Hall (k' - order)%nat); [lia |].
  rewrite lookup_drop. by replace (order + (k' - order))%nat with k' by lia.
Qed.

Lemma first_fit_None (seg : vm_page_seg) (order : nat) :
  first_fit seg order = None
  ↔ ∀ k fl, (order ≤ k)%nat → free_lists seg !! k = Some fl →
            fl_blocks fl = [].
Proof.
  unfold first_fit. rewrite first_fit_from_None, Forall_lookup. split.
  - intros Hall k fl Hk Hl. apply (Hall (k - order)%nat).
    rewrite lookup_drop. by replace (order + (k - order))%nat with k by lia.
  - intros Hall k fl. rewrite lookup_drop. apply Hall. lia.
Qed.

Lemma first_fit_listed (seg : vm_page_seg) (order i page : nat) :
  first_fit seg order = Some (i, page) → listed seg i page.
Proof.
  intros (_ & (fl & Hfl & Hhd) & _)%first_fit_Some. exists fl. split; [done |].
  destruct (fl_blocks fl); simplify_eq/=. by left.
Qed.

Lemma alloc_search_first_fit (n : nat) (seg : vm_page_seg) (held : list nat)
    (i : nat) :
  seg_wf seg held → (i + n = VM_PAGE_NR_FREE_LISTS)%nat →
  alloc_search n seg i
  = Ret (match first_fit seg i with
         | Some (j, _) => j
         | None => VM_PAGE_NR_FREE_LISTS
         end).
Proof.
  intros Hwf. revert i. induction n as [| n IH]; intros i Hin; simpl.
  - unfold first_fit. rewrite drop_ge; [simpl; f_equal; lia |].
    rewrite (wf_lists _ _ Hwf). lia.
  - assert (Hi : (i < List.length (free_lists seg))%nat)
      by (rewrite (wf_lists _ _ Hwf); lia).
    destruct (lookup_lt_is_Some_2 _ _ Hi) as [fl Hfl]. rewrite Hfl. simpl.
    pose proof (Forall_lookup_1 _ _ _ _ (wf_sizes _ _ Hwf) Hfl) as Hsz.
    simpl in Hsz.
    unfold first_fit. rewrite (drop_S _ _ _ Hfl). simpl.
    destruct (fl_blocks fl) as [| p rest] eqn:Hb; simpl in Hsz.
    + rewrite Hsz. simpl. rewrite IH by lia. done.
    + destruct (Z.eqb_spec (fl_size fl) 0); [lia | done].
Qed.

Lemma nr_free_bound (seg : vm_page_seg) (held : list nat) :
  seg_inv seg held →
  nr_free_pages seg = Z.of_nat (List.length (covered seg))
  ∧ nr_free_pages seg + Z.of_nat (List.length held) < 2 ^ 31.
Proof.
  intros [Hwf Hacc]. unfold accounted in Hacc.
  rewrite (free_sum_covered _ _ Hwf) in Hacc. split; [done |].
  pose proof (seg_wf_count _ _ Hwf). pose proof (wf_nr_pages _ _ Hwf). lia.
Qed.

Lemma nr_free_pages_enlist (seg : vm_page_seg) (i page : nat) :
  nr_free_pages (enlist seg i page) = nr_free_pages seg.
Proof. done. Qed.

Lemma nr_free_pages_split_spec (n : nat) (seg : vm_page_seg) (page order : nat) :
  nr_free_pages (split_spec n seg page order) = nr_free_pages seg.
Proof. revert seg. induction n as [| n IH]; intros seg; [done |]. simpl. by rewrite IH. Qed.

Lemma seg_wf_set_nr_free_pages (seg : vm_page_seg) (held : list nat) (v : Z) :
  seg_wf seg held → seg_wf (set_nr_free_pages seg v) held.
Proof. by intros []. Qed.

Lemma shiftl_1_nat (o : nat) : Z.shiftl 1 (Z.of_nat o) = 2 ^ Z.of_nat o.
Proof. rewrite Z.shiftl_1_l. done. Qed.

(** No block of a sufficient order: the allocation fails and the segment
    is as it was. *)
Lemma alloc_from_buddy_none (seg : vm_page_seg) (held : list nat) (order : nat) :
  seg_wf seg held → (order < VM_PAGE_NR_FREE_LISTS)%nat →
  first_fit seg order = None →
  vm_page_seg_alloc_from_buddy seg order = Ret (None, seg).
Proof.
  intros Hwf Hlt Hfit. unfold vm_page_seg_alloc_from_buddy.
  destruct (Nat.ltb_spec order VM_PAGE_NR_FREE_LISTS); [simpl | lia].
  rewrite (alloc_search_first_fit _ _ held) by (done || lia).
  by rewrite Hfit.
Qed.

Lemma page_free_split_spec (n : nat) (seg : vm_page_seg) (page order k : nat) :
  page_free (split_spec n seg page order) k ↔ page_free seg k.
Proof.
  revert seg. induction n as [| n IH]; intros seg; [done |]. simpl.
  by rewrite IH, page_free_enlist.
Qed.

Lemma page_free_alloc_spec (seg : vm_page_seg) (order i page k : nat) :
  page_free (alloc_spec seg order i page) k ↔ page_free seg k.
Proof.
  unfold alloc_spec.
  change (page_free (set_nr_free_pages ?s ?v) k) with (page_free s k).
  by rewrite page_free_split_spec, page_free_unlist.
Qed.

Lemma block_pages_mono (o i page k : nat) :
  (o ≤ i)%nat → k ∈ block_pages o page → k ∈ block_pages i page.
Proof.
  rewrite !elem_of_block_pages. intros Hle Hk.
  pose proof (Nat.pow_le_mono_r 2 o i ltac:(lia) Hle). lia.
Qed.

(** A block of a sufficient order: the code does what [alloc_spec] says,
    and the invariants hold with the block handed out. *)
Lemma alloc_from_buddy_fit (seg : vm_page_seg) (held : list nat)
    (order i page : nat) :
  seg_inv seg held → (order < VM_PAGE_NR_FREE_LISTS)%nat →
  first_fit seg order = Some (i, page) →
  vm_page_seg_alloc_from_buddy seg order
  = Ret (Some page, alloc_spec seg order i page)
  ∧ seg_inv (alloc_spec seg order i page) (block_pages order page ++ held)
  ∧ block_aligned seg order page
  ∧ Forall (page_free (alloc_spec seg order i page)) (block_pages order page)
  ∧ block_pages order page ++ covered (alloc_spec seg order i page)
    ≡ₚ covered seg.
Proof.
  intros Hinv Hlt Hfit. pose proof Hinv as [Hwf Hacc].
  pose proof (first_fit_listed _ _ _ _ Hfit) as Hl.
  destruct (first_fit_Some _ _ _ _ Hfit) as (Hle & (fl & Hfl & Hhd) & _).
  destruct (listed_block _ _ _ _ Hwf Hl) as (Hi & Hfits & Hal & Hfree & _).
  destruct (unlist_step _ _ _ _ Hwf Hl) as (Hcode1 & Hwf1 & Hcov1).
  assert (Hni : (order + (i - order))%nat = i) by lia.
  destruct (alloc_split_spec (i - order) (unlist seg i page) held page order)
    as (Hcode2 & Hwf2 & Hcov2); rewrite ?Hni; try done.
  { rewrite Forall_forall in *. intros k Hk. apply page_free_unlist. auto. }
  rewrite Hni in Hcov2.
  assert (Hcov : block_pages order page
                   ++ covered (alloc_spec seg order i page) ≡ₚ covered seg).
  { unfold alloc_spec. by rewrite <- Hcov1, <- Hcov2. }
  destruct (nr_free_bound _ _ Hinv) as [Hnr Hnrb].
  assert (Hlen : (List.length (covered seg)
                  = 2 ^ order + List.length (covered (alloc_spec seg order i page)))%nat).
  { by rewrite <- Hcov, length_app, block_pages_length. }
  split_and!.
  - unfold vm_page_seg_alloc_from_buddy.
    destruct (Nat.ltb_spec order VM_PAGE_NR_FREE_LISTS); [simpl | lia].
    rewrite (alloc_search_first_fit _ _ held) by (done || lia).
    rewrite Hfit. simpl.
    destruct (Nat.eqb_spec i VM_PAGE_NR_FREE_LISTS); [lia |].
    rewrite Hfl. simpl. rewrite Hhd. simpl.
    rewrite <- bind_assoc, Hcode1. simpl. rewrite Hcode2. simpl.
    unfold alloc_spec. do 3 f_equal.
    rewrite nr_free_pages_split_spec, shiftl_1_nat. simpl.
    apply u32_small. rewrite Hnr, Hlen, Nat2Z.inj_add, pow2_nat_Z. lia.
  - split.
    + unfold alloc_spec. by apply seg_wf_set_nr_free_pages.
    + unfold accounted.
      rewrite (free_sum_covered _ (block_pages order page ++ held))
        by (unfold alloc_spec; by apply seg_wf_set_nr_free_pages).
      unfold alloc_spec at 1. simpl.
      rewrite Hnr, Hlen, Nat2Z.inj_add, pow2_nat_Z. lia.
  - clear -Hal Hle. induction Hle as [| i Hle IH]; [done |].
    apply IH. by apply block_aligned_halves in Hal as [? _].
  - rewrite Forall_forall in *. intros k Hk.
    apply page_free_alloc_spec, Hfree. by eapply block_pages_mono.
  - done.
Qed.

(** ** Addresses and indexes *)

Lemma pow2_page (z : Z) : 0 ≤ z → 2 ^ z * PAGE_SIZE = 2 ^ (z + 12).
Proof. intros. unfold PAGE_SIZE. by rewrite Z.pow_add_r by lia. Qed.

Lemma ptoa_shiftl (o : nat) :
  vm_page_ptoa (Z.shiftl 1 (Z.of_nat o)) = 2 ^ Z.of_nat o * PAGE_SIZE.
Proof. by rewrite vm_page_ptoa_mul, shiftl_1_nat. Qed.

Lemma page_pa_inv (seg : vm_page_seg) (held : list nat) (page : nat) :
  seg_wf seg held → (page < List.length (pages seg))%nat →
  seg_start seg ≤ page_pa seg page < seg_end seg
  ∧ 0 ≤ page_pa seg page < 2 ^ 64
  ∧ pa_page seg (page_pa seg page) = page
  ∧ Z.to_nat (vm_page_atop (u64 (page_pa seg page - seg_start seg))) = page.
Proof.
  intros Hwf Hlt.
  destruct (wf_start _ _ Hwf) as [Hs0 _]. destruct (wf_end _ _ Hwf) as [He Hmax].
  unfold page_pa, pa_page, PAGE_SIZE in *.
  assert (Hdiv : (seg_start seg + Z.of_nat page * 4096 - seg_start seg) / 4096
                 = Z.of_nat page).
  { replace (seg_start seg + Z.of_nat page * 4096 - seg_start seg)
      with (Z.of_nat page * 4096) by lia.
    by rewrite Z.div_mul. }
  split_and!; try lia.
  rewrite u64_small by lia. by rewrite vm_page_atop_div, Hdiv, Nat2Z.id.
Qed.

Lemma page_pa_add (seg : vm_page_seg) (page n : nat) :
  page_pa seg (page + n) = page_pa seg page + Z.of_nat n * PAGE_SIZE.
Proof. unfold page_pa. lia. Qed.

Lemma page_pa_lt (seg : vm_page_seg) (p q : nat) :
  page_pa seg p < page_pa seg q ↔ (p < q)%nat.
Proof. unfold page_pa, PAGE_SIZE. lia. Qed.

Lemma lxor_pow2_pm (a k : Z) :
  0 ≤ k → Z.lxor a (2 ^ k) = a + 2 ^ k ∨ Z.lxor a (2 ^ k) = a - 2 ^ k.
Proof.
  intros Hk. destruct (Z.odd (a / 2 ^ k)) eqn:Hodd.
  - right. by apply lxor_pow2_odd.
  - left. by apply lxor_pow2_even.
Qed.

(** The buddy of a page at some order, when its address lies in the
    segment, is the page [2^order] pages above or below. *)
Lemma buddy_page (seg : vm_page_seg) (held : list nat) (page order : nat) :
  seg_wf seg held → (page < List.length (pages seg))%nat →
  let buddy_pa := Z.lxor (page_pa seg page) (2 ^ Z.of_nat order * PAGE_SIZE) in
  seg_start seg ≤ buddy_pa < seg_end seg →
  ∃ buddy, (buddy < List.length (pages seg))%nat
           ∧ buddy_pa = page_pa seg buddy
           ∧ (buddy = (page + 2 ^ order)%nat ∨ page = (buddy + 2 ^ order)%nat).
Proof.
  intros Hwf Hlt buddy_pa Hin. subst buddy_pa.
  destruct (wf_end _ _ Hwf) as [He _].
  rewrite pow2_page in * by lia.
  assert (H2 : 2 ^ (Z.of_nat order + 12) = Z.of_nat (2 ^ order) * PAGE_SIZE)
    by (rewrite pow2_nat_Z; by rewrite pow2_page by lia).
  destruct (lxor_pow2_pm (page_pa seg page) (Z.of_nat order + 12) ltac:(lia))
    as [Hx | Hx]; rewrite Hx, H2 in *.
  - exists (page + 2 ^ order)%nat. rewrite page_pa_add. split_and!; [| done | by left].
    apply (proj1 (page_pa_lt seg (page + 2 ^ order) (List.length (pages seg)))).
    rewrite page_pa_add. lia.
  - assert (2 ^ order ≤ page)%nat by (unfold page_pa, PAGE_SIZE in *; lia).
    exists (page - 2 ^ order)%nat. split_and!; [lia | | right; lia].
    unfold page_pa, PAGE_SIZE. lia.
Qed.

(** The start of an aligned block merged with its buddy. *)
Lemma merged_page (seg : vm_page_seg) (held : list nat) (page buddy order : nat) :
  seg_wf seg held → (page < List.length (pages seg))%nat →
  block_aligned seg order page →
  Z.lxor (page_pa seg page) (2 ^ Z.of_nat order * PAGE_SIZE)
  = page_pa seg buddy →
  Z.land (page_pa seg page)
         (u64 (- vm_page_ptoa (Z.shiftl 1 (Z.of_nat (S order)))))
  = page_pa seg (page `min` buddy)
  ∧ Z.land (page_pa seg page) (- (2 ^ Z.of_nat (S order) * PAGE_SIZE))
    = page_pa seg (page `min` buddy)
  ∧ block_aligned seg (S order) (page `min` buddy)
  ∧ block_pages (S order) (page `min` buddy)
    ≡ₚ block_pages order buddy ++ block_pages order page.
Proof.
  intros Hwf Hlt Hal Hbuddy.
  destruct (page_pa_inv _ _ _ Hwf Hlt) as (_ & Hpa & _ & _).
  unfold block_aligned in *. rewrite ptoa_shiftl.
  rewrite !pow2_page in * by lia.
  replace (Z.of_nat (S order) + 12) with (Z.of_nat order + 12 + 1) by lia.
  rewrite <- (land_u64_mask _ (- 2 ^ (Z.of_nat order + 12 + 1))) by done.
  destruct (buddy_arith (page_pa seg page) (Z.of_nat order + 12)
              ltac:(lia) Hpa Hal) as (Hal' & Hcase).
  assert (H2 : 2 ^ (Z.of_nat order + 12) = Z.of_nat (2 ^ order) * PAGE_SIZE)
    by (rewrite pow2_nat_Z; by rewrite pow2_page by lia).
  pose proof (pow2_nat_pos order).
  destruct Hcase as [[Hb Hpa'] | (Hb & Hpa' & Hge)];
    rewrite Hb in Hbuddy; rewrite Hpa' in *.
  - assert (buddy = (page + 2 ^ order)%nat) as ->
      by (unfold page_pa, PAGE_SIZE in *; lia).
    replace (page `min` (page + 2 ^ order))%nat with page by lia.
    split_and!; [reflexivity | reflexivity | exact Hal' |].
    rewrite block_pages_split. solve_Permutation.
  - rewrite Hb in *.
    assert (page = (buddy + 2 ^ order)%nat) as ->
      by (unfold page_pa, PAGE_SIZE in *; lia).
    replace ((buddy + 2 ^ order) `min` buddy)%nat with buddy by lia.
    split_and!; [done | done | | by rewrite block_pages_split].
    rewrite <- Hbuddy. exact Hal'.
Qed.

(** ** Freeing to the buddy system *)

Lemma same_frame_refl (seg : vm_page_seg) : same_frame seg seg.
Proof. by split_and!. Qed.

Lemma same_frame_unlist (seg : vm_page_seg) (i page : nat) :
  same_frame seg (unlist seg i page).
Proof.
  split_and!; try done.
  - simpl. apply length_alter.
  - intros k. apply page_free_unlist.
Qed.

Lemma same_frame_trans (s1 s2 s3 : vm_page_seg) :
  same_frame s1 s2 → same_frame s2 s3 → same_frame s1 s3.
Proof.
  intros (? & ? & ? & ? & ? & Hf) (? & ? & ? & ? & ? & Hf').
  split_and!; try congruence. intros k. by rewrite Hf', Hf.
Qed.

Lemma free_coalesce_aligned (n : nat) (seg : vm_page_seg) (held : list nat)
    (page order : nat) (pg : vm_page) :
  seg_wf seg held →
  (order + n = VM_PAGE_NR_FREE_LISTS - 1)%nat →
  pages seg !! page = Some pg →
  page_order pg = VM_PAGE_ORDER_UNLISTED →
  block_aligned seg order page →
  ∃ seg' page' order' taken,
    coalesce_spec n seg (page_pa seg page) order
    = (seg', page_pa seg page', order')
    ∧ free_coalesce n seg (page_pa seg page) page order
      = Ret (seg', page', order')
    ∧ seg_wf seg' (taken ++ held)
    ∧ block_pages order' page' ≡ₚ taken ++ block_pages order page
    ∧ taken ++ covered seg' ≡ₚ covered seg
    ∧ block_aligned seg order' page'
    ∧ (order ≤ order' < VM_PAGE_NR_FREE_LISTS)%nat
    ∧ (∃ pg', pages seg' !! page' = Some pg'
              ∧ page_order pg' = VM_PAGE_ORDER_UNLISTED)
    ∧ same_frame seg seg'.
Proof.
  revert seg held page order pg.
  induction n as [| n IH]; intros seg held page order pg Hwf Hn Hpg Hord Hal.
  { exists seg, page, order, []. simpl.
    split_and!; try done; try (unfold VM_PAGE_NR_FREE_LISTS in *; lia);
      eauto using same_frame_refl. }
  assert (Hstop : ∃ seg' page' order' taken,
    (seg, page_pa seg page, order) = (seg', page_pa seg page', order')
    ∧ Ret (seg, page, order) = Ret (seg', page', order')
    ∧ seg_wf seg' (taken ++ held)
    ∧ block_pages order' page' ≡ₚ taken ++ block_pages order page
    ∧ taken ++ covered seg' ≡ₚ covered seg
    ∧ block_aligned seg order' page'
    ∧ (order ≤ order' < VM_PAGE_NR_FREE_LISTS)%nat
    ∧ (∃ pg', pages seg' !! page' = Some pg'
              ∧ page_order pg' = VM_PAGE_ORDER_UNLISTED)
    ∧ same_frame seg seg').
  { exists seg, page, order, []. simpl.
    split_and!; try done; try (unfold VM_PAGE_NR_FREE_LISTS in *; lia);
      eauto using same_frame_refl. }
  assert (Hlt : (page < List.length (pages seg))%nat)
    by by eapply lookup_lt_Some.
  simpl coalesce_spec. simpl free_coalesce. rewrite ptoa_shiftl.
  set (buddy_pa := Z.lxor (page_pa seg page) (2 ^ Z.of_nat order * PAGE_SIZE)).
  destruct (decide (seg_start seg ≤ buddy_pa < seg_end seg)) as [Hin | Hout];
    cycle 1.
  { destruct (Z.ltb_spec buddy_pa (seg_start seg));
      destruct (Z.geb_spec buddy_pa (seg_end seg)); simpl; (done || lia). }
  destruct (Z.ltb_spec buddy_pa (seg_start seg)); [lia |].
  destruct (Z.geb_spec buddy_pa (seg_end seg)); [lia |]. simpl.
  destruct (buddy_page _ _ _ order Hwf Hlt Hin) as (buddy & Hblt & Hbpa & Hcase).
  fold buddy_pa in Hbpa. rewrite Hbpa.
  destruct (page_pa_inv _ _ _ Hwf Hblt) as (_ & _ & -> & ->).
  destruct (lookup_lt_is_Some_2 _ _ Hblt) as [bpg Hbpg]. rewrite Hbpg. simpl.
  destruct (decide (page_order bpg = Z.of_nat order)) as [Hbo | Hbo]; cycle 1.
  { by destruct (Z.eqb_spec (page_order bpg) (Z.of_nat order)). }
  rewrite Hbo, Z.eqb_refl. simpl.
  assert (Hord_lt : (order < VM_PAGE_NR_FREE_LISTS)%nat)
    by (unfold VM_PAGE_NR_FREE_LISTS in *; lia).
  assert (Hl : listed seg order buddy).
  { destruct (wf_unlisted _ _ Hwf _ _ Hbpg) as (o & Ho & Hl).
    - rewrite Hbo. by apply unlisted_neq.
    - rewrite Hbo in Ho. by apply Nat2Z.inj in Ho as ->. }
  destruct (unlist_step _ _ _ _ Hwf Hl) as (Hcode & Hwf1 & Hcov1).
  rewrite <- bind_assoc, Hcode. simpl.
  destruct (merged_page seg held page buddy order Hwf Hlt Hal)
    as (Hpa1 & Hpa2 & Hal1 & Hblk);
    [by rewrite <- Hbpa |].
  rewrite Hpa1, Hpa2.
  set (page1 := (page `min` buddy)%nat) in *.
  assert (Hlt1 : (page1 < List.length (pages seg))%nat) by (subst page1; lia).
  destruct (page_pa_inv _ _ _ Hwf Hlt1) as (_ & _ & _ & ->).
  assert (Hpg1 : ∃ pg1, pages (unlist seg order buddy) !! page1 = Some pg1
                        ∧ page_order pg1 = VM_PAGE_ORDER_UNLISTED).
  { simpl. rewrite list_lookup_alter. case_decide as Heq.
    - rewrite Hbpg. simpl. eauto.
    - assert (page1 = page) as -> by (subst page1; lia). eauto. }
  destruct Hpg1 as (pg1 & Hpg1 & Hord1).
  destruct (IH (unlist seg order buddy) (block_pages order buddy ++ held)
              page1 (S order) pg1)
    as (seg' & page' & order' & taken & Hspec & Hcode' & Hwf' & Hblk' & Hcov'
        & Hal' & Hle' & Hpg' & Hframe'); try done; [lia |].
  exists seg', page', order', (taken ++ block_pages order buddy).
  split_and!; try done; try lia.
  - by rewrite <- (assoc (++)).
  - rewrite Hblk', Hblk. solve_Permutation.
  - rewrite <- Hcov1, <- Hcov'. solve_Permutation.
  - eapply same_frame_trans; [apply same_frame_unlist | done].
Qed.

(** A block that is not aligned has no buddy to merge with: the loop stops
    at once. *)
Lemma free_coalesce_unaligned (n : nat) (seg : vm_page_seg) (held : list nat)
    (page order : nat) :
  seg_wf seg held → (page < List.length (pages seg))%nat →
  (order < VM_PAGE_NR_FREE_LISTS)%nat →
  ¬ block_aligned seg order page →
  coalesce_spec n seg (page_pa seg page) order = (seg, page_pa seg page, order)
  ∧ free_coalesce n seg (page_pa seg page) page order = Ret (seg, page, order).
Proof.
  intros Hwf Hlt Hord Hnal. destruct n as [| n]; [done |].
  simpl coalesce_spec. simpl free_coalesce. rewrite ptoa_shiftl.
  set (buddy_pa := Z.lxor (page_pa seg page) (2 ^ Z.of_nat order * PAGE_SIZE)).
  destruct (decide (seg_start seg ≤ buddy_pa < seg_end seg)) as [Hin | Hout];
    cycle 1.
  { destruct (Z.ltb_spec buddy_pa (seg_start seg));
      destruct (Z.geb_spec buddy_pa (seg_end seg)); simpl; (done || lia). }
  destruct (Z.ltb_spec buddy_pa (seg_start seg)); [lia |].
  destruct (Z.geb_spec buddy_pa (seg_end seg)); [lia |]. simpl.
  destruct (buddy_page _ _ _ order Hwf Hlt Hin) as (buddy & Hblt & Hbpa & Hcase).
  fold buddy_pa in Hbpa. rewrite Hbpa.
  destruct (page_pa_inv _ _ _ Hwf Hblt) as (_ & _ & -> & ->).
  destruct (lookup_lt_is_Some_2 _ _ Hblt) as [bpg Hbpg]. rewrite Hbpg. simpl.
  destruct (decide (page_order bpg = Z.of_nat order)) as [Hbo | Hbo]; cycle 1.
  { by destruct (Z.eqb_spec (page_order bpg) (Z.of_nat order)). }
  exfalso. apply Hnal.
  assert (Hl : listed seg order buddy).
  { destruct (wf_unlisted _ _ Hwf _ _ Hbpg) as (o & Ho & Hl).
    - rewrite Hbo. by apply unlisted_neq.
    - rewrite Hbo in Ho. by apply Nat2Z.inj in Ho as ->. }
  pose proof (wf_aligned _ _ Hwf _ _ Hl) as Hal.
  unfold block_aligned in *.
  pose proof (pow2_pos (Z.of_nat order) ltac:(lia)).
  assert (Hpos : 0 < 2 ^ Z.of_nat order * PAGE_SIZE) by (unfold PAGE_SIZE; lia).
  destruct Hcase as [-> | ->].
  - rewrite page_pa_add, pow2_nat_Z in Hal.
    by rewrite <- Z.add_mod_idemp_r, Z.mod_same, Z.add_0_r in Hal by lia.
  - rewrite page_pa_add, pow2_nat_Z.
    by rewrite <- Z.add_mod_idemp_r, Z.mod_same, Z.add_0_r by lia.
Qed.

(** The coalescing loop in all cases. *)
Lemma free_coalesce_spec (seg : vm_page_seg) (held : list nat)
    (page order : nat) (pg : vm_page) :
  seg_wf seg held →
  (order < VM_PAGE_NR_FREE_LISTS)%nat →
  pages seg !! page = Some pg →
  page_order pg = VM_PAGE_ORDER_UNLISTED →
  let n := (VM_PAGE_NR_FREE_LISTS - 1 - order)%nat in
  ∃ seg' page' order' taken,
    coalesce_spec n seg (page_pa seg page) order
    = (seg', page_pa seg page', order')
    ∧ free_coalesce n seg (page_pa seg page) page order
      = Ret (seg', page', order')
    ∧ seg_wf seg' (taken ++ held)
    ∧ block_pages order' page' ≡ₚ taken ++ block_pages order page
    ∧ taken ++ covered seg' ≡ₚ covered seg
    ∧ (block_aligned seg order page → block_aligned seg order' page')
    ∧ (order ≤ order' < VM_PAGE_NR_FREE_LISTS)%nat
    ∧ (∃ pg', pages seg' !! page' = Some pg'
              ∧ page_order pg' = VM_PAGE_ORDER_UNLISTED)
    ∧ same_frame seg seg'.
Proof.
  intros Hwf Hord Hpg Hunl n.
  destruct (decide (page_pa seg page `mod` (2 ^ Z.of_nat order * PAGE_SIZE) = 0))
    as [Hal | Hnal]; fold (block_aligned seg order page) in *.
  - destruct (free_coalesce_aligned n seg held page order pg)
      as (seg' & page' & order' & taken & H); try done.
    { subst n. unfold VM_PAGE_NR_FREE_LISTS in *. lia. }
    exists seg', page', order', taken. tauto.
  - destruct (free_coalesce_unaligned n seg held page order) as [Hs Hc];
      try done.
    { by eapply lookup_lt_Some. }
    exists seg, page, order, []. simpl.
    split_and!; try done; try lia; eauto using same_frame_refl.
Qed.

(** Freeing a page whose order is [VM_PAGE_ORDER_UNLISTED]: the code does
    what [free_spec] says. *)
Lemma free_to_buddy_spec (seg : vm_page_seg) (held : list nat)
    (page order : nat) (pg : vm_page) :
  seg_inv seg held →
  (order < VM_PAGE_NR_FREE_LISTS)%nat →
  pages seg !! page = Some pg →
  page_order pg = VM_PAGE_ORDER_UNLISTED →
  vm_page_seg_free_to_buddy seg page order = Ret (free_spec seg page order)
  ∧ nr_free_pages (free_spec seg page order)
    = nr_free_pages seg + 2 ^ Z.of_nat order.
Proof.
  intros Hinv Hord Hpg Hunl. pose proof Hinv as [Hwf Hacc].
  destruct (free_coalesce_spec seg held page order pg Hwf Hord Hpg Hunl)
    as (seg' & page' & order' & taken & Hspec & Hcode & Hwf' & Hblk & Hcov
        & _ & Hle & (pg' & Hpg' & Hunl') & Hframe).
  destruct Hframe as (Hstart & _ & Hnr & _ & Hlen & _).
  assert (Hlt' : (page' < List.length (pages seg))%nat)
    by (rewrite <- Hlen; by eapply lookup_lt_Some).
  destruct (page_pa_inv _ _ _ Hwf Hlt') as (_ & _ & Hidx & _).
  split; [| unfold free_spec; rewrite Hspec; done].
  unfold vm_page_seg_free_to_buddy, free_spec.
  set (n := (VM_PAGE_NR_FREE_LISTS - 1 - order)%nat) in *. clearbody n.
  rewrite Hpg. simpl. rewrite Hunl, Z.eqb_refl. simpl.
  destruct (Nat.ltb_spec order VM_PAGE_NR_FREE_LISTS); [simpl | lia].
  rewrite (wf_addr _ _ Hwf _ _ Hpg), Hcode, Hspec. simpl. rewrite Hidx.
  assert (Hi' : (order' < List.length (free_lists seg'))%nat)
    by (rewrite (wf_lists _ _ Hwf'); lia).
  destruct (lookup_lt_is_Some_2 _ _ Hi') as [fl Hfl].
  destruct (free_list_size_bound _ _ _ _ Hwf' Hfl) as [Hsz Hbound].
  pose proof (wf_nr_pages _ _ Hwf').
  rewrite <- bind_assoc, (code_enlist _ _ _ fl pg') by (done || lia).
  simpl. do 2 f_equal. rewrite Hnr, shiftl_1_nat.
  destruct (nr_free_bound _ _ Hinv) as [Hnrv Hnrb].
  apply u32_small.
  assert (2 ^ Z.of_nat order ≤ 2 ^ 10)
    by (apply Z.pow_le_mono_r; unfold VM_PAGE_NR_FREE_LISTS in *; lia).
  pose proof (pow2_pos (Z.of_nat order) ltac:(lia)). lia.
Qed.

(** Freeing a held block, aligned and with pages of type [VM_PT_FREE]:
    the invariants hold again without the block. *)
Lemma free_to_buddy_inv (seg : vm_page_seg) (held : list nat)
    (page order : nat) :
  seg_inv seg (block_pages order page ++ held) →
  (order < VM_PAGE_NR_FREE_LISTS)%nat →
  block_aligned seg order page →
  Forall (page_free seg) (block_pages order page) →
  vm_page_seg_free_to_buddy seg page order = Ret (free_spec seg page order)
  ∧ seg_inv (free_spec seg page order) held
  ∧ covered (free_spec seg page order) ≡ₚ block_pages order page ++ covered seg
  ∧ nr_free_pages (free_spec seg page order)
    = nr_free_pages seg + 2 ^ Z.of_nat order
  ∧ same_frame seg
      (set_nr_free_pages (free_spec seg page order) (nr_free_pages seg)).
Proof.
  intros Hinv Hord Hal Hfree. pose proof Hinv as [Hwf Hacc].
  destruct (seg_wf_held_lookup seg _ page Hwf) as [pg Hpg].
  { rewrite !elem_of_app. left. left. apply block_pages_head. }
  assert (Hunl : page_order pg = VM_PAGE_ORDER_UNLISTED).
  { eapply (held_unlisted seg _ page); [done | | done].
    rewrite !elem_of_app. left. left. apply block_pages_head. }
  destruct (free_to_buddy_spec _ _ _ _ _ Hinv Hord Hpg Hunl) as [Hcode Hnr].
  split; [done |].
  destruct (free_coalesce_spec seg _ page order pg Hwf Hord Hpg Hunl)
    as (seg' & page' & order' & taken & Hspec & _ & Hwf' & Hblk & Hcov
        & Hal' & Hle & (pg' & Hpg' & Hunl') & Hframe).
  specialize (Hal' Hal).
  pose proof Hframe as (Hstart & Hend & Hnr' & Hpools & Hlen & Hpf).
  assert (Hlt' : (page' < List.length (pages seg))%nat)
    by (rewrite <- Hlen; by eapply lookup_lt_Some).
  destruct (page_pa_inv _ _ _ Hwf Hlt') as (_ & _ & Hidx & _).
  assert (Heq : free_spec seg page order
                = set_nr_free_pages (enlist seg' order' page')
                    (nr_free_pages seg + 2 ^ Z.of_nat order)).
  { unfold free_spec. by rewrite Hspec, Hidx. }
  rewrite Heq in *.
  destruct (wf_enlist seg' held order' page') as [Hwf'' Hcov''].
  - eapply seg_wf_perm; [| done]. rewrite Hblk. solve_Permutation.
  - lia.
  - unfold block_aligned, page_pa in *. by rewrite Hstart.
  - rewrite Forall_forall in *. intros k Hk. apply Hpf.
    rewrite Hblk, elem_of_app in Hk. destruct Hk as [Hk | Hk]; [| by auto].
    pose proof (wf_free _ _ Hwf) as Hf. rewrite Forall_forall in Hf.
    apply Hf. rewrite elem_of_app. right. rewrite <- Hcov, elem_of_app. by left.
  - assert (Hcovf : covered (enlist seg' order' page')
                    ≡ₚ block_pages order page ++ covered seg).
    { rewrite Hcov'', Hblk, <- Hcov. solve_Permutation. }
    split_and!.
    + split; [by apply seg_wf_set_nr_free_pages |].
      unfold accounted.
      rewrite (free_sum_covered _ held) by by apply seg_wf_set_nr_free_pages.
      simpl nr_free_pages.
      change (covered (set_nr_free_pages ?s ?v)) with (covered s).
      destruct (nr_free_bound _ _ Hinv) as [Hnrv _].
      rewrite Hcovf, length_app, block_pages_length, Nat2Z.inj_add, pow2_nat_Z.
      lia.
    + done.
    + reflexivity.
    + split_and!; try done.
      * simpl. rewrite length_alter. done.
      * intros k. etrans; [| apply Hpf].
        etrans; [| apply (page_free_enlist seg' order' page' k)].
        reflexivity.
Qed.

(** ** Per-CPU pools *)

Lemma pooled_put_cons (seg : vm_page_seg) (cpu : nat)
    (cpu_pool : vm_page_cpu_pool) (page : nat) (size transfer nr : Z) :
  cpu_pools seg !! cpu = Some cpu_pool →
  pooled (put_cpu_pool seg cpu
            (CpuPool size transfer nr (page :: pool_pages cpu_pool)))
  ≡ₚ page :: pooled seg.
Proof.
  intros Hpool. unfold pooled, put_cpu_pool. simpl.
  pose proof (bind_insert_perm pool_pages (cpu_pools seg) cpu cpu_pool
    (CpuPool size transfer nr (page :: pool_pages cpu_pool)) Hpool) as Hperm.
  simpl in Hperm. rewrite Permutation_middle in Hperm.
  apply Permutation_app_inv_l in Hperm. by symmetry.
Qed.

Lemma pooled_put_tail (seg : vm_page_seg) (cpu : nat)
    (cpu_pool : vm_page_cpu_pool) (page : nat) (rest : list nat)
    (size transfer nr : Z) :
  cpu_pools seg !! cpu = Some cpu_pool →
  pool_pages cpu_pool = page :: rest →
  page :: pooled (put_cpu_pool seg cpu (CpuPool size transfer nr rest))
  ≡ₚ pooled seg.
Proof.
  intros Hpool Hpages. unfold pooled, put_cpu_pool. simpl.
  pose proof (bind_insert_perm pool_pages (cpu_pools seg) cpu cpu_pool
    (CpuPool size transfer nr rest) Hpool) as Hperm.
  simpl in Hperm. rewrite Hpages in Hperm. simpl in Hperm.
  rewrite Permutation_middle in Hperm.
  apply Permutation_app_inv_l in Hperm. by symmetry.
Qed.

(** The pool of [cpu] after an operation on it. *)
Lemma pool_push_step (seg : vm_page_seg) (held : list nat) (cpu page : nat)
    (cpu_pool : vm_page_cpu_pool) :
  seg_wf seg (page :: held) →
  cpu_pools seg !! cpu = Some cpu_pool →
  pool_nr_pages cpu_pool < pool_size cpu_pool →
  page_free seg page →
  ∃ seg',
    vm_page_cpu_pool_push seg cpu page = Ret seg'
    ∧ seg_wf seg' held
    ∧ cpu_pools seg' !! cpu
      = Some (CpuPool (pool_size cpu_pool) (pool_transfer_size cpu_pool)
                (pool_nr_pages cpu_pool + 1) (page :: pool_pages cpu_pool))
    ∧ free_lists seg' = free_lists seg ∧ pages seg' = pages seg
    ∧ nr_free_pages seg' = nr_free_pages seg
    ∧ seg_start seg' = seg_start seg ∧ seg_end seg' = seg_end seg
    ∧ List.length (cpu_pools seg') = List.length (cpu_pools seg).
Proof.
  intros Hwf Hpool Hroom Hfree.
  unfold vm_page_cpu_pool_push, vm_page_cpu_pool_get. rewrite Hpool. simpl.
  destruct (Z.ltb_spec (pool_nr_pages cpu_pool) (pool_size cpu_pool)); [| lia].
  simpl. eexists. split; [done |].
  set (new := CpuPool _ _ _ _).
  assert (Hpooled : pooled (put_cpu_pool seg cpu new) ≡ₚ page :: pooled seg)
    by by apply pooled_put_cons.
  assert (Hcov : covered (put_cpu_pool seg cpu new) = covered seg) by done.
  assert (Hall : held ++ pooled (put_cpu_pool seg cpu new)
                   ++ covered (put_cpu_pool seg cpu new)
                 ≡ₚ (page :: held) ++ pooled seg ++ covered seg).
  { rewrite Hcov, Hpooled. solve_Permutation. }
  split_and!; try done.
  - destruct Hwf. split; try done.
    + by rewrite Hall.
    + simpl pages. by rewrite Hall.
    + rewrite Hpooled, Hcov. simpl. constructor; [done |].
      rewrite Forall_forall in *. intros k Hk. by apply wf_free0.
    + simpl. apply Forall_insert; [done |].
      pose proof (Forall_lookup_1 _ _ _ _ wf_pools0 Hpool)
        as (? & ? & ? & Hnr & ?).
      unfold pool_ok, new. simpl. split_and!; try done; lia.
  - simpl. apply list_lookup_insert_eq. by eapply lookup_lt_Some.
  - simpl. apply length_insert.
Qed.

Lemma pool_pop_step (seg : vm_page_seg) (held : list nat) (cpu : nat)
    (cpu_pool : vm_page_cpu_pool) :
  seg_wf seg held →
  cpu_pools seg !! cpu = Some cpu_pool →
  pool_nr_pages cpu_pool ≠ 0 →
  ∃ page rest seg',
    pool_pages cpu_pool = page :: rest
    ∧ vm_page_cpu_pool_pop seg cpu = Ret (page, seg')
    ∧ seg_wf seg' (page :: held)
    ∧ page_free seg page
    ∧ cpu_pools seg' !! cpu
      = Some (CpuPool (pool_size cpu_pool) (pool_transfer_size cpu_pool)
                (pool_nr_pages cpu_pool - 1) rest)
    ∧ free_lists seg' = free_lists seg ∧ pages seg' = pages seg
    ∧ nr_free_pages seg' = nr_free_pages seg
    ∧ seg_start seg' = seg_start seg ∧ seg_end seg' = seg_end seg
    ∧ List.length (cpu_pools seg') = List.length (cpu_pools seg).
Proof.
  intros Hwf Hpool Hnr0.
  pose proof (Forall_lookup_1 _ _ _ _ (wf_pools _ _ Hwf) Hpool)
    as (Ht0 & Hts & Hs31 & Hnr & Hle).
  destruct (pool_pages cpu_pool) as [| page rest] eqn:Hpages;
    [simpl in Hnr; lia |].
  exists page, rest.
  unfold vm_page_cpu_pool_pop, vm_page_cpu_pool_get. rewrite Hpool. simpl.
  destruct (Z.eqb_spec (pool_nr_pages cpu_pool) 0); [done |]. simpl.
  rewrite Hpages. simpl. eexists. split_and!; try done.
  - set (new := CpuPool _ _ _ _).
    assert (Hpooled : page :: pooled (put_cpu_pool seg cpu new) ≡ₚ pooled seg)
      by by eapply pooled_put_tail.
    assert (Hcov : covered (put_cpu_pool seg cpu new) = covered seg) by done.
    assert (Hall : (page :: held) ++ pooled (put_cpu_pool seg cpu new)
                     ++ covered (put_cpu_pool seg cpu new)
                   ≡ₚ held ++ pooled seg ++ covered seg).
    { rewrite Hcov, <- Hpooled. solve_Permutation. }
    destruct Hwf. split; try done.
    + by rewrite Hall.
    + simpl pages. by rewrite Hall.
    + rewrite Hcov. rewrite Forall_forall in *. intros k Hk.
      apply wf_free0. rewrite <- Hpooled.
      rewrite !elem_of_app in *. rewrite elem_of_cons. tauto.
    + simpl. apply Forall_insert; [done |].
      unfold pool_ok, new. simpl in *. split_and!; try done; lia.
  - pose proof (wf_free _ _ Hwf) as Hf. rewrite Forall_forall in Hf.
    apply Hf. rewrite elem_of_app. left.
    unfold pooled. apply list_elem_of_bind. exists cpu_pool.
    rewrite Hpages. split; [by left | by eapply list_elem_of_lookup_2].
  - simpl. apply list_lookup_insert_eq. by eapply lookup_lt_Some.
  - simpl. apply length_insert.
Qed.

(** ** Page types *)

(** Changing descriptors without touching their order or address, nor the
    type of a page that is free or in a pool, keeps the invariants. *)
Lemma seg_wf_set_pages (seg : vm_page_seg) (held : list nat)
    (pgs : list vm_page) :
  seg_wf seg held →
  List.length pgs = List.length (pages seg) →
  (∀ k pg', pgs !! k = Some pg' →
     ∃ pg, pages seg !! k = Some pg ∧ page_order pg' = page_order pg
           ∧ phys_addr pg' = phys_addr pg
           ∧ (k ∈ pooled seg ++ covered seg → page_type pg' = page_type pg)) →
  seg_wf (set_pages seg pgs) held.
Proof.
  intros [] Hlen Hsame. split; try done.
  - simpl pages. by rewrite Hlen.
  - intros o page pg' Hl Hpg'. simpl in Hpg'.
    destruct (Hsame _ _ Hpg') as (pg & Hpg & -> & _). by eapply wf_listed0.
  - intros page pg' Hpg' Hord. simpl in Hpg'.
    destruct (Hsame _ _ Hpg') as (pg & Hpg & Ho & _). rewrite Ho in *.
    by eapply wf_unlisted0.
  - rewrite Forall_forall in *. intros k Hk.
    destruct (wf_free0 k Hk) as (pg & Hpg & Hty).
    destruct (lookup_lt_is_Some_2 pgs k) as [pg' Hpg'].
    { rewrite Hlen. by eapply lookup_lt_Some. }
    destruct (Hsame _ _ Hpg') as (pg0 & Hpg0 & _ & _ & Hty').
    exists pg'. split; [done |]. rewrite Hty' by done. congruence.
  - intros page pg' Hpg'. simpl in Hpg'.
    destruct (Hsame _ _ Hpg') as (pg & Hpg & _ & -> & _). by apply wf_addr0.
  - unfold page_pa in *. simpl pages. by rewrite Hlen.
  - simpl pages. by rewrite Hlen.
Qed.

Lemma set_type_loop_lookup (n : nat) (pgs : list vm_page) (page : nat)
    (type : Z) :
  (page + n ≤ List.length pgs)%nat →
  ∃ pgs',
    set_type_loop n pgs page type = Ret pgs'
    ∧ List.length pgs' = List.length pgs
    ∧ ∀ k, pgs' !! k
           = if decide (page ≤ k < page + n)%nat
             then page_set_type type <$> pgs !! k else pgs !! k.
Proof.
  revert pgs page. induction n as [| n IH]; intros pgs page Hle.
  { exists pgs. split_and!; [done .. |]. intros k. case_decide; [lia | done]. }
  simpl. destruct (lookup_lt_is_Some_2 pgs page ltac:(lia)) as [pg Hpg].
  rewrite Hpg. simpl.
  destruct (IH (<[page := page_set_type type pg]> pgs) (S page))
    as (pgs' & Hcode & Hlen & Hlook).
  { rewrite length_insert. lia. }
  exists pgs'. rewrite length_insert in Hlen. split_and!; [done .. |].
  intros k. rewrite Hlook, list_lookup_insert.
  repeat case_decide; try lia; try done.
  all: try (destruct_and!; subst k; by rewrite Hpg).
  all: try (exfalso; apply lookup_lt_Some in Hpg; lia).
Qed.

(** Setting the type of the pages of a held block. *)
Lemma set_type_step (seg : vm_page_seg) (held : list nat) (page order : nat)
    (type : Z) :
  seg_wf seg held →
  (∀ k, k ∈ block_pages order page → k ∈ held) →
  ∃ seg',
    vm_page_set_type seg page order type = Ret seg'
    ∧ seg_wf seg' held
    ∧ free_lists seg' = free_lists seg ∧ cpu_pools seg' = cpu_pools seg
    ∧ nr_free_pages seg' = nr_free_pages seg
    ∧ seg_start seg' = seg_start seg ∧ seg_end seg' = seg_end seg
    ∧ List.length (pages seg') = List.length (pages seg)
    ∧ (∀ k, pages seg' !! k
            = if decide (k ∈ block_pages order page)
              then page_set_type type <$> pages seg !! k
              else pages seg !! k).
Proof.
  intros Hwf Hheld.
  assert (Hfits : (page + 2 ^ order ≤ List.length (pages seg))%nat).
  { pose proof (pow2_nat_pos order).
    assert (Hlast : (page + 2 ^ order - 1)%nat ∈ block_pages order page)
      by (apply elem_of_block_pages; lia).
    pose proof (wf_range _ _ Hwf) as Hr. rewrite Forall_forall in Hr.
    specialize (Hr (page + 2 ^ order - 1)%nat).
    rewrite elem_of_app in Hr. specialize (Hr (or_introl (Hheld _ Hlast))).
    lia. }
  destruct (set_type_loop_lookup (2 ^ order) (pages seg) page type Hfits)
    as (pgs' & Hcode & Hlen & Hlook).
  unfold vm_page_set_type. rewrite Hcode. simpl.
  assert (Hlook' : ∀ k, pgs' !! k
            = if decide (k ∈ block_pages order page)
              then page_set_type type <$> pages seg !! k
              else pages seg !! k).
  { intros k. rewrite Hlook.
    destruct (decide (page ≤ k < page + 2 ^ order)%nat) as [Hk | Hk];
      destruct (decide (k ∈ block_pages order page)) as [Hb | Hb];
      rewrite elem_of_block_pages in Hb; (done || lia). }
  eexists. split_and!; try done.
  apply seg_wf_set_pages; [done .. |].
  intros k pg' Hpg'. rewrite Hlook' in Hpg'.
  case_decide as Hb.
  - destruct (pages seg !! k) as [pg |]; simplify_eq/=.
    exists pg. split_and!; try done. intros Hk. exfalso.
    pose proof (wf_nodup _ _ Hwf) as Hnd.
    apply NoDup_app in Hnd as (_ & Hdisj & _). by apply (Hdisj k); auto.
  - exists pg'. by split_and!.
Qed.

(** ** Allocation keeps the rest of the segment *)

Lemma same_frame_enlist (seg : vm_page_seg) (i page : nat) :
  same_frame seg (enlist seg i page).
Proof.
  split_and!; try done.
  - simpl. apply length_alter.
  - intros k. apply page_free_enlist.
Qed.

Lemma same_frame_split_spec (n : nat) (seg : vm_page_seg) (page order : nat) :
  same_frame seg (split_spec n seg page order).
Proof.
  revert seg. induction n as [| n IH]; intros seg; [apply same_frame_refl |].
  simpl. eapply same_frame_trans; [apply same_frame_enlist | apply IH].
Qed.

Lemma alloc_spec_frame (seg : vm_page_seg) (order i page : nat) :
  same_frame seg
    (set_nr_free_pages (alloc_spec seg order i page) (nr_free_pages seg)).
Proof.
  pose proof (same_frame_trans _ _ _ (same_frame_unlist seg i page)
    (same_frame_split_spec (i - order) (unlist seg i page) page order))
    as (? & ? & ? & ? & ? & ?).
  unfold alloc_spec. by split_and!.
Qed.

Lemma alloc_spec_same (seg : vm_page_seg) (order i page : nat) :
  seg_start (alloc_spec seg order i page) = seg_start seg
  ∧ seg_end (alloc_spec seg order i page) = seg_end seg
  ∧ cpu_pools (alloc_spec seg order i page) = cpu_pools seg
  ∧ List.length (pages (alloc_spec seg order i page))
    = List.length (pages seg)
  ∧ nr_free_pages (alloc_spec seg order i page)
    = nr_free_pages seg - 2 ^ Z.of_nat order.
Proof.
  destruct (alloc_spec_frame seg order i page) as (? & ? & _ & ? & ? & _).
  by split_and!.
Qed.

Lemma covered_from_nil (o : nat) (fls : list vm_page_free_list) :
  Forall (λ fl, fl_blocks fl = []) fls → covered_from o fls = [].
Proof.
  intros Hall. revert o. induction Hall as [| fl fls Hfl _ IH]; intros o;
    [done |].
  simpl. by rewrite Hfl, IH.
Qed.

(** No list holds a block exactly when no page is free. *)
Lemma first_fit_none_free (seg : vm_page_seg) (held : list nat) :
  seg_inv seg held → first_fit seg 0 = None ↔ nr_free_pages seg = 0.
Proof.
  intros Hinv. destruct (nr_free_bound _ _ Hinv) as [-> _].
  unfold first_fit. rewrite drop_0, first_fit_from_None. split.
  - intros Hall. unfold covered. by rewrite covered_from_nil.
  - intros Hlen. rewrite Forall_lookup. intros i fl Hfl.
    pose proof (length_listed_le 0 _ _ _ Hfl) as Hle. unfold covered in Hlen.
    destruct (fl_blocks fl); [done | simpl in Hle; lia].
Qed.

(** ** Filling a pool *)

Lemma seg_inv_frame (seg seg' : vm_page_seg) (held : list nat) :
  seg_wf seg' held → accounted seg →
  free_lists seg' = free_lists seg → nr_free_pages seg' = nr_free_pages seg →
  seg_inv seg' held.
Proof.
  intros Hwf Hacc Hfl Hnr. split; [done |].
  unfold accounted, free_sum in *. by rewrite Hfl, Hnr.
Qed.

(** The loop moves pages from the buddy system to the pool until [n] pages
    have been moved or no page is free. *)
Lemma fill_loop_spec (n : nat) (seg : vm_page_seg) (held : list nat)
    (cpu : nat) (i : Z) (cpu_pool : vm_page_cpu_pool) :
  seg_inv seg held →
  cpu_pools seg !! cpu = Some cpu_pool →
  pool_nr_pages cpu_pool + Z.of_nat n ≤ pool_size cpu_pool →
  let m := Z.of_nat n `min` nr_free_pages seg in
  ∃ seg' pool_pages',
    fill_loop n seg cpu i = Ret (i + m, seg')
    ∧ seg_inv seg' held
    ∧ cpu_pools seg' !! cpu
      = Some (CpuPool (pool_size cpu_pool) (pool_transfer_size cpu_pool)
                (pool_nr_pages cpu_pool + m) pool_pages')
    ∧ nr_free_pages seg' = nr_free_pages seg - m
    ∧ seg_start seg' = seg_start seg ∧ seg_end seg' = seg_end seg
    ∧ List.length (pages seg') = List.length (pages seg)
    ∧ List.length (cpu_pools seg') = List.length (cpu_pools seg).
Proof.
  revert seg i cpu_pool.
  induction n as [| n IH]; intros seg i cpu_pool Hinv Hpool Hroom m.
  { destruct (nr_free_bound _ _ Hinv) as [Hnr _].
    assert (m = 0) as -> by (subst m; lia).
    exists seg, (pool_pages cpu_pool). simpl. rewrite !Z.add_0_r, Z.sub_0_r.
    split_and!; try done. by destruct cpu_pool. }
  simpl fill_loop.
  destruct (first_fit seg 0) as [[j page] |] eqn:Hfit.
  - destruct (alloc_from_buddy_fit seg held 0 j page Hinv) as
      (Hcode & Hinv1 & _ & Hfree1 & Hcov1); [unfold VM_PAGE_NR_FREE_LISTS; lia
                                             | done |].
    rewrite Hcode. simpl.
    set (seg1 := alloc_spec seg 0 j page) in *.
    destruct (alloc_spec_same seg 0 j page) as (Hs1 & He1 & Hp1 & Hl1 & Hnr1).
    fold seg1 in Hs1, He1, Hp1, Hl1, Hnr1.
    change (2 ^ Z.of_nat 0) with 1 in Hnr1.
    destruct Hinv1 as [Hwf1 Hacc1].
    change (block_pages 0 page ++ held) with (page :: held) in Hwf1.
    destruct (pool_push_step seg1 held cpu page cpu_pool Hwf1)
      as (seg2 & Hcode2 & Hwf2 & Hpool2 & Hfl2 & Hpg2 & Hnr2 & Hs2 & He2
          & Hlp2);
      [by rewrite Hp1 | lia | |].
    { rewrite Forall_forall in Hfree1. apply Hfree1. apply block_pages_head. }
    rewrite Hcode2. simpl.
    destruct (IH seg2 (i + 1) _ (seg_inv_frame _ _ _ Hwf2 Hacc1 Hfl2 Hnr2) Hpool2)
      as (seg' & pages' & Hcode' & Hinv' & Hpool' & Hnr' & Hs' & He' & Hl'
          & Hlp');
      [simpl; lia |].
    simpl in Hpool'.
    assert (Hpos : 0 < nr_free_pages seg).
    { destruct (nr_free_bound _ _ Hinv) as [Hnr _].
      destruct (first_fit_none_free _ _ Hinv) as [_ Hnone].
      destruct (Z.eq_dec (nr_free_pages seg) 0) as [H0 | H0];
        [rewrite (Hnone H0) in Hfit; done | lia]. }
    assert (Hm : m = 1 + (Z.of_nat n `min` nr_free_pages seg2))
      by (subst m; rewrite Hnr2, Hnr1; lia).
    exists seg', pages'. rewrite Hm.
    split_and!; try done.
    + rewrite Hcode'. do 2 f_equal. lia.
    + rewrite Hpool'. do 2 f_equal. lia.
    + rewrite Hnr', Hnr2, Hnr1. lia.
    + by rewrite Hs', Hs2, Hs1.
    + by rewrite He', He2, He1.
    + by rewrite Hl', Hpg2, Hl1.
    + by rewrite Hlp', Hlp2, Hp1.
  - rewrite (alloc_from_buddy_none seg held 0) by
      (done || apply Hinv || (unfold VM_PAGE_NR_FREE_LISTS; lia)).
    simpl. destruct (first_fit_none_free _ _ Hinv) as [Hzero _].
    specialize (Hzero Hfit).
    assert (m = 0) as -> by (subst m; lia).
    exists seg, (pool_pages cpu_pool). rewrite !Z.add_0_r, Z.sub_0_r.
    split_and!; try done. by destruct cpu_pool.
Qed.

(** ** Allocation from a segment *)

Local Arguments vm_page_set_type : simpl never.
Local Arguments vm_page_seg_alloc_from_buddy : simpl never.
Local Arguments vm_page_seg_free_to_buddy : simpl never.
Local Arguments vm_page_cpu_pool_pop : simpl never.
Local Arguments vm_page_cpu_pool_push : simpl never.

(** The end of [vm_page_seg_alloc]: the assertion on the type of the page
    and [vm_page_set_type]. *)
Lemma seg_alloc_finish (seg : vm_page_seg) (held : list nat)
    (page order : nat) (type : Z) :
  seg_inv seg (block_pages order page ++ held) →
  page_free seg page →
  ∃ seg',
    (pg ← deref (pages seg !! page);
     _ ← assert (page_type pg =? VM_PT_FREE);
     seg ← vm_page_set_type seg page order type;
     Ret (Some page, seg)) = Ret (Some page, seg')
    ∧ seg_inv seg' (block_pages order page ++ held)
    ∧ cpu_pools seg' = cpu_pools seg
    ∧ nr_free_pages seg' = nr_free_pages seg
    ∧ seg_start seg' = seg_start seg ∧ seg_end seg' = seg_end seg
    ∧ List.length (pages seg') = List.length (pages seg)
    ∧ (∀ k, k ∈ block_pages order page →
            page_type <$> pages seg' !! k = Some type).
Proof.
  intros [Hwf Hacc] (pg & Hpg & Hty).
  destruct (set_type_step seg _ page order type Hwf)
    as (seg' & Hcode & Hwf' & Hfl & Hpools & Hnr & Hs & He & Hlen & Hlook).
  { intros k Hk. apply elem_of_app. by left. }
  exists seg'. rewrite Hpg. simpl. rewrite Hty. simpl. rewrite Hcode. simpl.
  split_and!; try done.
  - by eapply seg_inv_frame.
  - intros k Hk. rewrite Hlook. rewrite decide_True by done.
    destruct (seg_wf_held_lookup seg _ k Hwf) as [pgk Hpgk].
    { rewrite !elem_of_app. by left; left. }
    by rewrite Hpgk.
Qed.

Lemma fill_loop_none (n : nat) (seg : vm_page_seg) (held : list nat)
    (cpu : nat) (i : Z) :
  seg_inv seg held → nr_free_pages seg = 0 →
  fill_loop n seg cpu i = Ret (i, seg).
Proof.
  intros Hinv Hzero. destruct n as [| n]; [done |]. simpl.
  rewrite (alloc_from_buddy_none seg held 0); [done | apply Hinv | |].
  - unfold VM_PAGE_NR_FREE_LISTS. lia.
  - by apply (first_fit_none_free _ _ Hinv).
Qed.

Lemma block_aligned_0 (seg : vm_page_seg) (held : list nat) (page : nat) :
  seg_wf seg held → block_aligned seg 0 page.
Proof.
  intros Hwf. destruct (wf_start _ _ Hwf) as [_ Hmod].
  unfold block_aligned, page_pa. simpl. rewrite Z.mul_1_l.
  by rewrite <- Z.add_mod_idemp_l, Hmod, Z.add_0_l, Z.mod_mul by done.
Qed.

(** An allocation of order 0 on a processor whose pool is empty. *)
Lemma seg_alloc_pool_empty (seg : vm_page_seg) (held : list nat) (cpu : nat)
    (cpu_pool : vm_page_cpu_pool) (type : Z) :
  seg_inv seg held →
  cpu_pools seg !! cpu = Some cpu_pool →
  pool_nr_pages cpu_pool = 0 →
  let filled := pool_transfer_size cpu_pool `min` nr_free_pages seg in
  (filled = 0 → vm_page_seg_alloc seg cpu 0 type = Ret (None, seg))
  ∧ (filled ≠ 0 →
     ∃ page seg' rest,
       vm_page_seg_alloc seg cpu 0 type = Ret (Some page, seg')
       ∧ cpu_pools seg' !! cpu
         = Some (CpuPool (pool_size cpu_pool) (pool_transfer_size cpu_pool)
                   (filled - 1) rest)
       ∧ nr_free_pages seg' = nr_free_pages seg - filled
       ∧ allocated seg held 0 type page seg').
Proof.
  intros Hinv Hpool Hempty filled. pose proof Hinv as [Hwf Hacc].
  pose proof (Forall_lookup_1 _ _ _ _ (wf_pools _ _ Hwf) Hpool)
    as (Ht0 & Hts & Hs31 & Hnr & Hle).
  destruct (nr_free_bound _ _ Hinv) as [Hnrv _].
  unfold vm_page_seg_alloc, vm_page_cpu_pool_fill, vm_page_cpu_pool_get.
  simpl. rewrite Hpool. simpl. rewrite Hempty. simpl.
  split.
  - intros Hf0. assert (nr_free_pages seg = 0) by (subst filled; lia).
    by rewrite (fill_loop_none _ _ held).
  - intros Hf.
    destruct (fill_loop_spec (Z.to_nat (pool_transfer_size cpu_pool)) seg held
                cpu 0 cpu_pool Hinv Hpool ltac:(lia))
      as (seg1 & pages1 & Hcode1 & Hinv1 & Hpool1 & Hnr1 & Hs1 & He1 & Hl1
          & Hlp1).
    rewrite Z2Nat.id in * by lia. fold filled in Hcode1, Hpool1, Hnr1.
    rewrite Z.add_0_l in Hcode1. rewrite Hcode1. simpl.
    destruct (Z.eqb_spec filled 0) as [| _]; [done |].
    destruct Hinv1 as [Hwf1 Hacc1].
    destruct (pool_pop_step seg1 held cpu _ Hwf1 Hpool1)
      as (page & rest & seg2 & Hpages & Hcode2 & Hwf2 & Hfree2 & Hpool2 & Hfl2
          & Hpg2 & Hnr2 & Hs2 & He2 & Hlp2); [simpl; lia |].
    rewrite Hcode2. simpl.
    destruct (seg_alloc_finish seg2 held page 0 type)
      as (seg' & Hcode' & Hinv' & Hpools' & Hnr' & Hs' & He' & Hl' & Hty').
    { by eapply seg_inv_frame. }
    { destruct Hfree2 as (pg & Hpg & Hty). exists pg. by rewrite Hpg2. }
    rewrite Hcode'. exists page, seg', rest.
    split_and!; try done.
    + rewrite Hpools', Hpool2. simpl. do 2 f_equal. lia.
    + by rewrite Hnr', Hnr2, Hnr1.
    + unfold allocated. split_and!; try done.
      * eapply block_aligned_0, Hinv'.
      * by rewrite Hs', Hs2.
      * by rewrite He', He2.
      * by rewrite Hl', Hpg2.
      * by rewrite Hpools', Hlp2, Hlp1.
Qed.

Local Arguments alloc_spec : simpl never.
Local Arguments free_spec : simpl never.

(** The allocation in a segment, in general: it fails and leaves the
    segment as it was, or it returns a block. *)
Lemma seg_alloc_spec (seg : vm_page_seg) (held : list nat) (cpu order : nat)
    (type : Z) :
  seg_inv seg held →
  (cpu < List.length (cpu_pools seg))%nat →
  (order < VM_PAGE_NR_FREE_LISTS)%nat →
  vm_page_seg_alloc seg cpu order type = Ret (None, seg)
  ∨ ∃ page seg',
      vm_page_seg_alloc seg cpu order type = Ret (Some page, seg')
      ∧ allocated seg held order type page seg'.
Proof.
  intros Hinv Hcpu Hord. pose proof Hinv as [Hwf Hacc].
  destruct (lookup_lt_is_Some_2 _ _ Hcpu) as [cpu_pool Hpool].
  destruct order as [| order'].
  - (* through the pool *)
    destruct (Z.eq_dec (pool_nr_pages cpu_pool) 0) as [Hempty | Hnonempty].
    + destruct (seg_alloc_pool_empty seg held cpu cpu_pool type Hinv Hpool
                  Hempty) as [Hnone Hsome].
      destruct (Z.eq_dec (pool_transfer_size cpu_pool `min` nr_free_pages seg) 0)
        as [H0 | H0]; [left; by apply Hnone | right].
      destruct (Hsome H0) as (page & seg' & rest & Hcode & _ & _ & Halloc).
      by exists page, seg'.
    + right.
      unfold vm_page_seg_alloc, vm_page_cpu_pool_get. simpl.
      rewrite Hpool. simpl.
      destruct (Z.eqb_spec (pool_nr_pages cpu_pool) 0); [done |]. simpl.
      destruct (pool_pop_step seg held cpu _ Hwf Hpool Hnonempty)
        as (page & rest & seg2 & Hpages & Hcode2 & Hwf2 & Hfree2 & Hpool2
            & Hfl2 & Hpg2 & Hnr2 & Hs2 & He2 & Hlp2).
      rewrite Hcode2. simpl.
      destruct (seg_alloc_finish seg2 held page 0 type)
        as (seg' & Hcode' & Hinv' & Hpools' & Hnr' & Hs' & He' & Hl' & Hty').
      { by eapply seg_inv_frame. }
      { destruct Hfree2 as (pg & Hpg & Hty). exists pg. by rewrite Hpg2. }
      rewrite Hcode'. exists page, seg'. split; [done |].
      unfold allocated. split_and!; try done.
      * eapply block_aligned_0, Hinv'.
      * by rewrite Hs', Hs2.
      * by rewrite He', He2.
      * by rewrite Hl', Hpg2.
      * by rewrite Hpools', Hlp2.
  - (* from the buddy system *)
    set (order := S order') in *.
    unfold vm_page_seg_alloc.
    destruct (Nat.ltb_spec order VM_PAGE_NR_FREE_LISTS); [| lia].
    change (order =? 0)%nat with false. simpl.
    destruct (first_fit seg order) as [[i page] |] eqn:Hfit.
    + right.
      destruct (alloc_from_buddy_fit seg held order i page Hinv Hord Hfit)
        as (Hcode & Hinv1 & Hal1 & Hfree1 & _).
      destruct (alloc_spec_same seg order i page) as (Hs1 & He1 & Hp1 & Hl1 & _).
      rewrite Hcode, bind_Ret. cbv beta iota.
      destruct (seg_alloc_finish (alloc_spec seg order i page) held page order
                  type Hinv1)
        as (seg' & Hcode' & Hinv' & Hpools' & Hnr' & Hs' & He' & Hl' & Hty').
      { rewrite Forall_forall in Hfree1. apply Hfree1, block_pages_head. }
      rewrite Hcode'. exists page, seg'. split; [done |].
      unfold allocated. split_and!; try done.
      * unfold block_aligned, page_pa in *. by rewrite Hs', Hs1.
      * by rewrite Hs', Hs1.
      * by rewrite He', He1.
      * by rewrite Hl', Hl1.
      * by rewrite Hpools', Hp1.
    + left. by rewrite (alloc_from_buddy_none seg held order).
Qed.

(** ** Freeing to a segment *)

Lemma drain_loop_spec (n : nat) (seg : vm_page_seg) (held : list nat)
    (cpu : nat) (cpu_pool : vm_page_cpu_pool) :
  seg_inv seg held →
  cpu_pools seg !! cpu = Some cpu_pool →
  Z.of_nat n ≤ pool_nr_pages cpu_pool →
  ∃ seg' pool_pages',
    drain_loop n seg cpu = Ret seg'
    ∧ seg_inv seg' held
    ∧ cpu_pools seg' !! cpu
      = Some (CpuPool (pool_size cpu_pool) (pool_transfer_size cpu_pool)
                (pool_nr_pages cpu_pool - Z.of_nat n) pool_pages')
    ∧ nr_free_pages seg' = nr_free_pages seg + Z.of_nat n
    ∧ seg_start seg' = seg_start seg ∧ seg_end seg' = seg_end seg
    ∧ List.length (pages seg') = List.length (pages seg)
    ∧ List.length (cpu_pools seg') = List.length (cpu_pools seg)
    ∧ ∀ k, page_free seg' k ↔ page_free seg k.
Proof.
  revert seg cpu_pool.
  induction n as [| n IH]; intros seg cpu_pool Hinv Hpool Hn.
  { exists seg, (pool_pages cpu_pool). simpl. rewrite Z.sub_0_r, Z.add_0_r.
    split_and!; try done. by destruct cpu_pool. }
  pose proof Hinv as [Hwf Hacc]. simpl drain_loop.
  destruct (pool_pop_step seg held cpu _ Hwf Hpool ltac:(lia))
    as (page & rest & seg1 & Hpages & Hcode1 & Hwf1 & Hfree1 & Hpool1
        & Hfl1 & Hpg1 & Hnr1 & Hs1 & He1 & Hlp1).
  rewrite Hcode1, bind_Ret. cbv beta iota.
  assert (Hinv1 : seg_inv seg1 (block_pages 0 page ++ held))
    by by eapply seg_inv_frame.
  destruct (free_to_buddy_inv seg1 held page 0 Hinv1)
    as (Hcode2 & Hinv2 & _ & Hnr2 & Hframe2).
  { unfold VM_PAGE_NR_FREE_LISTS. lia. }
  { eapply block_aligned_0, Hwf1. }
  { constructor; [| done]. destruct Hfree1 as (pg & Hpg & Hty).
    exists pg. by rewrite Hpg1. }
  rewrite Hcode2, bind_Ret.
  set (seg2 := free_spec seg1 page 0) in *.
  destruct Hframe2 as (Hs2 & He2 & _ & Hp2 & Hl2 & Hpf2).
  simpl in Hs2, He2, Hp2, Hl2.
  destruct (IH seg2 (CpuPool (pool_size cpu_pool)
                         (pool_transfer_size cpu_pool)
                         (pool_nr_pages cpu_pool - 1) rest) Hinv2)
    as (seg' & pages' & Hcode' & Hinv' & Hpool' & Hnr' & Hs' & He' & Hl'
        & Hlp' & Hpf').
  { by rewrite Hp2, Hpool1. }
  { simpl. lia. }
  exists seg', pages'. simpl in Hpool'.
  split_and!; try done.
  - rewrite Hpool'. do 2 f_equal. lia.
  - rewrite Hnr', Hnr2, Hnr1. change (2 ^ Z.of_nat 0) with 1. lia.
  - by rewrite Hs', Hs2, Hs1.
  - by rewrite He', He2, He1.
  - by rewrite Hl', Hl2, Hpg1.
  - by rewrite Hlp', Hp2, Hlp1.
  - intros k. rewrite Hpf'. etrans; [apply (Hpf2 k) |].
    unfold page_free. by rewrite Hpg1.
Qed.

Local Arguments drain_loop : simpl never.

Ltac ret := cbn [deref assert mbind outcome_bind negb].
Ltac ret_in H := cbn [deref assert mbind outcome_bind negb] in H.

(** Freeing a held block to a segment: the block goes to the pool of the
    processor or to the buddy system, and the invariants hold again
    without the block. *)
Lemma seg_free_spec (seg : vm_page_seg) (held : list nat)
    (cpu page order : nat) (pg : vm_page) :
  seg_inv seg (block_pages order page ++ held) →
  block_aligned seg order page →
  (order < VM_PAGE_NR_FREE_LISTS)%nat →
  (cpu < List.length (cpu_pools seg))%nat →
  pages seg !! page = Some pg →
  page_type pg ≠ VM_PT_FREE →
  ∃ seg',
    vm_page_seg_free seg cpu page order = Ret seg'
    ∧ seg_inv seg' held
    ∧ seg_start seg' = seg_start seg ∧ seg_end seg' = seg_end seg
    ∧ List.length (pages seg') = List.length (pages seg)
    ∧ List.length (cpu_pools seg') = List.length (cpu_pools seg).
Proof.
  intros Hinv Hal Hord Hcpu Hpg Hty. pose proof Hinv as [Hwf Hacc].
  unfold vm_page_seg_free. rewrite Hpg. ret.
  destruct (Z.eqb_spec (page_type pg) VM_PT_FREE) as [| _]; [done |]. ret.
  destruct (Nat.ltb_spec order VM_PAGE_NR_FREE_LISTS) as [_ |]; [| lia]. ret.
  destruct (set_type_step seg _ page order VM_PT_FREE Hwf)
    as (seg1 & Hcode1 & Hwf1 & Hfl1 & Hp1 & Hnr1 & Hs1 & He1 & Hl1 & Hpgs1).
  { intros k Hk. rewrite elem_of_app. by left. }
  rewrite Hcode1. ret.
  assert (Hinv1 : seg_inv seg1 (block_pages order page ++ held))
    by by eapply seg_inv_frame.
  assert (Hfree1 : Forall (page_free seg1) (block_pages order page)).
  { rewrite Forall_forall. intros k Hk.
    pose proof (wf_range _ _ Hwf) as Hr. rewrite Forall_forall in Hr.
    assert (Hlt : (k < List.length (pages seg))%nat)
      by (apply Hr; rewrite !elem_of_app; by do 2 left).
    destruct (lookup_lt_is_Some_2 _ _ Hlt) as [pgk Hpgk].
    exists (page_set_type VM_PT_FREE pgk). rewrite Hpgs1.
    rewrite decide_True by done. by rewrite Hpgk. }
  assert (Hal1 : block_aligned seg1 order page)
    by (unfold block_aligned, page_pa in *; by rewrite Hs1).
  destruct (Nat.eqb_spec order 0) as [-> | Hord0].
  - destruct (lookup_lt_is_Some_2 _ _ Hcpu) as [cpu_pool Hpool].
    unfold vm_page_cpu_pool_get at 1. rewrite Hp1, Hpool. ret.
    pose proof (Forall_lookup_1 _ _ _ _ (wf_pools _ _ Hwf) Hpool)
      as (Ht0 & Hts & Hs31 & Hnr & Hle).
    assert (Hpool1 : cpu_pools seg1 !! cpu = Some cpu_pool)
      by by rewrite Hp1.
    assert (Hh : block_pages 0 page = [page]) by done.
    rewrite Hh in *. simpl app in *.
    rewrite Forall_singleton in Hfree1.
    assert (∃ seg2 cpu_pool2,
      (if pool_nr_pages cpu_pool =? pool_size cpu_pool
       then vm_page_cpu_pool_drain seg1 cpu else Ret seg1) = Ret seg2
      ∧ seg_inv seg2 (page :: held)
      ∧ cpu_pools seg2 !! cpu = Some cpu_pool2
      ∧ pool_nr_pages cpu_pool2 < pool_size cpu_pool2
      ∧ seg_start seg2 = seg_start seg1 ∧ seg_end seg2 = seg_end seg1
      ∧ List.length (pages seg2) = List.length (pages seg1)
      ∧ List.length (cpu_pools seg2) = List.length (cpu_pools seg1)
      ∧ page_free seg2 page)
      as (seg2 & cpu_pool2 & Hcode2 & Hinv2 & Hpool2 & Hlt2 & Hs2 & He2
          & Hl2 & Hlp2 & Hfree2).
    { destruct (Z.eqb_spec (pool_nr_pages cpu_pool) (pool_size cpu_pool))
        as [Heq | Hne].
      - destruct (drain_loop_spec (Z.to_nat (pool_transfer_size cpu_pool))
                    seg1 (page :: held) cpu cpu_pool Hinv1 Hpool1)
          as (seg2 & pages2 & Hcode2 & Hinv2 & Hpool2 & _ & Hs2 & He2 & Hl2
              & Hlp2 & Hpf2); [lia |].
        eexists seg2, _. split_and!; try done.
        + unfold vm_page_cpu_pool_drain, vm_page_cpu_pool_get.
          rewrite Hpool1. ret.
          rewrite (proj2 (Z.eqb_eq _ _) Heq). by ret.
        + simpl. lia.
        + by apply Hpf2.
      - exists seg1, cpu_pool. split_and!; try done. lia. }
    rewrite Hcode2. ret. destruct Hinv2 as [Hwf2 Hacc2].
    destruct (pool_push_step seg2 held cpu page cpu_pool2 Hwf2 Hpool2 Hlt2
                Hfree2)
      as (seg3 & Hcode3 & Hwf3 & _ & Hfl3 & Hpg3 & Hnr3 & Hs3 & He3 & Hlp3).
    exists seg3. split_and!; try done.
    + by eapply seg_inv_frame.
    + by rewrite Hs3, Hs2.
    + by rewrite He3, He2.
    + by rewrite Hpg3, Hl2.
    + by rewrite Hlp3, Hlp2, Hp1.
  - destruct (free_to_buddy_inv seg1 held page order Hinv1 Hord Hal1 Hfree1)
      as (Hcode2 & Hinv2 & _ & _ & Hframe2).
    destruct Hframe2 as (Hs2 & He2 & _ & Hp2 & Hl2 & _).
    exists (free_spec seg1 page order). split_and!; try done.
    + etrans; [apply Hs2 | done].
    + etrans; [apply He2 | done].
    + etrans; [apply Hl2 | done].
    + change (cpu_pools (free_spec seg1 page order) = cpu_pools seg1) in Hp2.
      by rewrite Hp2, Hp1.
Qed.

(** ** The segment table *)

Local Arguments vm_page_seg_alloc : simpl never.
Local Arguments vm_page_seg_free : simpl never.

Lemma set_vm_page_segs_id (st : vm_page_state) :
  set_vm_page_segs st (vm_page_segs st) = st.
Proof. by destruct st. Qed.

(** The walk of [vm_page_alloc_pa] from segment [i] down to segment [j],
    where the allocation succeeds. *)
Lemma alloc_pa_loop_found (fuel : nat) (st : vm_page_state) (cpu : nat)
    (i j : Z) (order : nat) (type : Z) (page : nat) (seg seg' : vm_page_seg) :
  0 ≤ j ≤ i → i < vm_page_segs_size st → vm_page_segs_size st < 2 ^ 32 →
  (Z.to_nat (i - j) < fuel)%nat →
  (∀ k, j < k ≤ i →
     ∃ segk, vm_page_segs st !! Z.to_nat k = Some segk
             ∧ vm_page_seg_alloc segk cpu order type = Ret (None, segk)) →
  vm_page_segs st !! Z.to_nat j = Some seg →
  vm_page_seg_alloc seg cpu order type = Ret (Some page, seg') →
  alloc_pa_loop fuel st cpu i order type
  = Ret (Some (Z.to_nat j, page),
         set_vm_page_segs st (<[Z.to_nat j := seg']> (vm_page_segs st))).
Proof.
  revert i. induction fuel as [| fuel IH]; intros i Hj Hi H32 Hfuel Hnone
    Hseg Hcode; [lia |].
  simpl alloc_pa_loop.
  destruct (Z.ltb_spec i (vm_page_segs_size st)) as [_ |]; [| lia].
  destruct (decide (i = j)) as [-> | Hne].
  - rewrite Hseg. ret. rewrite Hcode. by ret.
  - destruct (Hnone i ltac:(lia)) as (segk & Hsegk & Hcodek).
    rewrite Hsegk. ret. rewrite Hcodek. ret.
    rewrite list_insert_id, set_vm_page_segs_id by done.
    rewrite u32_small by lia.
    apply IH; try done; try lia.
    intros k Hk. apply Hnone. lia.
Qed.

(** The walk from segment [i] down to segment 0 when no segment has a block
    to give. *)
Lemma alloc_pa_loop_none (fuel : nat) (st : vm_page_state) (cpu : nat)
    (i : Z) (order : nat) (type : Z) :
  -1 ≤ i < vm_page_segs_size st → vm_page_segs_size st < 2 ^ 32 →
  (Z.to_nat (i + 1) < fuel)%nat →
  (∀ k, 0 ≤ k ≤ i →
     ∃ segk, vm_page_segs st !! Z.to_nat k = Some segk
             ∧ vm_page_seg_alloc segk cpu order type = Ret (None, segk)) →
  alloc_pa_loop fuel st cpu (u32 i) order type = Ret (None, st).
Proof.
  revert i. induction fuel as [| fuel IH]; intros i Hi H32 Hfuel Hnone;
    [lia |].
  simpl alloc_pa_loop.
  destruct (decide (i = -1)) as [-> | Hne].
  - change (u32 (-1)) with (2 ^ 32 - 1).
    by destruct (Z.ltb_spec (2 ^ 32 - 1) (vm_page_segs_size st)); [lia |].
  - rewrite u32_small by lia.
    destruct (Z.ltb_spec i (vm_page_segs_size st)) as [_ |]; [| lia].
    destruct (Hnone i ltac:(lia)) as (segk & Hsegk & Hcodek).
    rewrite Hsegk. ret. rewrite Hcodek. ret.
    rewrite list_insert_id, set_vm_page_segs_id by done.
    apply IH; try done; try lia.
    intros k Hk. apply Hnone. lia.
Qed.

(** From segment [n] down, a first segment gives a block or none does. *)
Lemma alloc_walk_cases (ncpus : nat) (st : vm_page_state)
    (helds : list (list nat)) (cpu order : nat) (type : Z) (n : nat) :
  state_inv ncpus st helds →
  (cpu < ncpus)%nat → (order < VM_PAGE_NR_FREE_LISTS)%nat →
  Z.of_nat n < vm_page_segs_size st →
  (∃ j held seg page seg',
     (j ≤ n)%nat
     ∧ helds !! j = Some held
     ∧ vm_page_segs st !! j = Some seg
     ∧ vm_page_seg_alloc seg cpu order type = Ret (Some page, seg')
     ∧ allocated seg held order type page seg'
     ∧ ∀ k, Z.of_nat j < k ≤ Z.of_nat n →
         ∃ segk, vm_page_segs st !! Z.to_nat k = Some segk
                 ∧ vm_page_seg_alloc segk cpu order type = Ret (None, segk))
  ∨ (∀ k, 0 ≤ k ≤ Z.of_nat n →
       ∃ segk, vm_page_segs st !! Z.to_nat k = Some segk
               ∧ vm_page_seg_alloc segk cpu order type = Ret (None, segk)).
Proof.
  intros (Hsize & Hlen & Hsegs) Hcpu Hord.
  induction n as [| n IH]; intros Hn.
  - destruct (lookup_lt_is_Some_2 helds 0 ltac:(lia)) as [held Hheld].
    destruct (Hsegs _ _ Hheld) as (seg & Hseg & Hinv & Hpools).
    destruct (seg_alloc_spec seg held cpu order type Hinv ltac:(lia) Hord)
      as [Hnone | (page & seg' & Hcode & Hall)].
    + right. intros k Hk. replace k with 0 by lia. by exists seg.
    + left. exists 0%nat, held, seg, page, seg'. split_and!; try done. lia.
  - destruct (lookup_lt_is_Some_2 helds (S n) ltac:(lia)) as [held Hheld].
    destruct (Hsegs _ _ Hheld) as (seg & Hseg & Hinv & Hpools).
    destruct (seg_alloc_spec seg held cpu order type Hinv ltac:(lia) Hord)
      as [Hnone | (page & seg' & Hcode & Hall)].
    + destruct IH as [(j & heldj & segj & page & seg' & Hj & Hhj & Hsj & Hcj
                       & Hall & Hab) | Hall]; [lia | |].
      * left. exists j, heldj, segj, page, seg'. split_and!; try done; [lia |].
        intros k Hk. destruct (decide (k = Z.of_nat (S n))) as [-> | Hne].
        -- rewrite Nat2Z.id. by exists seg.
        -- apply Hab. lia.
      * right. intros k Hk.
        destruct (decide (k = Z.of_nat (S n))) as [-> | Hne].
        -- rewrite Nat2Z.id. by exists seg.
        -- apply Hall. lia.
    + left. exists (S n), held, seg, page, seg'. split_and!; try done. lia.
Qed.

(** Replacing a segment by one that satisfies the invariants. *)
Lemma state_inv_insert (ncpus : nat) (st : vm_page_state)
    (helds : list (list nat)) (i : nat) (seg : vm_page_seg)
    (held : list nat) :
  state_inv ncpus st helds →
  (i < List.length helds)%nat →
  seg_inv seg held → List.length (cpu_pools seg) = ncpus →
  state_inv ncpus (set_vm_page_segs st (<[i := seg]> (vm_page_segs st)))
    (<[i := held]> helds).
Proof.
  intros (Hsize & Hlen & Hsegs) Hi Hinv Hpools.
  split; [done |]. split; [by rewrite length_insert |].
  intros k heldk Hk. simpl vm_page_segs.
  destruct (decide (k = i)) as [-> | Hne].
  - rewrite list_lookup_insert_eq in Hk by done.
      injection Hk as <-. exists seg. split; [| done].
      apply list_lookup_insert_eq.
      destruct (lookup_lt_is_Some_2 helds i Hi) as [h Hh].
      destruct (Hsegs _ _ Hh) as (s & Hs & _). by eapply lookup_lt_Some.
  - rewrite list_lookup_insert_ne in Hk by done.
    rewrite list_lookup_insert_ne by done. by apply Hsegs.
Qed.

Section SegmentTable.

Variable VM_PAGE_SEG_DMA : Z.
Variable VM_PAGE_SEG_DMA32 : Z.
Variable VM_PAGE_SEG_DIRECTMAP : Z.
Variable VM_PAGE_SEG_HIGHMEM : Z.

(** The first segment of the walk: the segment of the selector, or the last
    loaded segment if that one comes first. *)
Lemma select_alloc_seg_spec (st : vm_page_state) (selector s : Z) :
  1 ≤ vm_page_segs_size st < 2 ^ 32 →
  VmPage.selector_seg VM_PAGE_SEG_DMA VM_PAGE_SEG_DMA32
    VM_PAGE_SEG_DIRECTMAP VM_PAGE_SEG_HIGHMEM selector = Some s →
  VmPage.vm_page_select_alloc_seg VM_PAGE_SEG_DMA VM_PAGE_SEG_DMA32
    VM_PAGE_SEG_DIRECTMAP VM_PAGE_SEG_HIGHMEM st selector
  = Ret (Z.min (vm_page_segs_size st - 1) s).
Proof.
  intros Hsize Hsel.
  unfold VmPage.selector_seg in Hsel. unfold VmPage.vm_page_select_alloc_seg.
  rewrite u32_small by lia.
  repeat case_match; simplify_eq; done.
Qed.

Lemma select_alloc_seg_invalid (st : vm_page_state) (selector : Z) :
  VmPage.selector_seg VM_PAGE_SEG_DMA VM_PAGE_SEG_DMA32
    VM_PAGE_SEG_DIRECTMAP VM_PAGE_SEG_HIGHMEM selector = None →
  VmPage.vm_page_select_alloc_seg VM_PAGE_SEG_DMA VM_PAGE_SEG_DMA32
    VM_PAGE_SEG_DIRECTMAP VM_PAGE_SEG_HIGHMEM st selector = Panic "vm_page: invalid selector".
Proof.
  intros Hsel.
  unfold VmPage.selector_seg in Hsel. unfold VmPage.vm_page_select_alloc_seg.
  repeat case_match; simplify_eq; done.
Qed.

(** [vm_page_alloc_pa] on a table of segments that satisfy the invariants:
    the block comes from the first segment of the downward walk that has
    one, and without such a segment the result is [NULL], or a panic for a
    page of a pmap. *)
Lemma alloc_pa_cases (ncpus : nat) (st : vm_page_state)
    (helds : list (list nat)) (cpu order : nat) (selector type s : Z) :
  state_inv ncpus st helds →
  (cpu < ncpus)%nat → (order < VM_PAGE_NR_FREE_LISTS)%nat →
  VmPage.selector_seg VM_PAGE_SEG_DMA VM_PAGE_SEG_DMA32
    VM_PAGE_SEG_DIRECTMAP VM_PAGE_SEG_HIGHMEM selector = Some s → 0 ≤ s < 2 ^ 32 →
  let i0 := Z.min (vm_page_segs_size st - 1) s in
  (∃ j held seg page seg',
     0 ≤ Z.of_nat j ≤ i0
     ∧ helds !! j = Some held
     ∧ vm_page_segs st !! j = Some seg
     ∧ vm_page_seg_alloc seg cpu order type = Ret (Some page, seg')
     ∧ allocated seg held order type page seg'
     ∧ (∀ k, Z.of_nat j < k ≤ i0 →
          ∃ segk, vm_page_segs st !! Z.to_nat k = Some segk
                  ∧ vm_page_seg_alloc segk cpu order type = Ret (None, segk))
     ∧ VmPage.vm_page_alloc_pa VM_PAGE_SEG_DMA VM_PAGE_SEG_DMA32
         VM_PAGE_SEG_DIRECTMAP VM_PAGE_SEG_HIGHMEM st cpu order selector type
       = Ret (Some (j, page),
              set_vm_page_segs st (<[j := seg']> (vm_page_segs st))))
  ∨ ((∀ k, 0 ≤ k ≤ i0 →
        ∃ segk, vm_page_segs st !! Z.to_nat k = Some segk
                ∧ vm_page_seg_alloc segk cpu order type = Ret (None, segk))
     ∧ VmPage.vm_page_alloc_pa VM_PAGE_SEG_DMA VM_PAGE_SEG_DMA32
         VM_PAGE_SEG_DIRECTMAP VM_PAGE_SEG_HIGHMEM st cpu order selector type
       = if type =? VM_PT_PMAP
         then Panic "vm_page: unable to allocate pmap page"
         else Ret (None, st)).
Proof.
  intros Hinv Hcpu Hord Hsel Hs i0. pose proof Hinv as (Hsize & Hlen & Hsegs).
  unfold VmPage.vm_page_alloc_pa.
  rewrite (select_alloc_seg_spec st selector s) by done. ret. fold i0.
  assert (Hi0 : 0 ≤ i0 < vm_page_segs_size st) by lia.
  destruct (alloc_walk_cases ncpus st helds cpu order type (Z.to_nat i0))
    as [(j & held & seg & page & seg' & Hj & Hheld & Hseg & Hcode & Hall
         & Hab) | Hnone]; try done; [lia | |].
  - left. exists j, held, seg, page, seg'. rewrite Z2Nat.id in Hab by lia.
    split_and!; try done; try lia.
    rewrite (alloc_pa_loop_found _ st cpu i0 (Z.of_nat j) order type page
               seg seg'); rewrite ?Nat2Z.id; try done; lia.
  - right. rewrite Z2Nat.id in Hnone by lia. split; [done |].
    rewrite <- (u32_small i0) at 1 by lia.
    rewrite (alloc_pa_loop_none _ st cpu i0 order type); try done; lia.
Qed.

End SegmentTable.

(** The segment of a descriptor is the segment that holds it. *)
Lemma page_seg_inv (max_segs : nat) (st : vm_page_state) (page : page_ptr)
    (seg : vm_page_seg) :
  page_seg max_segs st page = Ret seg →
  vm_page_segs st !! page.1 = Some seg ∧ is_Some (pages seg !! page.2).
Proof.
  unfold page_seg. intros H.
  apply bind_Ret_inv in H as (seg0 & Hseg%deref_Ret_inv & H).
  apply bind_Ret_inv in H as (pg & Hpg%deref_Ret_inv & H).
  apply bind_Ret_inv in H as (? & _ & H).
  apply bind_Ret_inv in H as (? & _ & H).
  injection H as ->. by eauto.
Qed.

(** [vm_page_free_pa] gives a held block back to its segment. *)
Lemma free_pa_spec (ncpus max_segs : nat) (st : vm_page_state)
    (helds : list (list nat)) (cpu i page order : nat) (held : list nat)
    (seg : vm_page_seg) (pg : vm_page) :
  state_inv ncpus st helds →
  helds !! i = Some (block_pages order page ++ held) →
  page_seg max_segs st (i, page) = Ret seg →
  pages seg !! page = Some pg →
  page_type pg ≠ VM_PT_FREE →
  block_aligned seg order page →
  (order < VM_PAGE_NR_FREE_LISTS)%nat → (cpu < ncpus)%nat →
  ∃ seg',
    vm_page_seg_free seg cpu page order = Ret seg'
    ∧ vm_page_free_pa max_segs st cpu (Some (i, page)) order
      = Ret (set_vm_page_segs st (<[i := seg']> (vm_page_segs st)))
    ∧ state_inv ncpus
        (set_vm_page_segs st (<[i := seg']> (vm_page_segs st)))
        (<[i := held]> helds).
Proof.
  intros Hinv Hheld Hps Hpg Hty Hal Hord Hcpu.
  pose proof Hinv as (Hsize & Hlen & Hsegs).
  destruct (page_seg_inv _ _ _ _ Hps) as [Hseg _]. simpl in Hseg.
  destruct (Hsegs _ _ Hheld) as (seg0 & Hseg0 & Hinv0 & Hpools).
  assert (seg0 = seg) as -> by congruence.
  destruct (seg_free_spec seg held cpu page order pg Hinv0 Hal Hord
              ltac:(lia) Hpg Hty)
    as (seg' & Hcode & Hinv' & _ & _ & _ & Hpools').
  exists seg'. split; [done |]. split.
  - unfold vm_page_free_pa. ret. rewrite Hps. ret.
    change ((i, page).2) with page. change ((i, page).1) with i.
    rewrite Hcode. by ret.
  - apply state_inv_insert; try done; [| lia].
    by eapply lookup_lt_Some.
Qed.

(** [vm_page_manage] gives a reserved page, held so far, to the buddy
    system. *)
Lemma manage_spec (ncpus max_segs : nat) (st : vm_page_state)
    (helds : list (list nat)) (i page : nat) (held : list nat)
    (seg : vm_page_seg) (pg : vm_page) :
  state_inv ncpus st helds →
  helds !! i = Some (page :: held) →
  page_seg max_segs st (i, page) = Ret seg →
  pages seg !! page = Some pg →
  page_type pg = VM_PT_RESERVED →
  ∃ seg',
    vm_page_manage max_segs st (i, page)
    = Ret (set_vm_page_segs st (<[i := seg']> (vm_page_segs st)))
    ∧ nr_free_pages seg' = nr_free_pages seg + 1
    ∧ state_inv ncpus
        (set_vm_page_segs st (<[i := seg']> (vm_page_segs st)))
        (<[i := held]> helds).
Proof.
  intros Hinv Hheld Hps Hpg Hty.
  pose proof Hinv as (Hsize & Hlen & Hsegs).
  destruct (page_seg_inv _ _ _ _ Hps) as [Hseg _]. simpl in Hseg.
  destruct (Hsegs _ _ Hheld) as (seg0 & Hseg0 & Hinv0 & Hpools).
  assert (seg0 = seg) as -> by congruence.
  change (page :: held) with (block_pages 0 page ++ held) in Hinv0.
  pose proof Hinv0 as [Hwf0 Hacc0].
  destruct (set_type_step seg _ page 0 VM_PT_FREE Hwf0)
    as (seg1 & Hcode1 & Hwf1 & Hfl1 & Hp1 & Hnr1 & Hs1 & He1 & Hl1 & Hpgs1).
  { intros k Hk. rewrite elem_of_app. by left. }
  assert (Hinv1 : seg_inv seg1 (block_pages 0 page ++ held))
    by by eapply seg_inv_frame.
  destruct (free_to_buddy_inv seg1 held page 0 Hinv1)
    as (Hcode2 & Hinv2 & _ & Hnr2 & Hframe2).
  { unfold VM_PAGE_NR_FREE_LISTS. lia. }
  { eapply block_aligned_0, Hwf1. }
  { change (block_pages 0 page) with [page]. rewrite Forall_singleton.
    exists (page_set_type VM_PT_FREE pg). rewrite Hpgs1.
    rewrite decide_True by (change (block_pages 0 page) with [page];
                            by apply list_elem_of_singleton).
    by rewrite Hpg. }
  destruct Hframe2 as (_ & _ & _ & Hp2 & _).
  change (cpu_pools (free_spec seg1 page 0) = cpu_pools seg1) in Hp2.
  exists (free_spec seg1 page 0). split_and!.
  - unfold vm_page_manage. rewrite Hps. ret.
    change ((i, page).2) with page. change ((i, page).1) with i.
    rewrite Hpg. ret. rewrite Hty. ret. rewrite Hcode1. ret.
    rewrite Hcode2. by ret.
  - rewrite Hnr2, Hnr1. change (2 ^ Z.of_nat 0) with 1. lia.
  - apply state_inv_insert; try done.
    + by eapply lookup_lt_Some.
    + by rewrite Hp2, Hp1.
Qed.

(** ** Initialisation *)

Ltac init_proj :=
  unfold vm_page_seg_init;
  cbn [pages free_lists cpu_pools seg_start seg_end nr_free_pages].

Lemma free_sum_from_empty (o n : nat) :
  free_sum_from o (replicate n (FreeList 0 [])) = 0.
Proof. revert o. induction n as [| n IH]; intros o; simpl; [done |]. by rewrite IH. Qed.

Lemma covered_from_empty (o n : nat) :
  covered_from o (replicate n (FreeList 0 [])) = [].
Proof. revert o. induction n as [| n IH]; intros o; simpl; [done |]. by rewrite IH. Qed.

Lemma pooled_init (n : nat) (size : Z) (seg : vm_page_seg) :
  cpu_pools seg = replicate n (vm_page_cpu_pool_init size) → pooled seg = [].
Proof.
  unfold pooled. intros ->. induction n as [| n IH]; [done |].
  simpl replicate. by rewrite bind_cons, IH.
Qed.

(** A segment has no free page after [vm_page_seg_init]: the free lists are
    empty and the counter is zero. *)
Lemma seg_init_accounted (ncpus : nat) (i start end_ : Z) :
  accounted (vm_page_seg_init ncpus i start end_)
  ∧ nr_free_pages (vm_page_seg_init ncpus i start end_) = 0
  ∧ Forall (λ fl, fl_size fl = 0 ∧ fl_blocks fl = [])
      (free_lists (vm_page_seg_init ncpus i start end_)).
Proof.
  unfold accounted, free_sum. init_proj. rewrite free_sum_from_empty.
  split_and!; try done. by apply Forall_replicate.
Qed.

Lemma pool_size_bounds (start end_ : Z) :
  1 ≤ vm_page_seg_compute_pool_size start end_ ≤ VM_PAGE_CPU_POOL_MAX_SIZE.
Proof.
  unfold vm_page_seg_compute_pool_size, VM_PAGE_CPU_POOL_MAX_SIZE.
  set (size := vm_page_atop _ / _).
  assert (0 ≤ size).
  { unfold size. apply Z.div_pos; [| done].
    rewrite vm_page_atop_div. apply Z.div_pos; [| done].
    unfold vm_page_seg_size, u64. apply Z.mod_pos_bound. done. }
  destruct (Z.eqb_spec size 0); [lia |].
  destruct (Z.gtb_spec size 128); lia.
Qed.

Lemma pool_init_ok (size : Z) :
  1 ≤ size ≤ VM_PAGE_CPU_POOL_MAX_SIZE → pool_ok (vm_page_cpu_pool_init size).
Proof.
  unfold VM_PAGE_CPU_POOL_MAX_SIZE, pool_ok, vm_page_cpu_pool_init,
    VM_PAGE_CPU_POOL_TRANSFER_RATIO.
  intros Hsize. simpl.
  rewrite Z.quot_div_nonneg by lia.
  pose proof (Z.div_le_lower_bound (size + 2 - 1) 2 1 ltac:(lia) ltac:(lia)).
  pose proof (Z.div_le_upper_bound (size + 2 - 1) 2 size ltac:(lia)
                ltac:(lia)).
  lia.
Qed.

(** The number of pages of a segment with page-aligned bounds. *)
Lemma seg_pages_count (start end_ : Z) :
  0 ≤ start → start mod PAGE_SIZE = 0 → end_ mod PAGE_SIZE = 0 →
  start < end_ → end_ < 2 ^ 64 →
  vm_page_atop (vm_page_seg_size start end_) * PAGE_SIZE = end_ - start
  ∧ 0 < vm_page_atop (vm_page_seg_size start end_).
Proof.
  unfold PAGE_SIZE, vm_page_seg_size. intros Hs Hsa Hea Hlt H64.
  rewrite u64_small by lia. rewrite vm_page_atop_div.
  assert (Hm : (end_ - start) mod 4096 = 0).
  { rewrite Zminus_mod, Hsa, Hea. done. }
  pose proof (Z.div_mod (end_ - start) 4096 ltac:(lia)). lia.
Qed.

(** After [vm_page_seg_init] the invariants hold with every page held. *)
Lemma seg_init_inv (ncpus : nat) (i start end_ : Z) :
  0 ≤ start → start mod PAGE_SIZE = 0 → end_ mod PAGE_SIZE = 0 →
  start < end_ → end_ < 2 ^ 64 → end_ - start < 2 ^ 43 →
  let nr := Z.to_nat (vm_page_atop (vm_page_seg_size start end_)) in
  seg_inv (vm_page_seg_init ncpus i start end_) (seq 0 nr)
  ∧ List.length (pages (vm_page_seg_init ncpus i start end_)) = nr
  ∧ List.length (cpu_pools (vm_page_seg_init ncpus i start end_)) = ncpus
  ∧ ∀ k pg, pages (vm_page_seg_init ncpus i start end_) !! k = Some pg →
            page_type pg = VM_PT_RESERVED.
Proof.
  intros Hs Hsa Hea Hlt H64 H43 nr.
  destruct (seg_pages_count start end_) as [Hcount Hpos]; try done.
  assert (Hlen : List.length (pages (vm_page_seg_init ncpus i start end_))
                 = nr).
  { init_proj. fold nr. by rewrite length_fmap, length_seq. }
  assert (Hpg : ∀ k pg,
    pages (vm_page_seg_init ncpus i start end_) !! k = Some pg →
    pg = vm_page_init_pa i (start + Z.of_nat k * PAGE_SIZE)).
  { init_proj. fold nr. intros k pg Hk. rewrite list_lookup_fmap in Hk.
    destruct (seq 0 nr !! k) as [k' |] eqn:Hseq; [| by simpl in Hk].
    apply lookup_seq in Hseq as [-> _].
    simpl in Hk.
    injection Hk as <-.
    done. }
  assert (Hpooled : pooled (vm_page_seg_init ncpus i start end_) = [])
    by by eapply pooled_init.
  assert (Hcov : covered (vm_page_seg_init ncpus i start end_) = [])
    by apply covered_from_empty.
  assert (Hnl : ∀ o page, ¬ listed (vm_page_seg_init ncpus i start end_) o page).
  { intros o page (fl & Hfl & Hin). unfold vm_page_seg_init in Hfl.
    cbn [free_lists] in Hfl.
    apply lookup_replicate in Hfl as [-> _]. simpl in Hin.
    by apply elem_of_nil in Hin. }
  split_and!; try done.
  - split; [| apply seg_init_accounted].
    constructor.
    + init_proj. by rewrite length_replicate.
    + init_proj. apply Forall_replicate. done.
    + rewrite Hpooled, Hcov, !app_nil_r. apply NoDup_seq.
    + rewrite Hpooled, Hcov, !app_nil_r, Hlen. rewrite Forall_forall.
      intros k Hk. apply elem_of_seq in Hk. lia.
    + intros o page pg Hl. by destruct (Hnl o page).
    + intros page pg Hk Ho. apply Hpg in Hk. by subst pg.
    + rewrite Hpooled, Hcov. constructor.
    + intros o page Hl. by destruct (Hnl o page).
    + intros page pg Hk. apply Hpg in Hk. by subst pg.
    + done.
    + rewrite Hlen. unfold page_pa. simpl seg_start. simpl seg_end.
      unfold nr. rewrite Z2Nat.id by lia. split; lia.
    + rewrite Hlen. unfold nr. rewrite Z2Nat.id by lia.
      unfold PAGE_SIZE in *. lia.
    + init_proj. apply Forall_replicate, pool_init_ok, pool_size_bounds.
  - init_proj. by rewrite length_replicate.
  - intros k pg Hk. apply Hpg in Hk. by subst pg.
Qed.

(** The release loop of [vm_page_setup]: the [n] pages from [page] on go
    from the held pages to the buddy system. *)
Lemma setup_release_spec (n : nat) (seg : vm_page_seg) (held : list nat)
    (page : nat) :
  seg_inv seg (seq page n ++ held) →
  ∃ seg',
    setup_release n seg page = Ret seg'
    ∧ seg_inv seg' held
    ∧ cpu_pools seg' = cpu_pools seg
    ∧ nr_free_pages seg' = nr_free_pages seg + Z.of_nat n
    ∧ seg_start seg' = seg_start seg ∧ seg_end seg' = seg_end seg
    ∧ List.length (pages seg') = List.length (pages seg).
Proof.
  revert seg page. induction n as [| n IH]; intros seg page Hinv.
  { exists seg. simpl. split_and!; try done. lia. }
  pose proof Hinv as [Hwf Hacc]. simpl setup_release.
  destruct (seg_wf_held_lookup seg _ page Hwf) as [pg Hpg].
  { rewrite !elem_of_app. left. left. apply elem_of_seq. lia. }
  rewrite Hpg. ret.
  set (seg1 := set_pages seg (<[page := page_set_type VM_PT_FREE pg]>
                                (pages seg))).
  assert (Hwf1 : seg_wf seg1 (seq page (S n) ++ held)).
  { apply seg_wf_set_pages; [done | by rewrite length_insert |].
    intros k pg' Hk. destruct (decide (k = page)) as [-> | Hne].
    - rewrite list_lookup_insert_eq in Hk by by eapply lookup_lt_Some.
      injection Hk as <-. exists pg. split_and!; try done.
      intros Hin. exfalso.
      pose proof (wf_nodup _ _ Hwf) as Hnd.
      apply NoDup_app in Hnd as (_ & Hdis & _).
      apply (Hdis page); [| done].
      rewrite elem_of_app. left. apply elem_of_seq. lia.
    - rewrite list_lookup_insert_ne in Hk by done. by exists pg'. }
  assert (Hinv1 : seg_inv seg1 (block_pages 0 page ++ seq (S page) n ++ held))
    by (by apply (seg_inv_frame seg seg1)).
  destruct (free_to_buddy_inv seg1 (seq (S page) n ++ held) page 0 Hinv1)
    as (Hcode2 & Hinv2 & _ & Hnr2 & Hframe2).
  { unfold VM_PAGE_NR_FREE_LISTS. lia. }
  { eapply block_aligned_0, Hwf1. }
  { change (block_pages 0 page) with [page]. rewrite Forall_singleton.
    exists (page_set_type VM_PT_FREE pg). split; [| done].
    apply list_lookup_insert_eq. by eapply lookup_lt_Some. }
  rewrite Hcode2. ret.
  destruct Hframe2 as (Hs2 & He2 & _ & Hp2 & Hl2 & _).
  change (cpu_pools (free_spec seg1 page 0) = cpu_pools seg) in Hp2.
  change (seg_start (free_spec seg1 page 0) = seg_start seg) in Hs2.
  change (seg_end (free_spec seg1 page 0) = seg_end seg) in He2.
  change (List.length (pages (free_spec seg1 page 0))
          = List.length (pages seg1)) in Hl2.
  destruct (IH _ _ Hinv2)
    as (seg' & Hcode' & Hinv' & Hp' & Hnr' & Hs' & He' & Hl').
  exists seg'. split_and!; try done; try congruence.
  - rewrite Hnr', Hnr2. change (2 ^ Z.of_nat 0) with 1.
    change (nr_free_pages seg1) with (nr_free_pages seg). lia.
  - rewrite Hl', Hl2. unfold seg1. simpl. by rewrite length_insert.
Qed.

(** The page numbers of the bounds of a boot segment. *)
Lemma boot_seg_pages (boot_seg : vm_page_boot_seg) :
  boot_seg_ok boot_seg →
  let nr := Z.to_nat (vm_page_atop
              (vm_page_seg_size (boot_start boot_seg) (boot_end boot_seg))) in
  let page := Z.to_nat (vm_page_atop
                (u64 (boot_avail_start boot_seg - boot_start boot_seg))) in
  let end_ := Z.to_nat (vm_page_atop
                (u64 (boot_avail_end boot_seg - boot_start boot_seg))) in
  (page ≤ end_ ≤ nr)%nat.
Proof.
  intros (Hs & Hsa & Hea & Hasa & Haea & Hlt & Hle1 & Hle2 & Hle3 & H64 & H43).
  unfold vm_page_seg_size. cbv zeta.
  rewrite !u64_small by lia. rewrite !vm_page_atop_div.
  split; apply Z2Nat.inj_le; try (apply Z.div_pos; lia);
    apply Z.div_le_mono; lia.
Qed.

(** A loaded segment after the loop of [vm_page_setup]: the invariants hold,
    the pages outside the available range being held. *)
Lemma setup_seg_spec (ncpus : nat) (i : Z) (boot_seg : vm_page_boot_seg) :
  boot_seg_ok boot_seg →
  ∃ seg,
    setup_seg ncpus i boot_seg = Ret seg
    ∧ seg_inv seg (boot_held boot_seg)
    ∧ List.length (cpu_pools seg) = ncpus
    ∧ seg_start seg = boot_start boot_seg ∧ seg_end seg = boot_end boot_seg.
Proof.
  intros Hok. pose proof (boot_seg_pages _ Hok) as Hpages.
  pose proof Hok
    as (Hs & Hsa & Hea & Hasa & Haea & Hlt & Hle1 & Hle2 & Hle3 & H64 & H43).
  destruct (seg_init_inv ncpus i (boot_start boot_seg) (boot_end boot_seg))
    as (Hinv & Hlen & Hpools & _); try done.
  unfold setup_seg, boot_held. cbv zeta in *.
  set (nr := Z.to_nat (vm_page_atop (vm_page_seg_size _ _))) in *.
  set (page := Z.to_nat (vm_page_atop (u64 (boot_avail_start boot_seg - _))))
    in *.
  set (end_ := Z.to_nat (vm_page_atop (u64 (boot_avail_end boot_seg - _))))
    in *.
  set (seg0 := vm_page_seg_init _ _ _ _) in *.
  destruct (setup_release_spec (end_ - page) seg0
              (seq 0 page ++ seq end_ (nr - end_)) page)
    as (seg & Hcode & Hinv' & Hp' & _ & Hs' & He' & _).
  { destruct Hinv as [Hwf Hacc]. split; [| done].
    eapply seg_wf_perm; [| done].
    replace nr with (page + ((end_ - page) + (nr - end_)))%nat at 1 by lia.
    rewrite !seq_app. simpl.
    replace (page + (end_ - page))%nat with end_ by lia.
    solve_Permutation. }
  exists seg. split_and!; try done. by rewrite Hp'.
Qed.

Lemma setup_segs_spec (ncpus : nat) (boot_segs : list vm_page_boot_seg)
    (i : Z) :
  Forall boot_seg_ok boot_segs →
  ∃ segs,
    setup_segs ncpus boot_segs i = Ret segs
    ∧ Forall2 (λ seg boot_seg,
                 seg_inv seg (boot_held boot_seg)
                 ∧ List.length (cpu_pools seg) = ncpus
                 ∧ seg_start seg = boot_start boot_seg
                 ∧ seg_end seg = boot_end boot_seg) segs boot_segs.
Proof.
  revert i. induction boot_segs as [| boot_seg rest IH]; intros i Hok.
  { exists []. by split; [| constructor]. }
  apply Forall_cons in Hok as [Hok Hrest].
  destruct (setup_seg_spec ncpus i boot_seg Hok) as (seg & Hcode & Hseg).
  destruct (IH (i + 1) Hrest) as (segs & Hcodes & Hsegs).
  exists (seg :: segs). simpl setup_segs. rewrite Hcode. ret.
  rewrite Hcodes. ret. split; [done |]. by constructor.
Qed.

Lemma lookup_pa_loop_index (segs : list vm_page_seg) (i : nat) (pa : Z)
    (page : page_ptr) :
  lookup_pa_loop segs i pa = Some page →
  (i ≤ page.1 < i + List.length segs)%nat.
Proof.
  revert i. induction segs as [| seg rest IH]; intros i; simpl; [done |].
  destruct (_ && _).
  - intros [= <-]. simpl. lia.
  - intros H. apply IH in H. lia.
Qed.

(** Changing the type of a page that is not free keeps the invariants. *)
Lemma seg_inv_set_type (seg : vm_page_seg) (held : list nat) (page : nat)
    (pg : vm_page) (type : Z) :
  seg_inv seg held →
  pages seg !! page = Some pg → page_type pg ≠ VM_PT_FREE →
  seg_inv (set_pages seg (<[page := page_set_type type pg]> (pages seg)))
    held.
Proof.
  intros [Hwf Hacc] Hpg Hty. eapply seg_inv_frame; try done.
  apply seg_wf_set_pages; [done | by rewrite length_insert |].
  intros k pg' Hk. destruct (decide (k = page)) as [-> | Hne].
  - rewrite list_lookup_insert_eq in Hk by by eapply lookup_lt_Some.
    injection Hk as <-. exists pg. split_and!; try done.
    intros Hin. exfalso.
    pose proof (wf_free _ _ Hwf) as Hf. rewrite Forall_forall in Hf.
    destruct (Hf _ Hin) as (pg0 & Hpg0 & Hty0). congruence.
  - rewrite list_lookup_insert_ne in Hk by done. by exists pg'.
Qed.

(** The last loop of [vm_page_setup] marks pages of the table: the
    invariants stay. *)
Lemma setup_table_inv (ncpus : nat) (table_pas : list Z)
    (st st' : vm_page_state) (helds : list (list nat)) :
  state_inv ncpus st helds →
  setup_table st table_pas = Ret st' →
  state_inv ncpus st' helds
  ∧ vm_page_segs_size st' = vm_page_segs_size st
  ∧ vm_page_boot_segs st' = vm_page_boot_segs st.
Proof.
  revert st. induction table_pas as [| pa rest IH]; intros st Hinv Hcode.
  { simpl in Hcode. by injection Hcode as <-. }
  simpl setup_table in Hcode.
  apply bind_Ret_inv in Hcode as (page & Hpage%deref_Ret_inv & Hcode).
  apply bind_Ret_inv in Hcode as (seg & Hseg%deref_Ret_inv & Hcode).
  apply bind_Ret_inv in Hcode as (pg & Hpg%deref_Ret_inv & Hcode).
  apply bind_Ret_inv in Hcode as (u & Hty%assert_Ret_inv & Hcode).
  apply Z.eqb_eq in Hty.
  pose proof Hinv as (Hsize & Hlen & Hsegs).
  apply lookup_pa_loop_index in Hpage. rewrite length_take in Hpage.
  destruct (lookup_lt_is_Some_2 helds page.1 ltac:(lia)) as [held Hheld].
  destruct (Hsegs _ _ Hheld) as (seg0 & Hseg0 & Hinv0 & Hpools).
  assert (seg0 = seg) as -> by congruence.
  apply IH in Hcode as (Hinv' & Hsize' & Hboot').
  - by split_and!.
  - rewrite <- (list_insert_id helds page.1 held) by done.
    apply state_inv_insert; try done.
    + by eapply lookup_lt_Some.
    + apply seg_inv_set_type; try done. rewrite Hty. done.
Qed.

(** [vm_page_setup]: the loaded segments are initialised and their
    available pages released, which establishes the invariants; if the
    function returns, they hold in the final state. *)
Lemma setup_spec (ncpus : nat) (st : vm_page_state) (table_pas : list Z) :
  boot_ok st →
  ∃ segs,
    setup_segs ncpus (boot_loaded st) 0 = Ret segs
    ∧ state_inv ncpus
        (set_vm_page_segs st
           (segs ++ drop (Z.to_nat (vm_page_segs_size st)) (vm_page_segs st)))
        (boot_held <$> boot_loaded st)
    ∧ ∀ st', vm_page_setup ncpus st table_pas = Ret st' →
        state_inv ncpus st' (boot_held <$> boot_loaded st)
        ∧ vm_page_is_ready st' = true.
Proof.
  intros (Hsize & Hlen & Hok).
  destruct (setup_segs_spec ncpus (boot_loaded st) 0 Hok)
    as (segs & Hcode & Hsegs).
  assert (Hll : List.length (boot_loaded st)
                = Z.to_nat (vm_page_segs_size st))
    by (unfold boot_loaded; rewrite length_take; lia).
  assert (Hinv : state_inv ncpus
    (set_vm_page_segs st
       (segs ++ drop (Z.to_nat (vm_page_segs_size st)) (vm_page_segs st)))
    (boot_held <$> boot_loaded st)).
  { split; [done |]. split; [rewrite length_fmap, Hll; simpl; lia |].
    intros i held Hheld. rewrite list_lookup_fmap in Hheld.
    destruct (boot_loaded st !! i) as [boot_seg |] eqn:Hboot;
      [| by simpl in Hheld].
    simpl in Hheld. injection Hheld as <-.
    destruct (Forall2_lookup_r _ _ _ _ _ Hsegs Hboot)
      as (seg & Hseg & Hinv & Hpools & _).
    exists seg. split_and!; try done. simpl vm_page_segs.
    by rewrite lookup_app_l by by eapply lookup_lt_Some. }
  exists segs. split_and!; try done.
  intros st' Hst'. unfold vm_page_setup in Hst'.
  apply bind_Ret_inv in Hst' as (u & _ & Hst'). cbv zeta in Hst'.
  fold (boot_loaded st) in Hst'. rewrite Hcode in Hst'. ret_in Hst'.
  apply bind_Ret_inv in Hst' as (st1 & Htable & Hst').
  injection Hst' as <-.
  destruct (setup_table_inv ncpus _ _ _ _ Hinv Htable)
    as ((Hsize1 & Hlen1 & Hsegs1) & Hsz & Hb).
  split; [| done]. split_and!; simpl; try done; lia.
Qed.

(** With loaded boot segments in order and no page of the table to mark,
    [vm_page_setup] returns. *)
Lemma setup_returns (ncpus : nat) (st : vm_page_state) :
  boot_ok st → vm_page_check_boot_segs st = Ret () →
  ∃ st', vm_page_setup ncpus st [] = Ret st'.
Proof.
  intros Hok Hcheck.
  destruct (setup_spec ncpus st [] Hok) as (segs & Hcode & _).
  unfold vm_page_setup. rewrite Hcheck. ret. cbv zeta.
  fold (boot_loaded st). rewrite Hcode. ret. simpl setup_table. ret.
  by eexists.
Qed.

(** ** The small machine *)

Lemma example_boot_seg_ok : boot_seg_ok example_boot_seg.
Proof. unfold boot_seg_ok, example_boot_seg. simpl. repeat split; lia. Qed.

Lemma example_seg_inv : seg_inv example_seg [0%nat].
Proof.
  destruct (setup_seg_spec 1 0 example_boot_seg example_boot_seg_ok)
    as (seg & Hcode & Hinv & _).
  vm_compute in Hcode. injection Hcode as <-. exact Hinv.
Qed.

Lemma example_boot_ok : boot_ok example_boot_state.
Proof.
  split; [simpl; lia |]. split; [simpl; lia |].
  repeat constructor; simpl; lia.
Qed.

Lemma example_state_inv : state_inv 1 example_state [[0%nat]].
Proof.
  destruct (setup_spec 1 example_boot_state [] example_boot_ok)
    as (segs & _ & _ & Hret).
  destruct (Hret example_state) as [Hinv _]; [by vm_compute |].
  exact Hinv.
Qed.

(** ** The buddy system *)

(** C1: in a segment that satisfies the buddy invariants, freeing at an
    order below 11 a descriptor of the array whose order is
    [VM_PAGE_ORDER_UNLISTED] does what the spec says.  The coalescing loop
    [coalesce_spec] starts from the physical address of the descriptor:
    while the order is below 10 it takes the buddy at that address XOR
    [2^o] pages, stops if the buddy lies outside the segment or has another
    order, and otherwise takes the buddy off its free list, marks it
    unlisted, increments the order and realigns the address.  The block
    [page'] of order [order'] that comes out is inserted into the free
    list of order [order'] with that order in its descriptor, and the
    counter of free pages grows by [2^order] for the order given. *)
Theorem free_to_buddy_coalesces (seg : vm_page_seg) (held : list nat)
    (page order : nat) (pg : vm_page) :
  seg_inv seg held →
  pages seg !! page = Some pg →
  page_order pg = VM_PAGE_ORDER_UNLISTED →
  (order < VM_PAGE_NR_FREE_LISTS)%nat →
  ∃ seg' page' order' seg'',
    coalesce_spec (VM_PAGE_NR_FREE_LISTS - 1 - order) seg (phys_addr pg) order
    = (seg', page_pa seg page', order')
    ∧ vm_page_seg_free_to_buddy seg page order = Ret seg''
    ∧ seg'' = free_spec seg page order
    ∧ seg'' = set_nr_free_pages (enlist seg' order' page')
                (nr_free_pages seg + 2 ^ Z.of_nat order)
    ∧ (order ≤ order' < VM_PAGE_NR_FREE_LISTS)%nat
    ∧ listed seg'' order' page'
    ∧ page_order <$> pages seg'' !! page' = Some (Z.of_nat order')
    ∧ nr_free_pages seg'' = nr_free_pages seg + 2 ^ Z.of_nat order.
Proof.
  intros Hinv Hpg Hunl Hord. pose proof Hinv as [Hwf Hacc].
  destruct (free_to_buddy_spec seg held page order pg Hinv Hord Hpg Hunl)
    as [Hcode Hnr].
  destruct (free_coalesce_spec seg held page order pg Hwf Hord Hpg Hunl)
    as (seg' & page' & order' & taken & Hspec & _ & Hwf' & _ & _ & _ & Hle
        & (pg' & Hpg' & _) & Hframe).
  destruct Hframe as (_ & _ & _ & _ & Hlen & _).
  assert (Hlt' : (page' < List.length (pages seg))%nat)
    by (rewrite <- Hlen; by eapply lookup_lt_Some).
  destruct (page_pa_inv _ _ _ Hwf Hlt') as (_ & _ & Hidx & _).
  assert (Heq : free_spec seg page order
                = set_nr_free_pages (enlist seg' order' page')
                    (nr_free_pages seg + 2 ^ Z.of_nat order)).
  { unfold free_spec. cbv zeta. by rewrite Hspec, Hidx. }
  exists seg', page', order', (free_spec seg page order).
  rewrite (wf_addr _ _ Hwf _ _ Hpg).
  split_and!; try done; try lia.
  - rewrite Heq.
    destruct (lookup_lt_is_Some_2 (free_lists seg') order') as [fl Hfl];
      [rewrite (wf_lists _ _ Hwf'); lia |].
    eexists. split.
    + simpl. rewrite list_lookup_alter_eq, Hfl. done.
    + simpl. by left.
  - rewrite Heq. simpl. by rewrite list_lookup_alter_eq, Hpg'.
Qed.

Lemma free_to_buddy_coalesces_witness :
  ∃ seg' page' order' seg'',
    coalesce_spec (VM_PAGE_NR_FREE_LISTS - 1 - 0) example_seg 0x10000 0
    = (seg', page_pa example_seg page', order')
    ∧ vm_page_seg_free_to_buddy example_seg 0 0 = Ret seg''
    ∧ seg'' = free_spec example_seg 0 0
    ∧ seg'' = set_nr_free_pages (enlist seg' order' page')
                (nr_free_pages example_seg + 2 ^ Z.of_nat 0)
    ∧ (0 ≤ order' < VM_PAGE_NR_FREE_LISTS)%nat
    ∧ listed seg'' order' page'
    ∧ page_order <$> pages seg'' !! page' = Some (Z.of_nat order')
    ∧ nr_free_pages seg'' = nr_free_pages example_seg + 2 ^ Z.of_nat 0.
Proof.
  apply (free_to_buddy_coalesces example_seg [0%nat] 0 0
           (Page VM_PT_RESERVED 0 VM_PAGE_ORDER_UNLISTED 0x10000)).
  - exact example_seg_inv.
  - reflexivity.
  - reflexivity.
  - unfold VM_PAGE_NR_FREE_LISTS. lia.
Defined.

(** Freeing the first page of the small machine merges the eight pages
    into one block of order 3. *)
Lemma example_free_merges :
  vm_page_seg_free_to_buddy example_seg 0 0
  = Ret (free_spec example_seg 0 0)
  ∧ free_lists (free_spec example_seg 0 0)
    = [FreeList 0 []; FreeList 0 []; FreeList 0 []; FreeList 1 [0%nat];
       FreeList 0 []; FreeList 0 []; FreeList 0 []; FreeList 0 [];
       FreeList 0 []; FreeList 0 []; FreeList 0 []]
  ∧ nr_free_pages (free_spec example_seg 0 0) = 8.
Proof. by vm_compute. Qed.

(** C2: in a segment that satisfies the buddy invariants, the allocation of
    a block of an order below 11 from the buddy system returns [NULL]
    exactly when every free list from that order on is empty.  Otherwise
    [first_fit] gives the smallest order [i] from [order] on with a
    non-empty list and its head [page]; the code returns [page] and leaves
    the segment [alloc_spec]: [page] is off the list of order [i], marked
    unlisted; for each order from [i - 1] down to [order] the upper half
    [page + 2^i] is inserted into the list of that order with that order;
    the counter of free pages is smaller by [2^order]. *)
Theorem alloc_from_buddy_first_fit (seg : vm_page_seg) (held : list nat)
    (order : nat) :
  seg_inv seg held →
  (order < VM_PAGE_NR_FREE_LISTS)%nat →
  ∃ res seg',
    vm_page_seg_alloc_from_buddy seg order = Ret (res, seg')
    ∧ (res = None
       ↔ ∀ i fl, (order ≤ i < VM_PAGE_NR_FREE_LISTS)%nat →
                 free_lists seg !! i = Some fl → fl_blocks fl = [])
    ∧ (res = None → seg' = seg)
    ∧ ∀ page, res = Some page →
        ∃ i fl,
          first_fit seg order = Some (i, page)
          ∧ (order ≤ i < VM_PAGE_NR_FREE_LISTS)%nat
          ∧ free_lists seg !! i = Some fl
          ∧ head (fl_blocks fl) = Some page
          ∧ (∀ k fl', (order ≤ k < i)%nat → free_lists seg !! k = Some fl' →
                      fl_blocks fl' = [])
          ∧ seg' = alloc_spec seg order i page
          ∧ seg' = set_nr_free_pages
                     (split_spec (i - order) (unlist seg i page) page order)
                     (nr_free_pages seg - 2 ^ Z.of_nat order)
          ∧ page_order <$> pages seg' !! page = Some VM_PAGE_ORDER_UNLISTED
          ∧ nr_free_pages seg' = nr_free_pages seg - 2 ^ Z.of_nat order.
Proof.
  intros Hinv Hord. pose proof Hinv as [Hwf Hacc].
  destruct (first_fit seg order) as [[i page] |] eqn:Hfit.
  - destruct (alloc_from_buddy_fit seg held order i page Hinv Hord Hfit)
      as (Hcode & Hinv' & _).
    destruct (first_fit_Some _ _ _ _ Hfit) as (Hle & (fl & Hfl & Hhead) & Hmin).
    assert (Hi : (i < VM_PAGE_NR_FREE_LISTS)%nat).
    { rewrite <- (wf_lists _ _ Hwf). by eapply lookup_lt_Some. }
    exists (Some page), (alloc_spec seg order i page).
    split_and!; try done.
    + split; [done |]. intros Hall. exfalso.
      rewrite (Hall i fl) in Hhead; [done | lia | done].
    + intros page0 [= <-]. exists i, fl. split_and!; try done.
      destruct Hinv' as [Hwf' _].
      destruct (seg_wf_held_lookup _ _ page Hwf') as [pg' Hpg'].
      { rewrite !elem_of_app. left. left. apply block_pages_head. }
      rewrite Hpg'. simpl. f_equal.
      eapply (held_unlisted _ _ page); [done | | done].
      rewrite !elem_of_app. left. left. apply block_pages_head.
  - exists None, seg. split_and!; try done.
    + by apply alloc_from_buddy_none with held.
    + split; [| done]. intros _ i fl Hi Hfl.
      by apply (proj1 (first_fit_None seg order) Hfit i fl); [lia |].
Qed.

Lemma alloc_from_buddy_first_fit_witness :
  ∃ res seg',
    vm_page_seg_alloc_from_buddy example_seg 1 = Ret (res, seg')
    ∧ (res = None
       ↔ ∀ i fl, (1 ≤ i < VM_PAGE_NR_FREE_LISTS)%nat →
                 free_lists example_seg !! i = Some fl → fl_blocks fl = [])
    ∧ (res = None → seg' = example_seg)
    ∧ ∀ page, res = Some page →
        ∃ i fl,
          first_fit example_seg 1 = Some (i, page)
          ∧ (1 ≤ i < VM_PAGE_NR_FREE_LISTS)%nat
          ∧ free_lists example_seg !! i = Some fl
          ∧ head (fl_blocks fl) = Some page
          ∧ (∀ k fl', (1 ≤ k < i)%nat →
                      free_lists example_seg !! k = Some fl' →
                      fl_blocks fl' = [])
          ∧ seg' = alloc_spec example_seg 1 i page
          ∧ seg' = set_nr_free_pages
                     (split_spec (i - 1) (unlist example_seg i page) page 1)
                     (nr_free_pages example_seg - 2 ^ Z.of_nat 1)
          ∧ page_order <$> pages seg' !! page = Some VM_PAGE_ORDER_UNLISTED
          ∧ nr_free_pages seg' = nr_free_pages example_seg - 2 ^ Z.of_nat 1.
Proof.
  apply (alloc_from_buddy_first_fit example_seg [0%nat] 1).
  - exact example_seg_inv.
  - unfold VM_PAGE_NR_FREE_LISTS. lia.
Defined.

(** In the small machine, after the block of order 1 is taken, a second
    block of order 1 is the lower half of the block of order 2, the upper
    half of which goes to the list of order 1. *)
Lemma example_alloc_splits :
  ('(page1, seg) ← vm_page_seg_alloc_from_buddy example_seg 1;
   '(page2, seg) ← vm_page_seg_alloc_from_buddy seg 1;
   Ret (page1, page2, free_lists seg, nr_free_pages seg))
  = Ret (Some 2%nat, Some 4%nat,
         [FreeList 1 [1%nat]; FreeList 1 [6%nat]; FreeList 0 [];
          FreeList 0 []; FreeList 0 []; FreeList 0 []; FreeList 0 [];
          FreeList 0 []; FreeList 0 []; FreeList 0 []; FreeList 0 []],
         3).
Proof. by vm_compute. Qed.

Local Arguments fill_loop : simpl never.

(** ** Accounting *)

Lemma free_sum_from_enlist (o : nat) (fls : list vm_page_free_list)
    (i page : nat) (fl : vm_page_free_list) :
  fls !! i = Some fl →
  free_sum_from o
    (alter (λ fl, FreeList (fl_size fl + 1) (page :: fl_blocks fl)) i fls)
  = free_sum_from o fls + 2 ^ Z.of_nat (o + i).
Proof.
  revert o i. induction fls as [| fl0 rest IH]; intros o i Hfl; [done |].
  destruct i as [| i]; cbn [alter list_alter free_sum_from fl_size].
  - injection Hfl as ->. rewrite Nat.add_0_r. lia.
  - rewrite (IH (S o) i Hfl). replace (S o + i)%nat with (o + S i)%nat by lia.
    lia.
Qed.

(** The accounting equality after a buddy free, whatever the page freed. *)
Lemma free_to_buddy_accounted (seg : vm_page_seg) (held : list nat)
    (page order : nat) (pg : vm_page) :
  seg_inv seg held →
  (order < VM_PAGE_NR_FREE_LISTS)%nat →
  pages seg !! page = Some pg →
  page_order pg = VM_PAGE_ORDER_UNLISTED →
  accounted (free_spec seg page order).
Proof.
  intros Hinv Hord Hpg Hunl. pose proof Hinv as [Hwf Hacc].
  destruct (free_coalesce_spec seg held page order pg Hwf Hord Hpg Hunl)
    as (seg' & page' & order' & taken & Hspec & _ & Hwf' & Hblk & Hcov & _
        & Hle & _ & _).
  unfold free_spec. cbv zeta. rewrite Hspec.
  unfold accounted, free_sum. simpl.
  destruct (lookup_lt_is_Some_2 (free_lists seg') order') as [fl Hfl];
    [rewrite (wf_lists _ _ Hwf'); lia |].
  rewrite (free_sum_from_enlist 0 _ order' _ fl Hfl). simpl.
  unfold accounted in Hacc. rewrite Hacc.
  rewrite (free_sum_covered _ _ Hwf).
  fold (free_sum seg'). rewrite (free_sum_covered _ _ Hwf').
  apply Permutation_length in Hcov. rewrite <- Hcov, length_app.
  apply Permutation_length in Hblk.
  rewrite length_app, !block_pages_length in Hblk.
  apply (f_equal Z.of_nat) in Hblk.
  rewrite Nat2Z.inj_add, !pow2_nat_Z in Hblk. lia.
Qed.

(** ** Per-CPU pools *)

(** Filling an empty pool moves [transfer_size] pages from the buddy system
    to the pool, or all the free pages if there are fewer. *)
Lemma pool_fill_spec (seg : vm_page_seg) (held : list nat) (cpu : nat)
    (cpu_pool : vm_page_cpu_pool) :
  seg_inv seg held →
  cpu_pools seg !! cpu = Some cpu_pool →
  pool_nr_pages cpu_pool = 0 →
  let filled := pool_transfer_size cpu_pool `min` nr_free_pages seg in
  ∃ seg1 pages1,
    vm_page_cpu_pool_fill seg cpu = Ret (filled, seg1)
    ∧ seg_inv seg1 held
    ∧ cpu_pools seg1 !! cpu
      = Some (CpuPool (pool_size cpu_pool) (pool_transfer_size cpu_pool)
                filled pages1)
    ∧ Z.of_nat (List.length pages1) = filled
    ∧ nr_free_pages seg1 = nr_free_pages seg - filled.
Proof.
  intros Hinv Hpool Hnr0 filled. pose proof Hinv as [Hwf Hacc].
  pose proof (Forall_lookup_1 _ _ _ _ (wf_pools _ _ Hwf) Hpool)
    as (Ht0 & Hts & Hs31 & Hnr & Hle).
  destruct (fill_loop_spec (Z.to_nat (pool_transfer_size cpu_pool)) seg held
              cpu 0 cpu_pool Hinv Hpool ltac:(lia))
    as (seg1 & pages1 & Hcode & Hinv1 & Hpool1 & Hnr1 & _).
  cbv zeta in *. rewrite Z2Nat.id in * by lia. fold filled in Hcode, Hpool1, Hnr1.
  rewrite Hnr0, !Z.add_0_l in *.
  exists seg1, pages1. split_and!; try done.
  - unfold vm_page_cpu_pool_fill, vm_page_cpu_pool_get. rewrite Hpool. ret.
    rewrite Hnr0. by ret.
  - destruct Hinv1 as [Hwf1 _].
    pose proof (Forall_lookup_1 _ _ _ _ (wf_pools _ _ Hwf1) Hpool1)
      as (_ & _ & _ & Hnr' & _).
    by simpl in Hnr'.
Qed.

(** C6: an allocation of order 0 in a segment that satisfies the
    invariants, by a processor whose pool is empty.  The pool is filled
    with [filled] pages from the buddy system, [filled] being the transfer
    size of the pool or the number of free pages of the segment if that is
    smaller.  If [filled] is zero the allocation returns [NULL] and leaves
    the segment as it was; otherwise it returns a page and leaves
    [filled - 1] pages in the pool.  With a transfer size of 2 and two free
    pages or more, one page stays in the pool. *)
Theorem seg_alloc_refills_pool (seg : vm_page_seg) (held : list nat)
    (cpu : nat) (cpu_pool : vm_page_cpu_pool) (type : Z) :
  seg_inv seg held →
  cpu_pools seg !! cpu = Some cpu_pool →
  pool_nr_pages cpu_pool = 0 →
  let filled := pool_transfer_size cpu_pool `min` nr_free_pages seg in
  (∃ seg1 pages1,
     vm_page_cpu_pool_fill seg cpu = Ret (filled, seg1)
     ∧ cpu_pools seg1 !! cpu
       = Some (CpuPool (pool_size cpu_pool) (pool_transfer_size cpu_pool)
                 filled pages1)
     ∧ Z.of_nat (List.length pages1) = filled
     ∧ nr_free_pages seg1 = nr_free_pages seg - filled)
  ∧ (filled = 0 → vm_page_seg_alloc seg cpu 0 type = Ret (None, seg))
  ∧ (filled ≠ 0 →
     ∃ page seg' rest,
       vm_page_seg_alloc seg cpu 0 type = Ret (Some page, seg')
       ∧ cpu_pools seg' !! cpu
         = Some (CpuPool (pool_size cpu_pool) (pool_transfer_size cpu_pool)
                   (filled - 1) rest)
       ∧ Z.of_nat (List.length rest) = filled - 1
       ∧ page_type <$> pages seg' !! page = Some type
       ∧ (pool_transfer_size cpu_pool = 2 → 2 ≤ nr_free_pages seg →
          filled - 1 = 1)).
Proof.
  intros Hinv Hpool Hnr0 filled.
  destruct (pool_fill_spec seg held cpu cpu_pool Hinv Hpool Hnr0)
    as (seg1 & pages1 & Hfill & _ & Hpool1 & Hlen1 & Hnr1).
  destruct (seg_alloc_pool_empty seg held cpu cpu_pool type Hinv Hpool Hnr0)
    as [Hzero Hsome].
  split_and!; [by exists seg1, pages1 | done |].
  intros Hne. destruct (Hsome Hne) as (page & seg' & rest & Hcode & Hpool'
                                        & _ & Hall).
  exists page, seg', rest. split_and!; try done.
  - destruct Hall as ([Hwf' _] & _).
    pose proof (Forall_lookup_1 _ _ _ _ (wf_pools _ _ Hwf') Hpool')
      as (_ & _ & _ & Hnr' & _).
    by simpl in Hnr'.
  - destruct Hall as (_ & _ & Hty & _). apply Hty, block_pages_head.
  - intros Ht Hfree. unfold filled. lia.
Qed.

Lemma seg_alloc_refills_pool_witness :
  let filled := 1 `min` nr_free_pages example_seg in
  (∃ seg1 pages1,
     vm_page_cpu_pool_fill example_seg 0 = Ret (filled, seg1)
     ∧ cpu_pools seg1 !! 0%nat = Some (CpuPool 1 1 filled pages1)
     ∧ Z.of_nat (List.length pages1) = filled
     ∧ nr_free_pages seg1 = nr_free_pages example_seg - filled)
  ∧ (filled = 0
     → vm_page_seg_alloc example_seg 0 0 VM_PT_KERNEL
       = Ret (None, example_seg))
  ∧ (filled ≠ 0 →
     ∃ page seg' rest,
       vm_page_seg_alloc example_seg 0 0 VM_PT_KERNEL = Ret (Some page, seg')
       ∧ cpu_pools seg' !! 0%nat = Some (CpuPool 1 1 (filled - 1) rest)
       ∧ Z.of_nat (List.length rest) = filled - 1
       ∧ page_type <$> pages seg' !! page = Some VM_PT_KERNEL
       ∧ (1 = 2 → 2 ≤ nr_free_pages example_seg → filled - 1 = 1)).
Proof.
  apply (seg_alloc_refills_pool example_seg [0%nat] 0 (CpuPool 1 1 0 [])
           VM_PT_KERNEL).
  - exact example_seg_inv.
  - reflexivity.
  - reflexivity.
Defined.

(** The case of the spec: in a segment of 4096 pages the transfer size is
    2; the first allocation of order 0 after the set-up moves two pages to
    the pool, returns one and leaves one. *)
Lemma example_refill_two :
  (seg ← setup_seg 1 0 example_large_boot_seg;
   '(page, seg') ← vm_page_seg_alloc seg 0 0 VM_PT_KERNEL;
   Ret (cpu_pools seg !! 0%nat, nr_free_pages seg, page,
        cpu_pools seg' !! 0%nat, nr_free_pages seg'))
  = Ret (Some (CpuPool 4 2 0 []), 4096, Some 3073%nat,
         Some (CpuPool 4 2 1 [3072%nat]), 4094).
Proof. by vm_compute. Qed.

(** ** Allocation from the segment table *)

(** C7: [vm_page_alloc_pa] on a table of segments that satisfy the
    invariants, for a selector that names the segment [s].  The walk starts
    at [i0], the smaller of [s] and the index of the last loaded segment,
    and goes down.  Either some segment [j ≤ i0] gives a page while every
    segment between [j] and [i0] fails, and that page is returned; or
    every segment from [i0] down to 0 fails, and then the result is [NULL],
    or a panic if the page was meant for a pmap. *)
Theorem alloc_pa_walks_down
    (VM_PAGE_SEG_DMA VM_PAGE_SEG_DMA32 VM_PAGE_SEG_DIRECTMAP
       VM_PAGE_SEG_HIGHMEM : Z)
    (ncpus : nat) (st : vm_page_state) (helds : list (list nat))
    (cpu order : nat) (selector type s : Z) :
  state_inv ncpus st helds →
  (cpu < ncpus)%nat → (order < VM_PAGE_NR_FREE_LISTS)%nat →
  selector_seg VM_PAGE_SEG_DMA VM_PAGE_SEG_DMA32 VM_PAGE_SEG_DIRECTMAP
    VM_PAGE_SEG_HIGHMEM selector = Some s →
  0 ≤ s < 2 ^ 32 →
  let i0 := Z.min (vm_page_segs_size st - 1) s in
  let alloc_pa :=
    vm_page_alloc_pa VM_PAGE_SEG_DMA VM_PAGE_SEG_DMA32 VM_PAGE_SEG_DIRECTMAP
      VM_PAGE_SEG_HIGHMEM st cpu order selector type in
  let fails (k : Z) :=
    ∃ seg, vm_page_segs st !! Z.to_nat k = Some seg
           ∧ vm_page_seg_alloc seg cpu order type = Ret (None, seg) in
  vm_page_select_alloc_seg VM_PAGE_SEG_DMA VM_PAGE_SEG_DMA32
    VM_PAGE_SEG_DIRECTMAP VM_PAGE_SEG_HIGHMEM st selector = Ret i0
  ∧ ((∃ j seg page seg',
        0 ≤ Z.of_nat j ≤ i0
        ∧ vm_page_segs st !! j = Some seg
        ∧ vm_page_seg_alloc seg cpu order type = Ret (Some page, seg')
        ∧ (∀ k, Z.of_nat j < k ≤ i0 → fails k)
        ∧ alloc_pa
          = Ret (Some (j, page),
                 set_vm_page_segs st (<[j := seg']> (vm_page_segs st))))
     ∨ ((∀ k, 0 ≤ k ≤ i0 → fails k)
        ∧ type ≠ VM_PT_PMAP ∧ alloc_pa = Ret (None, st))
     ∨ ((∀ k, 0 ≤ k ≤ i0 → fails k)
        ∧ type = VM_PT_PMAP
        ∧ alloc_pa = Panic "vm_page: unable to allocate pmap page")).
Proof.
  intros Hinv Hcpu Hord Hsel Hs i0 alloc_pa fails.
  split; [apply select_alloc_seg_spec; [apply Hinv | done] |].
  destruct (alloc_pa_cases VM_PAGE_SEG_DMA VM_PAGE_SEG_DMA32
              VM_PAGE_SEG_DIRECTMAP VM_PAGE_SEG_HIGHMEM ncpus st helds cpu
              order selector type s Hinv Hcpu Hord Hsel Hs)
    as [(j & held & seg & page & seg' & Hj & _ & Hseg & Hcode & _ & Hab & Hpa)
       | [Hnone Hpa]].
  - left. by exists j, seg, page, seg'.
  - right. destruct (Z.eqb_spec type VM_PT_PMAP) as [Hty | Hty].
    + right. by split_and!.
    + left. by split_and!.
Qed.

Lemma alloc_pa_walks_down_witness :
  let i0 := Z.min (vm_page_segs_size example_state - 1) 3 in
  let alloc_pa :=
    vm_page_alloc_pa 0 1 2 3 example_state 0 0 VM_PAGE_SEL_HIGHMEM
      VM_PT_KERNEL in
  let fails (k : Z) :=
    ∃ seg, vm_page_segs example_state !! Z.to_nat k = Some seg
           ∧ vm_page_seg_alloc seg 0 0 VM_PT_KERNEL = Ret (None, seg) in
  vm_page_select_alloc_seg 0 1 2 3 example_state VM_PAGE_SEL_HIGHMEM = Ret i0
  ∧ ((∃ j seg page seg',
        0 ≤ Z.of_nat j ≤ i0
        ∧ vm_page_segs example_state !! j = Some seg
        ∧ vm_page_seg_alloc seg 0 0 VM_PT_KERNEL = Ret (Some page, seg')
        ∧ (∀ k, Z.of_nat j < k ≤ i0 → fails k)
        ∧ alloc_pa
          = Ret (Some (j, page),
                 set_vm_page_segs example_state
                   (<[j := seg']> (vm_page_segs example_state))))
     ∨ ((∀ k, 0 ≤ k ≤ i0 → fails k)
        ∧ VM_PT_KERNEL ≠ VM_PT_PMAP ∧ alloc_pa = Ret (None, example_state))
     ∨ ((∀ k, 0 ≤ k ≤ i0 → fails k)
        ∧ VM_PT_KERNEL = VM_PT_PMAP
        ∧ alloc_pa = Panic "vm_page: unable to allocate pmap page")).
Proof.
  apply (alloc_pa_walks_down 0 1 2 3 1 example_state [[0%nat]] 0 0
           VM_PAGE_SEL_HIGHMEM VM_PT_KERNEL 3).
  - exact example_state_inv.
  - lia.
  - unfold VM_PAGE_NR_FREE_LISTS. lia.
  - reflexivity.
  - lia.
Defined.

(** With two segments, the upper one without a free page: the walk for
    the selector [VM_PAGE_SEL_HIGHMEM] starts at segment 1, the last one
    loaded, and takes the page from segment 0. *)
Lemma example_walk_two :
  (st ← vm_page_setup 1 example_two_boot_state [];
   i ← vm_page_select_alloc_seg 0 1 2 3 st VM_PAGE_SEL_HIGHMEM;
   '(page, _) ← vm_page_alloc_pa 0 1 2 3 st 0 0 VM_PAGE_SEL_HIGHMEM
                  VM_PT_KERNEL;
   Ret (i, page))
  = Ret (1, Some (0%nat, 1%nat)).
Proof. by vm_compute. Qed.

(** With no free page at all the result is [NULL], and a panic for a page
    of a pmap. *)
Lemma example_exhausted :
  (st ← vm_page_setup 1 example_full_boot_state [];
   '(page, _) ← vm_page_alloc_pa 0 1 2 3 st 0 0 VM_PAGE_SEL_DMA VM_PT_KERNEL;
   Ret page) = Ret None
  ∧ (st ← vm_page_setup 1 example_full_boot_state [];
     vm_page_alloc_pa 0 1 2 3 st 0 0 VM_PAGE_SEL_DMA VM_PT_PMAP)
    = Panic "vm_page: unable to allocate pmap page".
Proof. by vm_compute. Qed.

(** ** The accounting equality *)

Lemma state_inv_accounted (ncpus : nat) (st : vm_page_state)
    (helds : list (list nat)) :
  state_inv ncpus st helds → segs_accounted st.
Proof.
  intros (Hsize & Hlen & Hsegs) i seg Hi Hseg.
  destruct (lookup_lt_is_Some_2 helds i ltac:(lia)) as [held Hheld].
  destruct (Hsegs _ _ Hheld) as (seg0 & Hseg0 & [_ Hacc] & _).
  congruence.
Qed.

(** [vm_page_alloc_pa] keeps the invariants of the segments. *)
Lemma alloc_pa_inv
    (VM_PAGE_SEG_DMA VM_PAGE_SEG_DMA32 VM_PAGE_SEG_DIRECTMAP
       VM_PAGE_SEG_HIGHMEM : Z)
    (ncpus : nat) (st : vm_page_state) (helds : list (list nat))
    (cpu order : nat) (selector type s : Z) :
  state_inv ncpus st helds →
  (cpu < ncpus)%nat → (order < VM_PAGE_NR_FREE_LISTS)%nat →
  selector_seg VM_PAGE_SEG_DMA VM_PAGE_SEG_DMA32 VM_PAGE_SEG_DIRECTMAP
    VM_PAGE_SEG_HIGHMEM selector = Some s →
  0 ≤ s < 2 ^ 32 →
  (∃ page st' helds',
     vm_page_alloc_pa VM_PAGE_SEG_DMA VM_PAGE_SEG_DMA32 VM_PAGE_SEG_DIRECTMAP
       VM_PAGE_SEG_HIGHMEM st cpu order selector type = Ret (page, st')
     ∧ state_inv ncpus st' helds')
  ∨ (type = VM_PT_PMAP
     ∧ vm_page_alloc_pa VM_PAGE_SEG_DMA VM_PAGE_SEG_DMA32
         VM_PAGE_SEG_DIRECTMAP VM_PAGE_SEG_HIGHMEM st cpu order selector type
       = Panic "vm_page: unable to allocate pmap page").
Proof.
  intros Hinv Hcpu Hord Hsel Hs.
  destruct (alloc_pa_cases VM_PAGE_SEG_DMA VM_PAGE_SEG_DMA32
              VM_PAGE_SEG_DIRECTMAP VM_PAGE_SEG_HIGHMEM ncpus st helds cpu
              order selector type s Hinv Hcpu Hord Hsel Hs)
    as [(j & held & seg & page & seg' & Hj & Hheld & Hseg & Hcode & Hall
         & Hab & Hpa) | [Hnone Hpa]].
  - left.
    exists (Some (j, page)),
      (set_vm_page_segs st (<[j := seg']> (vm_page_segs st))),
      (<[j := block_pages order page ++ held]> helds).
    split; [done |].
    destruct Hall as (Hinv' & _ & _ & _ & _ & _ & Hpools).
    destruct Hinv as (Hsize & Hlen & Hsegs).
    destruct (Hsegs _ _ Hheld) as (seg0 & Hseg0 & _ & Hpools0).
    assert (seg0 = seg) as -> by congruence.
    apply state_inv_insert; try done; [| congruence].
    by eapply lookup_lt_Some.
  - destruct (Z.eqb_spec type VM_PT_PMAP) as [Hty | Hty].
    + by right.
    + left. by exists None, st, helds.
Qed.

(** C3: the equality between the counter of free pages of a segment and the
    sum over the orders [i] of [size(F[i]) * 2^i].  It holds after
    [vm_page_seg_init]; in a segment that satisfies the invariants, a buddy
    allocation and a buddy free return and keep it; a table of segments
    that satisfy the invariants has it in every loaded segment, and
    [vm_page_alloc_pa], [vm_page_free_pa] of a block handed out before,
    [vm_page_manage] of a reserved page and [vm_page_setup] lead to such a
    table again.  The pages of the pools are in no free list and not in the
    counter. *)
Theorem accounting_invariant :
  (∀ ncpus i start end_, accounted (vm_page_seg_init ncpus i start end_))
  ∧ (∀ seg held order,
       seg_inv seg held → (order < VM_PAGE_NR_FREE_LISTS)%nat →
       ∃ res seg',
         vm_page_seg_alloc_from_buddy seg order = Ret (res, seg')
         ∧ accounted seg')
  ∧ (∀ seg held page order pg,
       seg_inv seg held → (order < VM_PAGE_NR_FREE_LISTS)%nat →
       pages seg !! page = Some pg →
       page_order pg = VM_PAGE_ORDER_UNLISTED →
       ∃ seg',
         vm_page_seg_free_to_buddy seg page order = Ret seg'
         ∧ accounted seg')
  ∧ (∀ ncpus st helds,
       state_inv ncpus st helds →
       segs_accounted st
       ∧ ∀ i held seg, helds !! i = Some held →
           vm_page_segs st !! i = Some seg →
           nr_free_pages seg = free_sum seg
           ∧ NoDup (pooled seg ++ covered seg)
           ∧ free_sum seg = Z.of_nat (List.length (covered seg)))
  ∧ (∀ dma dma32 directmap highmem ncpus st helds cpu order selector type s,
       state_inv ncpus st helds →
       (cpu < ncpus)%nat → (order < VM_PAGE_NR_FREE_LISTS)%nat →
       selector_seg dma dma32 directmap highmem selector = Some s →
       0 ≤ s < 2 ^ 32 →
       (∃ page st' helds',
          vm_page_alloc_pa dma dma32 directmap highmem st cpu order selector
            type = Ret (page, st')
          ∧ state_inv ncpus st' helds')
       ∨ (type = VM_PT_PMAP
          ∧ vm_page_alloc_pa dma dma32 directmap highmem st cpu order
              selector type
            = Panic "vm_page: unable to allocate pmap page"))
  ∧ (∀ ncpus max_segs st helds cpu i page order held seg pg,
       state_inv ncpus st helds →
       helds !! i = Some (block_pages order page ++ held) →
       page_seg max_segs st (i, page) = Ret seg →
       pages seg !! page = Some pg →
       page_type pg ≠ VM_PT_FREE →
       block_aligned seg order page →
       (order < VM_PAGE_NR_FREE_LISTS)%nat → (cpu < ncpus)%nat →
       ∃ st',
         vm_page_free_pa max_segs st cpu (Some (i, page)) order = Ret st'
         ∧ state_inv ncpus st' (<[i := held]> helds))
  ∧ (∀ ncpus max_segs st helds i page held seg pg,
       state_inv ncpus st helds →
       helds !! i = Some (page :: held) →
       page_seg max_segs st (i, page) = Ret seg →
       pages seg !! page = Some pg →
       page_type pg = VM_PT_RESERVED →
       ∃ st',
         vm_page_manage max_segs st (i, page) = Ret st'
         ∧ state_inv ncpus st' (<[i := held]> helds))
  ∧ (∀ ncpus st table_pas,
       boot_ok st →
       (∃ segs,
          setup_segs ncpus (boot_loaded st) 0 = Ret segs
          ∧ Forall accounted segs)
       ∧ (vm_page_check_boot_segs st = Ret () →
          ∃ st', vm_page_setup ncpus st [] = Ret st')
       ∧ ∀ st', vm_page_setup ncpus st table_pas = Ret st' →
           state_inv ncpus st' (boot_held <$> boot_loaded st)).
Proof.
  split_and!.
  - intros. apply seg_init_accounted.
  - intros seg held order Hinv Hord. pose proof Hinv as [Hwf _].
    destruct (first_fit seg order) as [[i page] |] eqn:Hfit.
    + destruct (alloc_from_buddy_fit seg held order i page Hinv Hord Hfit)
        as (Hcode & [_ Hacc] & _).
      by exists (Some page), (alloc_spec seg order i page).
    + exists None, seg. split; [| apply Hinv].
      by apply alloc_from_buddy_none with held.
  - intros seg held page order pg Hinv Hord Hpg Hunl.
    exists (free_spec seg page order). split.
    + by apply (free_to_buddy_spec seg held page order pg).
    + by apply (free_to_buddy_accounted seg held page order pg).
  - intros ncpus st helds Hinv. split; [by eapply state_inv_accounted |].
    intros i held seg Hheld Hseg. destruct Hinv as (_ & _ & Hsegs).
    destruct (Hsegs _ _ Hheld) as (seg0 & Hseg0 & [Hwf Hacc] & _).
    assert (seg0 = seg) as -> by congruence.
    split_and!; [done | | by eapply free_sum_covered].
    pose proof (wf_nodup _ _ Hwf) as Hnd.
    by apply NoDup_app in Hnd as (_ & _ & Hnd).
  - intros. by eapply alloc_pa_inv.
  - intros ncpus max_segs st helds cpu i page order held seg pg Hinv Hheld
      Hps Hpg Hty Hal Hord Hcpu.
    destruct (free_pa_spec ncpus max_segs st helds cpu i page order held seg
                pg Hinv Hheld Hps Hpg Hty Hal Hord Hcpu)
      as (seg' & _ & Hcode & Hinv').
    by eexists.
  - intros ncpus max_segs st helds i page held seg pg Hinv Hheld Hps Hpg Hty.
    destruct (manage_spec ncpus max_segs st helds i page held seg pg Hinv
                Hheld Hps Hpg Hty)
      as (seg' & Hcode & _ & Hinv').
    by eexists.
  - intros ncpus st table_pas Hok.
    destruct (setup_spec ncpus st table_pas Hok) as (segs & Hcode & _ & Hret).
    split_and!.
    + exists segs. split; [done |].
      destruct Hok as (_ & _ & Hok).
      destruct (setup_segs_spec ncpus (boot_loaded st) 0 Hok)
        as (segs' & Hcode' & Hsegs).
      assert (segs' = segs) as -> by congruence.
      rewrite Forall_forall. intros seg Hin.
      apply list_elem_of_lookup in Hin as [k Hk].
      destruct (Forall2_lookup_l _ _ _ _ _ Hsegs Hk)
        as (boot_seg & _ & [_ Hacc] & _).
      done.
    + by apply setup_returns.
    + intros st' Hst'. by apply Hret.
Qed.

Lemma accounting_invariant_witness :
  segs_accounted example_state
  ∧ (∃ res seg',
       vm_page_seg_alloc_from_buddy example_seg 2 = Ret (res, seg')
       ∧ accounted seg')
  ∧ (∃ seg',
       vm_page_seg_free_to_buddy example_seg 0 0 = Ret seg'
       ∧ accounted seg')
  ∧ ((∃ page st' helds',
        vm_page_alloc_pa 0 1 2 3 example_state 0 0 VM_PAGE_SEL_DMA
          VM_PT_KERNEL = Ret (page, st')
        ∧ state_inv 1 st' helds')
     ∨ (VM_PT_KERNEL = VM_PT_PMAP
        ∧ vm_page_alloc_pa 0 1 2 3 example_state 0 0 VM_PAGE_SEL_DMA
            VM_PT_KERNEL
          = Panic "vm_page: unable to allocate pmap page"))
  ∧ (∃ st',
       vm_page_manage 1 example_state (0%nat, 0%nat) = Ret st'
       ∧ state_inv 1 st' (<[0%nat := []]> [[0%nat]]))
  ∧ (∀ st', vm_page_setup 1 example_boot_state [] = Ret st' →
       state_inv 1 st' (boot_held <$> boot_loaded example_boot_state)).
Proof.
  destruct accounting_invariant
    as (_ & Halloc & Hfree & Hst & Hpa & _ & Hman & Hsetup).
  split_and!.
  - apply (Hst 1%nat example_state [[0%nat]]). exact example_state_inv.
  - apply (Halloc example_seg [0%nat] 2%nat).
    + exact example_seg_inv.
    + unfold VM_PAGE_NR_FREE_LISTS. lia.
  - apply (Hfree example_seg [0%nat] 0%nat 0%nat
             (Page VM_PT_RESERVED 0 VM_PAGE_ORDER_UNLISTED 0x10000)).
    + exact example_seg_inv.
    + unfold VM_PAGE_NR_FREE_LISTS. lia.
    + reflexivity.
    + reflexivity.
  - apply (Hpa 0 1 2 3 1%nat example_state [[0%nat]] 0%nat 0%nat
             VM_PAGE_SEL_DMA VM_PT_KERNEL 0).
    + exact example_state_inv.
    + lia.
    + unfold VM_PAGE_NR_FREE_LISTS. lia.
    + reflexivity.
    + lia.
  - apply (Hman 1%nat 1%nat example_state [[0%nat]] 0%nat 0%nat []
             example_seg
             (Page VM_PT_RESERVED 0 VM_PAGE_ORDER_UNLISTED 0x10000)).
    + exact example_state_inv.
    + reflexivity.
    + reflexivity.
    + reflexivity.
    + reflexivity.
  - apply (Hsetup 1%nat example_boot_state []). exact example_boot_ok.
Defined.

(** On the small machine: a page is allocated, which fills the pool, and
    freed again, which puts it into the pool; the counter of free pages
    and the free lists agree all along. *)
Lemma example_alloc_free :
  ('(page, st1) ← vm_page_alloc_pa 0 1 2 3 example_state 0 0
                    VM_PAGE_SEL_DMA VM_PT_KERNEL;
   st2 ← vm_page_free_pa 1 st1 0 page 0;
   Ret (page,
        (λ seg, (nr_free_pages seg, free_sum seg, pooled seg))
          <$> vm_page_segs st1,
        (λ seg, (nr_free_pages seg, free_sum seg, pooled seg))
          <$> vm_page_segs st2))
  = Ret (Some (0%nat, 1%nat), [(6, 6, [])], [(6, 6, [1%nat])]).
Proof. by vm_compute. Qed.

(** ** Freeing and allocating again *)

Lemma covered_free_lists (seg seg' : vm_page_seg) :
  free_lists seg' = free_lists seg → covered seg' = covered seg.
Proof. unfold covered. by intros ->. Qed.


(** [vm_page_seg_free] of a page, order 0: the pool of the processor takes
    the page at its head, after [transfer_size] of its pages have gone to
    the buddy system if it was full. *)
Lemma seg_free_pool (seg : vm_page_seg) (held : list nat)
    (cpu page : nat) (pg : vm_page) (cpu_pool : vm_page_cpu_pool) :
  seg_inv seg (page :: held) →
  cpu_pools seg !! cpu = Some cpu_pool →
  pages seg !! page = Some pg →
  page_type pg ≠ VM_PT_FREE →
  ∃ seg' rest,
    vm_page_seg_free seg cpu page 0 = Ret seg'
    ∧ seg_inv seg' held
    ∧ page_free seg' page
    ∧ cpu_pools seg' !! cpu
      = Some (CpuPool (pool_size cpu_pool) (pool_transfer_size cpu_pool)
                (Z.of_nat (List.length rest) + 1) (page :: rest))
    ∧ (pool_nr_pages cpu_pool < pool_size cpu_pool →
       rest = pool_pages cpu_pool
       ∧ nr_free_pages seg' = nr_free_pages seg
       ∧ free_lists seg' = free_lists seg)
    ∧ (pool_nr_pages cpu_pool = pool_size cpu_pool →
       Z.of_nat (List.length rest)
       = pool_size cpu_pool - pool_transfer_size cpu_pool
       ∧ nr_free_pages seg'
         = nr_free_pages seg + pool_transfer_size cpu_pool).
Proof.
  intros Hinv Hpool Hpg Hty. pose proof Hinv as [Hwf Hacc].
  unfold vm_page_seg_free. rewrite Hpg. ret.
  destruct (Z.eqb_spec (page_type pg) VM_PT_FREE) as [| _]; [done |]. ret.
  change (0 <? VM_PAGE_NR_FREE_LISTS)%nat with true. ret.
  destruct (set_type_step seg _ page 0 VM_PT_FREE Hwf)
    as (seg1 & Hcode1 & Hwf1 & Hfl1 & Hp1 & Hnr1 & Hs1 & He1 & Hl1 & Hpgs1).
  { intros k Hk. change (block_pages 0 page) with [page] in Hk.
    apply list_elem_of_singleton in Hk as ->. by left. }
  rewrite Hcode1. ret.
  assert (Hinv1 : seg_inv seg1 (page :: held)) by by eapply seg_inv_frame.
  assert (Hfree1 : page_free seg1 page).
  { exists (page_set_type VM_PT_FREE pg). rewrite Hpgs1.
    rewrite decide_True
      by (change (block_pages 0 page) with [page];
          by apply list_elem_of_singleton).
    by rewrite Hpg. }
  change (0 =? 0)%nat with true. cbv iota.
  unfold vm_page_cpu_pool_get at 1. rewrite Hp1, Hpool. ret.
  pose proof (Forall_lookup_1 _ _ _ _ (wf_pools _ _ Hwf) Hpool)
    as (Ht0 & Hts & Hs31 & Hnr & Hle).
  assert (Hpool1 : cpu_pools seg1 !! cpu = Some cpu_pool) by by rewrite Hp1.
  destruct (Z.eqb_spec (pool_nr_pages cpu_pool) (pool_size cpu_pool))
    as [Heq | Hne].
  - destruct (drain_loop_spec (Z.to_nat (pool_transfer_size cpu_pool))
                seg1 (page :: held) cpu cpu_pool Hinv1 Hpool1)
      as (seg2 & pages2 & Hcode2 & [Hwf2 Hacc2] & Hpool2 & Hnr2 & Hs2 & He2
          & Hl2 & Hlp2 & Hpf2); [lia |].
    rewrite Z2Nat.id in * by lia.
    assert (Hdrain : vm_page_cpu_pool_drain seg1 cpu = Ret seg2).
    { unfold vm_page_cpu_pool_drain, vm_page_cpu_pool_get.
      rewrite Hpool1. ret. rewrite (proj2 (Z.eqb_eq _ _) Heq). by ret. }
    rewrite Hdrain. ret.
    pose proof (Forall_lookup_1 _ _ _ _ (wf_pools _ _ Hwf2) Hpool2)
      as (_ & _ & _ & Hnr2' & _). simpl in Hnr2'.
    destruct (pool_push_step seg2 held cpu page _ Hwf2 Hpool2)
      as (seg3 & Hcode3 & Hwf3 & Hpool3 & Hfl3 & Hpg3 & Hnr3 & _);
      [simpl; lia | by apply Hpf2 |].
    exists seg3, pages2. simpl in Hpool3. rewrite Hcode3.
    split_and!; try done.
    + by eapply seg_inv_frame.
    + unfold page_free. rewrite Hpg3. by apply Hpf2.
    + rewrite Hpool3. do 2 f_equal. lia.
    + lia.
    + intros _. split; [lia |]. rewrite Hnr3, Hnr2, Hnr1. done.
  - destruct Hinv1 as [_ Hacc1].
    destruct (pool_push_step seg1 held cpu page _ Hwf1 Hpool1)
      as (seg3 & Hcode3 & Hwf3 & Hpool3 & Hfl3 & Hpg3 & Hnr3 & _);
      [lia | done |].
    exists seg3, (pool_pages cpu_pool). ret. rewrite Hcode3.
    split_and!; try done.
    + by eapply seg_inv_frame.
    + unfold page_free. by rewrite Hpg3.
    + rewrite Hpool3. do 2 f_equal. lia.
    + intros _. split_and!; [done | congruence | congruence].
Qed.

(** [vm_page_seg_free] of a block of a higher order: the block goes to the
    buddy system. *)
Lemma seg_free_buddy (seg : vm_page_seg) (held : list nat)
    (cpu page order : nat) (pg : vm_page) :
  seg_inv seg (block_pages order page ++ held) →
  block_aligned seg order page →
  (0 < order < VM_PAGE_NR_FREE_LISTS)%nat →
  pages seg !! page = Some pg →
  page_type pg ≠ VM_PT_FREE →
  ∃ seg',
    vm_page_seg_free seg cpu page order = Ret seg'
    ∧ seg_inv seg' held
    ∧ Forall (page_free seg') (block_pages order page)
    ∧ cpu_pools seg' = cpu_pools seg
    ∧ nr_free_pages seg' = nr_free_pages seg + 2 ^ Z.of_nat order
    ∧ covered seg' ≡ₚ block_pages order page ++ covered seg.
Proof.
  intros Hinv Hal Hord Hpg Hty. pose proof Hinv as [Hwf Hacc].
  unfold vm_page_seg_free. rewrite Hpg. ret.
  destruct (Z.eqb_spec (page_type pg) VM_PT_FREE) as [| _]; [done |]. ret.
  destruct (Nat.ltb_spec order VM_PAGE_NR_FREE_LISTS) as [_ |]; [| lia]. ret.
  destruct (set_type_step seg _ page order VM_PT_FREE Hwf)
    as (seg1 & Hcode1 & Hwf1 & Hfl1 & Hp1 & Hnr1 & Hs1 & He1 & Hl1 & Hpgs1).
  { intros k Hk. rewrite elem_of_app. by left. }
  rewrite Hcode1. ret.
  assert (Hinv1 : seg_inv seg1 (block_pages order page ++ held))
    by by eapply seg_inv_frame.
  assert (Hfree1 : Forall (page_free seg1) (block_pages order page)).
  { rewrite Forall_forall. intros k Hk.
    destruct (seg_wf_held_lookup seg _ k Hwf) as [pgk Hpgk].
    { rewrite !elem_of_app. by left; left. }
    exists (page_set_type VM_PT_FREE pgk). rewrite Hpgs1.
    rewrite decide_True by done. by rewrite Hpgk. }
  assert (Hal1 : block_aligned seg1 order page)
    by (unfold block_aligned, page_pa in *; by rewrite Hs1).
  destruct (Nat.eqb_spec order 0) as [| _]; [lia |].
  destruct (free_to_buddy_inv seg1 held page order Hinv1 ltac:(lia) Hal1
              Hfree1)
    as (Hcode2 & Hinv2 & Hcov2 & Hnr2 & Hframe2).
  destruct Hframe2 as (_ & _ & _ & Hp2 & _ & Hpf2).
  change (cpu_pools (free_spec seg1 page order) = cpu_pools seg1) in Hp2.
  exists (free_spec seg1 page order). split_and!; try done.
  - rewrite Forall_forall in *. intros k Hk. apply (Hpf2 k). by apply Hfree1.
  - congruence.
  - congruence.
  - rewrite Hcov2. by rewrite (covered_free_lists seg seg1).
Qed.

(** An allocation of order 0 when the pool of the processor has pages: the
    head of the pool is returned and the buddy system is left alone. *)
Lemma seg_alloc_pool_nonempty (seg : vm_page_seg) (held : list nat)
    (cpu : nat) (cpu_pool : vm_page_cpu_pool) (type : Z) (page : nat)
    (rest : list nat) :
  seg_inv seg held →
  cpu_pools seg !! cpu = Some cpu_pool →
  pool_pages cpu_pool = page :: rest →
  ∃ seg',
    vm_page_seg_alloc seg cpu 0 type = Ret (Some page, seg')
    ∧ allocated seg held 0 type page seg'
    ∧ cpu_pools seg' !! cpu
      = Some (CpuPool (pool_size cpu_pool) (pool_transfer_size cpu_pool)
                (pool_nr_pages cpu_pool - 1) rest)
    ∧ nr_free_pages seg' = nr_free_pages seg
    ∧ free_lists seg' = free_lists seg.
Proof.
  intros Hinv Hpool Hpages. pose proof Hinv as [Hwf Hacc].
  pose proof (Forall_lookup_1 _ _ _ _ (wf_pools _ _ Hwf) Hpool)
    as (Ht0 & Hts & Hs31 & Hnr & Hle).
  rewrite Hpages in Hnr. simpl in Hnr.
  unfold vm_page_seg_alloc, vm_page_cpu_pool_get.
  change (0 <? VM_PAGE_NR_FREE_LISTS)%nat with true. ret.
  change (0 =? 0)%nat with true. cbv iota. rewrite Hpool. ret.
  destruct (Z.eqb_spec (pool_nr_pages cpu_pool) 0); [lia |].
  destruct (pool_pop_step seg held cpu _ Hwf Hpool ltac:(lia))
    as (page' & rest' & seg2 & Hpages' & Hcode2 & Hwf2 & Hfree2 & Hpool2
        & Hfl2 & Hpg2 & Hnr2 & Hs2 & He2 & Hlp2).
  rewrite Hpages in Hpages'. injection Hpages' as <- <-.
  rewrite Hcode2. ret.
  destruct (set_type_step seg2 _ page 0 type Hwf2)
    as (seg' & Hcode' & Hwf' & Hfl' & Hpools' & Hnr' & Hs' & He' & Hl'
        & Hpgs').
  { intros k Hk. change (block_pages 0 page) with [page] in Hk.
    apply list_elem_of_singleton in Hk as ->. by left. }
  destruct Hfree2 as (pg & Hpg & Hty).
  rewrite Hpg2, Hpg. ret. rewrite Hty. ret. rewrite Hcode'. ret.
  exists seg'. split_and!; try done; try congruence.
  unfold allocated. split_and!; try congruence.
  - eapply seg_inv_frame; [done | done | congruence | congruence].
  - eapply block_aligned_0, Hwf'.
  - intros k Hk. rewrite Hpgs', decide_True by done.
    change (block_pages 0 page) with [page] in Hk.
    apply list_elem_of_singleton in Hk as ->. by rewrite Hpg2, Hpg.
Qed.

(** An allocation of a higher order comes from the buddy system. *)
Lemma seg_alloc_buddy (seg : vm_page_seg) (held : list nat)
    (cpu order : nat) (type : Z) :
  seg_inv seg held →
  (0 < order < VM_PAGE_NR_FREE_LISTS)%nat →
  match first_fit seg order with
  | None => vm_page_seg_alloc seg cpu order type = Ret (None, seg)
  | Some (i, page) =>
      ∃ seg',
        vm_page_seg_alloc seg cpu order type = Ret (Some page, seg')
        ∧ allocated seg held order type page seg'
        ∧ cpu_pools seg' = cpu_pools seg
        ∧ nr_free_pages seg' = nr_free_pages seg - 2 ^ Z.of_nat order
        ∧ block_pages order page ++ covered seg' ≡ₚ covered seg
  end.
Proof.
  intros Hinv Hord. pose proof Hinv as [Hwf Hacc].
  unfold vm_page_seg_alloc.
  destruct (Nat.ltb_spec order VM_PAGE_NR_FREE_LISTS) as [_ |]; [| lia]. ret.
  destruct (Nat.eqb_spec order 0) as [| _]; [lia |].
  destruct (first_fit seg order) as [[i page] |] eqn:Hfit.
  - destruct (alloc_from_buddy_fit seg held order i page Hinv ltac:(lia)
                Hfit)
      as (Hcode & Hinv1 & Hal1 & Hfree1 & Hcov1).
    destruct (alloc_spec_same seg order i page)
      as (Hs1 & He1 & Hp1 & Hl1 & Hnr1).
    rewrite Hcode. ret.
    destruct (seg_alloc_finish (alloc_spec seg order i page) held page order
                type Hinv1)
      as (seg' & Hcode' & Hinv' & Hpools' & Hnr' & Hs' & He' & Hl' & Hty').
    { rewrite Forall_forall in Hfree1. apply Hfree1, block_pages_head. }
    rewrite Hcode'. exists seg'. split_and!; try done; try congruence.
    + unfold allocated. split_and!; try done; try congruence.
      unfold block_aligned, page_pa in *. by rewrite Hs', Hs1.
    + rewrite <- Hcov1. f_equiv.
      assert (Hfl : free_lists seg' = free_lists (alloc_spec seg order i page)).
      { destruct (pages (alloc_spec seg order i page) !! page) as [pg |];
          [| done].
        simpl in Hcode'. destruct (page_type pg =? VM_PT_FREE); [| done].
        simpl in Hcode'. unfold vm_page_set_type in Hcode'.
        destruct (set_type_loop _ _ _ _) as [pgs | | |]; try done.
        simpl in Hcode'. by injection Hcode' as <-. }
      by rewrite (covered_free_lists _ _ Hfl).
  - rewrite (alloc_from_buddy_none seg held order) by (done || lia). by ret.
Qed.

(** X1: [vm_page_seg_free] of a held page that is not free, at order 0, in
    a segment that satisfies the invariants.  The page becomes free and is
    put at the head of the pool of the processor.  If the pool was not
    full, nothing else changes: the buddy system keeps its free lists and
    its counter.  If the pool was full, [transfer_size] of its pages go to
    the buddy system first, so that the counter of free pages grows by
    [transfer_size] and the pool ends with [size - transfer_size + 1]
    pages. *)
Theorem free_order0_goes_to_pool (seg : vm_page_seg) (held : list nat)
    (cpu page : nat) (pg : vm_page) (cpu_pool : vm_page_cpu_pool) :
  seg_inv seg (page :: held) →
  cpu_pools seg !! cpu = Some cpu_pool →
  pages seg !! page = Some pg →
  page_type pg ≠ VM_PT_FREE →
  ∃ seg' rest,
    vm_page_seg_free seg cpu page 0 = Ret seg'
    ∧ seg_inv seg' held
    ∧ page_type <$> pages seg' !! page = Some VM_PT_FREE
    ∧ cpu_pools seg' !! cpu
      = Some (CpuPool (pool_size cpu_pool) (pool_transfer_size cpu_pool)
                (Z.of_nat (List.length rest) + 1) (page :: rest))
    ∧ (pool_nr_pages cpu_pool < pool_size cpu_pool →
       rest = pool_pages cpu_pool
       ∧ nr_free_pages seg' = nr_free_pages seg
       ∧ free_lists seg' = free_lists seg)
    ∧ (pool_nr_pages cpu_pool = pool_size cpu_pool →
       Z.of_nat (List.length rest)
       = pool_size cpu_pool - pool_transfer_size cpu_pool
       ∧ nr_free_pages seg'
         = nr_free_pages seg + pool_transfer_size cpu_pool).
Proof.
  intros Hinv Hpool Hpg Hty.
  destruct (seg_free_pool seg held cpu page pg cpu_pool Hinv Hpool Hpg Hty)
    as (seg' & rest & Hcode & Hinv' & (pg' & Hpg' & Hty') & Hrest).
  exists seg', rest. split_and!; try done; try apply Hrest.
  by rewrite Hpg', <- Hty'.
Qed.

Lemma free_order0_goes_to_pool_witness :
  ∃ seg' rest,
    vm_page_seg_free example_seg 0 0 0 = Ret seg'
    ∧ seg_inv seg' []
    ∧ page_type <$> pages seg' !! 0%nat = Some VM_PT_FREE
    ∧ cpu_pools seg' !! 0%nat
      = Some (CpuPool 1 1 (Z.of_nat (List.length rest) + 1) (0%nat :: rest))
    ∧ (0 < 1 →
       rest = []
       ∧ nr_free_pages seg' = nr_free_pages example_seg
       ∧ free_lists seg' = free_lists example_seg)
    ∧ (0 = 1 →
       Z.of_nat (List.length rest) = 1 - 1
       ∧ nr_free_pages seg' = nr_free_pages example_seg + 1).
Proof.
  apply (free_order0_goes_to_pool example_seg [] 0 0
           (Page VM_PT_RESERVED 0 VM_PAGE_ORDER_UNLISTED 0x10000)
           (CpuPool 1 1 0 [])).
  - exact example_seg_inv.
  - reflexivity.
  - reflexivity.
  - by vm_compute.
Defined.

(** X2: the pools are stacks.  A page freed at order 0 is the page that
    the next allocation of order 0 on the same processor returns, with the
    type asked for; and if the pool was not full at the time of the free,
    the pool, the free lists and the counter of free pages are then as
    they were before the free. *)
Theorem free_then_alloc_same_page (seg : vm_page_seg) (held : list nat)
    (cpu page : nat) (pg : vm_page) (cpu_pool : vm_page_cpu_pool)
    (type : Z) :
  seg_inv seg (page :: held) →
  cpu_pools seg !! cpu = Some cpu_pool →
  pages seg !! page = Some pg →
  page_type pg ≠ VM_PT_FREE →
  ∃ seg1 seg2,
    vm_page_seg_free seg cpu page 0 = Ret seg1
    ∧ vm_page_seg_alloc seg1 cpu 0 type = Ret (Some page, seg2)
    ∧ seg_inv seg2 (page :: held)
    ∧ page_type <$> pages seg2 !! page = Some type
    ∧ (pool_nr_pages cpu_pool < pool_size cpu_pool →
       cpu_pools seg2 !! cpu = Some cpu_pool
       ∧ free_lists seg2 = free_lists seg
       ∧ nr_free_pages seg2 = nr_free_pages seg).
Proof.
  intros Hinv Hpool Hpg Hty.
  destruct (seg_free_pool seg held cpu page pg cpu_pool Hinv Hpool Hpg Hty)
    as (seg1 & rest & Hcode1 & Hinv1 & _ & Hpool1 & Hnotfull & _).
  destruct (seg_alloc_pool_nonempty seg1 held cpu _ type page rest Hinv1
              Hpool1 eq_refl)
    as (seg2 & Hcode2 & Hall & Hpool2 & Hnr2 & Hfl2).
  exists seg1, seg2. destruct Hall as (Hinv2 & _ & Hty2 & _).
  split_and!; try done.
  - apply Hty2. change (block_pages 0 page) with [page].
    by apply list_elem_of_singleton.
  - intros Hlt. destruct (Hnotfull Hlt) as (-> & Hnr1 & Hfl1).
    destruct Hinv as [Hwf _].
    pose proof (Forall_lookup_1 _ _ _ _ (wf_pools _ _ Hwf) Hpool)
      as (_ & _ & _ & Hnr & _).
    split_and!; try congruence.
    rewrite Hpool2. simpl. f_equal. destruct cpu_pool; simpl in *.
    f_equal. lia.
Qed.

Lemma free_then_alloc_same_page_witness :
  ∃ seg1 seg2,
    vm_page_seg_free example_seg 0 0 0 = Ret seg1
    ∧ vm_page_seg_alloc seg1 0 0 VM_PT_KERNEL = Ret (Some 0%nat, seg2)
    ∧ seg_inv seg2 [0%nat]
    ∧ page_type <$> pages seg2 !! 0%nat = Some VM_PT_KERNEL
    ∧ (0 < 1 →
       cpu_pools seg2 !! 0%nat = Some (CpuPool 1 1 0 [])
       ∧ free_lists seg2 = free_lists example_seg
       ∧ nr_free_pages seg2 = nr_free_pages example_seg).
Proof.
  apply (free_then_alloc_same_page example_seg [] 0 0
           (Page VM_PT_RESERVED 0 VM_PAGE_ORDER_UNLISTED 0x10000)
           (CpuPool 1 1 0 []) VM_PT_KERNEL).
  - exact example_seg_inv.
  - reflexivity.
  - reflexivity.
  - by vm_compute.
Defined.

(** X3: a block of an order from 1 to 10 that [vm_page_seg_alloc] has
    returned can be given back with [vm_page_seg_free] at that order, and
    the segment then has the free pages it had before: the same counter,
    the same pages in its free blocks, the same pools.  An allocation that
    fails leaves the segment as it was. *)
Theorem alloc_then_free_restores (seg : vm_page_seg) (held : list nat)
    (cpu order : nat) (type : Z) :
  seg_inv seg held →
  (0 < order < VM_PAGE_NR_FREE_LISTS)%nat →
  type ≠ VM_PT_FREE →
  ∃ res seg1,
    vm_page_seg_alloc seg cpu order type = Ret (res, seg1)
    ∧ (res = None → seg1 = seg)
    ∧ ∀ page, res = Some page →
        ∃ seg2,
          vm_page_seg_free seg1 cpu page order = Ret seg2
          ∧ seg_inv seg2 held
          ∧ nr_free_pages seg2 = nr_free_pages seg
          ∧ covered seg2 ≡ₚ covered seg
          ∧ cpu_pools seg2 = cpu_pools seg.
Proof.
  intros Hinv Hord Hty.
  pose proof (seg_alloc_buddy seg held cpu order type Hinv Hord) as Halloc.
  destruct (first_fit seg order) as [[i page] |].
  - destruct Halloc as (seg1 & Hcode1 & Hall & Hp1 & Hnr1 & Hcov1).
    exists (Some page), seg1. split_and!; try done.
    intros page' [= <-].
    destruct Hall as (Hinv1 & Hal1 & Hty1 & _).
    destruct (pages seg1 !! page) as [pg1 |] eqn:Hpg1.
    2: { specialize (Hty1 page (block_pages_head _ _)).
         rewrite Hpg1 in Hty1. done. }
    destruct (seg_free_buddy seg1 held cpu page order pg1 Hinv1 Hal1 Hord
                Hpg1)
      as (seg2 & Hcode2 & Hinv2 & _ & Hp2 & Hnr2 & Hcov2).
    { specialize (Hty1 page (block_pages_head _ _)).
      rewrite Hpg1 in Hty1. simpl in Hty1. congruence. }
    exists seg2. split_and!; try done; try congruence; [lia |].
    by rewrite Hcov2, Hcov1.
  - exists None, seg. by split_and!.
Qed.

Lemma alloc_then_free_restores_witness :
  ∃ res seg1,
    vm_page_seg_alloc example_seg 0 1 VM_PT_KERNEL = Ret (res, seg1)
    ∧ (res = None → seg1 = example_seg)
    ∧ ∀ page, res = Some page →
        ∃ seg2,
          vm_page_seg_free seg1 0 page 1 = Ret seg2
          ∧ seg_inv seg2 [0%nat]
          ∧ nr_free_pages seg2 = nr_free_pages example_seg
          ∧ covered seg2 ≡ₚ covered example_seg
          ∧ cpu_pools seg2 = cpu_pools example_seg.
Proof.
  apply (alloc_then_free_restores example_seg [0%nat] 0 1 VM_PT_KERNEL).
  - exact example_seg_inv.
  - unfold VM_PAGE_NR_FREE_LISTS. lia.
  - by vm_compute.
Defined.

(** X4: a second [vm_page_seg_free] of a block that has just been freed
    stops at the assertion on the type of the page, whatever the order and
    the processor of the second call. *)
Theorem double_free_asserts (seg : vm_page_seg) (held : list nat)
    (cpu page order : nat) (pg : vm_page) :
  seg_inv seg (block_pages order page ++ held) →
  block_aligned seg order page →
  (order < VM_PAGE_NR_FREE_LISTS)%nat →
  (cpu < List.length (cpu_pools seg))%nat →
  pages seg !! page = Some pg →
  page_type pg ≠ VM_PT_FREE →
  ∃ seg',
    vm_page_seg_free seg cpu page order = Ret seg'
    ∧ ∀ cpu' order', vm_page_seg_free seg' cpu' page order' = Undef.
Proof.
  intros Hinv Hal Hord Hcpu Hpg Hty.
  assert (∃ seg', vm_page_seg_free seg cpu page order = Ret seg'
                  ∧ page_free seg' page) as (seg' & Hcode & pg' & Hpg' & Hty').
  { destruct order as [| order'].
    - destruct (lookup_lt_is_Some_2 _ _ Hcpu) as [cpu_pool Hpool].
      destruct (seg_free_pool seg held cpu page pg cpu_pool Hinv Hpool Hpg
                  Hty)
        as (seg' & rest & Hcode & _ & Hfree & _).
      by exists seg'.
    - destruct (seg_free_buddy seg held cpu page (S order') pg Hinv Hal
                  ltac:(lia) Hpg Hty)
        as (seg' & Hcode & _ & Hfree & _).
      exists seg'. split; [done |].
      rewrite Forall_forall in Hfree. apply Hfree, block_pages_head. }
  exists seg'. split; [done |]. intros cpu' order'.
  unfold vm_page_seg_free. rewrite Hpg'. ret. rewrite Hty'. done.
Qed.

Lemma double_free_asserts_witness :
  ∃ seg',
    vm_page_seg_free example_seg 0 0 0 = Ret seg'
    ∧ ∀ cpu' order', vm_page_seg_free seg' cpu' 0 order' = Undef.
Proof.
  apply (double_free_asserts example_seg [] 0 0 0
           (Page VM_PT_RESERVED 0 VM_PAGE_ORDER_UNLISTED 0x10000)).
  - exact example_seg_inv.
  - reflexivity.
  - unfold VM_PAGE_NR_FREE_LISTS. lia.
  - simpl. lia.
  - reflexivity.
  - by vm_compute.
Defined.

(** ** What the set-up releases *)







(** ** Looking up a descriptor *)

Lemma lookup_pa_loop_spec (segs : list vm_page_seg) (i : nat) (pa : Z) :
  match lookup_pa_loop segs i pa with
  | Some (j, p) =>
      ∃ seg, (i ≤ j)%nat ∧ segs !! (j - i)%nat = Some seg
             ∧ seg_start seg ≤ pa < seg_end seg
             ∧ p = Z.to_nat (vm_page_atop (u64 (pa - seg_start seg)))
             ∧ ∀ k seg', (k < j - i)%nat → segs !! k = Some seg' →
                         ¬ seg_start seg' ≤ pa < seg_end seg'
  | None =>
      ∀ k seg, segs !! k = Some seg → ¬ seg_start seg ≤ pa < seg_end seg
  end.
Proof.
  revert i. induction segs as [| seg rest IH]; intros i; simpl; [done |].
  destruct (Z.geb_spec pa (seg_start seg)) as [Hge | Hlt];
    destruct (Z.ltb_spec pa (seg_end seg)) as [Hlt' | Hge']; simpl.
  1: { exists seg. rewrite Nat.sub_diag. split_and!; try done; lia. }
  all: specialize (IH (S i)).
  all: destruct (lookup_pa_loop rest (S i) pa) as [[j p] |].
  all: try (destruct IH as (seg0 & Hj & Hseg0 & Hin & Hp & Hfirst);
            exists seg0;
            replace (j - i)%nat with (S (j - S i)) by lia;
            split_and!; try done; try lia;
            intros [| k] seg' Hk Hseg'; simpl in Hseg';
            [injection Hseg' as <-; lia | apply (Hfirst k); [lia | done]]).
  all: intros [| k] seg0 Hseg0; simpl in Hseg0;
    [injection Hseg0 as <-; lia | by apply (IH k)].
Qed.

(** X6: [vm_page_lookup_pa] returns [NULL] exactly for the addresses that
    lie in no loaded segment.  Otherwise it returns a descriptor of the
    first loaded segment that contains the address, and that descriptor
    is the one of the page of the address. *)
Theorem lookup_pa_finds_page (ncpus : nat) (st : vm_page_state)
    (helds : list (list nat)) (pa : Z) :
  state_inv ncpus st helds →
  (vm_page_lookup_pa st pa = None
   ↔ ∀ i seg, Z.of_nat i < vm_page_segs_size st →
              vm_page_segs st !! i = Some seg →
              ¬ seg_start seg ≤ pa < seg_end seg)
  ∧ ∀ i p, vm_page_lookup_pa st pa = Some (i, p) →
      ∃ seg pg,
        Z.of_nat i < vm_page_segs_size st
        ∧ vm_page_segs st !! i = Some seg
        ∧ seg_start seg ≤ pa < seg_end seg
        ∧ pages seg !! p = Some pg
        ∧ phys_addr pg ≤ pa < phys_addr pg + PAGE_SIZE
        ∧ ∀ j seg', (j < i)%nat → vm_page_segs st !! j = Some seg' →
                    ¬ seg_start seg' ≤ pa < seg_end seg'.
Proof.
  intros (Hsize & Hlen & Hsegs). unfold vm_page_lookup_pa.
  set (n := Z.to_nat (vm_page_segs_size st)).
  pose proof (lookup_pa_loop_spec (take n (vm_page_segs st)) 0 pa) as Hspec.
  assert (Hlook : ∀ k seg, take n (vm_page_segs st) !! k = Some seg
            ↔ Z.of_nat k < vm_page_segs_size st
              ∧ vm_page_segs st !! k = Some seg).
  { intros k seg. destruct (decide (k < n)%nat).
    - rewrite lookup_take_lt by done. split; [intros; split; [lia | done] |].
      by intros [_ ?].
    - rewrite lookup_take_ge by lia. split; [done | lia]. }
  destruct (lookup_pa_loop _ 0 pa) as [[j p] |].
  - split.
    + split; [done |]. intros Hnone. exfalso.
      destruct Hspec as (seg & _ & Hseg & Hin & _).
      rewrite Nat.sub_0_r in Hseg. apply Hlook in Hseg as [Hj Hseg].
      by apply (Hnone j seg).
    + intros i p' [= <- <-].
      destruct Hspec as (seg & _ & Hseg & Hin & Hp & Hfirst).
      rewrite Nat.sub_0_r in *. apply Hlook in Hseg as [Hj Hseg].
      destruct (lookup_lt_is_Some_2 helds j ltac:(lia)) as [held Hheld].
      destruct (Hsegs _ _ Hheld) as (seg0 & Hseg0 & [Hwf _] & _).
      assert (seg0 = seg) as -> by congruence.
      destruct (wf_start _ _ Hwf) as [Hs0 Hsa].
      destruct (wf_end _ _ Hwf) as [He He64].
      unfold page_pa, PAGE_SIZE in *.
      assert (Hp' : Z.of_nat p = (pa - seg_start seg) / 4096).
      { rewrite Hp, u64_small by lia.
        rewrite vm_page_atop_div, Z2Nat.id; [done |].
        apply Z.div_pos; lia. }
      pose proof (Z.div_mod (pa - seg_start seg) 4096 ltac:(lia)) as Hdm.
      pose proof (Z.mod_pos_bound (pa - seg_start seg) 4096 ltac:(lia)).
      assert (Hlt : (p < List.length (pages seg))%nat) by nia.
      destruct (lookup_lt_is_Some_2 _ _ Hlt) as [pg Hpg].
      exists seg, pg. split_and!; try done; try lia.
      * rewrite (wf_addr _ _ Hwf _ _ Hpg). unfold page_pa, PAGE_SIZE. lia.
      * rewrite (wf_addr _ _ Hwf _ _ Hpg). unfold page_pa, PAGE_SIZE. lia.
      * intros k seg' Hk Hseg'. apply (Hfirst k seg' Hk).
        apply Hlook. split; [lia | done].
  - split; [| done]. split; [| done]. intros _ i seg Hi Hseg.
    apply (Hspec i seg). apply Hlook. by split.
Qed.

Lemma lookup_pa_finds_page_witness :
  (vm_page_lookup_pa example_state 0x12345 = None
   ↔ ∀ i seg, Z.of_nat i < vm_page_segs_size example_state →
              vm_page_segs example_state !! i = Some seg →
              ¬ seg_start seg ≤ 0x12345 < seg_end seg)
  ∧ ∀ i p, vm_page_lookup_pa example_state 0x12345 = Some (i, p) →
      ∃ seg pg,
        Z.of_nat i < vm_page_segs_size example_state
        ∧ vm_page_segs example_state !! i = Some seg
        ∧ seg_start seg ≤ 0x12345 < seg_end seg
        ∧ pages seg !! p = Some pg
        ∧ phys_addr pg ≤ 0x12345 < phys_addr pg + PAGE_SIZE
        ∧ ∀ j seg', (j < i)%nat →
                    vm_page_segs example_state !! j = Some seg' →
                    ¬ seg_start seg' ≤ 0x12345 < seg_end seg'.
Proof.
  apply (lookup_pa_finds_page 1 example_state [[0%nat]] 0x12345).
  exact example_state_inv.
Defined.

(** X7: in a table of segments with disjoint ranges, looking up the
    physical address of a descriptor of a loaded segment gives that
    descriptor back. *)
Theorem lookup_pa_round_trip (ncpus : nat) (st : vm_page_state)
    (helds : list (list nat)) (i k : nat) (seg : vm_page_seg)
    (pg : vm_page) :
  state_inv ncpus st helds →
  segs_disjoint st →
  Z.of_nat i < vm_page_segs_size st →
  vm_page_segs st !! i = Some seg →
  pages seg !! k = Some pg →
  vm_page_lookup_pa st (phys_addr pg) = Some (i, k).
Proof.
  intros Hinv Hdis Hi Hseg Hpg. pose proof Hinv as (Hsize & Hlen & Hsegs).
  destruct (lookup_lt_is_Some_2 helds i ltac:(lia)) as [held Hheld].
  destruct (Hsegs _ _ Hheld) as (seg0 & Hseg0 & [Hwf _] & _).
  assert (seg0 = seg) as -> by congruence.
  destruct (wf_start _ _ Hwf) as [Hs0 Hsa].
  destruct (wf_end _ _ Hwf) as [He He64].
  pose proof (lookup_lt_Some _ _ _ Hpg) as Hk.
  assert (Hin : seg_start seg ≤ phys_addr pg < seg_end seg).
  { rewrite (wf_addr _ _ Hwf _ _ Hpg), He. unfold page_pa, PAGE_SIZE. lia. }
  unfold vm_page_lookup_pa.
  set (n := Z.to_nat (vm_page_segs_size st)).
  assert (Hn : (i < n)%nat) by (unfold n; lia).
  pose proof (lookup_pa_loop_spec (take n (vm_page_segs st)) 0 (phys_addr pg))
    as Hspec.
  destruct (lookup_pa_loop _ 0 (phys_addr pg)) as [[j p] |].
  - destruct Hspec as (seg' & _ & Hseg' & Hin' & Hp & Hfirst).
    rewrite Nat.sub_0_r in *.
    assert (Hj : (j < n)%nat).
    { apply lookup_lt_Some in Hseg'. rewrite length_take in Hseg'. lia. }
    rewrite lookup_take_lt in Hseg' by done.
    assert (j = i) as ->.
    { destruct (Nat.lt_trichotomy j i) as [Hlt | [-> | Hgt]]; [| done |].
      - exfalso. destruct (Hdis j i seg' seg Hlt Hi Hseg' Hseg); lia.
      - exfalso. apply (Hfirst i seg Hgt); [| done].
        rewrite lookup_take_lt by done. done. }
    assert (seg' = seg) as -> by congruence.
    do 2 f_equal. rewrite Hp, (wf_addr _ _ Hwf _ _ Hpg).
    unfold page_pa, PAGE_SIZE.
    replace (seg_start seg + Z.of_nat k * 4096 - seg_start seg)
      with (Z.of_nat k * 4096) by lia.
    pose proof (wf_nr_pages _ _ Hwf).
    rewrite u64_small by lia.
    rewrite vm_page_atop_div, Z.div_mul by lia. apply Nat2Z.id.
  - exfalso. apply (Hspec i seg); [| done].
    rewrite lookup_take_lt by done. done.
Qed.

Lemma lookup_pa_round_trip_witness :
  vm_page_lookup_pa example_state 0x13000 = Some (0%nat, 3%nat).
Proof.
  apply (lookup_pa_round_trip 1 example_state [[0%nat]] 0 3 example_seg
           (Page VM_PT_FREE 0 VM_PAGE_ORDER_UNLISTED 0x13000)).
  - exact example_state_inv.
  - intros i j seg seg' Hij Hj. simpl in Hj. lia.
  - simpl. lia.
  - reflexivity.
  - reflexivity.
Defined.

(** ** The boot segment table *)

Lemma vm_page_aligned_mod (addr : Z) :
  vm_page_aligned addr = true ↔ addr mod PAGE_SIZE = 0.
Proof.
  unfold vm_page_aligned, PAGE_SIZE.
  change (4096 - 1) with (Z.ones 12). rewrite Z.land_ones by lia.
  change (2 ^ 12) with 4096. apply Z.eqb_eq.
Qed.

Lemma check_boot_segs_loop_spec (segs : list vm_page_boot_seg) (i size : Z) :
  (check_boot_segs_loop segs i size = Ret ()
   ↔ ∀ k seg, segs !! k = Some seg →
              (boot_end seg ≠ 0 ↔ i + Z.of_nat k < size))
  ∧ (check_boot_segs_loop segs i size = Ret ()
     ∨ check_boot_segs_loop segs i size
       = Panic "vm_page: invalid boot segment table").
Proof.
  revert i. induction segs as [| seg rest IH]; intros i.
  { simpl. split; [| by left]. split; [| done]. by intros _ k seg. }
  cbn [check_boot_segs_loop]. unfold vm_page_boot_seg_loaded.
  assert (Hhead : Bool.eqb (negb (boot_end seg =? 0)) (i <? size) = true
                  ↔ (boot_end seg ≠ 0 ↔ i < size)).
  { destruct (Z.eqb_spec (boot_end seg) 0), (Z.ltb_spec i size); simpl;
      split; try done; try lia; intros; exfalso; lia. }
  destruct (Bool.eqb _ _) eqn:Heqb.
  - destruct (IH (i + 1)) as [IH1 IH2]. split; [| done].
    rewrite IH1. apply proj1 in Hhead. specialize (Hhead eq_refl). split.
    + intros Hr [| k] seg0 Hk.
      * injection Hk as <-. by rewrite Z.add_0_r.
      * rewrite (Hr k seg0 Hk). lia.
    + intros Hall k seg0 Hk. rewrite (Hall (S k) seg0 Hk). lia.
  - split; [| by right]. split; [done |]. intros Hall.
    specialize (Hall 0%nat seg eq_refl). rewrite Z.add_0_r in Hall.
    apply Hhead in Hall. congruence.
Qed.

(** X8: [vm_page_check_boot_segs] panics when no segment is loaded.
    Otherwise it returns exactly when the loaded entries of the boot
    table, those with a non-zero end, are the entries below the number of
    loaded segments; any other table makes it panic. *)
Theorem check_boot_segs_cases (st : vm_page_state) :
  (vm_page_segs_size st = 0 →
   vm_page_check_boot_segs st = Panic "vm_page: no physical memory loaded")
  ∧ (vm_page_segs_size st ≠ 0 →
     (vm_page_check_boot_segs st = Ret ()
      ↔ ∀ i seg, vm_page_boot_segs st !! i = Some seg →
                 (boot_end seg ≠ 0 ↔ Z.of_nat i < vm_page_segs_size st))
     ∧ (vm_page_check_boot_segs st = Ret ()
        ∨ vm_page_check_boot_segs st
          = Panic "vm_page: invalid boot segment table")).
Proof.
  unfold vm_page_check_boot_segs. split.
  - by intros ->.
  - intros Hne. destruct (Z.eqb_spec (vm_page_segs_size st) 0); [done |].
    destruct (check_boot_segs_loop_spec (vm_page_boot_segs st) 0
                (vm_page_segs_size st)) as [H1 H2].
    split; [| done]. rewrite H1.
    split; intros Hall i seg Hi; specialize (Hall i seg Hi);
      by rewrite ?Z.add_0_l in *.
Qed.

(** X9: [vm_page_load] with arguments that pass its assertions, on a boot
    table that is valid, returns with the segment recorded and counted;
    the table is valid again, so that [vm_page_check_boot_segs] returns,
    exactly when the segment was loaded at the next free index. *)
Theorem load_next_index (st : vm_page_state) (seg_index : nat)
    (start end_ avail_start avail_end : Z) :
  (∀ i seg, vm_page_boot_segs st !! i = Some seg →
            (boot_end seg ≠ 0 ↔ Z.of_nat i < vm_page_segs_size st)) →
  0 ≤ vm_page_segs_size st →
  (seg_index < List.length (vm_page_boot_segs st))%nat →
  vm_page_segs_size st < Z.of_nat (List.length (vm_page_boot_segs st)) →
  Z.of_nat (List.length (vm_page_boot_segs st)) < 2 ^ 32 →
  start mod PAGE_SIZE = 0 → end_ mod PAGE_SIZE = 0 →
  avail_start mod PAGE_SIZE = 0 → avail_end mod PAGE_SIZE = 0 →
  0 ≤ start < end_ → start ≤ avail_start → avail_end ≤ end_ →
  ∃ st',
    vm_page_load st (Z.of_nat seg_index) start end_ avail_start avail_end
    = Ret st'
    ∧ vm_page_boot_segs st' !! seg_index
      = Some (BootSeg start end_ avail_start avail_end)
    ∧ (∀ i, i ≠ seg_index →
            vm_page_boot_segs st' !! i = vm_page_boot_segs st !! i)
    ∧ vm_page_segs_size st' = vm_page_segs_size st + 1
    ∧ vm_page_segs st' = vm_page_segs st
    ∧ (vm_page_check_boot_segs st' = Ret ()
       ↔ Z.of_nat seg_index = vm_page_segs_size st)
    ∧ (Z.of_nat seg_index ≠ vm_page_segs_size st →
       vm_page_check_boot_segs st'
       = Panic "vm_page: invalid boot segment table").
Proof.
  intros Hvalid Hsize0 Hidx Hroom H32 Hsa Hea Hasa Haea Hlt Hle1 Hle2.
  unfold vm_page_load. cbv zeta.
  destruct (Z.ltb_spec (Z.of_nat seg_index)
              (Z.of_nat (List.length (vm_page_boot_segs st)))); [| lia].
  ret. rewrite !(proj2 (vm_page_aligned_mod _)) by done. ret.
  destruct (Z.ltb_spec start end_); [| lia]. ret.
  destruct (Z.leb_spec start avail_start); [| lia]. ret.
  destruct (Z.leb_spec avail_end end_); [| lia]. ret.
  destruct (Z.ltb_spec (vm_page_segs_size st)
              (Z.of_nat (List.length (vm_page_boot_segs st)))); [| lia].
  ret. rewrite Nat2Z.id, u32_small by lia.
  eexists. split; [done |]. cbn [vm_page_boot_segs vm_page_segs_size
                                 vm_page_segs].
  assert (Hcases :
    (∀ i seg,
       <[seg_index := BootSeg start end_ avail_start avail_end]>
         (vm_page_boot_segs st) !! i = Some seg →
       (boot_end seg ≠ 0 ↔ Z.of_nat i < vm_page_segs_size st + 1))
    ↔ Z.of_nat seg_index = vm_page_segs_size st).
  { split.
    - intros Hall.
      destruct (Z.lt_trichotomy (Z.of_nat seg_index) (vm_page_segs_size st))
        as [Hl | [He | Hg]]; [| done |]; exfalso.
      + (* an entry below was overwritten: the entry at [size] is empty *)
        destruct (lookup_lt_is_Some_2 (vm_page_boot_segs st)
                    (Z.to_nat (vm_page_segs_size st)) ltac:(lia)) as [s Hs].
        specialize (Hall (Z.to_nat (vm_page_segs_size st)) s).
        rewrite list_lookup_insert_ne in Hall by lia.
        specialize (Hall Hs). specialize (Hvalid _ _ Hs). lia.
      + (* a hole *)
        specialize (Hall seg_index _ (list_lookup_insert_eq _ _ _ Hidx)).
        simpl in Hall. lia.
    - intros Heq i seg Hi. destruct (decide (i = seg_index)) as [-> | Hne].
      + rewrite list_lookup_insert_eq in Hi by done. injection Hi as <-.
        simpl. lia.
      + rewrite list_lookup_insert_ne in Hi by done.
        rewrite (Hvalid _ _ Hi). lia. }
  split_and!; try done.
  - by apply list_lookup_insert_eq.
  - intros i Hne. by rewrite list_lookup_insert_ne.
  - rewrite <- Hcases. unfold vm_page_check_boot_segs.
    cbn [vm_page_boot_segs vm_page_segs_size].
    destruct (Z.eqb_spec (vm_page_segs_size st + 1) 0); [lia |].
    rewrite (proj1 (check_boot_segs_loop_spec _ _ _)).
    split; intros Hall i seg Hi; specialize (Hall i seg Hi);
      by rewrite ?Z.add_0_l in *.
  - intros Hne. unfold vm_page_check_boot_segs.
    cbn [vm_page_boot_segs vm_page_segs_size].
    destruct (Z.eqb_spec (vm_page_segs_size st + 1) 0); [lia |].
    destruct (check_boot_segs_loop_spec
                (<[seg_index := BootSeg start end_ avail_start avail_end]>
                   (vm_page_boot_segs st)) 0 (vm_page_segs_size st + 1))
      as [Hc1 [Hc2 | Hc2]]; [| done].
    exfalso. apply Hne, Hcases. pose proof (proj1 Hc1 Hc2) as Hc3.
    intros i seg Hi. specialize (Hc3 i seg Hi). by rewrite Z.add_0_l in Hc3.
Qed.

Lemma load_next_index_witness :
  ∃ st',
    vm_page_load (VmState false [] [BootSeg 0 0 0 0; BootSeg 0 0 0 0] 0)
      (Z.of_nat 0) 0x10000 0x18000 0x11000 0x18000
    = Ret st'
    ∧ vm_page_boot_segs st' !! 0%nat
      = Some (BootSeg 0x10000 0x18000 0x11000 0x18000)
    ∧ (∀ i, i ≠ 0%nat →
            vm_page_boot_segs st' !! i
            = [BootSeg 0 0 0 0; BootSeg 0 0 0 0] !! i)
    ∧ vm_page_segs_size st' = 0 + 1
    ∧ vm_page_segs st' = []
    ∧ (vm_page_check_boot_segs st' = Ret () ↔ Z.of_nat 0 = 0)
    ∧ (Z.of_nat 0 ≠ 0 →
       vm_page_check_boot_segs st'
       = Panic "vm_page: invalid boot segment table").
Proof.
  apply (load_next_index
           (VmState false [] [BootSeg 0 0 0 0; BootSeg 0 0 0 0] 0) 0
           0x10000 0x18000 0x11000 0x18000); try (simpl; lia);
    try reflexivity.
  intros [| [| i]] seg Hi; simpl in Hi; try done;
    injection Hi as <-; simpl; lia.
Defined.

Lemma check_boot_segs_cases_witness :
  vm_page_check_boot_segs example_two_boot_state = Ret ().
Proof.
  destruct (check_boot_segs_cases example_two_boot_state) as [_ Hc].
  destruct (Hc ltac:(simpl; lia)) as [Hiff _]. apply Hiff.
  intros [| [| i]] seg Hi; simpl in Hi; try done;
    injection Hi as <-; simpl; lia.
Defined.

(** ** Rounding to pages *)

Lemma land_u32_mask (a m : Z) : 0 ≤ a < 2 ^ 32 → Z.land a (u32 m) = Z.land a m.
Proof.
  intros Ha. unfold u32. rewrite <- Z.land_ones by lia.
  rewrite (Z.land_comm m), Z.land_assoc, Z.land_ones by lia.
  by rewrite Z.mod_small.
Qed.

Lemma mod_mod_page (x w : Z) :
  0 ≤ w → (x mod (2 ^ (12 + w))) mod 4096 = x mod 4096.
Proof.
  intros Hw. rewrite Z.pow_add_r by lia. change (2 ^ 12) with 4096.
  pose proof (pow2_pos w Hw).
  rewrite Z.rem_mul_r by lia.
  rewrite (Z.mul_comm 4096 (_ mod _)), Z_mod_plus_full.
  apply Z.mod_mod. lia.
Qed.

Lemma vm_page_trunc_spec (a : Z) :
  0 ≤ a < 2 ^ 64 → vm_page_trunc a = a - a mod PAGE_SIZE.
Proof.
  intros Ha. unfold vm_page_trunc, PAGE_SIZE.
  rewrite land_u64_mask by done. apply (land_neg_pow2 a 12). lia.
Qed.

Lemma round_word (w a : Z) :
  0 ≤ w → 0 ≤ a → a + (- a) mod 4096 < 2 ^ (12 + w) →
  (- Z.land ((- a) mod 2 ^ (12 + w)) (- 4096)) mod 2 ^ (12 + w)
  = a + (- a) mod 4096.
Proof.
  intros Hw Ha Hlt.
  pose proof (pow2_pos (12 + w) ltac:(lia)) as Hpos.
  rewrite (land_neg_pow2 _ 12) by lia. change (2 ^ 12) with 4096.
  rewrite mod_mod_page by done.
  pose proof (Z.mod_pos_bound (- a) 4096 ltac:(lia)).
  pose proof (Z.div_mod (- a) (2 ^ (12 + w)) ltac:(lia)) as Hdm.
  replace (- ((- a) mod 2 ^ (12 + w) - (- a) mod 4096))
    with (a + (- a) mod 4096 + (- a) / 2 ^ (12 + w) * 2 ^ (12 + w)) by lia.
  rewrite Z_mod_plus_full. apply Z.mod_small. lia.
Qed.

Lemma vm_page_round_spec (a : Z) :
  0 ≤ a ≤ 2 ^ 64 - PAGE_SIZE → vm_page_round a = a + (- a) mod PAGE_SIZE.
Proof.
  unfold PAGE_SIZE. intros Ha. unfold vm_page_round, PAGE_SIZE.
  pose proof (Z.mod_pos_bound (- a) 4096 ltac:(lia)).
  rewrite land_u64_mask by (unfold u64; apply Z.mod_pos_bound; lia).
  unfold u64. change 64 with (12 + 52). apply round_word; lia.
Qed.

Lemma vm_page_round_ul_spec (a : Z) :
  0 ≤ a ≤ 2 ^ 32 - PAGE_SIZE → vm_page_round_ul a = a + (- a) mod PAGE_SIZE.
Proof.
  unfold PAGE_SIZE. intros Ha. unfold vm_page_round_ul, PAGE_SIZE.
  pose proof (Z.mod_pos_bound (- a) 4096 ltac:(lia)).
  rewrite land_u32_mask by (unfold u32; apply Z.mod_pos_bound; lia).
  unfold u32. change 32 with (12 + 20). apply round_word; lia.
Qed.

(** Rounding up gives the least multiple of the page size that is not
    below the address. *)
Lemma round_up_props (a : Z) :
  0 ≤ a →
  let r := a + (- a) mod PAGE_SIZE in
  a ≤ r < a + PAGE_SIZE ∧ r mod PAGE_SIZE = 0
  ∧ ∀ b, a ≤ b → b mod PAGE_SIZE = 0 → r ≤ b.
Proof.
  intros Ha r. unfold PAGE_SIZE in *.
  pose proof (Z.mod_pos_bound (- a) 4096 ltac:(lia)).
  assert (Hr : r mod 4096 = 0).
  { unfold r. rewrite Zplus_mod_idemp_r. by replace (a + - a) with 0 by lia. }
  split_and!; try done; try lia.
  intros b Hab Hb.
  pose proof (Z.div_mod r 4096 ltac:(lia)).
  pose proof (Z.div_mod b 4096 ltac:(lia)).
  assert (r / 4096 ≤ b / 4096 ∨ b / 4096 < r / 4096) by lia.
  lia.
Qed.

(** ** Boot-time allocation from the segments *)

Lemma set_vm_page_boot_segs_id (st : vm_page_state) :
  set_vm_page_boot_segs st (vm_page_boot_segs st) = st.
Proof. by destruct st. Qed.

(** The walk of [vm_page_bootalloc] from the segment [i] down. *)
Lemma bootalloc_loop_spec (fuel : nat) (st : vm_page_state) (i size : Z) :
  -1 ≤ i < vm_page_segs_size st → vm_page_segs_size st < 2 ^ 32 →
  (Z.to_nat (i + 1) < fuel)%nat →
  (∀ k, 0 ≤ k ≤ i → is_Some (vm_page_boot_segs st !! Z.to_nat k)) →
  (∃ j seg,
     0 ≤ j ≤ i
     ∧ vm_page_boot_segs st !! Z.to_nat j = Some seg
     ∧ size ≤ vm_page_boot_seg_avail_size seg
     ∧ (∀ k seg', j < k ≤ i →
          vm_page_boot_segs st !! Z.to_nat k = Some seg' →
          vm_page_boot_seg_avail_size seg' < size)
     ∧ bootalloc_loop fuel st (u32 i) size
       = Ret (boot_avail_start seg,
              set_vm_page_boot_segs st
                (<[Z.to_nat j :=
                     BootSeg (boot_start seg) (boot_end seg)
                       (u64 (boot_avail_start seg + vm_page_round_ul size))
                       (boot_avail_end seg)]> (vm_page_boot_segs st))))
  ∨ ((∀ k seg', 0 ≤ k ≤ i →
        vm_page_boot_segs st !! Z.to_nat k = Some seg' →
        vm_page_boot_seg_avail_size seg' < size)
     ∧ bootalloc_loop fuel st (u32 i) size
       = Panic "vm_page: no physical memory available").
Proof.
  revert i. induction fuel as [| fuel IH]; intros i Hi H32 Hfuel Hsegs;
    [lia |].
  cbn [bootalloc_loop].
  destruct (decide (i = -1)) as [-> | Hne].
  - right. change (u32 (-1)) with (2 ^ 32 - 1).
    destruct (Z.ltb_spec (2 ^ 32 - 1) (vm_page_segs_size st)); [lia |].
    split; [| done]. intros k seg' Hk. lia.
  - rewrite (u32_small i) by lia.
    destruct (Z.ltb_spec i (vm_page_segs_size st)) as [_ |]; [| lia].
    destruct (Hsegs i ltac:(lia)) as [seg Hseg]. rewrite Hseg. ret.
    destruct (Z.leb_spec size (vm_page_boot_seg_avail_size seg)) as [Hle | Hgt].
    + left. exists i, seg. split_and!; try done; try lia.
    + assert (Hsegs' : ∀ k, 0 ≤ k ≤ i - 1 →
                is_Some (vm_page_boot_segs st !! Z.to_nat k)).
      { intros k Hk. apply Hsegs. lia. }
      destruct (IH (i - 1) ltac:(lia) H32 ltac:(lia) Hsegs')
        as [(j & seg0 & Hj & Hseg0 & Hle0 & Hab & Hcode) | [Hnone Hcode]].
      * left. exists j, seg0. split_and!; try done; try lia.
        intros k seg' Hk Hseg'.
        destruct (decide (k = i)) as [-> | Hki]; [| apply (Hab k); [lia | done]].
        assert (seg' = seg) as -> by congruence. done.
      * right. split; [| done]. intros k seg' Hk Hseg'.
        destruct (decide (k = i)) as [-> | Hki]; [| apply (Hnone k); [lia | done]].
        assert (seg' = seg) as -> by congruence. done.
Qed.

(** X10: [vm_page_bootalloc] on a valid boot table, for a size that fits
    32 bits after rounding.  The walk starts at the DIRECTMAP segment, or
    at the last loaded segment if that comes first, and goes down to the
    first segment whose available range has room for [size] bytes.  The
    address returned is the start of that available range, which then
    starts [size] rounded up to pages further and stays inside its former
    bounds; the table is valid again.  If no segment of the walk has room,
    the function panics. *)
Theorem bootalloc_takes_from_avail
    (VM_PAGE_SEG_DMA VM_PAGE_SEG_DMA32 VM_PAGE_SEG_DIRECTMAP
       VM_PAGE_SEG_HIGHMEM : Z)
    (st : vm_page_state) (size : Z) :
  boot_ok st →
  0 ≤ VM_PAGE_SEG_DIRECTMAP < 2 ^ 32 →
  0 ≤ size ≤ 2 ^ 32 - PAGE_SIZE →
  let i0 := Z.min (vm_page_segs_size st - 1) VM_PAGE_SEG_DIRECTMAP in
  let bootalloc :=
    vm_page_bootalloc VM_PAGE_SEG_DMA VM_PAGE_SEG_DMA32
      VM_PAGE_SEG_DIRECTMAP VM_PAGE_SEG_HIGHMEM st size in
  (∃ j seg st',
     (Z.of_nat j ≤ i0)
     ∧ vm_page_boot_segs st !! j = Some seg
     ∧ size ≤ boot_avail_end seg - boot_avail_start seg
     ∧ (∀ k seg', (j < k)%nat → Z.of_nat k ≤ i0 →
          vm_page_boot_segs st !! k = Some seg' →
          boot_avail_end seg' - boot_avail_start seg' < size)
     ∧ bootalloc = Ret (boot_avail_start seg, st')
     ∧ vm_page_boot_segs st'
       = <[j := BootSeg (boot_start seg) (boot_end seg)
                  (boot_avail_start seg + vm_page_round_ul size)
                  (boot_avail_end seg)]> (vm_page_boot_segs st)
     ∧ size ≤ vm_page_round_ul size < size + PAGE_SIZE
     ∧ boot_avail_start seg + vm_page_round_ul size ≤ boot_avail_end seg
     ∧ boot_ok st')
  ∨ ((∀ k seg', Z.of_nat k ≤ i0 →
        vm_page_boot_segs st !! k = Some seg' →
        boot_avail_end seg' - boot_avail_start seg' < size)
     ∧ bootalloc = Panic "vm_page: no physical memory available").
Proof.
  intros Hok Hdm Hsize i0 bootalloc. pose proof Hok as (Hsz & Hlen & Hsegs).
  rewrite Forall_forall in Hsegs.
  assert (Hloaded : ∀ k, 0 ≤ k < vm_page_segs_size st →
            ∃ seg, vm_page_boot_segs st !! Z.to_nat k = Some seg
                   ∧ boot_seg_ok seg).
  { intros k Hk.
    destruct (lookup_lt_is_Some_2 (vm_page_boot_segs st) (Z.to_nat k)
                ltac:(lia)) as [seg Hseg].
    exists seg. split; [done |]. apply Hsegs.
    apply list_elem_of_lookup. exists (Z.to_nat k). unfold boot_loaded.
    rewrite lookup_take_lt by lia. done. }
  assert (Havail : ∀ seg, boot_seg_ok seg →
            vm_page_boot_seg_avail_size seg
            = boot_avail_end seg - boot_avail_start seg).
  { intros seg (?&?&?&?&?&?&?&?&?&?&?).
    unfold vm_page_boot_seg_avail_size. apply u64_small. lia. }
  unfold bootalloc, vm_page_bootalloc.
  rewrite (select_alloc_seg_spec _ _ _ _ st VM_PAGE_SEL_DIRECTMAP
             VM_PAGE_SEG_DIRECTMAP) by done.
  ret. fold i0.
  assert (Hi0 : 0 ≤ i0 < vm_page_segs_size st) by lia.
  assert (Hsome : ∀ k, 0 ≤ k ≤ i0 →
            is_Some (vm_page_boot_segs st !! Z.to_nat k)).
  { intros k Hk. destruct (Hloaded k ltac:(lia)) as (seg & Hseg & _).
    by exists seg. }
  destruct (bootalloc_loop_spec (S (Z.to_nat (vm_page_segs_size st))) st i0
              size ltac:(lia) ltac:(lia) ltac:(lia) Hsome)
    as [(j & seg & Hj & Hseg & Hle & Hab & Hcode) | [Hnone Hcode]];
    rewrite (u32_small i0) in Hcode by lia.
  - left. destruct (Hloaded j ltac:(lia)) as (seg0 & Hseg0 & Hsok).
    assert (seg0 = seg) as -> by congruence.
    rewrite (Havail _ Hsok) in Hle.
    pose proof Hsok as (Hs0 & Hsa & Hea & Hasa & Haea & Hlt & Hle1 & Hle2
                        & Hle3 & H64 & H43).
    rewrite vm_page_round_ul_spec in * by done.
    destruct (round_up_props size ltac:(lia)) as (Hr1 & Hr2 & Hr3).
    cbv zeta in *.
    set (r := size + (- size) mod PAGE_SIZE) in *.
    assert (Hfit : boot_avail_start seg + r ≤ boot_avail_end seg).
    { assert (r ≤ boot_avail_end seg - boot_avail_start seg); [| lia].
      apply Hr3; [lia |]. by rewrite Zminus_mod, Haea, Hasa. }
    rewrite (u64_small (boot_avail_start seg + r)) in Hcode by lia.
    exists (Z.to_nat j), seg,
      (set_vm_page_boot_segs st
         (<[Z.to_nat j :=
              BootSeg (boot_start seg) (boot_end seg)
                (boot_avail_start seg + r) (boot_avail_end seg)]>
            (vm_page_boot_segs st))).
    split_and!; try done; try lia.
    + intros k seg' Hjk Hk Hseg'.
      destruct (Hloaded (Z.of_nat k) ltac:(lia)) as (seg1 & Hseg1 & Hsok1).
      rewrite Nat2Z.id in Hseg1. assert (seg1 = seg') as -> by congruence.
      rewrite <- (Havail _ Hsok1). apply (Hab (Z.of_nat k)); [lia |].
      by rewrite Nat2Z.id.
    + split; [done |]. split; [simpl; by rewrite length_insert |].
      rewrite Forall_forall. intros seg' Hin.
      apply list_elem_of_lookup in Hin as [k Hk]. unfold boot_loaded in Hk.
      simpl in Hk.
      destruct (decide (k < Z.to_nat (vm_page_segs_size st))%nat) as [Hlt' |];
        [| by rewrite lookup_take_ge in Hk by lia].
      rewrite lookup_take_lt in Hk by done.
      destruct (decide (k = Z.to_nat j)) as [-> | Hne].
      * rewrite list_lookup_insert_eq in Hk by by eapply lookup_lt_Some.
        injection Hk as <-. unfold boot_seg_ok. simpl.
        split_and!; try done; try lia.
        rewrite Zplus_mod, Hasa, Hr2. done.
      * rewrite list_lookup_insert_ne in Hk by done.
        apply Hsegs, list_elem_of_lookup. exists k. unfold boot_loaded.
        by rewrite lookup_take_lt.
  - right. split; [| done]. intros k seg' Hk Hseg'.
    destruct (Hloaded (Z.of_nat k) ltac:(lia)) as (seg1 & Hseg1 & Hsok1).
    rewrite Nat2Z.id in Hseg1. assert (seg1 = seg') as -> by congruence.
    rewrite <- (Havail _ Hsok1). apply (Hnone (Z.of_nat k)); [lia |].
    by rewrite Nat2Z.id.
Qed.

Lemma bootalloc_takes_from_avail_witness :
  boot_ok example_two_boot_state
  ∧ ((∃ j seg st',
        Z.of_nat j ≤ Z.min (vm_page_segs_size example_two_boot_state - 1) 2
        ∧ vm_page_boot_segs example_two_boot_state !! j = Some seg
        ∧ 100 ≤ boot_avail_end seg - boot_avail_start seg
        ∧ (∀ k seg', (j < k)%nat →
             Z.of_nat k
             ≤ Z.min (vm_page_segs_size example_two_boot_state - 1) 2 →
             vm_page_boot_segs example_two_boot_state !! k = Some seg' →
             boot_avail_end seg' - boot_avail_start seg' < 100)
        ∧ vm_page_bootalloc 0 1 2 3 example_two_boot_state 100
          = Ret (boot_avail_start seg, st')
        ∧ vm_page_boot_segs st'
          = <[j := BootSeg (boot_start seg) (boot_end seg)
                     (boot_avail_start seg + vm_page_round_ul 100)
                     (boot_avail_end seg)]>
              (vm_page_boot_segs example_two_boot_state)
        ∧ 100 ≤ vm_page_round_ul 100 < 100 + PAGE_SIZE
        ∧ boot_avail_start seg + vm_page_round_ul 100 ≤ boot_avail_end seg
        ∧ boot_ok st')
     ∨ ((∀ k seg',
           Z.of_nat k
           ≤ Z.min (vm_page_segs_size example_two_boot_state - 1) 2 →
           vm_page_boot_segs example_two_boot_state !! k = Some seg' →
           boot_avail_end seg' - boot_avail_start seg' < 100)
        ∧ vm_page_bootalloc 0 1 2 3 example_two_boot_state 100
          = Panic "vm_page: no physical memory available")).
Proof.
  assert (Hok : boot_ok example_two_boot_state).
  { split; [simpl; lia |]. split; [simpl; lia |].
    repeat constructor; simpl; lia. }
  split; [exact Hok |].
  apply (bootalloc_takes_from_avail 0 1 2 3 example_two_boot_state 100 Hok);
    unfold PAGE_SIZE; lia.
Defined.

(** On the example, the walk skips the second segment, which has no
    available page, and takes the page at 0x11000 from the first. *)
Lemma example_bootalloc :
  (r ← vm_page_bootalloc 0 1 2 3 example_two_boot_state 100;
   Ret (r.1, vm_page_boot_segs r.2))
  = Ret (0x11000,
         [BootSeg 0x10000 0x18000 0x12000 0x18000; example_full_boot_seg]).
Proof. by vm_compute. Qed.

(** ** The size of the memory and of the free memory *)








(** On the example, eight pages of memory, seven of them free. *)
Lemma example_mem_free :
  vm_page_mem_size 0 example_state = 8 * PAGE_SIZE
  ∧ vm_page_mem_free 0 example_state = 7.
Proof. split; reflexivity. Qed.

(** ** Giving a reserved page to the buddy system, in detail *)

(** With disjoint segments, the address of a page leads back to the
    page. *)
Lemma lookup_pa_page (ncpus : nat) (st : vm_page_state)
    (helds : list (list nat)) (i k : nat) (seg : vm_page_seg) :
  state_inv ncpus st helds →
  segs_disjoint st →
  Z.of_nat i < vm_page_segs_size st →
  vm_page_segs st !! i = Some seg →
  (k < List.length (pages seg))%nat →
  vm_page_lookup_pa st (page_pa seg k) = Some (i, k).
Proof.
  intros Hinv Hdis Hi Hseg Hk. pose proof Hinv as (Hsize & Hlen & Hsegs).
  destruct (lookup_lt_is_Some_2 helds i ltac:(lia)) as [held Hheld].
  destruct (Hsegs _ _ Hheld) as (seg0 & Hseg0 & [Hwf _] & _).
  assert (seg0 = seg) as -> by congruence.
  destruct (wf_start _ _ Hwf) as [Hs0 Hsa].
  destruct (wf_end _ _ Hwf) as [He He64].
  assert (Hin : seg_start seg ≤ page_pa seg k < seg_end seg).
  { rewrite He. unfold page_pa, PAGE_SIZE. lia. }
  unfold vm_page_lookup_pa.
  set (n := Z.to_nat (vm_page_segs_size st)).
  assert (Hn : (i < n)%nat) by (unfold n; lia).
  pose proof (lookup_pa_loop_spec (take n (vm_page_segs st)) 0 (page_pa seg k))
    as Hspec.
  destruct (lookup_pa_loop _ 0 (page_pa seg k)) as [[j p] |].
  - destruct Hspec as (seg' & _ & Hseg' & Hin' & Hp & Hfirst).
    rewrite Nat.sub_0_r in *.
    assert (Hj : (j < n)%nat).
    { apply lookup_lt_Some in Hseg'. rewrite length_take in Hseg'. lia. }
    rewrite lookup_take_lt in Hseg' by done.
    assert (j = i) as ->.
    { destruct (Nat.lt_trichotomy j i) as [Hlt | [-> | Hgt]]; [| done |].
      - exfalso. destruct (Hdis j i seg' seg Hlt Hi Hseg' Hseg); lia.
      - exfalso. apply (Hfirst i seg Hgt); [| done].
        rewrite lookup_take_lt by done. done. }
    assert (seg' = seg) as -> by congruence.
    do 2 f_equal. rewrite Hp.
    unfold page_pa, PAGE_SIZE.
    replace (seg_start seg + Z.of_nat k * 4096 - seg_start seg)
      with (Z.of_nat k * 4096) by lia.
    pose proof (wf_nr_pages _ _ Hwf).
    rewrite u64_small by lia.
    rewrite vm_page_atop_div, Z.div_mul by lia. apply Nat2Z.id.
  - exfalso. apply (Hspec i seg); [| done].
    rewrite lookup_take_lt by done. done.
Qed.

(** The buddy system writes the order of a descriptor only. *)
Lemma alter_order_lookup (o : Z) (page k : nat) (pgs : list vm_page) :
  (λ pg, (page_type pg, seg_index pg)) <$> alter (page_set_order o) page pgs !! k
  = (λ pg, (page_type pg, seg_index pg)) <$> pgs !! k.
Proof.
  destruct (decide (k = page)) as [-> | Hne].
  - rewrite list_lookup_alter_eq. by destruct (pgs !! page).
  - by rewrite list_lookup_alter_ne.
Qed.

Lemma coalesce_spec_pages (n : nat) (seg : vm_page_seg) (pa : Z) (o k : nat) :
  (λ pg, (page_type pg, seg_index pg))
    <$> pages (coalesce_spec n seg pa o).1.1 !! k
  = (λ pg, (page_type pg, seg_index pg)) <$> pages seg !! k.
Proof.
  revert seg pa o. induction n as [| n IH]; intros seg pa o; [done |].
  cbn [coalesce_spec]. cbv zeta.
  destruct (decide _); [| done].
  destruct (pages seg !! _); [| done].
  destruct (decide _); [| done].
  rewrite IH. unfold unlist. simpl pages. apply alter_order_lookup.
Qed.

Lemma free_spec_pages (seg : vm_page_seg) (page order k : nat) :
  (λ pg, (page_type pg, seg_index pg))
    <$> pages (free_spec seg page order) !! k
  = (λ pg, (page_type pg, seg_index pg)) <$> pages seg !! k.
Proof.
  unfold free_spec.
  pose proof (coalesce_spec_pages (VM_PAGE_NR_FREE_LISTS - 1 - order) seg
                (page_pa seg page) order k) as H.
  destruct (coalesce_spec _ seg _ order) as [[seg' pa] o].
  simpl in H. unfold enlist. simpl pages.
  by rewrite alter_order_lookup.
Qed.

(** The held pages of a segment may be listed in any order. *)
Lemma state_inv_perm (ncpus : nat) (st : vm_page_state)
    (helds : list (list nat)) (i : nat) (held held' : list nat) :
  state_inv ncpus st helds →
  helds !! i = Some held → held ≡ₚ held' →
  state_inv ncpus st (<[i := held']> helds).
Proof.
  intros (Hsize & Hlen & Hsegs) Hheld Hperm.
  split; [done |]. split; [by rewrite length_insert |].
  intros k heldk Hk. destruct (decide (k = i)) as [-> | Hne].
  - rewrite list_lookup_insert_eq in Hk by by eapply lookup_lt_Some.
    injection Hk as <-.
    destruct (Hsegs _ _ Hheld) as (seg & Hseg & [Hwf Hacc] & Hpools).
    exists seg. split; [done |]. split; [| done].
    split; [by eapply seg_wf_perm | done].
  - rewrite list_lookup_insert_ne in Hk by done. by apply Hsegs.
Qed.

(** [vm_page_manage] on a reserved page that is held: the page becomes
    free, the other descriptors keep their type and their segment, and the
    invariants hold with the page taken off the held pages. *)
Lemma manage_detail (ncpus max_segs : nat) (st : vm_page_state)
    (helds : list (list nat)) (i page : nat) (held : list nat)
    (seg : vm_page_seg) (pg : vm_page) :
  state_inv ncpus st helds →
  helds !! i = Some held → page ∈ held →
  vm_page_segs st !! i = Some seg →
  (i < max_segs)%nat →
  pages seg !! page = Some pg →
  page_type pg = VM_PT_RESERVED →
  seg_index pg = Z.of_nat i →
  ∃ seg' held',
    vm_page_manage max_segs st (i, page)
    = Ret (set_vm_page_segs st (<[i := seg']> (vm_page_segs st)))
    ∧ held ≡ₚ page :: held'
    ∧ state_inv ncpus
        (set_vm_page_segs st (<[i := seg']> (vm_page_segs st)))
        (<[i := held']> helds)
    ∧ nr_free_pages seg' = nr_free_pages seg + 1
    ∧ seg_start seg' = seg_start seg ∧ seg_end seg' = seg_end seg
    ∧ List.length (pages seg') = List.length (pages seg)
    ∧ (∀ k, page_free seg' k ↔ page_free seg k ∨ k = page)
    ∧ (∀ k, k ≠ page →
         (λ pg, (page_type pg, seg_index pg)) <$> pages seg' !! k
         = (λ pg, (page_type pg, seg_index pg)) <$> pages seg !! k).
Proof.
  intros Hinv0 Hheld0 Hin Hseg Hi Hpg Hty Hidx.
  apply elem_of_Permutation in Hin as [held' Hperm].
  pose proof (state_inv_perm _ _ _ _ _ _ Hinv0 Hheld0 Hperm) as Hinv.
  assert (Hlt : (i < List.length helds)%nat) by by eapply lookup_lt_Some.
  assert (Hheld : <[i := page :: held']> helds !! i = Some (page :: held'))
    by by apply list_lookup_insert_eq.
  assert (Hps : page_seg max_segs st (i, page) = Ret seg).
  { unfold page_seg. simpl. rewrite Hseg. ret. rewrite Hpg. ret.
    rewrite Hidx.
    destruct (Z.ltb_spec (Z.of_nat i) (Z.of_nat max_segs)); [| lia]. ret.
    by rewrite Z.eqb_refl. }
  pose proof Hinv as (Hsize & Hlen & Hsegs).
  destruct (Hsegs _ _ Hheld) as (seg0 & Hseg0 & Hinv1 & Hpools).
  assert (seg0 = seg) as -> by congruence.
  change (page :: held') with (block_pages 0 page ++ held') in Hinv1.
  pose proof Hinv1 as [Hwf0 Hacc0].
  destruct (set_type_step seg _ page 0 VM_PT_FREE Hwf0)
    as (seg1 & Hcode1 & Hwf1 & Hfl1 & Hp1 & Hnr1 & Hs1 & He1 & Hl1 & Hpgs1).
  { intros k Hk. rewrite elem_of_app. by left. }
  assert (Hinv1' : seg_inv seg1 (block_pages 0 page ++ held'))
    by by eapply seg_inv_frame.
  destruct (free_to_buddy_inv seg1 held' page 0 Hinv1')
    as (Hcode2 & Hinv2 & _ & Hnr2 & Hframe2).
  { unfold VM_PAGE_NR_FREE_LISTS. lia. }
  { eapply block_aligned_0, Hwf1. }
  { change (block_pages 0 page) with [page]. rewrite Forall_singleton.
    exists (page_set_type VM_PT_FREE pg). rewrite Hpgs1.
    rewrite decide_True by (change (block_pages 0 page) with [page];
                            by apply list_elem_of_singleton).
    by rewrite Hpg. }
  destruct Hframe2 as (Hs2 & He2 & _ & Hp2 & Hl2 & Hpf2).
  change (cpu_pools (free_spec seg1 page 0) = cpu_pools seg1) in Hp2.
  change (seg_start (free_spec seg1 page 0) = seg_start seg1) in Hs2.
  change (seg_end (free_spec seg1 page 0) = seg_end seg1) in He2.
  change (List.length (pages (free_spec seg1 page 0))
          = List.length (pages seg1)) in Hl2.
  exists (free_spec seg1 page 0), held'. split_and!.
  - unfold vm_page_manage. rewrite Hps. ret.
    change ((i, page).2) with page. change ((i, page).1) with i.
    rewrite Hpg. ret. rewrite Hty. ret. rewrite Hcode1. ret.
    rewrite Hcode2. by ret.
  - done.
  - rewrite <- (list_insert_insert_eq helds i held' (page :: held')).
    apply state_inv_insert; try done.
    + by rewrite length_insert.
    + by rewrite Hp2, Hp1.
  - rewrite Hnr2, Hnr1. change (2 ^ Z.of_nat 0) with 1. lia.
  - congruence.
  - congruence.
  - congruence.
  - intros k.
    assert (H2 : page_free (free_spec seg1 page 0) k ↔ page_free seg1 k)
      by apply (Hpf2 k).
    rewrite H2. unfold page_free. rewrite Hpgs1.
    change (block_pages 0 page) with [page].
    destruct (decide (k ∈ [page])) as [Hk | Hk].
    + apply list_elem_of_singleton in Hk as ->. rewrite Hpg. simpl.
      split; [by right |]. intros _. by eexists.
    + split; [by left |]. intros [H | ->]; [done |].
      exfalso. apply Hk. by apply list_elem_of_singleton.
  - intros k Hk. rewrite free_spec_pages, Hpgs1.
    rewrite decide_False; [done |].
    change (block_pages 0 page) with [page].
    intros H. by apply list_elem_of_singleton in H.
Qed.

End VmPageTheory.

Module BootTheory.
Import Biosmem Boot BiosmemTheory VmPageTheory.

(** ** Sorting the map *)

(** One run of the inner loop of [biosmem_map_sort]: [tmp] goes into the
    sorted prefix [l1], before the entries that do not have a lower base
    address than it has and that the loop has met. *)
Lemma sort_shift_spec (l1 l2 : biosmem_map_t) (hole tmp : biosmem_map_entry) :
  ∃ la lb,
    l1 = la ++ lb
    ∧ sort_shift (l1 ++ hole :: l2) tmp (List.length l1)
      = la ++ tmp :: lb ++ l2
    ∧ Forall (λ e, base_addr tmp ≤ base_addr e) lb
    ∧ (∀ e, last la = Some e → base_addr e < base_addr tmp).
Proof.
  revert hole l2. induction l1 as [| e l IH] using rev_ind; intros hole l2.
  - exists [], []. by split_and!.
  - assert (Hstep :
      sort_shift ((l ++ [e]) ++ hole :: l2) tmp (List.length (l ++ [e]))
      = if base_addr e <? base_addr tmp then l ++ e :: tmp :: l2
        else sort_shift (l ++ e :: e :: l2) tmp (List.length l)).
    { assert (Hins : ∀ x, <[S (List.length l) := x]> (l ++ e :: hole :: l2)
                          = l ++ e :: x :: l2).
      { intros x. replace (S (List.length l)) with (List.length l + 1)%nat
          by lia. by rewrite insert_app_r. }
      rewrite length_app. simpl List.length. rewrite Nat.add_1_r.
      cbn [sort_shift]. rewrite <- app_assoc. simpl app.
      unfold biosmem_map_t in *.
      rewrite (list_lookup_middle l (hole :: l2) e (List.length l) eq_refl).
      by rewrite !Hins. }
    rewrite Hstep.
    destruct (Z.ltb_spec (base_addr e) (base_addr tmp)) as [Hlt | Hge].
    + exists (l ++ [e]), []. split_and!.
      * by rewrite app_nil_r.
      * by rewrite <- app_assoc.
      * constructor.
      * intros e'. rewrite last_snoc. by intros [= <-].
    + destruct (IH e (e :: l2)) as (la & lb & Hl & Hcode & Hlb & Hla).
      exists la, (lb ++ [e]). split_and!.
      * by rewrite Hl, app_assoc.
      * rewrite Hcode. by rewrite <- !app_assoc.
      * rewrite Forall_app. split; [done |]. by repeat constructor.
      * done.
Qed.

Lemma sorted_below_last (la : biosmem_map_t) (tmp : biosmem_map_entry) :
  StronglySorted (λ a b, base_addr a ≤ base_addr b) la →
  (∀ e, last la = Some e → base_addr e < base_addr tmp) →
  Forall (λ e, base_addr e ≤ base_addr tmp) la.
Proof.
  intros Hsorted Hlast. destruct (last la) as [x |] eqn:Hx.
  - specialize (Hlast x eq_refl). apply last_Some in Hx as [l' ->].
    apply StronglySorted_app in Hsorted as (Hle & _ & _).
    rewrite Forall_app, Forall_singleton. split; [| lia].
    rewrite Forall_forall. intros e He.
    specialize (Hle e x He ltac:(by apply list_elem_of_singleton)).
    simpl in Hle. lia.
  - apply last_None in Hx as ->. constructor.
Qed.

Lemma sort_shift_sorted (l1 l2 : biosmem_map_t)
    (hole tmp : biosmem_map_entry) :
  StronglySorted (λ a b, base_addr a ≤ base_addr b) l1 →
  ∃ l1', sort_shift (l1 ++ hole :: l2) tmp (List.length l1) = l1' ++ l2
         ∧ List.length l1' = S (List.length l1)
         ∧ l1' ≡ₚ tmp :: l1
         ∧ StronglySorted (λ a b, base_addr a ≤ base_addr b) l1'.
Proof.
  intros Hsorted.
  destruct (sort_shift_spec l1 l2 hole tmp) as (la & lb & -> & Hcode & Hlb & Hla).
  exists (la ++ tmp :: lb). split_and!.
  - by rewrite Hcode, <- app_assoc.
  - rewrite !length_app. simpl. lia.
  - by rewrite Permutation_middle.
  - apply StronglySorted_app in Hsorted as (Hle & Hsa & Hsb).
    pose proof (sorted_below_last la tmp Hsa Hla) as Hbelow.
    rewrite Forall_forall in Hbelow.
    apply StronglySorted_app_2; [| done | by constructor].
    intros x1 x2 Hx1 Hx2. apply elem_of_cons in Hx2 as [-> | Hx2].
    + by apply Hbelow.
    + by apply Hle.
Qed.

Lemma sort_from_spec (l2 l1 : biosmem_map_t) (n : nat) :
  StronglySorted (λ a b, base_addr a ≤ base_addr b) l1 →
  (List.length l2 ≤ n)%nat →
  sort_from n (List.length l1) (l1 ++ l2) ≡ₚ l1 ++ l2
  ∧ StronglySorted (λ a b, base_addr a ≤ base_addr b)
      (sort_from n (List.length l1) (l1 ++ l2)).
Proof.
  unfold biosmem_map_t in *.
  revert l1 n. induction l2 as [| tmp l2 IH]; intros l1 n Hsorted Hn.
  - rewrite app_nil_r.
    assert (sort_from n (List.length l1) l1 = l1) as ->; [| done].
    destruct n; [done |]. simpl. unfold biosmem_map_t.
    by rewrite (lookup_ge_None_2 l1 (List.length l1)).
  - destruct n as [| n]; [simpl in Hn; lia |]. cbn [sort_from].
    unfold biosmem_map_t.
    rewrite (list_lookup_middle l1 l2 tmp (List.length l1) eq_refl).
    destruct (sort_shift_sorted l1 l2 tmp tmp Hsorted)
      as (l1' & -> & Hlen & Hperm & Hsorted').
    rewrite <- Hlen.
    destruct (IH l1' n Hsorted' ltac:(simpl in Hn; lia)) as [Hp Hs].
    split; [| done]. rewrite Hp, Hperm. simpl. apply Permutation_middle.
Qed.

Lemma map_sort_spec (m : biosmem_map_t) :
  biosmem_map_sort m ≡ₚ m
  ∧ StronglySorted (λ a b, base_addr a ≤ base_addr b) (biosmem_map_sort m).
Proof.
  unfold biosmem_map_sort. destruct m as [| e m]; [by split; [| constructor] |].
  replace (List.length (e :: m) - 1)%nat with (List.length m)
    by (simpl; lia).
  apply (sort_from_spec m [e] (List.length m)); [| done].
  by repeat constructor.
Qed.

Lemma sorted_lookup {A} (R : relation A) (l : list A) (i j : nat) (a b : A) :
  StronglySorted R l → (i < j)%nat → l !! i = Some a → l !! j = Some b →
  R a b.
Proof.
  intros Hsorted Hij Ha Hb.
  rewrite <- (take_drop_middle l j b Hb) in Hsorted.
  apply (StronglySorted_app_1_elem_of R _ _ a b Hsorted).
  - apply list_elem_of_lookup. exists i. by rewrite lookup_take_lt.
  - by left.
Qed.

(** X11: [biosmem_map_sort] reorders the entries of the map, losing and
    adding none, and leaves them in the order of their base addresses. *)
Theorem map_sort_sorts (m : biosmem_map_t) :
  biosmem_map_sort m ≡ₚ m
  ∧ ∀ i j a b, (i < j)%nat →
      biosmem_map_sort m !! i = Some a → biosmem_map_sort m !! j = Some b →
      base_addr a ≤ base_addr b.
Proof.
  destruct (map_sort_spec m) as [Hperm Hsorted]. split; [done |].
  intros i j a b Hij Ha Hb.
  by apply (sorted_lookup _ _ i j a b Hsorted).
Qed.

(** ** Maps without overlap *)

(** For the values that the fields of an entry can hold, the entries that
    [biosmem_map_filter] keeps are the non-empty ranges that do not wrap. *)
Lemma invalid_false_ok (e : biosmem_map_entry) :
  0 ≤ base_addr e < 2 ^ 64 → 0 ≤ length e < 2 ^ 64 →
  biosmem_map_entry_is_invalid e = false ↔ entry_ok e.
Proof.
  intros Hb Hl. unfold biosmem_map_entry_is_invalid, entry_end, entry_ok, u64.
  rewrite Z.leb_gt.
  destruct (decide (base_addr e + length e < 2 ^ 64)) as [Hlt | Hge].
  - rewrite Z.mod_small by lia. lia.
  - replace ((base_addr e + length e) mod 2 ^ 64)
      with (base_addr e + length e - 2 ^ 64); [lia |].
    apply Z.mod_unique with 1; lia.
Qed.

Lemma elem_of_map_filter (m : biosmem_map_t) (e : biosmem_map_entry) :
  e ∈ biosmem_map_filter m
  ↔ e ∈ m ∧ biosmem_map_entry_is_invalid e = false.
Proof.
  induction m as [| x m IH]; simpl.
  - rewrite elem_of_nil. tauto.
  - destruct (biosmem_map_entry_is_invalid x) eqn:Hx;
      rewrite ?elem_of_cons, IH.
    + split.
      * intros [He Hinv]. split; [by right | done].
      * intros [[-> | He] Hinv]; [congruence | done].
    + split.
      * intros [-> | [He Hinv]]; (split; [| done]); [by left | by right].
      * intros [[-> | He] Hinv]; [by left | by right].
Qed.

Lemma map_filter_length (m : biosmem_map_t) :
  (List.length (biosmem_map_filter m) ≤ List.length m)%nat.
Proof.
  induction m as [| x m IH]; simpl; [done |].
  destruct (biosmem_map_entry_is_invalid x); simpl; lia.
Qed.

Lemma map_filter_sorted (R : relation biosmem_map_entry) (m : biosmem_map_t) :
  StronglySorted R m → StronglySorted R (biosmem_map_filter m).
Proof.
  induction 1 as [| x m Hm IH Hx]; simpl; [constructor |].
  destruct (biosmem_map_entry_is_invalid x); [done |].
  constructor; [done |]. rewrite Forall_forall in *.
  intros e He. apply Hx. by apply elem_of_map_filter in He as [He _].
Qed.

Lemma sorted_of_lookup {A} (R : relation A) (l : list A) :
  (∀ i j a b, (i < j)%nat → l !! i = Some a → l !! j = Some b → R a b) →
  StronglySorted R l.
Proof.
  induction l as [| x l IH]; intros Hl; constructor.
  - apply IH. intros i j a b Hij Ha Hb.
    apply (Hl (S i) (S j) a b); [lia | done | done].
  - rewrite Forall_forall. intros b Hb.
    apply list_elem_of_lookup in Hb as [j Hj].
    apply (Hl 0%nat (S j) x b); [lia | done | done].
Qed.

(** A relation that holds between each entry and the later ones, and is
    symmetric, holds in every order of the entries. *)
Lemma sorted_perm {A} (R : relation A) (l l' : list A) :
  (∀ a b, R a b → R b a) → l ≡ₚ l' →
  StronglySorted R l → StronglySorted R l'.
Proof.
  intros Hsym Hperm. induction Hperm as [| x l l' Hperm IH | x y l |];
    [done | | | by auto].
  - rewrite !StronglySorted_cons. intros [Hx Hl].
    split; [by rewrite <- Hperm | by apply IH].
  - rewrite !StronglySorted_cons, !Forall_cons. intros ((Hyx & Hy) & Hx & Hl).
    split_and!; try done. by apply Hsym.
Qed.

Lemma inner_fuel_eq : inner_fuel = 1024%nat.
Proof. reflexivity. Qed.

Local Opaque inner_fuel.

Lemma bind_eq_Ret {A B} (x : outcome A) (k : A → outcome B) (a : A)
    (r : outcome B) :
  x = Ret a → k a = r → x ≫= k = r.
Proof. by intros -> <-. Qed.

(** The inner and the outer loop of [biosmem_map_adjust] leave the map as it
    is when no entry passes the overlap test. *)
Lemma adjust_inner_noop (fuel : nat) (m : biosmem_map_t) (i j : nat)
    (a : biosmem_map_entry) :
  m !! i = Some a →
  (∀ k b, (j ≤ k)%nat → m !! k = Some b →
          overlap_test a b (entry_end a) = false) →
  (List.length m - j < fuel)%nat →
  adjust_inner fuel m i j (entry_end a) = Ret m.
Proof.
  intros Ha. revert j. induction fuel as [| fuel IH]; intros j Hall Hfuel;
    [lia |].
  cbn [adjust_inner]. destruct (Nat.ltb_spec j (List.length m)) as [Hj |];
    [| done].
  destruct (lookup_lt_is_Some_2 m j Hj) as [b Hb].
  unfold biosmem_map_t in *. rewrite Ha, Hb. cbn [deref mbind outcome_bind].
  rewrite (Hall j b) by done. apply IH; [| lia].
  intros k b' Hk. apply Hall. lia.
Qed.

Lemma adjust_outer_S (fuel : nat) (m : biosmem_map_t) (i : nat) :
  adjust_outer (S fuel) m i
  = if (i <? List.length m)%nat then
      a ← deref (m !! i);
      m' ← adjust_inner inner_fuel m i (S i) (entry_end a);
      adjust_outer fuel m' (S i)
    else Ret m.
Proof. reflexivity. Qed.

Lemma adjust_outer_noop (fuel : nat) (m : biosmem_map_t) (i : nat) :
  (∀ i j a b, (i < j)%nat → m !! i = Some a → m !! j = Some b →
              overlap_test a b (entry_end a) = false) →
  (List.length m - i < fuel)%nat →
  (List.length m < inner_fuel)%nat →
  adjust_outer fuel m i = Ret m.
Proof.
  intros Hall. revert i. induction fuel as [| fuel IH]; intros i Hfuel Hinner;
    [lia |].
  rewrite adjust_outer_S.
  destruct (Nat.ltb_spec i (List.length m)) as [Hi |]; [| reflexivity].
  destruct (lookup_lt_is_Some_2 m i Hi) as [a Ha].
  apply (bind_eq_Ret _ _ a); [by unfold biosmem_map_t in *; rewrite Ha |].
  apply (bind_eq_Ret _ _ m).
  - apply (adjust_inner_noop inner_fuel m i (S i) a Ha).
    + intros k b Hk Hb. apply (Hall i k a b); [lia | done | done].
    + eapply Nat.le_lt_trans; [apply Nat.le_sub_l | done].
  - apply IH; [lia | done].
Qed.

(** A sorted list of non-empty ranges that do not intersect is in canonical
    form. *)
Lemma canonical_of_sorted (m : biosmem_map_t) :
  Forall entry_ok m →
  StronglySorted (λ a b, base_addr a ≤ base_addr b) m →
  StronglySorted (λ a b, ¬ ranges_intersect a b) m →
  map_canonical m = true.
Proof.
  induction m as [| e m IH]; [done |].
  rewrite Forall_cons, !StronglySorted_cons.
  intros [(He0 & Hel & Hee) Hok] [Hle Hsorted] [Hdis Hdisjoint].
  cbn [map_canonical]. rewrite IH by done.
  rewrite !andb_true_iff. split_and!; try done; try (by apply Z.ltb_lt).
  destruct m as [| e' m]; [done |]. apply Z.leb_le.
  apply Forall_cons in Hle as [Hle _]. apply Forall_cons in Hdis as [Hdis _].
  apply Forall_cons in Hok as [(He0' & Hel' & Hee') _].
  unfold ranges_intersect, range_end in Hdis. lia.
Qed.

(** X12: on a map of at most 256 entries whose non-empty ranges do not
    intersect, [biosmem_map_adjust] returns: it drops the entries that are
    empty or wrap around, keeps every other entry as it is, and leaves the
    map sorted, in canonical form. *)
Theorem adjust_disjoint_map (m : biosmem_map_t) :
  Forall (λ e, 0 ≤ base_addr e < 2 ^ 64 ∧ 0 ≤ length e < 2 ^ 64) m →
  (List.length m ≤ 256)%nat →
  (∀ i j a b, (i < j)%nat → m !! i = Some a → m !! j = Some b →
              entry_ok a → entry_ok b → ¬ ranges_intersect a b) →
  ∃ m', biosmem_map_adjust m = Ret m'
        ∧ m' ≡ₚ biosmem_map_filter m
        ∧ (∀ e, e ∈ m' ↔ e ∈ m ∧ entry_ok e)
        ∧ map_canonical m' = true.
Proof.
  intros Hfields Hlen Hdis.
  pose proof (map_filter_length m) as Hflen.
  assert (Hok : Forall entry_ok (biosmem_map_filter m)).
  { rewrite Forall_forall in *. intros e He.
    apply elem_of_map_filter in He as [He Hinv].
    destruct (Hfields e He). by apply invalid_false_ok. }
  assert (Hpair : StronglySorted (λ a b, ¬ ranges_intersect a b)
                    (biosmem_map_filter m)).
  { apply sorted_of_lookup. intros i j a b Hij Ha Hb.
    assert (Hsorted : StronglySorted
              (λ a b, entry_ok a → entry_ok b → ¬ ranges_intersect a b)
              (biosmem_map_filter m)).
    { apply map_filter_sorted, sorted_of_lookup. exact Hdis. }
    rewrite Forall_forall in Hok.
    apply (sorted_lookup _ _ i j a b Hsorted Hij Ha Hb);
      apply Hok; by eapply list_elem_of_lookup_2. }
  destruct (map_sort_spec (biosmem_map_filter m)) as [Hperm Hsorted].
  exists (biosmem_map_sort (biosmem_map_filter m)). split_and!.
  - unfold biosmem_map_adjust.
    apply (bind_eq_Ret _ _ (biosmem_map_filter m)); [| done].
    apply adjust_outer_noop; [| unfold outer_fuel; lia
                              | rewrite inner_fuel_eq; lia].
    intros i j a b Hij Ha Hb. rewrite Forall_forall in Hok.
    assert (Hoa : entry_ok a) by (apply Hok; by eapply list_elem_of_lookup_2).
    assert (Hob : entry_ok b) by (apply Hok; by eapply list_elem_of_lookup_2).
    apply not_true_is_false. rewrite (overlap_test_intersect a b Hoa Hob).
    by apply (sorted_lookup _ _ i j a b Hpair).
  - done.
  - intros e. rewrite Hperm, elem_of_map_filter. rewrite Forall_forall in Hfields.
    split; intros [He Hinv]; (split; [done |]);
      destruct (Hfields e He); by apply invalid_false_ok.
  - apply canonical_of_sorted; [by rewrite Hperm | done |].
    apply (sorted_perm _ (biosmem_map_filter m)); [| done | done].
    unfold ranges_intersect. tauto.
Qed.

Lemma adjust_disjoint_map_witness :
  ∃ m', biosmem_map_adjust
          [Entry 0x100000 0x700000 BIOSMEM_TYPE_AVAILABLE;
           Entry 0x9f000 0 BIOSMEM_TYPE_RESERVED;
           Entry 0 0x9f000 BIOSMEM_TYPE_AVAILABLE] = Ret m'
        ∧ m' ≡ₚ biosmem_map_filter
                  [Entry 0x100000 0x700000 BIOSMEM_TYPE_AVAILABLE;
                   Entry 0x9f000 0 BIOSMEM_TYPE_RESERVED;
                   Entry 0 0x9f000 BIOSMEM_TYPE_AVAILABLE]
        ∧ (∀ e, e ∈ m'
                ↔ e ∈ [Entry 0x100000 0x700000 BIOSMEM_TYPE_AVAILABLE;
                       Entry 0x9f000 0 BIOSMEM_TYPE_RESERVED;
                       Entry 0 0x9f000 BIOSMEM_TYPE_AVAILABLE]
                  ∧ entry_ok e)
        ∧ map_canonical m' = true.
Proof.
  apply adjust_disjoint_map.
  - repeat constructor; simpl; lia.
  - simpl. lia.
  - intros [| [| [| i]]] [| [| [| j]]] a b Hij Ha Hb; simpl in Ha, Hb;
      try done; try lia; injection Ha as <-; injection Hb as <-;
      unfold entry_ok, ranges_intersect, range_end; simpl; lia.
Defined.

Local Transparent inner_fuel.

(** ** Looking for a segment in the map *)

Lemma round_page_props (a : Z) :
  0 ≤ a ≤ 2 ^ 64 - PAGE_SIZE →
  a ≤ vm_page_round a < a + PAGE_SIZE
  ∧ vm_page_round a mod PAGE_SIZE = 0
  ∧ ∀ b, a ≤ b → b mod PAGE_SIZE = 0 → vm_page_round a ≤ b.
Proof.
  intros Ha. rewrite vm_page_round_spec by done.
  apply (round_up_props a). lia.
Qed.

Lemma trunc_page_props (a : Z) :
  0 ≤ a < 2 ^ 64 →
  a - PAGE_SIZE < vm_page_trunc a ≤ a
  ∧ vm_page_trunc a mod PAGE_SIZE = 0
  ∧ ∀ b, b ≤ a → b mod PAGE_SIZE = 0 → b ≤ vm_page_trunc a.
Proof.
  intros Ha. rewrite vm_page_trunc_spec by done. unfold PAGE_SIZE.
  pose proof (Z.mod_pos_bound a 4096 ltac:(lia)).
  pose proof (Z.div_mod a 4096 ltac:(lia)) as Hdm.
  split_and!; try lia.
  - replace (a - a mod 4096) with (a / 4096 * 4096) by lia.
    apply Z_mod_mult.
  - intros b Hb Hbm.
    pose proof (Z.div_mod b 4096 ltac:(lia)) as Hbd. rewrite Hbm in Hbd.
    assert (b / 4096 ≤ a / 4096) by (apply Z.div_le_mono; lia). lia.
Qed.

Lemma round_page_mono (a b : Z) :
  0 ≤ a → a ≤ b → b ≤ 2 ^ 64 - PAGE_SIZE →
  vm_page_round a ≤ vm_page_round b.
Proof.
  intros Ha Hab Hb.
  destruct (round_page_props a ltac:(lia)) as (_ & _ & Hleast).
  destruct (round_page_props b ltac:(lia)) as (Hb1 & Hb2 & _).
  apply Hleast; [lia | done].
Qed.

Lemma trunc_page_mono (a b : Z) :
  0 ≤ a → a ≤ b → b < 2 ^ 64 → vm_page_trunc a ≤ vm_page_trunc b.
Proof.
  intros Ha Hab Hb.
  destruct (trunc_page_props a ltac:(lia)) as (Ha1 & Ha2 & _).
  destruct (trunc_page_props b ltac:(lia)) as (_ & _ & Hgreatest).
  apply Hgreatest; [lia | done].
Qed.

(** In a canonical map, an entry ends where the later ones begin, or
    before. *)
Lemma canonical_cons (e : biosmem_map_entry) (m : biosmem_map_t) :
  map_canonical (e :: m) = true →
  0 < length e ∧ range_end e < 2 ^ 64
  ∧ Forall (λ x, range_end e ≤ base_addr x) m
  ∧ map_canonical m = true.
Proof.
  revert e. induction m as [| e' m IH]; intros e Hm.
  - simpl in Hm. rewrite !andb_true_iff, !Z.ltb_lt in Hm.
    destruct Hm as [[[? ?] _] _]. by split_and!.
  - change (map_canonical (e :: e' :: m))
      with ((0 <? length e) && (base_addr e + length e <? 2 ^ 64)
            && (base_addr e + length e <=? base_addr e')
            && map_canonical (e' :: m)) in Hm.
    rewrite !andb_true_iff, !Z.ltb_lt, Z.leb_le in Hm.
    destruct Hm as [[[? ?] ?] Hm]. split_and!; try done.
    destruct (IH e' Hm) as (Hl' & He' & Hall & _).
    constructor; [done |]. unfold range_end in *.
    eapply Forall_impl; [exact Hall |]. simpl. intros x Hx. lia.
Qed.

Lemma canonical_sorted (m : biosmem_map_t) :
  map_canonical m = true →
  Forall (λ e, 0 < length e ∧ range_end e < 2 ^ 64) m
  ∧ StronglySorted (λ a b, range_end a ≤ base_addr b) m.
Proof.
  induction m as [| e m IH]; intros Hm; [by split; constructor |].
  apply canonical_cons in Hm as (Hl & He & Hall & Hm).
  destruct (IH Hm) as [Hok Hsorted]. split; by constructor.
Qed.

Lemma filter_sorted {A} (R : relation A) (f : A → bool) (l : list A) :
  StronglySorted R l → StronglySorted R (List.filter f l).
Proof.
  induction 1 as [| x l Hl IH Hx]; simpl; [constructor |].
  destruct (f x); [| done]. constructor; [done |].
  rewrite Forall_forall in *. intros y Hy. apply Hx.
  apply list_elem_of_In in Hy. apply filter_In in Hy as [Hy _].
  by apply list_elem_of_In.
Qed.

Lemma filter_none {A} (f : A → bool) (l : list A) :
  (∀ x, x ∈ l → f x = false) → List.filter f l = [].
Proof.
  induction l as [| x l IH]; intros Hl; [done |]. simpl.
  rewrite (Hl x) by by left. apply IH. intros y Hy. apply Hl. by right.
Qed.

Lemma last_cons_default {A} (l : list A) (x d : A) :
  List.last (x :: l) d = List.last l x.
Proof.
  revert x d. induction l as [| y l IH]; intros x d; [done |].
  change (List.last (x :: y :: l) d) with (List.last (y :: l) d).
  by rewrite !IH.
Qed.

Lemma last_elem_of {A} (l : list A) (d : A) :
  List.last l d = d ∨ List.last l d ∈ l.
Proof.
  revert d. induction l as [| x l IH]; intros d; [by left |]. right.
  rewrite last_cons_default.
  destruct (IH x) as [-> | Hin]; [by left | by right].
Qed.

(** The loop of [biosmem_map_find_avail] on a canonical map: the start of
    the segment is taken from the first usable entry, its end from the last
    one. *)
Lemma find_avail_loop_spec (m : biosmem_map_t) (ps pe ss se : Z) :
  map_canonical m = true →
  Forall (λ e, 0 ≤ base_addr e ≤ 2 ^ 64 - PAGE_SIZE) m →
  pe < 2 ^ 64 →
  find_avail_loop m ps pe ss se
  = match List.filter (entry_usable ps pe) m with
    | [] => (ss, se)
    | first :: rest =>
        (if ss =? PHYS_ADDR_MAX then vm_page_round (base_addr first) else ss,
         vm_page_trunc (range_end (List.last rest first)))
    end.
Proof.
  intros Hm Hbase Hpe. revert ss se.
  induction m as [| e m IH]; intros ss se; [done |].
  apply canonical_cons in Hm as (Hl & He & Hall & Hm).
  apply Forall_cons in Hbase as [Hb Hbase].
  specialize (IH Hm Hbase).
  cbn [find_avail_loop List.filter]. unfold entry_usable at 1.
  rewrite (entry_end_range e) by lia.
  destruct (Z.eqb_spec (type e) BIOSMEM_TYPE_AVAILABLE) as [Ht | Ht];
    cbn [negb andb]; [| apply IH].
  destruct (Z.geb_spec (vm_page_round (base_addr e)) pe) as [Hge | Hlt].
  - (* break: the later entries start at [pe] or after it *)
    destruct (Z.ltb_spec (vm_page_round (base_addr e)) pe); [lia |].
    rewrite andb_false_r. cbn [andb].
    assert (List.filter (entry_usable ps pe) m = []) as ->; [| done].
    apply filter_none. intros x Hx.
    rewrite Forall_forall in Hall, Hbase.
    specialize (Hall x Hx). specialize (Hbase x Hx). unfold range_end in Hall.
    pose proof (round_page_mono (base_addr e) (base_addr x)
                  ltac:(lia) ltac:(lia) ltac:(lia)).
    unfold entry_usable.
    destruct (Z.ltb_spec (vm_page_round (base_addr x)) pe); [lia |].
    by rewrite andb_false_r.
  - destruct (Z.ltb_spec (vm_page_round (base_addr e)) pe); [| lia].
    rewrite Z.gtb_ltb.
    destruct (Z.ltb_spec (vm_page_round (base_addr e))
                (vm_page_trunc (range_end e)));
      destruct (Z.ltb_spec ps (vm_page_trunc (range_end e)));
      cbn [andb]; try apply IH.
    rewrite IH.
    destruct (round_page_props (base_addr e) ltac:(lia)) as (Hr & _).
    assert (((if ss =? PHYS_ADDR_MAX then vm_page_round (base_addr e)
              else ss) =? PHYS_ADDR_MAX) = false) as ->.
    { destruct (Z.eqb_spec ss PHYS_ADDR_MAX); apply Z.eqb_neq;
        unfold PHYS_ADDR_MAX in *; lia. }
    destruct (List.filter (entry_usable ps pe) m) as [| x rest]; [done |].
    by rewrite last_cons_default.
Qed.

Lemma usable_props (ps pe : Z) (e : biosmem_map_entry) :
  entry_usable ps pe e = true →
  type e = BIOSMEM_TYPE_AVAILABLE
  ∧ vm_page_round (base_addr e) < vm_page_trunc (range_end e)
  ∧ vm_page_round (base_addr e) < pe
  ∧ ps < vm_page_trunc (range_end e).
Proof.
  unfold entry_usable. rewrite !andb_true_iff, !Z.ltb_lt, Z.eqb_eq. tauto.
Qed.

Lemma usable_elem_of (m : biosmem_map_t) (ps pe : Z) (x : biosmem_map_entry) :
  x ∈ List.filter (entry_usable ps pe) m →
  x ∈ m ∧ entry_usable ps pe x = true.
Proof.
  intros Hx. apply list_elem_of_In, filter_In in Hx as [Hx Hu].
  by apply list_elem_of_In in Hx.
Qed.

(** What [biosmem_map_find_avail] returns on a canonical map. *)
Lemma find_avail_eq (m : biosmem_map_t) (ps pe : Z) :
  map_canonical m = true →
  Forall (λ e, 0 ≤ base_addr e ≤ 2 ^ 64 - PAGE_SIZE) m →
  pe < 2 ^ 64 →
  biosmem_map_find_avail m ps pe
  = match List.filter (entry_usable ps pe) m with
    | [] => None
    | first :: rest =>
        Some (Z.max ps (vm_page_round (base_addr first)),
              Z.min pe (vm_page_trunc (range_end (List.last rest first))))
    end.
Proof.
  intros Hm Hbase Hpe.
  destruct (canonical_sorted m Hm) as [Hok _].
  unfold biosmem_map_find_avail.
  rewrite (find_avail_loop_spec m ps pe _ _ Hm Hbase Hpe).
  pose proof (usable_elem_of m ps pe) as Hin.
  destruct (List.filter (entry_usable ps pe) m) as [| first rest];
    [done |].
  change (PHYS_ADDR_MAX =? PHYS_ADDR_MAX) with true. cbv iota.
  destruct (Hin first ltac:(by left)) as [Hfm Hfu].
  apply usable_props in Hfu as (_ & _ & Hf & _).
  destruct (Hin (List.last rest first)) as [Hlm Hlu].
  { destruct (last_elem_of rest first) as [-> | Hl]; [by left | by right]. }
  rewrite Forall_forall in Hok. destruct (Hok _ Hlm) as [Hll Hle].
  rewrite Forall_forall in Hbase. pose proof (Hbase _ Hlm) as Hlb.
  destruct (trunc_page_props (range_end (List.last rest first)))
    as (_ & Hmod & _); [unfold range_end in *; lia |].
  destruct (Z.eqb_spec (vm_page_round (base_addr first)) PHYS_ADDR_MAX)
    as [Heq |]; [unfold PHYS_ADDR_MAX in Heq; lia |].
  destruct (Z.eqb_spec (vm_page_trunc (range_end (List.last rest first)))
              PHYS_ADDR_MAX) as [Heq |].
  { rewrite Heq in Hmod. by vm_compute in Hmod. }
  cbn [orb]. f_equal. f_equal.
  - destruct (Z.gtb_spec (vm_page_round (base_addr first)) ps); lia.
  - destruct (Z.ltb_spec (vm_page_trunc (range_end (List.last rest first)))
                pe); lia.
Qed.

(** The segment found is not empty, inside the window, and aligned as the
    window is. *)
Lemma find_avail_bounds (m : biosmem_map_t) (ps pe s e : Z) :
  map_canonical m = true →
  Forall (λ e, 0 ≤ base_addr e ≤ 2 ^ 64 - PAGE_SIZE) m →
  0 ≤ ps < pe → pe < 2 ^ 64 →
  biosmem_map_find_avail m ps pe = Some (s, e) →
  ps ≤ s ∧ s < e ∧ e ≤ pe
  ∧ (ps mod PAGE_SIZE = 0 → s mod PAGE_SIZE = 0)
  ∧ (pe mod PAGE_SIZE = 0 → e mod PAGE_SIZE = 0).
Proof.
  intros Hm Hbase Hps Hpe. rewrite find_avail_eq by done.
  destruct (canonical_sorted m Hm) as [Hok Hsorted].
  pose proof (filter_sorted _ (entry_usable ps pe) m Hsorted) as Hfs.
  pose proof (usable_elem_of m ps pe) as Hin.
  destruct (List.filter (entry_usable ps pe) m) as [| first rest];
    [done |]. intros [= <- <-].
  destruct (Hin first ltac:(by left)) as [Hfm Hfu].
  apply usable_props in Hfu as (_ & Hf1 & Hf2 & Hf3).
  destruct (Hin (List.last rest first)) as [Hlm Hlu].
  { destruct (last_elem_of rest first) as [-> | Hl]; [by left | by right]. }
  apply usable_props in Hlu as (_ & Hl1 & Hl2 & Hl3).
  rewrite Forall_forall in Hok, Hbase.
  destruct (Hok _ Hlm) as [Hll Hle]. destruct (Hok _ Hfm) as [Hfl Hfe].
  pose proof (Hbase _ Hlm) as Hlb. pose proof (Hbase _ Hfm) as Hfb.
  assert (Hends : range_end first ≤ range_end (List.last rest first)).
  { destruct (last_elem_of rest first) as [-> | Hl]; [done |].
    apply StronglySorted_cons in Hfs as [Hfr _].
    rewrite Forall_forall in Hfr. specialize (Hfr _ Hl).
    unfold range_end in *. lia. }
  pose proof (trunc_page_mono (range_end first)
                (range_end (List.last rest first))
                ltac:(unfold range_end; lia) Hends Hle) as Hmono.
  destruct (round_page_props (base_addr first) ltac:(lia)) as (_ & Hrm & _).
  destruct (trunc_page_props (range_end (List.last rest first)))
    as (_ & Htm & _); [unfold range_end in *; lia |].
  split_and!; try lia.
  - intros Hpsm. destruct (Z.max_spec ps (vm_page_round (base_addr first)))
      as [[_ ->] | [_ ->]]; done.
  - intros Hpem.
    destruct (Z.min_spec pe (vm_page_trunc (range_end (List.last rest first))))
      as [[_ ->] | [_ ->]]; done.
Qed.

(** X13: [biosmem_map_find_avail] on a canonical map, for a window from
    [ps] to [pe].  It fails exactly when no available entry has a whole
    page whose range of whole pages meets the window.  Otherwise the
    segment it returns runs from the first such entry to the last one,
    cut to the window: it is not empty, lies inside the window, and its
    bounds are page-aligned when those of the window are. *)
Theorem find_avail_hull (m : biosmem_map_t) (ps pe : Z) :
  map_canonical m = true →
  Forall (λ e, 0 ≤ base_addr e ≤ 2 ^ 64 - PAGE_SIZE) m →
  0 ≤ ps < pe → pe < 2 ^ 64 →
  biosmem_map_find_avail m ps pe
  = match List.filter (entry_usable ps pe) m with
    | [] => None
    | first :: rest =>
        Some (Z.max ps (vm_page_round (base_addr first)),
              Z.min pe (vm_page_trunc (range_end (List.last rest first))))
    end
  ∧ ∀ s e, biosmem_map_find_avail m ps pe = Some (s, e) →
      ps ≤ s ∧ s < e ∧ e ≤ pe
      ∧ (ps mod PAGE_SIZE = 0 → s mod PAGE_SIZE = 0)
      ∧ (pe mod PAGE_SIZE = 0 → e mod PAGE_SIZE = 0).
Proof.
  intros Hm Hbase Hps Hpe. split.
  - by apply find_avail_eq.
  - intros s e Hfound. by apply (find_avail_bounds m ps pe s e).
Qed.

Lemma find_avail_hull_witness :
  biosmem_map_find_avail
    [Entry 0 0x9f400 BIOSMEM_TYPE_AVAILABLE;
     Entry 0x9f400 0x60c00 BIOSMEM_TYPE_RESERVED;
     Entry 0x100000 0x7ee0000 BIOSMEM_TYPE_AVAILABLE]
    0x1000 0x1000000
  = match List.filter (entry_usable 0x1000 0x1000000)
            [Entry 0 0x9f400 BIOSMEM_TYPE_AVAILABLE;
             Entry 0x9f400 0x60c00 BIOSMEM_TYPE_RESERVED;
             Entry 0x100000 0x7ee0000 BIOSMEM_TYPE_AVAILABLE] with
    | [] => None
    | first :: rest =>
        Some (Z.max 0x1000 (vm_page_round (base_addr first)),
              Z.min 0x1000000
                (vm_page_trunc (range_end (List.last rest first))))
    end
  ∧ ∀ s e,
      biosmem_map_find_avail
        [Entry 0 0x9f400 BIOSMEM_TYPE_AVAILABLE;
         Entry 0x9f400 0x60c00 BIOSMEM_TYPE_RESERVED;
         Entry 0x100000 0x7ee0000 BIOSMEM_TYPE_AVAILABLE]
        0x1000 0x1000000 = Some (s, e) →
      0x1000 ≤ s ∧ s < e ∧ e ≤ 0x1000000
      ∧ (0x1000 mod PAGE_SIZE = 0 → s mod PAGE_SIZE = 0)
      ∧ (0x1000000 mod PAGE_SIZE = 0 → e mod PAGE_SIZE = 0).
Proof.
  apply find_avail_hull.
  - reflexivity.
  - repeat constructor; simpl; unfold PAGE_SIZE; lia.
  - lia.
  - lia.
Defined.

(** On that map the DMA segment runs from the first page above the window
    start to the DMA limit, across the hole of the BIOS area. *)
Lemma example_find_avail :
  biosmem_map_find_avail
    [Entry 0 0x9f400 BIOSMEM_TYPE_AVAILABLE;
     Entry 0x9f400 0x60c00 BIOSMEM_TYPE_RESERVED;
     Entry 0x100000 0x7ee0000 BIOSMEM_TYPE_AVAILABLE]
    0x1000 0x1000000
  = Some (0x1000, 0x1000000).
Proof. reflexivity. Qed.

(** ** Successive allocations from the heap *)

(** What a call of [biosmem_bootalloc] that returns has done. *)
Lemma bootalloc_Ret_inv (ready : bool) (st st' : biosmem_state) (n addr : Z) :
  heap_ok st →
  biosmem_bootalloc ready st n = Ret (addr, st') →
  ready = false
  ∧ 0 < u32 (n * PAGE_SIZE)
  ∧ addr = biosmem_heap_cur st - u32 (n * PAGE_SIZE)
  ∧ biosmem_heap_start st ≤ addr
  ∧ st' = set_heap_cur st addr.
Proof.
  intros (Hs & Hc & Hlt). unfold biosmem_bootalloc, PAGE_SIZE.
  rewrite vm_page_ptoa_mul. destruct ready; [done |]. simpl.
  pose proof (Z.mod_pos_bound (n * 4096) (2 ^ 32) ltac:(lia)) as Hsize.
  fold (u32 (n * 4096)) in Hsize.
  destruct (Z.eqb_spec (u32 (n * 4096)) 0) as [| Hne]; [done |].
  set (size := u32 (n * 4096)) in *.
  destruct (Z.ltb_spec (biosmem_heap_cur st - size) 0) as [Hneg | Hpos].
  - (* the subtraction wraps above the cursor *)
    replace (u32 (biosmem_heap_cur st - size))
      with (biosmem_heap_cur st - size + 2 ^ 32)
      by (unfold u32; apply Z.mod_unique with (-1); lia).
    destruct (Z.gtb_spec (biosmem_heap_cur st - size + 2 ^ 32)
                (biosmem_heap_cur st)); [| lia].
    by rewrite orb_true_r.
  - rewrite u32_small by lia.
    destruct (Z.ltb_spec (biosmem_heap_cur st - size) (biosmem_heap_start st));
      [done |].
    destruct (Z.gtb_spec (biosmem_heap_cur st - size) (biosmem_heap_cur st));
      [done |].
    simpl. intros [= <- <-]. split_and!; try done; lia.
Qed.

(** X14: the boot heap is handed out from its top downwards.  Two calls of
    [biosmem_bootalloc] that return do so before the page allocator is
    ready; the second address is below the first, both are inside the heap
    below the former cursor, and the cursor ends at the second address.
    When the sizes in bytes fit 32 bits, the two ranges are adjacent: the
    first ends at the former cursor and the second ends where the first
    begins. *)
Theorem bootalloc_stacks_down (ready : bool) (st st1 st2 : biosmem_state)
    (n1 n2 a1 a2 : Z) :
  heap_ok st →
  biosmem_bootalloc ready st n1 = Ret (a1, st1) →
  biosmem_bootalloc ready st1 n2 = Ret (a2, st2) →
  ready = false
  ∧ biosmem_heap_start st ≤ a2 ∧ a2 < a1 ∧ a1 < biosmem_heap_cur st
  ∧ st2 = set_heap_cur st a2
  ∧ (0 ≤ n1 → n1 * PAGE_SIZE < 2 ^ 32 →
     a1 + n1 * PAGE_SIZE = biosmem_heap_cur st)
  ∧ (0 ≤ n2 → n2 * PAGE_SIZE < 2 ^ 32 → a2 + n2 * PAGE_SIZE = a1).
Proof.
  intros Hok H1 H2.
  destruct (bootalloc_Ret_inv _ _ _ _ _ Hok H1)
    as (-> & Hs1 & Ha1 & Hl1 & ->).
  assert (Hok1 : heap_ok (set_heap_cur st a1)).
  { destruct Hok as (? & ? & ?). unfold heap_ok. simpl. lia. }
  destruct (bootalloc_Ret_inv _ _ _ _ _ Hok1 H2)
    as (_ & Hs2 & Ha2 & Hl2 & ->).
  simpl in *. split_and!; try done; try lia.
  - intros ? ?. unfold PAGE_SIZE in *. rewrite u32_small in Ha1 by lia. lia.
  - intros ? ?. unfold PAGE_SIZE in *. rewrite u32_small in Ha2 by lia. lia.
Qed.

Lemma bootalloc_stacks_down_witness :
  false = false
  ∧ biosmem_heap_start (State [] [] 0x100000 0x200000 0x200000 0) ≤ 0x1fc000
  ∧ 0x1fc000 < 0x1fd000
  ∧ 0x1fd000 < biosmem_heap_cur (State [] [] 0x100000 0x200000 0x200000 0)
  ∧ State [] [] 0x100000 0x1fc000 0x200000 0
    = set_heap_cur (State [] [] 0x100000 0x200000 0x200000 0) 0x1fc000
  ∧ (0 ≤ 3 → 3 * PAGE_SIZE < 2 ^ 32 →
     0x1fd000 + 3 * PAGE_SIZE
     = biosmem_heap_cur (State [] [] 0x100000 0x200000 0x200000 0))
  ∧ (0 ≤ 1 → 1 * PAGE_SIZE < 2 ^ 32 → 0x1fc000 + 1 * PAGE_SIZE = 0x1fd000).
Proof.
  apply (bootalloc_stacks_down false
           (State [] [] 0x100000 0x200000 0x200000 0)
           (State [] [] 0x100000 0x1fd000 0x200000 0)
           (State [] [] 0x100000 0x1fc000 0x200000 0) 3 1).
  - unfold heap_ok. simpl. lia.
  - reflexivity.
  - reflexivity.
Defined.

(** ** Loading the segments into the page allocator *)

Lemma vm_page_load_ok (st : VmPage.vm_page_state) (i : nat)
    (s e a b : Z) :
  (i < List.length (VmPage.vm_page_boot_segs st))%nat →
  0 ≤ VmPage.vm_page_segs_size st
    < Z.of_nat (List.length (VmPage.vm_page_boot_segs st)) →
  Z.of_nat (List.length (VmPage.vm_page_boot_segs st)) < 2 ^ 32 →
  s mod PAGE_SIZE = 0 → e mod PAGE_SIZE = 0 →
  a mod PAGE_SIZE = 0 → b mod PAGE_SIZE = 0 →
  s < e → s ≤ a → b ≤ e →
  VmPage.vm_page_load st (Z.of_nat i) s e a b
  = Ret (VmPage.VmState (VmPage.vm_page_is_ready st) (VmPage.vm_page_segs st)
           (<[i := VmPage.BootSeg s e a b]> (VmPage.vm_page_boot_segs st))
           (VmPage.vm_page_segs_size st + 1)).
Proof.
  intros Hi Hsize H32 Hs He Ha Hb Hlt Hsa Hbe.
  unfold VmPage.vm_page_load. cbv zeta.
  destruct (Z.ltb_spec (Z.of_nat i)
              (Z.of_nat (List.length (VmPage.vm_page_boot_segs st))));
    [| lia].
  ret. rewrite !(proj2 (vm_page_aligned_mod _)) by done. ret.
  destruct (Z.ltb_spec s e); [| lia]. ret.
  destruct (Z.leb_spec s a); [| lia]. ret.
  destruct (Z.leb_spec b e); [| lia]. ret.
  destruct (Z.ltb_spec (VmPage.vm_page_segs_size st)
              (Z.of_nat (List.length (VmPage.vm_page_boot_segs st))));
    [| lia].
  ret. by rewrite Nat2Z.id, u32_small by lia.
Qed.

(** The available range of a segment: inside the segment, not reversed;
    the heap when the heap lies in the segment, the whole segment when the
    heap lies outside of it. *)
Lemma avail_cut_props (s e hs hc : Z) :
  s < e → hs ≤ hc →
  s ≤ avail_start_cut s e hs
  ∧ avail_start_cut s e hs ≤ avail_end_cut s e hc
  ∧ avail_end_cut s e hc ≤ e
  ∧ (s ≤ hs → hs < hc → hc ≤ e →
     avail_start_cut s e hs = hs ∧ avail_end_cut s e hc = hc)
  ∧ (hc ≤ s ∨ e ≤ hs →
     avail_start_cut s e hs = s ∧ avail_end_cut s e hc = e).
Proof.
  intros Hse Hh. unfold avail_start_cut, avail_end_cut.
  destruct (Z.ltb_spec hs s), (Z.geb_spec hs e), (Z.leb_spec hc s),
    (Z.gtb_spec hc e); cbn [orb]; lia.
Qed.

Lemma avail_cut_aligned (s e hs hc : Z) :
  s mod PAGE_SIZE = 0 → e mod PAGE_SIZE = 0 →
  hs mod PAGE_SIZE = 0 → hc mod PAGE_SIZE = 0 →
  avail_start_cut s e hs mod PAGE_SIZE = 0
  ∧ avail_end_cut s e hc mod PAGE_SIZE = 0.
Proof.
  intros. unfold avail_start_cut, avail_end_cut.
  by split; destruct (_ || _).
Qed.

Lemma segment_at_lookup (segs : list biosmem_segment) (i : nat) :
  (i < List.length segs)%nat → segs !! i = Some (segment_at segs i).
Proof.
  intros Hi. unfold segment_at.
  by destruct (lookup_lt_is_Some_2 segs i Hi) as [x ->].
Qed.

Section SetupLoop.

Variable VM_PAGE_SEG_DMA : Z.
Variable VM_PAGE_SEG_DMA32 : Z.
Variable VM_PAGE_SEG_DIRECTMAP : Z.
Variable VM_PAGE_SEG_HIGHMEM : Z.
Variable VM_PAGE_HIGHMEM_LIMIT : Z.
Variable segs : list biosmem_segment.
Variable heap_start heap_cur : Z.
Variable boot_segs : list VmPage.vm_page_boot_seg.
Variable n : nat.

Hypothesis Hn : (n ≤ List.length segs)%nat.
Hypothesis Hsegs : ∀ i, (i < n)%nat →
  0 ≤ seg_start (segment_at segs i)
  ∧ seg_start (segment_at segs i) < seg_end (segment_at segs i)
  ∧ seg_end (segment_at segs i) ≤ VM_PAGE_HIGHMEM_LIMIT
  ∧ seg_start (segment_at segs i) mod PAGE_SIZE = 0
  ∧ seg_end (segment_at segs i) mod PAGE_SIZE = 0.
Hypothesis Hlimit : VM_PAGE_HIGHMEM_LIMIT < 2 ^ 64.
Hypothesis Hstop :
  n = List.length segs ∨ biosmem_segment_size segs n = 0.
Hypothesis Hheap : heap_start ≤ heap_cur.
Hypothesis Hheap_start : heap_start mod PAGE_SIZE = 0.
Hypothesis Hheap_cur : heap_cur mod PAGE_SIZE = 0.
Hypothesis Hlen : Z.of_nat (List.length segs) < 2 ^ 32.

(** One turn of the loop of [biosmem_setup]. *)
Lemma setup_step (i : nat) (bst : biosmem_state)
    (vst : VmPage.vm_page_state) :
  (i < n)%nat →
  setup_inv segs heap_start heap_cur boot_segs i bst vst →
  ∃ bst' vst',
    biosmem_load_segment VM_PAGE_SEG_DMA VM_PAGE_SEG_DMA32
      VM_PAGE_SEG_DIRECTMAP VM_PAGE_SEG_HIGHMEM bst vst i
      VM_PAGE_HIGHMEM_LIMIT
      (seg_start (segment_at (biosmem_segments bst) i))
      (seg_end (segment_at (biosmem_segments bst) i))
      (biosmem_heap_start bst) (biosmem_heap_cur bst)
    = Ret (bst', vst')
    ∧ setup_inv segs heap_start heap_cur boot_segs (S i) bst' vst'.
Proof.
  intros Hi (Hhs & Hhc & Hblen & Hbounds & Hsize & Hvlen & Hdone & Hrest).
  destruct (Hbounds i) as [-> ->]. rewrite Hhs, Hhc.
  destruct (Hsegs i Hi) as (Hs0 & Hse & Hel & Hsm & Hem).
  set (s := seg_start (segment_at segs i)) in *.
  set (e := seg_end (segment_at segs i)) in *.
  destruct (avail_cut_props s e heap_start heap_cur Hse Hheap)
    as (Hc1 & Hc2 & Hc3 & _).
  destruct (avail_cut_aligned s e heap_start heap_cur Hsm Hem Hheap_start
              Hheap_cur) as [Hca Hcb].
  unfold biosmem_load_segment.
  destruct (Z.gtb_spec e VM_PAGE_HIGHMEM_LIMIT); [lia |].
  unfold load_segment_avail. cbv zeta.
  rewrite vm_page_load_ok by (try done; lia).
  cbn [mbind outcome_bind].
  eexists _, _. split; [done |].
  unfold setup_inv, set_biosmem_segments.
  cbn [biosmem_heap_start biosmem_heap_cur biosmem_segments
       VmPage.vm_page_segs_size VmPage.vm_page_boot_segs].
  split_and!; try done.
  - by rewrite length_alter.
  - intros j. destruct (Hbounds j) as [<- <-].
    unfold segment_at. rewrite list_lookup_alter.
    destruct (decide (i = j)) as [<- |]; [| done].
    by destruct (biosmem_segments bst !! i).
  - lia.
  - by rewrite length_insert.
  - intros j Hj. cbv zeta. destruct (decide (j = i)) as [-> | Hne].
    + rewrite list_lookup_insert_eq by lia. split; [done |].
      rewrite list_lookup_alter_eq.
      rewrite (segment_at_lookup (biosmem_segments bst) i) by lia.
      simpl. destruct (Hbounds i) as [-> ->]. done.
    + rewrite list_lookup_insert_ne by done.
      rewrite list_lookup_alter_ne by done.
      apply (Hdone j). lia.
  - intros j Hj. rewrite list_lookup_insert_ne by lia. apply Hrest. lia.
Qed.

Lemma setup_loop_spec (k i : nat) (bst : biosmem_state)
    (vst : VmPage.vm_page_state) :
  (i + k = List.length segs)%nat → (i ≤ n)%nat →
  setup_inv segs heap_start heap_cur boot_segs i bst vst →
  ∃ bst' vst',
    setup_loop VM_PAGE_SEG_DMA VM_PAGE_SEG_DMA32 VM_PAGE_SEG_DIRECTMAP
      VM_PAGE_SEG_HIGHMEM VM_PAGE_HIGHMEM_LIMIT k i bst vst
    = Ret (bst', vst')
    ∧ setup_inv segs heap_start heap_cur boot_segs n bst' vst'.
Proof.
  revert i bst vst. induction k as [| k IH]; intros i bst vst Hk Hin Hinv.
  - exists bst, vst. split; [done |].
    assert (i = n) as -> by (destruct Hstop; lia). done.
  - cbn [setup_loop].
    pose proof Hinv as (_ & _ & _ & Hbounds & _).
    assert (Hsz : biosmem_segment_size (biosmem_segments bst) i
                  = biosmem_segment_size segs i).
    { unfold biosmem_segment_size. by destruct (Hbounds i) as [-> ->]. }
    rewrite Hsz.
    destruct (decide (i = n)) as [-> | Hne].
    + destruct Hstop as [-> | ->]; [lia |].
      exists bst, vst. by split.
    + destruct (Hsegs i ltac:(lia)) as (Hs0 & Hse & Hel & _).
      unfold biosmem_segment_size at 1. rewrite u64_small by lia.
      destruct (Z.eqb_spec (seg_end (segment_at segs i)
                            - seg_start (segment_at segs i)) 0); [lia |].
      cbv zeta.
      destruct (setup_step i bst vst ltac:(lia) Hinv)
        as (bst1 & vst1 & -> & Hinv1).
      cbn [mbind outcome_bind]. apply IH; [lia | lia | done].
Qed.

End SetupLoop.

(** X15: [biosmem_setup] hands the segments found at bootstrap to the page
    allocator.  With page-aligned, non-empty segments below the HIGHMEM
    limit in the first [n] slots of the table, a page-aligned heap, and an
    empty boot table of the same length on the other side, it returns
    having loaded exactly these [n] segments, in order.  Each is recorded
    with an available range that lies inside it: the heap from its start
    to its cursor when the heap is inside the segment, the whole segment
    when the heap is outside of it.  The boot table is then valid:
    [vm_page_check_boot_segs] returns and the table is fit for
    [vm_page_setup]. *)
Theorem setup_loads_segments
    (VM_PAGE_SEG_DMA VM_PAGE_SEG_DMA32 VM_PAGE_SEG_DIRECTMAP
       VM_PAGE_SEG_HIGHMEM VM_PAGE_HIGHMEM_LIMIT : Z)
    (bst : biosmem_state) (vst : VmPage.vm_page_state) (n : nat) :
  (1 ≤ n ≤ List.length (biosmem_segments bst))%nat →
  (∀ i, (i < n)%nat →
     0 ≤ seg_start (segment_at (biosmem_segments bst) i)
     ∧ seg_start (segment_at (biosmem_segments bst) i)
       < seg_end (segment_at (biosmem_segments bst) i)
     ∧ seg_end (segment_at (biosmem_segments bst) i) ≤ VM_PAGE_HIGHMEM_LIMIT
     ∧ seg_start (segment_at (biosmem_segments bst) i) mod PAGE_SIZE = 0
     ∧ seg_end (segment_at (biosmem_segments bst) i) mod PAGE_SIZE = 0
     ∧ seg_end (segment_at (biosmem_segments bst) i)
       - seg_start (segment_at (biosmem_segments bst) i) < 2 ^ 43) →
  VM_PAGE_HIGHMEM_LIMIT < 2 ^ 64 →
  n = List.length (biosmem_segments bst)
  ∨ biosmem_segment_size (biosmem_segments bst) n = 0 →
  biosmem_heap_start bst ≤ biosmem_heap_cur bst →
  biosmem_heap_start bst mod PAGE_SIZE = 0 →
  biosmem_heap_cur bst mod PAGE_SIZE = 0 →
  VmPage.vm_page_segs_size vst = 0 →
  List.length (VmPage.vm_page_boot_segs vst)
  = List.length (biosmem_segments bst) →
  Z.of_nat (List.length (biosmem_segments bst)) < 2 ^ 32 →
  Forall (λ seg, VmPage.boot_end seg = 0) (VmPage.vm_page_boot_segs vst) →
  ∃ bst' vst',
    biosmem_setup VM_PAGE_SEG_DMA VM_PAGE_SEG_DMA32 VM_PAGE_SEG_DIRECTMAP
      VM_PAGE_SEG_HIGHMEM VM_PAGE_HIGHMEM_LIMIT bst vst
    = Ret (bst', vst')
    ∧ VmPage.vm_page_segs_size vst' = Z.of_nat n
    ∧ (∀ i, (i < n)%nat →
         ∃ a b,
           let s := seg_start (segment_at (biosmem_segments bst) i) in
           let e := seg_end (segment_at (biosmem_segments bst) i) in
           VmPage.vm_page_boot_segs vst' !! i = Some (VmPage.BootSeg s e a b)
           ∧ biosmem_segments bst' !! i = Some (Segment s e a b)
           ∧ s ≤ a ∧ a ≤ b ∧ b ≤ e
           ∧ (s ≤ biosmem_heap_start bst →
              biosmem_heap_start bst < biosmem_heap_cur bst →
              biosmem_heap_cur bst ≤ e →
              a = biosmem_heap_start bst ∧ b = biosmem_heap_cur bst)
           ∧ (biosmem_heap_cur bst ≤ s ∨ e ≤ biosmem_heap_start bst →
              a = s ∧ b = e))
    ∧ VmPage.boot_ok vst'
    ∧ VmPage.vm_page_check_boot_segs vst' = Ret ().
Proof.
  intros Hn Hsegs Hlimit Hstop Hheap Hhs Hhc Hsize Hvlen Hlen Hempty.
  destruct (setup_loop_spec VM_PAGE_SEG_DMA VM_PAGE_SEG_DMA32
              VM_PAGE_SEG_DIRECTMAP VM_PAGE_SEG_HIGHMEM VM_PAGE_HIGHMEM_LIMIT
              (biosmem_segments bst) (biosmem_heap_start bst)
              (biosmem_heap_cur bst) (VmPage.vm_page_boot_segs vst) n)
    with (k := List.length (biosmem_segments bst)) (i := 0%nat)
         (bst := bst) (vst := vst)
    as (bst' & vst' & Hcode & Hinv); try done; try lia.
  { intros i Hi. destruct (Hsegs i Hi) as (? & ? & ? & ? & ? & ?).
    by split_and!. }
  { unfold setup_inv. split_and!; try done. intros j Hj. lia. }
  destruct Hinv as (_ & _ & _ & _ & Hsize' & Hvlen' & Hdone & Hrest).
  exists bst', vst'. split; [exact Hcode |]. split; [done |].
  assert (Hcut : ∀ i, (i < n)%nat →
    let s := seg_start (segment_at (biosmem_segments bst) i) in
    let e := seg_end (segment_at (biosmem_segments bst) i) in
    VmPage.boot_seg_ok
      (VmPage.BootSeg s e (avail_start_cut s e (biosmem_heap_start bst))
         (avail_end_cut s e (biosmem_heap_cur bst)))).
  { intros i Hi s e.
    destruct (Hsegs i Hi) as (Hs0 & Hse & Hel & Hsm & Hem & H43).
    destruct (avail_cut_props s e _ _ Hse Hheap) as (Hc1 & Hc2 & Hc3 & _).
    destruct (avail_cut_aligned s e _ _ Hsm Hem Hhs Hhc) as [Hca Hcb].
    unfold VmPage.boot_seg_ok. simpl. fold s e. split_and!; try done; lia. }
  split_and!.
  - intros i Hi. destruct (Hdone i Hi) as [Hv Hb]. cbv zeta in Hv, Hb.
    destruct (Hsegs i Hi) as (Hs0 & Hse & _).
    destruct (avail_cut_props _ _ _ _ Hse Hheap)
      as (Hc1 & Hc2 & Hc3 & Hin & Hout).
    eexists _, _. cbv zeta. by split_and!.
  - unfold VmPage.boot_ok. rewrite Hsize', Hvlen'.
    split; [lia |]. split; [lia |].
    rewrite Forall_forall. intros seg Hseg.
    apply list_elem_of_lookup in Hseg as [i Hi]. unfold VmPage.boot_loaded in Hi.
    rewrite Hsize', Nat2Z.id in Hi.
    destruct (decide (i < n)%nat) as [Hlt |];
      [| by rewrite lookup_take_ge in Hi by lia].
    rewrite lookup_take_lt in Hi by done.
    destruct (Hdone i Hlt) as [Hv _]. cbv zeta in Hv.
    rewrite Hv in Hi. injection Hi as <-. by apply Hcut.
  - unfold VmPage.vm_page_check_boot_segs. rewrite Hsize'.
    destruct (Z.eqb_spec (Z.of_nat n) 0); [lia |].
    apply (proj1 (check_boot_segs_loop_spec _ _ _)).
    intros i seg Hi. rewrite Z.add_0_l.
    destruct (decide (i < n)%nat) as [Hlt | Hge].
    + destruct (Hdone i Hlt) as [Hv _]. cbv zeta in Hv.
      rewrite Hv in Hi. injection Hi as <-. simpl.
      destruct (Hsegs i Hlt) as (? & ? & _). lia.
    + rewrite Hrest in Hi by lia. rewrite Forall_forall in Hempty.
      rewrite (Hempty seg) by by eapply list_elem_of_lookup_2. lia.
Qed.

Lemma setup_loads_segments_witness :
  ∃ bst' vst',
    biosmem_setup 0 1 2 3 0x100000000
      (State []
         [Segment 0x1000 0x1000000 0 0; Segment 0x1000000 0x8000000 0 0;
          Segment 0 0 0 0; Segment 0 0 0 0]
         0x7000000 0x7ff0000 0x8000000 0x8000000)
      (VmPage.VmState false [] (replicate 4 (VmPage.BootSeg 0 0 0 0)) 0)
    = Ret (bst', vst')
    ∧ VmPage.vm_page_segs_size vst' = Z.of_nat 2
    ∧ (∀ i, (i < 2)%nat →
         ∃ a b,
           let s := seg_start
                      (segment_at
                         [Segment 0x1000 0x1000000 0 0;
                          Segment 0x1000000 0x8000000 0 0;
                          Segment 0 0 0 0; Segment 0 0 0 0] i) in
           let e := seg_end
                      (segment_at
                         [Segment 0x1000 0x1000000 0 0;
                          Segment 0x1000000 0x8000000 0 0;
                          Segment 0 0 0 0; Segment 0 0 0 0] i) in
           VmPage.vm_page_boot_segs vst' !! i = Some (VmPage.BootSeg s e a b)
           ∧ biosmem_segments bst' !! i = Some (Segment s e a b)
           ∧ s ≤ a ∧ a ≤ b ∧ b ≤ e
           ∧ (s ≤ 0x7000000 → 0x7000000 < 0x7ff0000 → 0x7ff0000 ≤ e →
              a = 0x7000000 ∧ b = 0x7ff0000)
           ∧ (0x7ff0000 ≤ s ∨ e ≤ 0x7000000 → a = s ∧ b = e))
    ∧ VmPage.boot_ok vst'
    ∧ VmPage.vm_page_check_boot_segs vst' = Ret ().
Proof.
  apply (setup_loads_segments 0 1 2 3 0x100000000
           (State []
              [Segment 0x1000 0x1000000 0 0; Segment 0x1000000 0x8000000 0 0;
               Segment 0 0 0 0; Segment 0 0 0 0]
              0x7000000 0x7ff0000 0x8000000 0x8000000)
           (VmPage.VmState false [] (replicate 4 (VmPage.BootSeg 0 0 0 0)) 0)
           2).
  - simpl. lia.
  - intros [| [| i]] Hi; [| | lia]; vm_compute; repeat split; congruence.
  - lia.
  - right. reflexivity.
  - simpl. lia.
  - reflexivity.
  - reflexivity.
  - reflexivity.
  - reflexivity.
  - simpl. lia.
  - repeat constructor.
Defined.

(** On that machine the first segment, which the heap does not meet, is
    available as a whole, and the second one from the start of the heap to
    its cursor. *)
Lemma example_setup :
  (r ← biosmem_setup 0 1 2 3 0x100000000
         (State []
            [Segment 0x1000 0x1000000 0 0; Segment 0x1000000 0x8000000 0 0;
             Segment 0 0 0 0; Segment 0 0 0 0]
            0x7000000 0x7ff0000 0x8000000 0x8000000)
         (VmPage.VmState false [] (replicate 4 (VmPage.BootSeg 0 0 0 0)) 0);
   Ret (VmPage.vm_page_boot_segs r.2))
  = Ret [VmPage.BootSeg 0x1000 0x1000000 0x1000 0x1000000;
         VmPage.BootSeg 0x1000000 0x8000000 0x7000000 0x7ff0000;
         VmPage.BootSeg 0 0 0 0; VmPage.BootSeg 0 0 0 0].
Proof. by vm_compute. Qed.

(** ** Boot data *)

(** The scan of [biosmem_find_boot_data] over a list of ranges. *)
Lemma fold_update_spec (min : Z) (data : list (Z * Z)) (cur r : Z * Z) :
  fold_left (λ cur d, biosmem_find_boot_data_update min cur d.1 d.2)
    data cur = r →
  (r = cur ∧ ∀ d, d ∈ data → ¬ (min ≤ d.1 < cur.1))
  ∨ (r ∈ data ∧ min ≤ r.1 < cur.1
     ∧ ∀ d, d ∈ data → min ≤ d.1 → r.1 ≤ d.1).
Proof.
  revert cur. induction data as [| d data IH]; intros cur Hr; simpl in Hr.
  { left. split; [done |]. intros d Hd. by apply elem_of_nil in Hd. }
  assert (Hkeep : ¬ (min ≤ d.1 < cur.1) →
            (r = cur ∧ ∀ d', d' ∈ d :: data → ¬ (min ≤ d'.1 < cur.1))
            ∨ (r ∈ d :: data ∧ min ≤ r.1 < cur.1
               ∧ ∀ d', d' ∈ d :: data → min ≤ d'.1 → r.1 ≤ d'.1)).
  { intros Hout.
    assert (biosmem_find_boot_data_update min cur d.1 d.2 = cur) as Hupd.
    { unfold biosmem_find_boot_data_update.
      destruct (Z.leb_spec min d.1), (Z.ltb_spec d.1 cur.1); simpl;
        try done; lia. }
    rewrite Hupd in Hr.
    destruct (IH cur Hr) as [[-> Hnone] | (Hin & Hr' & Hleast)].
    - left. split; [done |]. intros d' Hd'.
      apply elem_of_cons in Hd' as [-> | Hd']; [done | by apply Hnone].
    - right. split_and!; [by right | lia | lia |].
      intros d' Hd' Hmin'. apply elem_of_cons in Hd' as [-> | Hd']; [lia |].
      by apply Hleast. }
  destruct (decide (min ≤ d.1 < cur.1)) as [Hin | Hout]; [| by apply Hkeep].
  (* the range becomes the current one *)
  assert (biosmem_find_boot_data_update min cur d.1 d.2 = d) as Hupd.
  { unfold biosmem_find_boot_data_update.
    destruct (Z.leb_spec min d.1), (Z.ltb_spec d.1 cur.1); simpl;
      try lia. by destruct d. }
  rewrite Hupd in Hr. right.
  destruct (IH d Hr) as [[-> Hnone] | (Hin' & Hr' & Hleast)].
  - split_and!; [by left | lia | lia |].
    intros d' Hd' Hmin'. apply elem_of_cons in Hd' as [-> | Hd']; [done |].
    specialize (Hnone d' Hd'). lia.
  - split_and!; [by right | lia | lia |].
    intros d' Hd' Hmin'. apply elem_of_cons in Hd' as [-> | Hd']; [lia |].
    by apply Hleast.
Qed.

Section BootDataScan.

Variable MULTIBOOT_LOADER_CMDLINE : Z.
Variable MULTIBOOT_LOADER_MODULES : Z.
Variable MULTIBOOT_LOADER_SHDR : Z.
Variable sizeof_module : Z.
Variable ELF_SHT_SYMTAB : Z.
Variable ELF_SHT_STRTAB : Z.
Variable kernel_start : Z.
Variable kernel_end : Z.

(** The loops over the modules and over the section headers scan the
    ranges of [module_data] and of [shdr_data]. *)
Lemma boot_data_mods_fold (mbi : multiboot_raw_info) (min : Z) (n i : nat)
    (cur : Z * Z) :
  (i + n ≤ List.length (mods mbi))%nat →
  boot_data_mods n i mbi min cur
  = Ret (fold_left
           (λ cur d, biosmem_find_boot_data_update min cur d.1 d.2)
           (take n (drop i (mods mbi)) ≫= module_data) cur).
Proof.
  revert i cur. induction n as [| n IH]; intros i cur Hn; [done |].
  cbn [boot_data_mods].
  destruct (lookup_lt_is_Some_2 (mods mbi) i ltac:(lia)) as [rmod Hmod].
  rewrite Hmod. cbn [deref mbind outcome_bind]. rewrite IH by lia.
  rewrite (drop_S _ _ _ Hmod). cbn [take]. rewrite bind_cons, fold_left_app.
  do 2 f_equal. unfold module_data.
  by destruct (mod_string rmod =? 0).
Qed.

Lemma boot_data_shdrs_fold (mbi : multiboot_raw_info) (min : Z) (n i : nat)
    (cur : Z * Z) :
  (i + n ≤ List.length (shdrs mbi))%nat →
  boot_data_shdrs ELF_SHT_SYMTAB ELF_SHT_STRTAB n i mbi min cur
  = Ret (fold_left
           (λ cur d, biosmem_find_boot_data_update min cur d.1 d.2)
           (take n (drop i (shdrs mbi))
              ≫= shdr_data ELF_SHT_SYMTAB ELF_SHT_STRTAB) cur).
Proof.
  revert i cur. induction n as [| n IH]; intros i cur Hn; [done |].
  cbn [boot_data_shdrs].
  destruct (lookup_lt_is_Some_2 (shdrs mbi) i ltac:(lia)) as [shdr Hshdr].
  rewrite Hshdr. cbn [deref mbind outcome_bind].
  rewrite (drop_S _ _ _ Hshdr). cbn [take]. rewrite bind_cons, fold_left_app.
  unfold shdr_data at 2.
  destruct (negb (sh_type shdr =? ELF_SHT_SYMTAB)
            && negb (sh_type shdr =? ELF_SHT_STRTAB)); by rewrite IH by lia.
Qed.

(** [biosmem_find_boot_data] scans the ranges of [boot_data]. *)
Lemma find_boot_data_fold (mbi : multiboot_raw_info) (min max endp : Z) :
  0 ≤ mods_count mbi ≤ Z.of_nat (List.length (mods mbi)) →
  0 ≤ shdr_num mbi ≤ Z.of_nat (List.length (shdrs mbi)) →
  biosmem_find_boot_data MULTIBOOT_LOADER_CMDLINE MULTIBOOT_LOADER_MODULES
    MULTIBOOT_LOADER_SHDR sizeof_module ELF_SHT_SYMTAB ELF_SHT_STRTAB
    kernel_start kernel_end mbi min max endp
  = Ret (let cur :=
           fold_left
             (λ cur d, biosmem_find_boot_data_update min cur d.1 d.2)
             (boot_data MULTIBOOT_LOADER_CMDLINE MULTIBOOT_LOADER_MODULES
                MULTIBOOT_LOADER_SHDR sizeof_module ELF_SHT_SYMTAB
                ELF_SHT_STRTAB kernel_start kernel_end mbi)
             (max, 0) in
         if cur.1 =? max then (0, endp) else cur).
Proof.
  intros Hmods Hshdrs. unfold biosmem_find_boot_data, boot_data. cbv zeta.
  cbn [fold_left]. rewrite !fold_left_app.
  set (cur1 := biosmem_find_boot_data_update min (max, 0) _ _).
  change ((kernel_start, kernel_end).1) with kernel_start.
  change ((kernel_start, kernel_end).2) with kernel_end. fold cur1.
  set (cur2 := if negb (Z.land (flags mbi) MULTIBOOT_LOADER_CMDLINE =? 0)
                  && negb (cmdline mbi =? 0)
               then biosmem_find_boot_data_update min cur1 (cmdline mbi)
                      (u32 (cmdline mbi + unused0 mbi))
               else cur1).
  assert (fold_left (λ cur d, biosmem_find_boot_data_update min cur d.1 d.2)
            (if negb (Z.land (flags mbi) MULTIBOOT_LOADER_CMDLINE =? 0)
                && negb (cmdline mbi =? 0)
             then [(cmdline mbi, u32 (cmdline mbi + unused0 mbi))] else [])
            cur1 = cur2) as ->.
  { unfold cur2. by destruct (_ && _). }
  destruct (negb (Z.land (flags mbi) MULTIBOOT_LOADER_MODULES =? 0));
    destruct (negb (Z.land (flags mbi) MULTIBOOT_LOADER_SHDR =? 0));
    rewrite ?boot_data_mods_fold by (simpl; lia);
    cbn [mbind outcome_bind];
    rewrite ?boot_data_shdrs_fold by (simpl; lia);
    cbn [mbind outcome_bind fold_left drop fst snd];
    by destruct (_ =? max).
Qed.

End BootDataScan.

(** X16: [biosmem_find_boot_data] for a window from [min], above 0, to
    [max], with module and section header tables as long as their counts.
    It scans the kernel, the command line, the module table, the modules
    and their command lines, the section header table and the symbol and
    string tables.  If none of these ranges starts inside the window it
    returns 0 and leaves [*endp] alone; otherwise it returns the lowest
    start of a range that starts inside the window, and the end of that
    range in [*endp]. *)
Theorem find_boot_data_lowest
    (MULTIBOOT_LOADER_CMDLINE MULTIBOOT_LOADER_MODULES MULTIBOOT_LOADER_SHDR
       sizeof_module ELF_SHT_SYMTAB ELF_SHT_STRTAB kernel_start kernel_end : Z)
    (mbi : multiboot_raw_info) (min max endp : Z) :
  0 ≤ mods_count mbi ≤ Z.of_nat (List.length (mods mbi)) →
  0 ≤ shdr_num mbi ≤ Z.of_nat (List.length (shdrs mbi)) →
  0 < min →
  let data :=
    boot_data MULTIBOOT_LOADER_CMDLINE MULTIBOOT_LOADER_MODULES
      MULTIBOOT_LOADER_SHDR sizeof_module ELF_SHT_SYMTAB ELF_SHT_STRTAB
      kernel_start kernel_end mbi in
  ∃ ret endp',
    biosmem_find_boot_data MULTIBOOT_LOADER_CMDLINE MULTIBOOT_LOADER_MODULES
      MULTIBOOT_LOADER_SHDR sizeof_module ELF_SHT_SYMTAB ELF_SHT_STRTAB
      kernel_start kernel_end mbi min max endp
    = Ret (ret, endp')
    ∧ ((ret = 0 ∧ endp' = endp ∧ ∀ d, d ∈ data → ¬ (min ≤ d.1 < max))
       ∨ ((ret, endp') ∈ data ∧ min ≤ ret < max
          ∧ ∀ d, d ∈ data → min ≤ d.1 → ret ≤ d.1)).
Proof.
  intros Hmods Hshdrs Hmin data.
  rewrite find_boot_data_fold by done. cbv zeta. fold data.
  destruct (fold_left _ data (max, 0)) as [ret endp'] eqn:Hfold.
  destruct (fold_update_spec min data (max, 0) _ Hfold)
    as [[Hr Hnone] | (Hin & Hr & Hleast)]; simpl in *.
  - injection Hr as -> ->. rewrite Z.eqb_refl.
    exists 0, endp. split; [done |]. left. by split_and!.
  - destruct (Z.eqb_spec ret max); [lia |].
    exists ret, endp'. split; [done |]. right. split; [done |]. by split.
Qed.

Lemma find_boot_data_lowest_witness :
  ∃ ret endp',
    biosmem_find_boot_data 4 8 32 16 2 3 0x100000 0x400000 example_mbi
      0x400000 0x7f00000 0x400000
    = Ret (ret, endp')
    ∧ ((ret = 0 ∧ endp' = 0x400000
        ∧ ∀ d, d ∈ boot_data 4 8 32 16 2 3 0x100000 0x400000 example_mbi →
               ¬ (0x400000 ≤ d.1 < 0x7f00000))
       ∨ ((ret, endp')
            ∈ boot_data 4 8 32 16 2 3 0x100000 0x400000 example_mbi
          ∧ 0x400000 ≤ ret < 0x7f00000
          ∧ ∀ d, d ∈ boot_data 4 8 32 16 2 3 0x100000 0x400000 example_mbi →
                 0x400000 ≤ d.1 → ret ≤ d.1)).
Proof.
  apply (find_boot_data_lowest 4 8 32 16 2 3 0x100000 0x400000 example_mbi
           0x400000 0x7f00000 0x400000); simpl; lia.
Defined.

(** With a kernel from 1 MiB to 4 MiB and one module from 8 MiB to 9 MiB,
    the first boot data from 4 MiB on is the module. *)
Lemma example_find_boot_data :
  biosmem_find_boot_data 4 8 32 16 2 3 0x100000 0x400000 example_mbi
    0x400000 0x7f00000 0x400000
  = Ret (0x800000, 0x900000).
Proof. reflexivity. Qed.

(** ** The choice of the heap *)






Section Allocator.

Variable MULTIBOOT_LOADER_CMDLINE : Z.
Variable MULTIBOOT_LOADER_MODULES : Z.
Variable MULTIBOOT_LOADER_SHDR : Z.
Variable sizeof_module : Z.
Variable ELF_SHT_SYMTAB : Z.
Variable ELF_SHT_STRTAB : Z.
Variable kernel_start : Z.
Variable kernel_end : Z.
Variable BIOSMEM_END : Z.
Variable mbi : multiboot_raw_info.
Variable mem_end : Z.

Hypothesis Hmods : 0 ≤ mods_count mbi ≤ Z.of_nat (List.length (mods mbi)).
Hypothesis Hshdrs : 0 ≤ shdr_num mbi ≤ Z.of_nat (List.length (shdrs mbi)).
Hypothesis Hbase : 0 < BIOSMEM_END ≤ mem_end.
Hypothesis Hmem : mem_end < 2 ^ 32.
(* a range that starts in the window is not empty and ends in it *)
Hypothesis Hinside : ∀ d,
  d ∈ boot_data MULTIBOOT_LOADER_CMDLINE MULTIBOOT_LOADER_MODULES
        MULTIBOOT_LOADER_SHDR sizeof_module ELF_SHT_SYMTAB ELF_SHT_STRTAB
        kernel_start kernel_end mbi →
  BIOSMEM_END ≤ d.1 < mem_end → d.1 < d.2 ≤ mem_end.
(* a range that starts below the window ends below it *)
Hypothesis Hbelow : ∀ d,
  d ∈ boot_data MULTIBOOT_LOADER_CMDLINE MULTIBOOT_LOADER_MODULES
        MULTIBOOT_LOADER_SHDR sizeof_module ELF_SHT_SYMTAB ELF_SHT_STRTAB
        kernel_start kernel_end mbi →
  d.1 < BIOSMEM_END → d.2 ≤ BIOSMEM_END.
(* two ranges that start in the window are the same or do not meet *)
Hypothesis Hdisjoint : ∀ d d',
  d ∈ boot_data MULTIBOOT_LOADER_CMDLINE MULTIBOOT_LOADER_MODULES
        MULTIBOOT_LOADER_SHDR sizeof_module ELF_SHT_SYMTAB ELF_SHT_STRTAB
        kernel_start kernel_end mbi →
  d' ∈ boot_data MULTIBOOT_LOADER_CMDLINE MULTIBOOT_LOADER_MODULES
         MULTIBOOT_LOADER_SHDR sizeof_module ELF_SHT_SYMTAB ELF_SHT_STRTAB
         kernel_start kernel_end mbi →
  BIOSMEM_END ≤ d.1 < mem_end → BIOSMEM_END ≤ d'.1 < mem_end →
  d = d' ∨ d.2 ≤ d'.1 ∨ d'.2 ≤ d.1.



End Allocator.




(** On that machine, with the kernel from 1 MiB to 4 MiB, the heap is the
    gap above the module, up to the end of memory. *)
Lemma example_setup_allocator :
  biosmem_setup_allocator 4 8 32 16 2 3 0x100000 0x400000 0x100000
    0x38000000 example_mbi (State [] [] 0 0 0 0)
  = Ret (State [] [] 0x900000 0x8000000 0x8000000 0).
Proof. reflexivity. Qed.

(** ** The segments found at bootstrap *)




Section Windows.

Variable BIOSMEM_BASE : Z.
Variable VM_PAGE_DMA_LIMIT : Z.
Variable VM_PAGE_DMA32_LIMIT : option Z.
Variable VM_PAGE_DIRECTMAP_LIMIT : Z.
Variable VM_PAGE_HIGHMEM_LIMIT : Z.
Variable VM_PAGE_SEG_DMA : nat.
Variable VM_PAGE_SEG_DMA32 : nat.
Variable VM_PAGE_SEG_DIRECTMAP : nat.
Variable VM_PAGE_SEG_HIGHMEM : nat.
Variable m : biosmem_map_t.
Variable segs0 : list biosmem_segment.

Hypothesis Hcanonical : map_canonical m = true.
Hypothesis Hbases : Forall (λ e, 0 ≤ base_addr e ≤ 2 ^ 64 - PAGE_SIZE) m.
Hypothesis Hbase : 0 ≤ BIOSMEM_BASE < VM_PAGE_DMA_LIMIT.
Hypothesis Hdirectmap :
  default VM_PAGE_DMA_LIMIT VM_PAGE_DMA32_LIMIT < VM_PAGE_DIRECTMAP_LIMIT.
Hypothesis Hhighmem : VM_PAGE_DIRECTMAP_LIMIT < VM_PAGE_HIGHMEM_LIMIT < 2 ^ 64.
Hypothesis Halign :
  BIOSMEM_BASE mod PAGE_SIZE = 0 ∧ VM_PAGE_DMA_LIMIT mod PAGE_SIZE = 0
  ∧ VM_PAGE_DIRECTMAP_LIMIT mod PAGE_SIZE = 0
  ∧ VM_PAGE_HIGHMEM_LIMIT mod PAGE_SIZE = 0.
Hypothesis Hindex :
  (VM_PAGE_SEG_DMA < List.length segs0)%nat
  ∧ (VM_PAGE_SEG_DIRECTMAP < List.length segs0)%nat
  ∧ (VM_PAGE_SEG_HIGHMEM < List.length segs0)%nat
  ∧ VM_PAGE_SEG_DMA ≠ VM_PAGE_SEG_DIRECTMAP
  ∧ VM_PAGE_SEG_DMA ≠ VM_PAGE_SEG_HIGHMEM
  ∧ VM_PAGE_SEG_DIRECTMAP ≠ VM_PAGE_SEG_HIGHMEM.


End Windows.




(** With 2 GiB of memory, a DMA limit of 16 MiB and a direct mapping
    limited to 896 MiB, the three segments are the three windows. *)
Lemma example_bootstrap_segments :
  bootstrap_segments 0x10000 0x1000000 None 0x38000000 0x10000000000000
    0 1 1 2 [Entry 0 0x80000000 BIOSMEM_TYPE_AVAILABLE]
    (replicate 3 (Segment 0 0 0 0))
  = Ret ([Segment 0x10000 0x1000000 0 0; Segment 0x1000000 0x38000000 0 0;
          Segment 0x38000000 0x80000000 0 0], 0x38000000).
Proof. reflexivity. Qed.

(** ** Releasing the usable memory: the scan of an entry *)

Lemma update_start_spec (start res_start res_end : Z) :
  (biosmem_free_usable_update_start start res_start res_end = start
   ∧ ¬ res_start ≤ start < res_end)
  ∨ (biosmem_free_usable_update_start start res_start res_end = res_end
     ∧ res_start ≤ start < res_end).
Proof.
  unfold biosmem_free_usable_update_start.
  destruct (start >=? res_start) eqn:H1; destruct (start <? res_end) eqn:H2;
    simpl; lia.
Qed.

Lemma reserved_iff (ks ke : Z) (bst : biosmem_state) (a : Z) :
  biosmem_free_usable_reserved ks ke bst a = true
  ↔ ks ≤ a < ke
    ∨ biosmem_heap_start bst ≤ a < biosmem_heap_end bst
    ∨ ∃ seg, seg ∈ biosmem_segments bst
             ∧ seg_avail_start seg ≤ a < seg_avail_end seg.
Proof.
  unfold biosmem_free_usable_reserved.
  destruct ((a >=? ks) && (a <? ke)) eqn:H1.
  { split; [| done]. intros _. left. lia. }
  destruct ((a >=? biosmem_heap_start bst) && (a <? biosmem_heap_end bst))
    eqn:H2.
  { split; [| done]. intros _. right. left. lia. }
  rewrite existsb_exists. split.
  - intros (seg & Hin & Hseg). right. right. exists seg.
    split; [by apply list_elem_of_In | lia].
  - intros [H | [H | (seg & Hin & Hseg)]]; [lia | lia |].
    exists seg. split; [by apply list_elem_of_In | lia].
Qed.

(** The walk of [biosmem_free_usable_start] over the available ranges of
    the segments. *)
Lemma start_fold_spec (segs : list biosmem_segment) (start : Z) :
  let s :=
    fold_left
      (λ start seg,
         biosmem_free_usable_update_start start (seg_avail_start seg)
           (seg_avail_end seg)) segs start in
  start ≤ s
  ∧ (∀ a, start ≤ a < s →
       ∃ seg, seg ∈ segs ∧ seg_avail_start seg ≤ a < seg_avail_end seg)
  ∧ (s = start →
       ∀ seg, seg ∈ segs → ¬ seg_avail_start seg ≤ start < seg_avail_end seg).
Proof.
  revert start. induction segs as [| seg segs IH]; intros start; simpl.
  { split; [lia |]. split; [lia |]. intros _ seg Hin. by inversion Hin. }
  destruct (IH (biosmem_free_usable_update_start start (seg_avail_start seg)
                  (seg_avail_end seg))) as (Hle & Hin & Heq).
  destruct (update_start_spec start (seg_avail_start seg) (seg_avail_end seg))
    as [[Hu Hout] | [Hu Hins]]; rewrite Hu in *.
  - split; [done |]. split.
    + intros a Ha. destruct (Hin a Ha) as (seg' & Hseg' & Ha').
      exists seg'. split; [by right | done].
    + intros Hs seg' Hseg'. apply elem_of_cons in Hseg' as [-> | Hseg'];
        [done | by apply Heq].
  - split; [lia |]. split; [| lia].
    intros a Ha. destruct (decide (a < seg_avail_end seg)).
    + exists seg. split; [by left | lia].
    + destruct (Hin a ltac:(lia)) as (seg' & Hseg' & Ha').
      exists seg'. split; [by right | done].
Qed.

Lemma free_usable_start_spec (ks ke : Z) (bst : biosmem_state) (start : Z) :
  let s := biosmem_free_usable_start ks ke bst start in
  start ≤ s
  ∧ (∀ a, start ≤ a < s → biosmem_free_usable_reserved ks ke bst a = true)
  ∧ (s = start → biosmem_free_usable_reserved ks ke bst start = false).
Proof.
  unfold biosmem_free_usable_start. cbv zeta.
  set (s1 := biosmem_free_usable_update_start start ks ke).
  set (s2 := biosmem_free_usable_update_start s1 (biosmem_heap_start bst)
               (biosmem_heap_end bst)).
  destruct (start_fold_spec (biosmem_segments bst) s2) as (Hle & Hin & Heq).
  cbv zeta in Hle, Hin, Heq.
  set (s3 := fold_left _ (biosmem_segments bst) s2) in *.
  destruct (update_start_spec start ks ke) as [[H1 Ho1] | [H1 Hi1]];
    fold s1 in H1;
    destruct (update_start_spec s1 (biosmem_heap_start bst)
                (biosmem_heap_end bst)) as [[H2 Ho2] | [H2 Hi2]];
    fold s2 in H2.
  - split; [lia |]. split.
    + intros a Ha. apply reserved_iff. right. right. apply Hin. lia.
    + intros Hs. destruct (biosmem_free_usable_reserved ks ke bst start)
        eqn:Hres; [| done].
      apply reserved_iff in Hres as [H | [H | (seg & Hseg & H)]]; [lia | lia |].
      exfalso. apply (Heq ltac:(lia) seg Hseg). lia.
  - split; [lia |]. split; [| lia].
    intros a Ha. apply reserved_iff.
    destruct (decide (a < s2)); [right; left; lia |].
    right. right. apply Hin. lia.
  - split; [lia |]. split; [| lia].
    intros a Ha. apply reserved_iff.
    destruct (decide (a < s1)); [left; lia |].
    right. right. apply Hin. lia.
  - split; [lia |]. split; [| lia].
    intros a Ha. apply reserved_iff.
    destruct (decide (a < s1)); [left; lia |].
    destruct (decide (a < s2)); [right; left; lia |].
    right. right. apply Hin. lia.
Qed.

(** The fuel covers the pages from [start] to [end_]. *)
Lemma free_usable_fuel_spec (start end_ : Z) :
  end_ - start ≤ (Z.of_nat (free_usable_fuel start end_) - 1) * PAGE_SIZE.
Proof.
  unfold free_usable_fuel, PAGE_SIZE.
  destruct (decide (0 ≤ end_ - start)).
  - pose proof (Z.div_pos (end_ - start) 4096 ltac:(lia) ltac:(lia)).
    pose proof (Z.div_mod (end_ - start) 4096 ltac:(lia)).
    pose proof (Z.mod_pos_bound (end_ - start) 4096 ltac:(lia)).
    lia.
  - lia.
Qed.

(** The loop of [biosmem_free_usable_end] stops at the first reserved
    address among [start], [start + PAGE_SIZE], ..., or at the first of
    them that is not below [entry_end]. *)
Lemma free_usable_end_loop_spec (ks ke : Z) (bst : biosmem_state)
    (entry_end : Z) (fuel : nat) (start : Z) :
  0 ≤ start → entry_end ≤ 2 ^ 64 - PAGE_SIZE →
  (1 ≤ fuel)%nat → entry_end - start ≤ (Z.of_nat fuel - 1) * PAGE_SIZE →
  ∃ n, 0 ≤ n
    ∧ free_usable_end_loop ks ke fuel bst start entry_end
      = Ret (start + n * PAGE_SIZE)
    ∧ (∀ k, 0 ≤ k < n →
         biosmem_free_usable_reserved ks ke bst (start + k * PAGE_SIZE) = false
         ∧ start + k * PAGE_SIZE < entry_end)
    ∧ (start + n * PAGE_SIZE < entry_end →
         biosmem_free_usable_reserved ks ke bst (start + n * PAGE_SIZE) = true).
Proof.
  unfold PAGE_SIZE.
  revert start. induction fuel as [| fuel IH]; intros start H0 He H1 Hfuel;
    [lia |].
  simpl. destruct (start <? entry_end) eqn:Hlt.
  - destruct (biosmem_free_usable_reserved ks ke bst start) eqn:Hres.
    + exists 0. rewrite Z.add_0_r. split_and!; [lia | done | lia | done].
    + unfold PAGE_SIZE at 1. rewrite u64_small by lia.
      destruct (IH (start + 4096)) as (n & Hn & Hcode & Hfree & Hstop);
        [lia | lia | lia | lia |].
      exists (n + 1). split; [lia |].
      replace (start + (n + 1) * 4096) with (start + 4096 + n * 4096) by lia.
      split; [done |]. split; [| done].
      intros k Hk. destruct (decide (k = 0)) as [-> | Hne].
      * rewrite Z.add_0_r. split; [done | lia].
      * replace (start + k * 4096) with (start + 4096 + (k - 1) * 4096)
          by lia.
        apply Hfree. lia.
  - exists 0. rewrite Z.add_0_r. split_and!; [lia | done | lia | lia].
Qed.

(** X20: one round of the scan of an entry in [biosmem_free_usable_entry].
    [biosmem_free_usable_start] only moves forward and only skips reserved
    addresses (of the kernel, the heap or the available range of a
    segment).  From there [biosmem_free_usable_end] returns, a whole number
    of pages further: none of the page-wise addresses before its result is
    reserved, all are below the end of the entry, the result is itself
    reserved unless it reaches the end of the entry, and it lies past the
    address the round started with. *)
Theorem free_usable_scan (ks ke : Z) (bst : biosmem_state)
    (start entry_end : Z) :
  0 ≤ start → entry_end ≤ 2 ^ 64 - PAGE_SIZE →
  let s := biosmem_free_usable_start ks ke bst start in
  start ≤ s
  ∧ (∀ a, start ≤ a < s → biosmem_free_usable_reserved ks ke bst a = true)
  ∧ (s < entry_end →
       ∃ n, 0 ≤ n
         ∧ biosmem_free_usable_end ks ke bst s entry_end
           = Ret (s + n * PAGE_SIZE)
         ∧ start < s + n * PAGE_SIZE
         ∧ (∀ k, 0 ≤ k < n →
              biosmem_free_usable_reserved ks ke bst (s + k * PAGE_SIZE)
              = false
              ∧ s + k * PAGE_SIZE < entry_end)
         ∧ (s + n * PAGE_SIZE < entry_end →
              biosmem_free_usable_reserved ks ke bst (s + n * PAGE_SIZE)
              = true)).
Proof.
  intros H0 He s.
  destruct (free_usable_start_spec ks ke bst start) as (Hle & Hskip & Heq).
  fold s in Hle, Hskip, Heq.
  split; [done |]. split; [done |]. intros Hs.
  destruct (free_usable_end_loop_spec ks ke bst entry_end
              (free_usable_fuel s entry_end) s)
    as (n & Hn & Hcode & Hfree & Hstop);
    [lia | done | unfold free_usable_fuel; lia | by apply free_usable_fuel_spec |].
  exists n. split; [done |]. split; [done |]. split; [| by split].
  destruct (decide (s = start)) as [Heq' | Hne]; [| unfold PAGE_SIZE; lia].
  specialize (Heq Heq'). rewrite <- Heq' in Heq.
  destruct (decide (n = 0)) as [-> | Hn0]; [| unfold PAGE_SIZE; lia].
  rewrite Z.add_0_r in Hstop. specialize (Hstop Hs). congruence.
Qed.

Lemma free_usable_scan_witness :
  let s := biosmem_free_usable_start 0x100000 0x200000 example_release_state
             0x10000 in
  0x10000 ≤ s
  ∧ (∀ a, 0x10000 ≤ a < s →
       biosmem_free_usable_reserved 0x100000 0x200000 example_release_state a
       = true)
  ∧ (s < 0x18000 →
       ∃ n, 0 ≤ n
         ∧ biosmem_free_usable_end 0x100000 0x200000 example_release_state s
             0x18000
           = Ret (s + n * PAGE_SIZE)
         ∧ 0x10000 < s + n * PAGE_SIZE
         ∧ (∀ k, 0 ≤ k < n →
              biosmem_free_usable_reserved 0x100000 0x200000
                example_release_state (s + k * PAGE_SIZE)
              = false
              ∧ s + k * PAGE_SIZE < 0x18000)
         ∧ (s + n * PAGE_SIZE < 0x18000 →
              biosmem_free_usable_reserved 0x100000 0x200000
                example_release_state (s + n * PAGE_SIZE)
              = true)).
Proof.
  apply (free_usable_scan 0x100000 0x200000 example_release_state 0x10000
           0x18000).
  - lia.
  - unfold PAGE_SIZE. lia.
Defined.

(** The page at 0x10000 is neither in the kernel, nor in the heap, nor in
    the available range of the segment: the scan stops after it, at the
    available range, and resumes at the end of that range. *)
Lemma example_free_usable_scan :
  biosmem_free_usable_start 0x100000 0x200000 example_release_state 0x10000
  = 0x10000
  ∧ biosmem_free_usable_end 0x100000 0x200000 example_release_state 0x10000
      0x18000 = Ret 0x11000
  ∧ biosmem_free_usable_start 0x100000 0x200000 example_release_state 0x11000
    = 0x18000.
Proof. by vm_compute. Qed.

(** ** Releasing the usable memory: the pages *)

Lemma released_refl (vst : VmPage.vm_page_state) (P : Z → Prop) :
  (∀ a, ¬ P a) → released vst vst P.
Proof.
  intros HP. split; [done |]. split; [done |].
  intros i seg Hseg. exists seg. split_and!; try done.
  intros k. split; [by left |]. intros [H | (_ & _ & H)]; [done |].
  by apply HP in H.
Qed.

Lemma released_trans (vst vst1 vst2 : VmPage.vm_page_state)
    (P Q : Z → Prop) :
  released vst vst1 P → released vst1 vst2 Q →
  released vst vst2 (λ a, P a ∨ Q a).
Proof.
  intros (Hs1 & Hl1 & H1) (Hs2 & Hl2 & H2).
  split; [congruence |]. split; [congruence |].
  intros i seg Hseg.
  destruct (H1 i seg Hseg) as (seg1 & Hseg1 & Hst1 & He1 & Hlen1 & Hpf1).
  destruct (H2 i seg1 Hseg1) as (seg2 & Hseg2 & Hst2 & He2 & Hlen2 & Hpf2).
  exists seg2. split_and!; try congruence.
  intros k. rewrite Hpf2, Hpf1, Hlen1, Hs1.
  unfold VmPage.page_pa. rewrite Hst1. tauto.
Qed.

Lemma released_weaken (ncpus : nat) (vst vst' : VmPage.vm_page_state)
    (helds : list (list nat)) (P Q : Z → Prop) :
  VmPage.state_inv ncpus vst helds →
  (∀ a, 0 ≤ a → a mod PAGE_SIZE = 0 → P a ↔ Q a) →
  released vst vst' P → released vst vst' Q.
Proof.
  intros (Hsize & Hlen & Hsegs) HPQ (Hs & Hl & H).
  split; [done |]. split; [done |].
  intros i seg Hseg.
  destruct (H i seg Hseg) as (seg' & Hseg' & Hst & He & Hlen' & Hpf).
  exists seg'. split_and!; try done.
  intros k. rewrite Hpf.
  assert (Hal : Z.of_nat i < VmPage.vm_page_segs_size vst →
                P (VmPage.page_pa seg k) ↔ Q (VmPage.page_pa seg k)).
  { intros Hi.
    destruct (lookup_lt_is_Some_2 helds i ltac:(lia)) as [held Hheld].
    destruct (Hsegs _ _ Hheld) as (seg0 & Hseg0 & [Hwf _] & _).
    assert (seg0 = seg) as -> by congruence.
    destruct (VmPage.wf_start _ _ Hwf) as [Hs0 Hsa].
    apply HPQ; unfold VmPage.page_pa, PAGE_SIZE in *; [lia |].
    rewrite Z.add_mod, Z_mod_mult, Hsa by lia. done. }
  tauto.
Qed.

Lemma released_disjoint (vst vst' : VmPage.vm_page_state) (P : Z → Prop) :
  released vst vst' P → VmPage.segs_disjoint vst →
  VmPage.segs_disjoint vst'.
Proof.
  intros (Hs & Hl & H) Hdis i j seg1 seg2 Hij Hj Hseg1 Hseg2.
  destruct (lookup_lt_is_Some_2 (VmPage.vm_page_segs vst) i) as [s1 Hs1].
  { rewrite <- Hl. by eapply lookup_lt_Some. }
  destruct (lookup_lt_is_Some_2 (VmPage.vm_page_segs vst) j) as [s2 Hs2].
  { rewrite <- Hl. by eapply lookup_lt_Some. }
  destruct (H i s1 Hs1) as (seg1' & Hseg1' & Hst1 & He1 & _).
  destruct (H j s2 Hs2) as (seg2' & Hseg2' & Hst2 & He2 & _).
  assert (seg1' = seg1) as -> by congruence.
  assert (seg2' = seg2) as -> by congruence.
  rewrite Hst1, He1, Hst2, He2.
  apply (Hdis i j); try done. lia.
Qed.

(** The bounds of a page of a loaded segment. *)
Lemma page_pa_bounds (ncpus : nat) (vst : VmPage.vm_page_state)
    (helds : list (list nat)) (i k : nat) (seg : VmPage.vm_page_seg) :
  VmPage.state_inv ncpus vst helds →
  Z.of_nat i < VmPage.vm_page_segs_size vst →
  VmPage.vm_page_segs vst !! i = Some seg →
  (k < List.length (VmPage.pages seg))%nat →
  VmPage.seg_start seg ≤ VmPage.page_pa seg k < VmPage.seg_end seg.
Proof.
  intros (Hsize & Hlen & Hsegs) Hi Hseg Hk.
  destruct (lookup_lt_is_Some_2 helds i ltac:(lia)) as [held Hheld].
  destruct (Hsegs _ _ Hheld) as (seg0 & Hseg0 & [Hwf _] & _).
  assert (seg0 = seg) as -> by congruence.
  destruct (VmPage.wf_end _ _ Hwf) as [He _]. rewrite He.
  unfold VmPage.page_pa, PAGE_SIZE. lia.
Qed.

(** One round of the loop of [biosmem_free_usable_range]. *)
Lemma release_page (ncpus max_segs : nat) (vst : VmPage.vm_page_state)
    (helds : list (list nat)) (a : Z) :
  VmPage.state_inv ncpus vst helds →
  VmPage.segs_disjoint vst →
  VmPage.vm_page_segs_size vst ≤ Z.of_nat max_segs →
  page_unmanaged vst helds a →
  ∃ page vst' helds',
    VmPage.vm_page_lookup_pa vst a = Some page
    ∧ VmPage.vm_page_manage max_segs vst page = Ret vst'
    ∧ VmPage.state_inv ncpus vst' helds'
    ∧ released vst vst' (λ b, b = a)
    ∧ ∀ b, b ≠ a → page_unmanaged vst helds b → page_unmanaged vst' helds' b.
Proof.
  intros Hinv Hdis Hmax
    (i & seg & k & pg & held & Hi & Hseg & Hpg & Hpa & Hty & Hidx & Hheld
     & Hin).
  pose proof (lookup_lt_Some _ _ _ Hpg) as Hk.
  pose proof (lookup_lt_Some _ _ _ Hseg) as Hilen.
  pose proof (lookup_lt_Some _ _ _ Hheld) as Hihelds.
  destruct (manage_detail ncpus max_segs vst helds i k held seg pg Hinv Hheld
              Hin Hseg ltac:(lia) Hpg Hty Hidx)
    as (seg' & held' & Hcode & Hperm & Hinv' & Hnr & Hs & He & Hl & Hpf & Hfr).
  exists (i, k),
    (VmPage.set_vm_page_segs vst (<[i := seg']> (VmPage.vm_page_segs vst))),
    (<[i := held']> helds).
  split_and!.
  - rewrite <- Hpa. by eapply lookup_pa_page.
  - exact Hcode.
  - exact Hinv'.
  - split; [done |]. split; [by simpl; rewrite length_insert |].
    intros j segj Hsegj. simpl VmPage.vm_page_segs.
    destruct (decide (j = i)) as [-> | Hne].
    + assert (segj = seg) as -> by congruence.
      exists seg'. rewrite list_lookup_insert_eq by done.
      split_and!; try done.
      intros k'. rewrite Hpf. split.
      * intros [H | ->]; [by left |]. right. by split_and!.
      * intros [H | (_ & _ & H)]; [by left |]. right.
        rewrite <- Hpa in H. unfold VmPage.page_pa, PAGE_SIZE in H. lia.
    + exists segj. rewrite list_lookup_insert_ne by done.
      split_and!; try done.
      intros k'. split; [by left |].
      intros [H | (Hk' & Hj & H)]; [done |]. exfalso.
      pose proof (page_pa_bounds _ _ _ _ _ _ Hinv Hj Hsegj Hk') as Hb1.
      pose proof (page_pa_bounds _ _ _ _ _ _ Hinv Hi Hseg Hk) as Hb2.
      rewrite H in Hb1. rewrite Hpa in Hb2.
      destruct (Nat.lt_trichotomy j i) as [Hlt | [-> | Hgt]]; [| done |].
      * destruct (Hdis j i segj seg Hlt Hi Hsegj Hseg); lia.
      * destruct (Hdis i j seg segj Hgt Hj Hseg Hsegj); lia.
  - intros b Hb
      (i2 & seg2 & k2 & pg2 & held2 & Hi2 & Hseg2 & Hpg2 & Hpa2 & Hty2 & Hidx2
       & Hheld2 & Hin2).
    destruct (decide (i2 = i)) as [-> | Hne].
    + assert (seg2 = seg) as -> by congruence.
      assert (held2 = held) as -> by congruence.
      assert (Hk2 : k2 ≠ k) by (intros ->; congruence).
      specialize (Hfr k2 Hk2). rewrite Hpg2 in Hfr.
      destruct (VmPage.pages seg' !! k2) as [pg2' |] eqn:Hpg2'; [| done].
      simpl in Hfr. injection Hfr as Hty2' Hidx2'.
      exists i, seg', k2, pg2', held'. split_and!; try done.
      * simpl. by apply list_lookup_insert_eq.
      * unfold VmPage.page_pa in *. by rewrite Hs.
      * congruence.
      * congruence.
      * by apply list_lookup_insert_eq.
      * rewrite Hperm in Hin2. apply elem_of_cons in Hin2 as [-> | H];
          [done | exact H].
    + exists i2, seg2, k2, pg2, held2. split_and!; try done.
      * simpl. by rewrite list_lookup_insert_ne.
      * by rewrite list_lookup_insert_ne.
Qed.

Lemma range_loop_spec (ncpus max_segs : nat) (end_ : Z) (fuel : nat)
    (vst : VmPage.vm_page_state) (helds : list (list nat)) (start : Z) :
  VmPage.state_inv ncpus vst helds →
  VmPage.segs_disjoint vst →
  VmPage.vm_page_segs_size vst ≤ Z.of_nat max_segs →
  0 ≤ start → start mod PAGE_SIZE = 0 → end_ ≤ 2 ^ 64 - PAGE_SIZE →
  (1 ≤ fuel)%nat → end_ - start ≤ (Z.of_nat fuel - 1) * PAGE_SIZE →
  (∀ a, start ≤ a < end_ → a mod PAGE_SIZE = 0 → page_unmanaged vst helds a) →
  ∃ vst' helds',
    free_usable_range_loop max_segs fuel vst start end_ = Ret vst'
    ∧ VmPage.state_inv ncpus vst' helds'
    ∧ released vst vst' (λ a, start ≤ a < end_)
    ∧ ∀ a, ¬ start ≤ a < end_ → page_unmanaged vst helds a →
           page_unmanaged vst' helds' a.
Proof.
  revert vst helds start.
  induction fuel as [| fuel IH];
    intros vst helds start Hinv Hdis Hmax H0 Hal He H1 Hfuel Hun; [lia |].
  simpl. destruct (Z.ltb_spec start end_) as [Hlt | Hge].
  - destruct (release_page ncpus max_segs vst helds start Hinv Hdis Hmax)
      as (page & vst1 & helds1 & Hlook & Hcode & Hinv1 & Hrel1 & Hfr1).
    { apply Hun; [lia | done]. }
    rewrite Hlook. ret. rewrite Hcode. ret.
    unfold PAGE_SIZE in *. rewrite u64_small by lia.
    pose proof Hrel1 as (Hsz1 & _ & _).
    destruct (IH vst1 helds1 (start + 4096)) as
      (vst' & helds' & Hcode' & Hinv' & Hrel' & Hfr'); try lia.
    { done. }
    { by eapply released_disjoint. }
    { rewrite <- Z.add_mod_idemp_l, Hal by lia. done. }
    { intros a Ha Haa. apply Hfr1; [lia |]. apply Hun; [lia | done]. }
    exists vst', helds'. split_and!; try done.
    + apply (released_weaken ncpus vst vst' helds
               (λ a, a = start ∨ start + 4096 ≤ a < end_)); [done | |].
      * intros a Ha Haa. unfold PAGE_SIZE in Haa. split; [lia |].
        intros Hin. destruct (decide (a = start)); [by left |]. right.
        pose proof (Z.div_mod a 4096 ltac:(lia)) as Hda.
        pose proof (Z.div_mod start 4096 ltac:(lia)) as Hds.
        rewrite Haa in Hda. rewrite Hal in Hds. lia.
      * by eapply released_trans.
    + intros a Ha Hua. apply Hfr'; [lia |]. apply Hfr1; [lia | done].
  - exists vst, helds. split_and!; try done.
    apply released_refl. lia.
Qed.

(** X21: [biosmem_free_usable_range], for a range that starts at a page
    boundary and whose pages are all reserved pages of loaded segments that
    nobody holds, returns with each page of the range given to the buddy
    system: the pages that are free afterwards are those that were free and
    those of the range, the invariants of the allocator hold, and the
    pages outside the range are as before. *)
Theorem free_usable_range_releases (ncpus max_segs : nat)
    (vst : VmPage.vm_page_state) (helds : list (list nat))
    (start end_ : Z) :
  VmPage.state_inv ncpus vst helds →
  VmPage.segs_disjoint vst →
  VmPage.vm_page_segs_size vst ≤ Z.of_nat max_segs →
  0 ≤ start → start mod PAGE_SIZE = 0 → end_ ≤ 2 ^ 64 - PAGE_SIZE →
  (∀ a, start ≤ a < end_ → a mod PAGE_SIZE = 0 → page_unmanaged vst helds a) →
  ∃ vst' helds',
    biosmem_free_usable_range max_segs vst start end_ = Ret vst'
    ∧ VmPage.state_inv ncpus vst' helds'
    ∧ released vst vst' (λ a, start ≤ a < end_)
    ∧ ∀ a, ¬ start ≤ a < end_ → page_unmanaged vst helds a →
           page_unmanaged vst' helds' a.
Proof.
  intros Hinv Hdis Hmax H0 Hal He Hun.
  apply (range_loop_spec ncpus max_segs end_ (free_usable_fuel start end_)
           vst helds start); try done.
  - unfold free_usable_fuel. lia.
  - apply free_usable_fuel_spec.
Qed.

Lemma example_segs_disjoint : VmPage.segs_disjoint VmPage.example_state.
Proof.
  intros i j seg seg' Hij Hj. change (Z.of_nat j < 1) in Hj. lia.
Qed.

Lemma example_unmanaged (a : Z) :
  0x10000 ≤ a < 0x11000 → a mod PAGE_SIZE = 0 →
  page_unmanaged VmPage.example_state [[0%nat]] a.
Proof.
  unfold PAGE_SIZE. intros Ha Haa.
  pose proof (Z.div_mod a 4096 ltac:(lia)) as Hd. rewrite Haa in Hd.
  assert (a = 0x10000) as -> by lia.
  assert (Hseg : ∃ seg,
            VmPage.vm_page_segs VmPage.example_state !! 0%nat = Some seg
            ∧ VmPage.pages seg !! 0%nat
              = Some (VmPage.Page VmPage.VM_PT_RESERVED 0
                        VmPage.VM_PAGE_ORDER_UNLISTED 0x10000)
            ∧ VmPage.seg_start seg = 0x10000).
  { vm_compute. eexists. split_and!; reflexivity. }
  destruct Hseg as (seg & Hseg & Hpg & Hs).
  exists 0%nat, seg, 0%nat,
    (VmPage.Page VmPage.VM_PT_RESERVED 0 VmPage.VM_PAGE_ORDER_UNLISTED
       0x10000), [0%nat].
  split_and!; try done.
  - unfold VmPage.page_pa. rewrite Hs. done.
  - by apply list_elem_of_singleton.
Qed.

Lemma free_usable_range_releases_witness :
  ∃ vst' helds',
    biosmem_free_usable_range 1 VmPage.example_state 0x10000 0x11000
    = Ret vst'
    ∧ VmPage.state_inv 1 vst' helds'
    ∧ released VmPage.example_state vst' (λ a, 0x10000 ≤ a < 0x11000)
    ∧ ∀ a, ¬ 0x10000 ≤ a < 0x11000 →
           page_unmanaged VmPage.example_state [[0%nat]] a →
           page_unmanaged vst' helds' a.
Proof.
  apply (free_usable_range_releases 1 1 VmPage.example_state [[0%nat]]
           0x10000 0x11000).
  - exact example_state_inv.
  - exact example_segs_disjoint.
  - by vm_compute.
  - lia.
  - reflexivity.
  - unfold PAGE_SIZE. lia.
  - exact example_unmanaged.
Defined.

(** Releasing the reserved page of the example: all eight pages of the
    segment are free afterwards. *)
Lemma example_free_usable_range :
  (vst ← biosmem_free_usable_range 1 VmPage.example_state 0x10000 0x11000;
   Ret (VmPage.nr_free_pages <$> VmPage.vm_page_segs vst))
  = Ret [8].
Proof. by vm_compute. Qed.

(** ** Releasing the usable memory: the entries of the map *)

Lemma unmanaged_aligned (ncpus : nat) (vst : VmPage.vm_page_state)
    (helds : list (list nat)) (a : Z) :
  VmPage.state_inv ncpus vst helds → page_unmanaged vst helds a →
  0 ≤ a ∧ a mod PAGE_SIZE = 0.
Proof.
  intros (Hsize & Hlen & Hsegs)
    (i & seg & k & pg & held & Hi & Hseg & Hpg & Hpa & _ & _ & Hheld & _).
  destruct (Hsegs _ _ Hheld) as (seg0 & Hseg0 & [Hwf _] & _).
  assert (seg0 = seg) as -> by congruence.
  destruct (VmPage.wf_start _ _ Hwf) as [Hs0 Hsa].
  rewrite <- Hpa. unfold VmPage.page_pa, PAGE_SIZE in *. split; [lia |].
  rewrite Z.add_mod, Z_mod_mult, Hsa by lia. done.
Qed.

Lemma aligned_multiple (a : Z) :
  a mod PAGE_SIZE = 0 → a = 4096 * (a / 4096).
Proof.
  unfold PAGE_SIZE. intros H. pose proof (Z.div_mod a 4096 ltac:(lia)). lia.
Qed.

Lemma update_start_aligned (start res_start res_end : Z) :
  start mod PAGE_SIZE = 0 → res_end mod PAGE_SIZE = 0 →
  biosmem_free_usable_update_start start res_start res_end mod PAGE_SIZE = 0.
Proof.
  intros Hs He.
  by destruct (update_start_spec start res_start res_end) as [[-> _] | [-> _]].
Qed.

Lemma start_fold_aligned (segs : list biosmem_segment) (start : Z) :
  Forall (λ seg, seg_avail_end seg mod PAGE_SIZE = 0) segs →
  start mod PAGE_SIZE = 0 →
  fold_left
    (λ start seg,
       biosmem_free_usable_update_start start (seg_avail_start seg)
         (seg_avail_end seg)) segs start mod PAGE_SIZE = 0.
Proof.
  intros Hsegs. revert start.
  induction Hsegs as [| seg segs Hseg _ IH]; intros start Hs; [done |].
  simpl. apply IH. by apply update_start_aligned.
Qed.

Section Entry.

Variables (ncpus max_segs : nat) (ks ke : Z) (bst : biosmem_state).
Variable entry_end : Z.

Hypothesis Hke : ke mod PAGE_SIZE = 0.
Hypothesis Hheap : biosmem_heap_end bst mod PAGE_SIZE = 0.
Hypothesis Hsegs :
  Forall (λ seg, seg_avail_end seg mod PAGE_SIZE = 0) (biosmem_segments bst).
Hypothesis Hee : entry_end mod PAGE_SIZE = 0.
Hypothesis Hee64 : entry_end ≤ 2 ^ 64 - PAGE_SIZE.

Lemma free_usable_start_aligned (start : Z) :
  start mod PAGE_SIZE = 0 →
  biosmem_free_usable_start ks ke bst start mod PAGE_SIZE = 0.
Proof.
  intros Hs. unfold biosmem_free_usable_start. cbv zeta.
  apply start_fold_aligned; [done |].
  by do 2 (apply update_start_aligned; [| done]).
Qed.

(** The loop of [biosmem_free_usable_entry], when the reserved ranges end
    at page boundaries. *)
Lemma entry_loop_spec (fuel : nat) (vst : VmPage.vm_page_state)
    (helds : list (list nat)) (start : Z) :
  VmPage.state_inv ncpus vst helds →
  VmPage.segs_disjoint vst →
  VmPage.vm_page_segs_size vst ≤ Z.of_nat max_segs →
  0 ≤ start → start mod PAGE_SIZE = 0 →
  (1 ≤ fuel)%nat → entry_end - start ≤ (Z.of_nat fuel - 1) * PAGE_SIZE →
  (∀ a, start ≤ a < entry_end → a mod PAGE_SIZE = 0 →
        biosmem_free_usable_reserved ks ke bst a = false →
        page_unmanaged vst helds a) →
  ∃ vst' helds',
    free_usable_entry_loop ks ke max_segs fuel bst vst start entry_end
    = Ret vst'
    ∧ VmPage.state_inv ncpus vst' helds'
    ∧ released vst vst'
        (λ a, start ≤ a < entry_end
              ∧ biosmem_free_usable_reserved ks ke bst a = false)
    ∧ ∀ a, ¬ (start ≤ a < entry_end
              ∧ biosmem_free_usable_reserved ks ke bst a = false) →
           page_unmanaged vst helds a → page_unmanaged vst' helds' a.
Proof.
  revert vst helds start.
  induction fuel as [| fuel IH];
    intros vst helds start Hinv Hdis Hmax H0 Hal H1 Hfuel Hun; [lia |].
  cbn [free_usable_entry_loop]. cbv zeta.
  destruct (free_usable_start_spec ks ke bst start) as (Hle & Hskip & Heq).
  pose proof (free_usable_start_aligned start Hal) as Hsal.
  set (s := biosmem_free_usable_start ks ke bst start) in *.
  destruct (Z.geb_spec s entry_end) as [Hge | Hlt].
  { exists vst, helds. split_and!; try done.
    apply released_refl. intros a [Ha Hres].
    rewrite Hskip in Hres by lia. done. }
  destruct (free_usable_end_loop_spec ks ke bst entry_end
              (free_usable_fuel s entry_end) s)
    as (n & Hn & Hcode & Hfree & Hstop);
    [lia | done | unfold free_usable_fuel; lia | apply free_usable_fuel_spec |].
  unfold biosmem_free_usable_end. rewrite Hcode. ret.
  pose proof (aligned_multiple _ Hal) as Hqstart.
  pose proof (aligned_multiple _ Hsal) as Hqs.
  pose proof (aligned_multiple _ Hee) as Hqe.
  unfold PAGE_SIZE in *.
  set (e := s + n * 4096) in *.
  assert (He_le : e ≤ entry_end).
  { destruct (decide (n = 0)) as [-> | Hn0]; [unfold e; lia |].
    destruct (Hfree (n - 1) ltac:(lia)) as [_ Hlast]. unfold e. lia. }
  assert (Hprog : start + 4096 ≤ e).
  { destruct (decide (s = start)) as [Hs | Hs]; [| unfold e; lia].
    specialize (Heq Hs).
    destruct (decide (n = 0)) as [-> | Hn0]; [| unfold e; lia].
    unfold e in Hstop. rewrite Z.add_0_r in Hstop.
    specialize (Hstop Hlt). rewrite Hs in Hstop. congruence. }
  assert (Hin : ∀ a, s ≤ a < e → a mod 4096 = 0 →
            start ≤ a < entry_end
            ∧ biosmem_free_usable_reserved ks ke bst a = false).
  { intros a Ha Haa. pose proof (aligned_multiple _ Haa) as Hqa.
    destruct (Hfree (a / 4096 - s / 4096) ltac:(unfold e in Ha; lia))
      as [Hres Hlast].
    replace (s + (a / 4096 - s / 4096) * 4096) with a in * by lia.
    split; [lia | done]. }
  destruct (range_loop_spec ncpus max_segs e (free_usable_fuel s e) vst
              helds s Hinv Hdis Hmax)
    as (vst1 & helds1 & Hcode1 & Hinv1 & Hrel1 & Hfr1);
    [lia | done | unfold PAGE_SIZE; lia | unfold free_usable_fuel; lia
     | apply free_usable_fuel_spec | |].
  { intros a Ha Haa. destruct (Hin a Ha Haa) as [Ha' Hres].
    by apply Hun. }
  unfold biosmem_free_usable_range. rewrite Hcode1. ret.
  pose proof Hrel1 as (Hsz1 & _ & _).
  destruct (IH vst1 helds1 e) as (vst' & helds' & Hcode' & Hinv' & Hrel' & Hfr');
    try lia.
  { done. }
  { by eapply released_disjoint. }
  { unfold e. rewrite Z.add_mod, Hsal, Z_mod_mult by lia. done. }
  { intros a Ha Haa Hres. apply Hfr1; [lia |]. apply Hun; [lia | done | done]. }
  exists vst', helds'. split_and!; try done.
  - apply (released_weaken ncpus vst vst' helds
             (λ a, s ≤ a < e
                   ∨ (e ≤ a < entry_end
                      ∧ biosmem_free_usable_reserved ks ke bst a = false)));
      [done | | by eapply released_trans].
    intros a Ha Haa. split.
    + intros [Hr | [Hr Hres]]; [by apply Hin | split; [lia | done]].
    + intros [Hr Hres].
      assert (s ≤ a).
      { destruct (decide (s ≤ a)); [done |].
        rewrite Hskip in Hres by lia. done. }
      destruct (decide (a < e)); [left; lia | right; split; [lia | done]].
  - intros a Hna Hua.
    destruct (unmanaged_aligned _ _ _ _ Hinv Hua) as [Ha0 Haa].
    apply Hfr'; [intros [Hr Hres]; apply Hna; split; [lia | done] |].
    apply Hfr1; [| done].
    intros Hr. apply Hna. by apply Hin.
Qed.

End Entry.

(** X22: [biosmem_free_usable_entry], when the reserved ranges (the kernel,
    the heap, the available ranges of the segments) end at page boundaries
    and every page of the entry that is not reserved is a reserved page of
    a loaded segment that nobody holds, returns with exactly these pages
    given to the buddy system: the free pages afterwards are the former
    ones and the pages of the entry whose address is not reserved; the
    invariants of the allocator hold. *)
Theorem free_usable_entry_releases (ncpus max_segs : nat) (ks ke : Z)
    (bst : biosmem_state) (vst : VmPage.vm_page_state)
    (helds : list (list nat)) (start end_ : Z) :
  ke mod PAGE_SIZE = 0 →
  biosmem_heap_end bst mod PAGE_SIZE = 0 →
  Forall (λ seg, seg_avail_end seg mod PAGE_SIZE = 0) (biosmem_segments bst) →
  VmPage.state_inv ncpus vst helds →
  VmPage.segs_disjoint vst →
  VmPage.vm_page_segs_size vst ≤ Z.of_nat max_segs →
  0 ≤ start → start mod PAGE_SIZE = 0 →
  end_ mod PAGE_SIZE = 0 → end_ ≤ 2 ^ 64 - PAGE_SIZE →
  (∀ a, start ≤ a < end_ → a mod PAGE_SIZE = 0 →
        biosmem_free_usable_reserved ks ke bst a = false →
        page_unmanaged vst helds a) →
  ∃ vst' helds',
    biosmem_free_usable_entry ks ke max_segs bst vst start end_ = Ret vst'
    ∧ VmPage.state_inv ncpus vst' helds'
    ∧ released vst vst'
        (λ a, start ≤ a < end_
              ∧ biosmem_free_usable_reserved ks ke bst a = false).
Proof.
  intros Hke Hheap Hsegs Hinv Hdis Hmax H0 Hal Hee Hee64 Hun.
  destruct (entry_loop_spec ncpus max_segs ks ke bst end_ Hke Hheap Hsegs Hee
              Hee64
              (free_usable_fuel start end_
               + List.length (biosmem_segments bst) + 3)
              vst helds start Hinv Hdis Hmax H0 Hal)
    as (vst' & helds' & Hcode & Hinv' & Hrel & _); [lia | | done |].
  { pose proof (free_usable_fuel_spec start end_). unfold PAGE_SIZE in *.
    lia. }
  by exists vst', helds'.
Qed.

Lemma example_reserved (a : Z) :
  0x11000 ≤ a < 0x18000 →
  biosmem_free_usable_reserved 0x100000 0x200000 example_release_state a
  = true.
Proof.
  intros Ha. apply reserved_iff. right. right.
  exists (Segment 0x10000 0x18000 0x11000 0x18000). split; [| simpl; lia].
  by apply list_elem_of_singleton.
Qed.

Lemma example_entry_unmanaged (a : Z) :
  0x10000 ≤ a < 0x18000 → a mod PAGE_SIZE = 0 →
  biosmem_free_usable_reserved 0x100000 0x200000 example_release_state a
  = false →
  page_unmanaged VmPage.example_state [[0%nat]] a.
Proof.
  intros Ha Haa Hres. apply example_unmanaged; [| done].
  destruct (decide (a < 0x11000)); [lia |].
  rewrite example_reserved in Hres by lia. done.
Qed.

Lemma free_usable_entry_releases_witness :
  ∃ vst' helds',
    biosmem_free_usable_entry 0x100000 0x200000 1 example_release_state
      VmPage.example_state 0x10000 0x18000 = Ret vst'
    ∧ VmPage.state_inv 1 vst' helds'
    ∧ released VmPage.example_state vst'
        (λ a, 0x10000 ≤ a < 0x18000
              ∧ biosmem_free_usable_reserved 0x100000 0x200000
                  example_release_state a = false).
Proof.
  apply (free_usable_entry_releases 1 1 0x100000 0x200000
           example_release_state VmPage.example_state [[0%nat]]
           0x10000 0x18000).
  - reflexivity.
  - reflexivity.
  - repeat constructor.
  - exact example_state_inv.
  - exact example_segs_disjoint.
  - by vm_compute.
  - lia.
  - reflexivity.
  - reflexivity.
  - unfold PAGE_SIZE. lia.
  - exact example_entry_unmanaged.
Defined.

(** ** Releasing the usable memory: the whole map *)

Section Usable.

Variables (ncpus max_segs : nat) (ks ke BASE LIMIT : Z) (bst : biosmem_state).

Hypothesis Hke : ke mod PAGE_SIZE = 0.
Hypothesis Hheap : biosmem_heap_end bst mod PAGE_SIZE = 0.
Hypothesis Hsegs :
  Forall (λ seg, seg_avail_end seg mod PAGE_SIZE = 0) (biosmem_segments bst).
Hypothesis HB0 : 0 ≤ BASE.
Hypothesis HBal : BASE mod PAGE_SIZE = 0.

Lemma free_usable_loop_spec (m : biosmem_map_t) (vst : VmPage.vm_page_state)
    (helds : list (list nat)) :
  map_canonical m = true →
  Forall (λ e, 0 ≤ base_addr e ∧ range_end e ≤ 2 ^ 64 - PAGE_SIZE) m →
  VmPage.state_inv ncpus vst helds →
  VmPage.segs_disjoint vst →
  VmPage.vm_page_segs_size vst ≤ Z.of_nat max_segs →
  (∀ a, a mod PAGE_SIZE = 0 → free_usable_address ks ke BASE LIMIT bst m a →
        page_unmanaged vst helds a) →
  ∃ vst' helds',
    free_usable_loop ks ke BASE LIMIT max_segs m bst vst = Ret vst'
    ∧ VmPage.state_inv ncpus vst' helds'
    ∧ released vst vst' (free_usable_address ks ke BASE LIMIT bst m).
Proof.
  revert vst helds.
  induction m as [| e m IH]; intros vst helds Hm Hb Hinv Hdis Hmax Hun.
  { exists vst, helds. split_and!; try done.
    apply released_refl. intros a (_ & e & He & _). by inversion He. }
  apply canonical_cons in Hm as (Hl & He64 & Hall & Hm).
  apply Forall_cons in Hb as [[Hb0 Hbe] Hb].
  destruct (canonical_sorted m Hm) as [Hok _].
  rewrite Forall_forall in Hall, Hb, Hok.
  assert (Hend : entry_end e = range_end e).
  { unfold entry_end, range_end in *. apply u64_small. lia. }
  unfold range_end in *.
  assert (Hlater : ∀ e', e' ∈ m →
            base_addr e + length e ≤ base_addr e'
            ∧ vm_page_round (base_addr e) ≤ vm_page_round (base_addr e')).
  { intros e' He'. specialize (Hall _ He'). split; [done |].
    destruct (Hb _ He') as [? ?]. destruct (Hok _ He') as [? ?].
    apply round_page_mono; lia. }
  destruct (round_page_props (base_addr e) ltac:(lia)) as (Hr1 & Hr2 & _).
  destruct (trunc_page_props (base_addr e + length e) ltac:(lia))
    as (Ht1 & Ht2 & _).
  cbn [free_usable_loop]. cbv zeta.
  destruct (Z.eqb_spec (type e) BIOSMEM_TYPE_AVAILABLE) as [Hty | Hty];
    simpl negb; cbv iota.
  2: { destruct (IH vst helds Hm) as (vst' & helds' & Hcode & Hinv' & Hrel);
         try done.
       { by apply Forall_forall. }
       { intros a Haa (Hres & e' & He' & H). apply Hun; [done |].
         split; [done |]. exists e'. split; [by right | done]. }
       exists vst', helds'. split_and!; try done.
       apply (released_weaken ncpus vst vst' helds
                (free_usable_address ks ke BASE LIMIT bst m)); try done.
       intros a _ _. split.
       - intros (Hres & e' & He' & H). split; [done |].
         exists e'. split; [by right | done].
       - intros (Hres & e' & He' & Hty' & H). split; [done |].
         apply elem_of_cons in He' as [-> | He']; [done |].
         by exists e'. }
  destruct (Z.geb_spec (vm_page_round (base_addr e)) LIMIT) as [Hge | Hlt].
  { exists vst, helds. split_and!; try done.
    apply released_refl. intros a (_ & e' & He' & _ & Hlim & _).
    apply elem_of_cons in He' as [-> | He']; [lia |].
    destruct (Hlater _ He'). lia. }
  set (start := if vm_page_round (base_addr e) <? BASE then BASE
                else vm_page_round (base_addr e)).
  assert (Hstart : start = Z.max BASE (vm_page_round (base_addr e))).
  { unfold start. destruct (Z.ltb_spec (vm_page_round (base_addr e)) BASE);
      lia. }
  rewrite Hend. unfold biosmem_free_usable_entry.
  set (end_ := vm_page_trunc (base_addr e + length e)) in *.
  set (P := λ a, start ≤ a < end_
                 ∧ biosmem_free_usable_reserved ks ke bst a = false).
  assert (HP : ∀ a, P a → free_usable_address ks ke BASE LIMIT bst (e :: m) a).
  { intros a [Ha Hres]. split; [done |]. exists e.
    split; [by left |]. rewrite Hend. fold end_. split_and!; try done; lia. }
  destruct (entry_loop_spec ncpus max_segs ks ke bst end_ Hke Hheap Hsegs Ht2
              ltac:(lia)
              (free_usable_fuel start end_
               + List.length (biosmem_segments bst) + 3)
              vst helds start Hinv Hdis Hmax)
    as (vst1 & helds1 & Hcode1 & Hinv1 & Hrel1 & Hfr1).
  { lia. }
  { rewrite Hstart. destruct (Z.max_spec BASE (vm_page_round (base_addr e)))
      as [[_ ->] | [_ ->]]; done. }
  { lia. }
  { pose proof (free_usable_fuel_spec start end_). unfold PAGE_SIZE in *.
    lia. }
  { intros a Ha Haa Hres. apply Hun; [done |]. by apply HP. }
  rewrite Hcode1. ret.
  pose proof Hrel1 as (Hsz1 & _ & _).
  destruct (IH vst1 helds1 Hm) as (vst' & helds' & Hcode & Hinv' & Hrel);
    try done.
  { by apply Forall_forall. }
  { by eapply released_disjoint. }
  { lia. }
  { intros a Haa (Hres & e' & He' & Hty' & Hlim & Ha).
    apply Hfr1.
    - intros [Hr _]. destruct (Hlater _ He'). destruct (Hb _ He') as [? ?].
      destruct (Hok _ He') as [? ?].
      destruct (round_page_props (base_addr e') ltac:(lia)) as (? & _).
      lia.
    - apply Hun; [done |]. split; [done |]. exists e'.
      split; [by right | done]. }
  exists vst', helds'. split_and!; try done.
  apply (released_weaken ncpus vst vst' helds
           (λ a, P a ∨ free_usable_address ks ke BASE LIMIT bst m a));
    [done | | by eapply released_trans].
  intros a _ _. split.
  - intros [H | (Hres & e' & He' & H)]; [by apply HP |].
    split; [done |]. exists e'. split; [by right | done].
  - intros (Hres & e' & He' & Hty' & Hlim & Ha).
    apply elem_of_cons in He' as [-> | He'].
    + left. split; [| done]. rewrite Hend in Ha. fold end_ in Ha. lia.
    + right. split; [done |]. by exists e'.
Qed.

End Usable.

(** X23: [biosmem_free_usable], for a canonical map whose entries end below
    the last page of the address space, reserved ranges that end at page
    boundaries and a page-aligned [BIOSMEM_BASE], when every page it is to
    release is a reserved page of a loaded segment that nobody holds:
    the function returns, and the pages that are free afterwards are the
    former ones and the pages of the available entries that start below
    the HIGHMEM limit, from [BIOSMEM_BASE] on, whose address is neither in
    the kernel, nor in the heap, nor in the available range of a segment.
    The invariants of the allocator hold. *)
Theorem free_usable_releases (ncpus max_segs : nat) (ks ke BASE LIMIT : Z)
    (bst : biosmem_state) (vst : VmPage.vm_page_state)
    (helds : list (list nat)) :
  ke mod PAGE_SIZE = 0 →
  biosmem_heap_end bst mod PAGE_SIZE = 0 →
  Forall (λ seg, seg_avail_end seg mod PAGE_SIZE = 0) (biosmem_segments bst) →
  0 ≤ BASE → BASE mod PAGE_SIZE = 0 →
  map_canonical (biosmem_map bst) = true →
  Forall (λ e, 0 ≤ base_addr e ∧ range_end e ≤ 2 ^ 64 - PAGE_SIZE)
         (biosmem_map bst) →
  VmPage.state_inv ncpus vst helds →
  VmPage.segs_disjoint vst →
  VmPage.vm_page_segs_size vst ≤ Z.of_nat max_segs →
  (∀ a, a mod PAGE_SIZE = 0 →
        free_usable_address ks ke BASE LIMIT bst (biosmem_map bst) a →
        page_unmanaged vst helds a) →
  ∃ vst' helds',
    biosmem_free_usable ks ke BASE LIMIT max_segs bst vst = Ret vst'
    ∧ VmPage.state_inv ncpus vst' helds'
    ∧ released vst vst'
        (free_usable_address ks ke BASE LIMIT bst (biosmem_map bst)).
Proof.
  intros Hke Hheap Hsegs HB0 HBal Hm Hb Hinv Hdis Hmax Hun.
  unfold biosmem_free_usable.
  by apply (free_usable_loop_spec ncpus max_segs ks ke BASE LIMIT bst Hke
              Hheap Hsegs HB0 HBal (biosmem_map bst) vst helds).
Qed.

Lemma example_usable_unmanaged (a : Z) :
  a mod PAGE_SIZE = 0 →
  free_usable_address 0x100000 0x200000 0x10000 0x40000000
    example_release_state (biosmem_map example_release_state) a →
  page_unmanaged VmPage.example_state [[0%nat]] a.
Proof.
  intros Haa (Hres & e & He & _ & _ & Ha).
  apply list_elem_of_singleton in He as ->.
  change (0x10000 ≤ a < 0x18000) in Ha.
  by apply example_entry_unmanaged.
Qed.

Lemma free_usable_releases_witness :
  ∃ vst' helds',
    biosmem_free_usable 0x100000 0x200000 0x10000 0x40000000 1
      example_release_state VmPage.example_state = Ret vst'
    ∧ VmPage.state_inv 1 vst' helds'
    ∧ released VmPage.example_state vst'
        (free_usable_address 0x100000 0x200000 0x10000 0x40000000
           example_release_state (biosmem_map example_release_state)).
Proof.
  apply (free_usable_releases 1 1 0x100000 0x200000 0x10000 0x40000000
           example_release_state VmPage.example_state [[0%nat]]).
  - reflexivity.
  - reflexivity.
  - repeat constructor.
  - lia.
  - reflexivity.
  - reflexivity.
  - repeat constructor; simpl; unfold range_end, PAGE_SIZE; simpl; lia.
  - exact example_state_inv.
  - exact example_segs_disjoint.
  - by vm_compute.
  - exact example_usable_unmanaged.
Defined.

(** The map of the example has one available entry, the segment of the
    page allocator; its first page is the only one that was not available
    at boot: after [biosmem_free_usable] all eight pages are free. *)
Lemma example_free_usable :
  (vst ← biosmem_free_usable 0x100000 0x200000 0x10000 0x40000000 1
           example_release_state VmPage.example_state;
   Ret (VmPage.nr_free_pages <$> VmPage.vm_page_segs vst))
  = Ret [8].
Proof. by vm_compute. Qed.

End BootTheory.
